(* ===== verification/_CoqProject ===== *)
-Q . S2P
Prelude.v
PyText.v
Json.v
Errors.v
Config.v
DateTime.v
Models.v
Permissions.v
Services.v
Programs.v
DbFacts.v
Reference.v
RedisFacts.v
Tickets.v
Ids.v
JobQueue.v
QueueSpec.v
Tenants.v
Cache.v
Cursor.v
Users.v
UserMutations.v
CacheSafety.v
Pagination.v
Auth.v
AuthSafety.v
RefreshTokens.v
Http.v
RateLimit.v
QueueSafety.v
Email.v
PasswordReset.v
PasswordResetSafety.v
Idempotency.v
Webhooks.v
WebhookSafety.v
Metrics.v
Logging.v
Shutdown.v
Middleware.v
Storage.v
StorageSafety.v
Health.v
Admin.v
Api.v
Isolation.v
Schemas.v
PublicApi.v
OpenApi.v
Wiring.v
Routing.v
Typing.v
TypeSystem.v
TypedServices.v
TypedRequests.v
TypedRoutes.v
Application.v
Worker.v
TypedWorker.v
WorkerSafety.v
Retention.v
Ddl.v
Migrations.v
MigrationSafety.v
MigrationRuns.v
Downgrades.v
Restore.v
Floats.v
LoadTest.v
