(* ===== verification/Prelude.v ===== *)
(** * A verification development for the FastAPI production foundation

    The program is the backend under [src/]: an API over PostgreSQL, Redis, S3 and
    SMTP ([app/main.py]), a worker that takes jobs from a queue in Redis
    ([app/worker.py]), the migrations of the database ([alembic/]), and a few
    command lines.  Every tenant has users; users log in with tokens, list and
    change users, upload files, reset passwords; webhooks come in signed; an audit
    log records what administrators do.

    ** How the program is modelled

    A function of the program that calls a service is a program of type [prog A]
    ([Services]): a tree of the commands it sends, each answered by a value or an
    exception of the type [exn] of [Errors].  Functions that call nothing are plain
    functions, with [result exn A] where they raise.  [Services] says what the
    commands of Redis, of a SQLAlchemy session, of S3, SMTP, the clock, the random
    sources and the variables of the process do; [Programs] has a weakest
    precondition for [prog], [DbFacts] and [RedisFacts] its rules for sessions and
    keys, [Tickets] a rely-guarantee reading for keys that several processes use.
    [PyText], [Json], [DateTime], [Cursor] and [Floats] are the parts of Python's
    standard library that the program relies on: texts within Latin-1, JSON and its
    parser, UTC times in microseconds, Base64, doubles as exact rationals with
    rounding.  Integers are Python's, so without a width.

    ** The files and the code they model

    - [Config]: [app/core/config.py].  [Errors]: [domain_errors.py],
      [exception_handlers.py].  [Models]: [app/models/].  [Ids]: [ids.py].
    - [Permissions]: [permissions.py], [permission_service.py],
      [tenant_membership_service.py].  [Tenants]: the tenant and audit log services,
      the tenant of a request.
    - [JobQueue], [QueueSafety], [QueueSpec]: [job_queue.py].  [Cache], [CacheSafety]:
      [cache.py].
    - [Users], [UserMutations], [Pagination]: [user_service.py], [routes/users.py];
      [Cursor]: [keyset_pagination.py].
    - [Auth], [AuthSafety], [RefreshTokens]: [security.py], the revocations of
      [redis.py], [auth_service.py], [dependencies/auth.py], [routes/auth.py].
    - [Http], [RateLimit]: [client_ip.py], [dependencies/rate_limit.py].
    - [Email], [PasswordReset], [PasswordResetSafety]: the email services,
      [password_reset_service.py], [password_reset_cleanup.py].
    - [Idempotency], [Webhooks], [WebhookSafety]: [idempotency_service.py],
      [webhook_security.py], [webhook_service.py], [routes/webhooks.py].
    - [Storage], [StorageSafety]: [storage_service.py], the scanner, the validation
      and verification of uploads, [routes/files.py].
    - [Metrics], [Logging], [Shutdown], [Middleware], [Health], [Wiring]:
      [metrics.py], [metrics_server.py], [logging.py], [log_helpers.py],
      [shutdown.py], [middleware.py], [security_headers.py], [runtime.py],
      [health_service.py], and the clients, connections, error tracking and start-up of
      [redis.py], [app/db/], [s3_client.py], [error_tracking.py], [main.py],
      [worker.py].
    - [Admin]: [routes/admin.py], [routes/tenants.py] and the two seed programs.
    - [Api], [PublicApi], [OpenApi], [Routing], [Application]: every route with its
      dependencies in FastAPI's order, [app/api/openapi.py], the routers of [v1.py],
      [legacy.py] and [main.py], and a request from the middleware to its answer.
    - [Schemas]: [app/schemas/] as types, and what FastAPI does with the object a
      route returns.  [Typing], [TypeSystem], [TypedServices], [TypedRequests],
      [TypedRoutes], [TypedWorker]: a type system for programs over the stored data.
    - [Worker], [WorkerSafety], [Retention]: [worker.py], [worker_failed_jobs.py].
    - [Ddl], [Migrations], [MigrationSafety], [MigrationRuns], [Downgrades]:
      the operations of Alembic on PostgreSQL, every version in both directions.
    - [Restore]: [ops/restore_verification.py].  [LoadTest]: [perf/].
    - [Isolation]: the isolation of tenants over the whole API.

    ** What the theorems show

    Safety of the whole API: tenants are isolated whatever fails ([Isolation]);
    every request is answered with what its route documents or an error envelope
    ([Middleware], [Application]); the stored data are well typed at every moment
    ([TypedRoutes], [TypedWorker]); the router takes a request to the one route
    declared for it ([Routing]).  Concurrency: no job is lost by any interleaving
    ([QueueSafety]), a refresh token is exchanged once ([RefreshTokens]), a window of
    a rate limit lets its number of logins through ([PublicApi]), maintenance runs
    once per interval ([WorkerSafety]).  Refinement and functional behaviour: the
    operations of the job queue, one after the other and without failures, serve an
    abstract queue of jobs in their order ([QueueSpec]), the cached listing answers as the database would ([CacheSafety]), following the
    cursors lists every user once ([Pagination]), the constraints of the migrated
    schema are those of the models ([MigrationSafety]).  Crash safety: audit entries
    with their changes ([UserMutations]), files verified before they are handed out
    ([StorageSafety]), password resets ([PasswordResetSafety]), webhooks
    ([WebhookSafety]), migrations ([MigrationRuns], [Downgrades]).  Round trips of
    texts ([JobQueue], [Json]), termination of the loops ([Shutdown],
    [StorageSafety], [WorkerSafety]), bounds and orders of numbers ([LoadTest]).

    ** Fuel

    A loop of Python that is not over a list is a fixpoint with fuel, which returns
    [None] when the fuel was not enough.  The theorems give fuel that is: a round per
    byte and one more for the chunks of a body; a round per entry and one more for
    the loops over a queue; ten rounds per second of grace and one more for the waits
    of a shutdown; one page per user and one more for following cursors;
    the entries at the start and one for each operation for a run of the queue; the JSON
    parser takes the length of the text.  The loop of the worker has no bound of its
    own: it is shown to end in the round that sees the request to stop.

    ** What is assumed

    Code that is not of the repository is an argument, with what is documented of it
    as a class: [ServicesSpec] (the services, with or without failures of any
    command), [CryptoSpec] (python-jose, bcrypt and the hashes), [SqlTextSpec] (the
    order of texts and ILIKE), [Pydantic] ([EmailStr] and the texts of times),
    [FastApi] and [FastApiSpec] (reading the arguments of a request).  [keys_apart]
    says that the keys named in the settings are not among the program's other keys,
    and the delayed set and the lock not among the lists, [in_time] that the clock is before the year 10000.
    [Reference] is an implementation of all services that satisfies the classes; the
    witnesses of the theorems run on it.

    ** Not modelled

    - Texts of the documentation and the routes of the interactive documentation;
      reading the command line and printing; the arguments FastAPI and pydantic read
      from a request, but for the checks of the program's own fields.
    - What happens inside CORS, the host check, the Sentry client, the text and the
      files of the metrics, the HTTP server of the worker's metrics, the TLS dialogue
      of SMTP, [email-validator].
    - Which keys match a pattern: what redis-py's [scan_iter] yields is an argument of
      [delete_cache_pattern] ([Cache]).  The offline mode of [alembic/env.py]; the
      shell scripts and the deployment.
    - Sessions of several requests interleaved in the database: Redis is shared
      between processes command by command, a session of the database runs against
      committed tables that other sessions leave alone while it lasts.
    - Code points above 255, floats in times and counters (microseconds here), the
      limit of 4300 digits of [int], attribute reloads made only for log lines. *)

From Stdlib Require Import ZArith Lia Ascii String.
From stdpp Require Import base tactics option list gmap strings sorting.

Declare Scope py_scope.
Delimit Scope py_scope with py.

(** ** Results: a Python call returns a value or raises. *)

Inductive result (E A : Type) : Type :=
| Ok (a : A)
| Err (e : E).
Arguments Ok {E A} a.
Arguments Err {E A} e.

#[export] Instance result_eq_dec {E A} `{EqDecision E, EqDecision A} :
  EqDecision (result E A).
Proof. solve_decision. Defined.

Definition result_of_option {E A} (e : E) (o : option A) : result E A :=
  match o with Some a => Ok a | None => Err e end.

Definition is_ok {E A} (r : result E A) : bool :=
  match r with Ok _ => true | Err _ => false end.

(** [x or default] on an optional value. *)
Definition opt_default {A} (d : A) (o : option A) : A :=
  match o with Some a => a | None => d end.

(** ** Tactics *)

(** Split every [if] and [match] of the goal, closing the absurd cases. *)
Ltac break_match :=
  match goal with
  | |- context [match ?x with _ => _ end] =>
      lazymatch x with
      | context [match _ with _ => _ end] => fail
      | _ => destruct x eqn:?
      end
  end.
Ltac break_match_in H :=
  match type of H with
  | context [match ?x with _ => _ end] =>
      lazymatch x with
      | context [match _ with _ => _ end] => fail
      | _ => destruct x eqn:?
      end
  end.

(** Turn boolean tests of the code into the propositions they decide. *)
Ltac bool_to_prop :=
  repeat match goal with
  | H : (_ && _)%bool = true |- _ => apply andb_prop in H as [? ?]
  | H : (_ || _)%bool = false |- _ => apply orb_false_elim in H as [? ?]
  | H : negb _ = true |- _ => apply negb_true_iff in H
  | H : negb _ = false |- _ => apply negb_false_iff in H
  | H : Z.eqb _ _ = true |- _ => apply Z.eqb_eq in H
  | H : Z.eqb _ _ = false |- _ => apply Z.eqb_neq in H
  | H : Z.ltb _ _ = true |- _ => apply Z.ltb_lt in H
  | H : Z.ltb _ _ = false |- _ => apply Z.ltb_ge in H
  | H : Z.leb _ _ = true |- _ => apply Z.leb_le in H
  | H : Z.leb _ _ = false |- _ => apply Z.leb_gt in H
  | H : String.eqb _ _ = true |- _ => apply String.eqb_eq in H
  | H : String.eqb _ _ = false |- _ => apply String.eqb_neq in H
  | H : bool_decide _ = true |- _ => apply bool_decide_eq_true in H
  | H : bool_decide _ = false |- _ => apply bool_decide_eq_false in H
  end.

(** ** Lists the components share *)

(** Remove the first occurrence of [x] (Redis [LREM key 1 x], read from the
    head). *)
Fixpoint remove_first {A} `{EqDecision A} (x : A) (l : list A) : list A :=
  match l with
  | [] => []
  | y :: l' => if decide (x = y) then l' else y :: remove_first x l'
  end.

Section lists.
Context {A : Type} `{EqDecision A}.
  Implicit Types (l : list A) (x y : A).

Lemma remove_first_not_in x l : x ∉ l → remove_first x l = l.
Proof.
  induction l as [|y l IH]; cbn; [done|].
  intros Hn. apply not_elem_of_cons in Hn as [Hxy Hl].
  rewrite decide_False by done. by rewrite IH.
Qed.

Lemma remove_first_perm x l : x ∈ l → l ≡ₚ x :: remove_first x l.
Proof.
  induction l as [|y l IH]; cbn; [by intros ?%elem_of_nil|].
  intros Hin. case_decide as Hxy; [by subst|].
  apply elem_of_cons in Hin as [?|Hin]; [done|].
  rewrite (IH Hin) at 1. by constructor.
Qed.

Lemma elem_of_remove_first x y l : y ∈ remove_first x l → y ∈ l.
Proof.
  induction l as [|z l IH]; cbn; [done|].
  case_decide; [by right|].
  rewrite !elem_of_cons. intros [?|?]; auto.
Qed.

Lemma elem_of_remove_first_ne x y l :
  x ≠ y → y ∈ l → y ∈ remove_first x l.
Proof.
  intros Hne. induction l as [|z l IH]; cbn; [done|].
  rewrite elem_of_cons. case_decide; subst.
  - by intros [?|?].
  - rewrite elem_of_cons. intros [?|?]; auto.
Qed.

Lemma length_remove_first x l :
  x ∈ l → length l = S (length (remove_first x l)).
Proof. intros H. by rewrite (remove_first_perm x l H) at 1. Qed.
End lists.

Lemma Forall_remove_first {A} `{EqDecision A} (P : A → Prop) x l :
  Forall P l → Forall P (remove_first x l).
Proof.
  rewrite !Forall_forall. intros H y Hy. apply H.
  by eapply elem_of_remove_first.
Qed.

Lemma Forall_apply {A} (P Q : A → Prop) l :
  Forall (λ x, P x → Q x) l → Forall P l → Forall Q l.
Proof. rewrite !Forall_forall. auto. Qed.

Lemma filter_all {A} (p : A → Prop) `{∀ x, Decision (p x)} l : Forall p l → filter p l = l.
Proof. induction 1 as [|x l Hx _ IH]; [done|]. by rewrite filter_cons, decide_True, IH. Qed.

(** The last element of a list and what is before it, as [RPOP] sees them. *)
Definition unsnoc {A} (l : list A) : option (list A * A) :=
  match reverse l with
  | [] => None
  | x :: l' => Some (reverse l', x)
  end.

Lemma unsnoc_Some {A} (l l' : list A) x : unsnoc l = Some (l', x) ↔ l = l' ++ [x].
Proof.
  unfold unsnoc. destruct (reverse l) as [|y r] eqn:E.
  - apply (f_equal reverse) in E. rewrite reverse_involutive in E. cbn in E.
    subst. split; [done|]. by destruct l'.
  - apply (f_equal reverse) in E. rewrite reverse_involutive, reverse_cons in E.
    subst l. split.
    + by intros [= <- <-].
    + intros [-> ->]%app_inj_tail. done.
Qed.

Lemma unsnoc_None {A} (l : list A) : unsnoc l = None ↔ l = [].
Proof.
  unfold unsnoc. destruct (reverse l) as [|y r] eqn:E; split; try done.
  - intros _. apply (f_equal reverse) in E. by rewrite reverse_involutive in E.
  - intros ->. done.
Qed.

Lemma unsnoc_snoc {A} (l : list A) x : unsnoc (l ++ [x]) = Some (l, x).
Proof. by apply unsnoc_Some. Qed.

(** ** Finite sequences of steps *)

Section star.
Context {S : Type} (step : S → S → Prop).

Inductive star : S → S → Prop :=
| star_refl s : star s s
| star_snoc s1 s2 s3 : star s1 s2 → step s2 s3 → star s1 s3.

Lemma star_trans s1 s2 s3 : star s1 s2 → star s2 s3 → star s1 s3.
Proof. intros H1 H2. induction H2; eauto using star. Qed.

(** A property every step preserves holds at every reachable state. *)
Lemma star_invariant (I : S → Prop) s1 s2 :
  (∀ a b, I a → step a b → I b) → I s1 → star s1 s2 → I s2.
Proof. intros Hstep H1 H. induction H; eauto. Qed.
End star.

Lemma star_mono {S} (step step' : S → S → Prop) s1 s2 :
  (∀ a b, step a b → step' a b) → star step s1 s2 → star step' s1 s2.
Proof. intros Hstep H. induction H; [constructor|]. eapply star_snoc; eauto. Qed.
Arguments star_refl {S step} s.
Arguments star_snoc {S step} s1 s2 s3.

Create HintDb app discriminated.
Create Rewrite HintDb app.
#[export] Hint Resolve Forall_remove_first : app.
#[export] Hint Constructors star : app.
#[export] Hint Rewrite @reverse_involutive @unsnoc_snoc : app.
