(* ===== verification/PyText.v ===== *)
(** * Python text

    The operations of Python's [str] the program uses.  A text is a Rocq
    [string] whose characters are the code points below 256 (Latin-1): every
    constant of the program is ASCII, and the functions below agree with
    CPython's on that range, the Latin-1 letters and blanks included.  Code
    points above 255 are outside the model. *)

From Stdlib Require Import ZArith NArith Lia Ascii String DecimalString DecimalZ.
From stdpp Require Import base tactics option list strings.
From S2P Require Import Prelude.

Definition chars (s : string) : list ascii := list_ascii_of_string s.
Definition text (l : list ascii) : string := string_of_list_ascii l.

Lemma text_chars s : text (chars s) = s.
Proof. apply string_of_list_ascii_of_string. Qed.
Lemma chars_text l : chars (text l) = l.
Proof. apply list_ascii_of_string_of_list_ascii. Qed.
#[export] Hint Rewrite text_chars chars_text : app.

Lemma chars_inj s t : chars s = chars t → s = t.
Proof. intros H. by rewrite <- (text_chars s), <- (text_chars t), H. Qed.

Lemma chars_app s t : chars (s ++ t)%string = chars s ++ chars t.
Proof.
  induction s as [|c s IH]; [done|].
  change (c :: chars (s ++ t)%string = c :: (chars s ++ chars t)).
  by rewrite IH.
Qed.

Definition code (c : ascii) : N := N_of_ascii c.

(** [str.isspace] on one character. *)
Definition is_space (c : ascii) : bool :=
  let n := code c in
  ((9 <=? n) && (n <=? 13) || (28 <=? n) && (n <=? 32) || (n =? 133) || (n =? 160))%N.

(** [str.lower] on one character. *)
Definition lower_char (c : ascii) : ascii :=
  let n := code c in
  if ((65 <=? n) && (n <=? 90) || (192 <=? n) && (n <=? 222) && negb (n =? 215))%N
  then ascii_of_N (n + 32) else c.

(** [str.upper] on one character; the three Latin-1 letters whose upper case
    is outside the range (micro sign, sharp s, y with diaeresis) are kept. *)
Definition upper_char (c : ascii) : ascii :=
  let n := code c in
  if ((97 <=? n) && (n <=? 122) || (224 <=? n) && (n <=? 254) && negb (n =? 247))%N
  then ascii_of_N (n - 32) else c.

Definition lower (s : string) : string := text (lower_char <$> chars s).
Definition upper (s : string) : string := text (upper_char <$> chars s).

Fixpoint drop_spaces (l : list ascii) : list ascii :=
  match l with
  | c :: l' => if is_space c then drop_spaces l' else l
  | [] => []
  end.

Definition strip_chars (l : list ascii) : list ascii :=
  reverse (drop_spaces (reverse (drop_spaces l))).

Definition strip (s : string) : string := text (strip_chars (chars s)).

(** [s.split(c)] for a one-character separator: never empty. *)
Fixpoint split_chars (sep : ascii) (l : list ascii) : list (list ascii) :=
  match l with
  | [] => [[]]
  | c :: l' =>
      if Ascii.eqb c sep then [] :: split_chars sep l'
      else match split_chars sep l' with
           | p :: ps => (c :: p) :: ps
           | [] => [[c]]
           end
  end.

Definition split (sep : ascii) (s : string) : list string :=
  text <$> split_chars sep (chars s).

Fixpoint prefix_chars (p l : list ascii) : bool :=
  match p, l with
  | [], _ => true
  | c :: p', d :: l' => Ascii.eqb c d && prefix_chars p' l'
  | _ :: _, [] => false
  end.

Definition startswith (s p : string) : bool := prefix_chars (chars p) (chars s).

Fixpoint contains_chars (p l : list ascii) : bool :=
  prefix_chars p l || match l with [] => false | _ :: l' => contains_chars p l' end.

(** [p in s] *)
Definition contains (p s : string) : bool := contains_chars (chars p) (chars s).

(** [s.removeprefix(p)] *)
Definition removeprefix (p s : string) : string :=
  if startswith s p then text (drop (length (chars p)) (chars s)) else s.

(** [s.replace(c, r)] for a one-character pattern. *)
Definition replace_char (c : ascii) (r : string) (s : string) : string :=
  text (chars s ≫= λ d, if Ascii.eqb d c then chars r else [d]).

(** [len(s)] *)
Definition slen (s : string) : Z := Z.of_nat (length (chars s)).

(** [s[:n]] for [n] not negative. *)
Definition sprefix (n : nat) (s : string) : string := text (take n (chars s)).

(** [sep.join(l)] *)
Fixpoint join (sep : string) (l : list string) : string :=
  match l with
  | [] => ""
  | [s] => s
  | s :: l' => s ++ sep ++ join sep l'
  end.

(** Truth value of a text: [if s]. *)
Definition truthy (s : string) : bool := negb (String.eqb s "").

(** [str(n)] for an integer. *)
Definition str_of_int (z : Z) : string := NilEmpty.string_of_int (Z.to_int z).

(** [int(s)] on a text: blanks around are dropped, a sign is allowed and
    single underscores may separate digits. *)
Definition is_digit (c : ascii) : bool := ((48 <=? code c) && (code c <=? 57))%N.
Definition digit_val (c : ascii) : Z := Z.of_N (code c) - 48.

Fixpoint int_digits (l : list ascii) (acc : Z) (after_digit : bool) : option Z :=
  match l with
  | [] => if after_digit then Some acc else None
  | c :: l' =>
      if is_digit c then int_digits l' (acc * 10 + digit_val c) true
      else if Ascii.eqb c "_" && after_digit then int_digits l' acc false
      else None
  end.

Definition int_of_str (s : string) : option Z :=
  match strip_chars (chars s) with
  | "-"%char :: l => Z.opp <$> int_digits l 0 false
  | "+"%char :: l => int_digits l 0 false
  | l => int_digits l 0 false
  end.

(** ** Facts *)

Lemma str_of_int_inj a b : str_of_int a = str_of_int b → a = b.
Proof.
  unfold str_of_int. intros H.
  apply (f_equal NilEmpty.int_of_string) in H.
  rewrite !NilEmpty.isi in H. injection H as H.
  by apply DecimalZ.to_int_inj.
Qed.

Lemma prefix_chars_spec p l : prefix_chars p l = true ↔ ∃ k, l = p ++ k.
Proof.
  revert l. induction p as [|c p IH]; intros l; cbn.
  - split; [by eexists|done].
  - destruct l as [|d l]; cbn.
    + split; [done|]. intros [k [=]].
    + rewrite andb_true_iff, Ascii.eqb_eq, IH. split.
      * intros [-> [k ->]]. by eexists.
      * intros [k [= -> ->]]. split; [done|]. by eexists.
Qed.

Lemma startswith_spec s p : startswith s p = true ↔ ∃ k, s = (p ++ k)%string.
Proof.
  unfold startswith. rewrite prefix_chars_spec. split.
  - intros [k Hk]. exists (text k). apply chars_inj.
    by rewrite chars_app, chars_text.
  - intros [k ->]. exists (chars k). apply chars_app.
Qed.

Lemma startswith_app p k : startswith (p ++ k) p = true.
Proof. apply startswith_spec. by eexists. Qed.

Lemma contains_chars_spec p l :
  contains_chars p l = true ↔ ∃ a b, l = a ++ p ++ b.
Proof.
  induction l as [|c l IH]; cbn.
  - rewrite orb_false_r, prefix_chars_spec. split.
    + intros [k Hk]. by exists [], k.
    + intros (a & b & H). destruct a; [|done]. by exists b.
  - rewrite orb_true_iff, prefix_chars_spec, IH. split.
    + intros [[k Hk]|(a & b & ->)].
      * by exists [], k.
      * by exists (c :: a), b.
    + intros ([|d a] & b & H); cbn in H.
      * left. by exists b.
      * right. injection H as -> ->. by exists a, b.
Qed.

Lemma drop_spaces_idemp l : drop_spaces (drop_spaces l) = drop_spaces l.
Proof.
  induction l as [|c l IH]; cbn; [done|].
  destruct (is_space c) eqn:E; [done|]. cbn. by rewrite E.
Qed.

Lemma drop_spaces_suffix l : ∃ k, l = k ++ drop_spaces l.
Proof.
  induction l as [|c l [k IH]]; cbn; [by exists []|].
  destruct (is_space c); [|by exists []].
  exists (c :: k). cbn. by f_equal.
Qed.

Lemma lower_char_idemp c : lower_char (lower_char c) = lower_char c.
Proof. destruct c as [[] [] [] [] [] [] [] []]; vm_compute; reflexivity. Qed.

Lemma lower_idemp s : lower (lower s) = lower s.
Proof.
  unfold lower. rewrite chars_text. f_equal.
  rewrite <- list_fmap_compose. apply list_fmap_ext.
  intros i c _. apply lower_char_idemp.
Qed.
#[export] Hint Rewrite lower_idemp : app.
