(* ===== verification/Json.v ===== *)
(** * JSON: [json.dumps] and [json.loads] of Python's standard library

    Job records, cached pages, pagination cursors and idempotent responses are
    stored as JSON text, and the queue compares jobs by that text, so the
    printer and the parser are defined here and proved inverse of each other.

    Texts are within the code points below 256 (see [PyText]); a [\u] escape
    above that range is outside the model and read as an error.  A number with
    a fraction or an exponent is kept as its literal ([JFloat]). *)

From Stdlib Require Import ZArith NArith Lia Ascii String Decimal DecimalString DecimalPos DecimalZ DecimalFacts.
From stdpp Require Import base tactics option list strings sorting.
From S2P Require Import Prelude PyText.

Set Warnings "-register-all".

Inductive json : Type :=
| JNull
| JBool (b : bool)
| JInt (z : Z)
| JFloat (lit : string)
| JStr (s : string)
| JList (l : list json)
| JObj (kvs : list (string * json)).

(** ** Printing *)

(** The separators of [json.dumps]: [(", ", ": ")] by default. *)
Record separators := { item_sep : list ascii; key_sep : list ascii }.
Definition default_separators : separators :=
  {| item_sep := [","; " "]%char; key_sep := [":"; " "]%char |}.
Definition compact_separators : separators :=
  {| item_sep := [","]%char; key_sep := [":"]%char |}.

Fixpoint print_uint (d : Decimal.uint) : list ascii :=
  match d with
  | Decimal.Nil => []
  | Decimal.D0 d => "0"%char :: print_uint d
  | Decimal.D1 d => "1"%char :: print_uint d
  | Decimal.D2 d => "2"%char :: print_uint d
  | Decimal.D3 d => "3"%char :: print_uint d
  | Decimal.D4 d => "4"%char :: print_uint d
  | Decimal.D5 d => "5"%char :: print_uint d
  | Decimal.D6 d => "6"%char :: print_uint d
  | Decimal.D7 d => "7"%char :: print_uint d
  | Decimal.D8 d => "8"%char :: print_uint d
  | Decimal.D9 d => "9"%char :: print_uint d
  end.

Definition print_int (z : Z) : list ascii :=
  match Z.to_int z with
  | Decimal.Pos d => print_uint d
  | Decimal.Neg d => "-"%char :: print_uint d
  end.

Definition quote : ascii := ascii_of_N 34.

Definition hex_digit (n : N) : ascii :=
  if (n <? 10)%N then ascii_of_N (48 + n) else ascii_of_N (87 + n).

(** One character of a JSON string, with [ensure_ascii]. *)
Definition escape_char (c : ascii) : list ascii :=
  let n := code c in
  if (n =? 34)%N then ["\"%char; quote]
  else if (n =? 92)%N then ["\"; "\"]%char
  else if (n =? 10)%N then ["\"; "n"]%char
  else if (n =? 13)%N then ["\"; "r"]%char
  else if (n =? 9)%N then ["\"; "t"]%char
  else if (n =? 12)%N then ["\"; "f"]%char
  else if (n =? 8)%N then ["\"; "b"]%char
  else if ((n <? 32) || (126 <? n))%N then
    ["\"; "u"; "0"; "0"]%char ++ [hex_digit (n / 16); hex_digit (n mod 16)]
  else [c].

Definition print_str (s : string) : list ascii :=
  quote :: (chars s ≫= escape_char) ++ [quote].

Section print.
Context (sep : separators).

Fixpoint intersperse (l : list (list ascii)) : list ascii :=
  match l with
  | [] => []
  | [x] => x
  | x :: l' => x ++ item_sep sep ++ intersperse l'
  end.

Fixpoint print (v : json) : list ascii :=
  match v with
  | JNull => ["n"; "u"; "l"; "l"]%char
  | JBool true => ["t"; "r"; "u"; "e"]%char
  | JBool false => ["f"; "a"; "l"; "s"; "e"]%char
  | JInt z => print_int z
  | JFloat lit => chars lit
  | JStr s => print_str s
  | JList l => "["%char :: intersperse (map print l) ++ ["]"%char]
  | JObj kvs =>
      "{"%char :: intersperse (map (λ '(k, v), print_str k ++ key_sep sep ++ print v) kvs)
        ++ ["}"%char]
  end.
End print.

(** [json.dumps(v)] *)
Definition dumps (v : json) : string := text (print default_separators v).

Definition key_le (a b : string * json) : Prop := String.leb a.1 b.1 = true.
#[export] Instance key_le_dec a b : Decision (key_le a b).
Proof. unfold key_le. apply _. Defined.

(** [sort_keys=True]: the members of every object in the order of their keys. *)
Fixpoint sort_keys (v : json) : json :=
  match v with
  | JList l => JList (map sort_keys l)
  | JObj kvs => JObj (merge_sort key_le (map (λ '(k, v), (k, sort_keys v)) kvs))
  | _ => v
  end.

(** [json.dumps(v, separators=(",", ":"), sort_keys=True)] *)
Definition dumps_compact_sorted (v : json) : string :=
  text (print compact_separators (sort_keys v)).
(** [json.dumps(v, sort_keys=True)] *)
Definition dumps_sorted (v : json) : string :=
  text (print default_separators (sort_keys v)).

(** ** Parsing *)

Definition is_ws (c : ascii) : bool :=
  ((code c =? 32) || (code c =? 9) || (code c =? 10) || (code c =? 13))%N.

Fixpoint skip_ws (l : list ascii) : list ascii :=
  match l with
  | c :: l' => if is_ws c then skip_ws l' else l
  | [] => []
  end.

Definition hex_val (c : ascii) : option N :=
  let n := code c in
  if ((48 <=? n) && (n <=? 57))%N then Some (n - 48)%N
  else if ((97 <=? n) && (n <=? 102))%N then Some (n - 87)%N
  else if ((65 <=? n) && (n <=? 70))%N then Some (n - 55)%N
  else None.

Definition unescape (c : ascii) : option ascii :=
  let n := code c in
  if (n =? 34)%N then Some quote
  else if (n =? 92)%N then Some "\"%char
  else if (n =? 47)%N then Some "/"%char
  else if (n =? 98)%N then Some (ascii_of_N 8)
  else if (n =? 102)%N then Some (ascii_of_N 12)
  else if (n =? 110)%N then Some (ascii_of_N 10)
  else if (n =? 114)%N then Some (ascii_of_N 13)
  else if (n =? 116)%N then Some (ascii_of_N 9)
  else None.

(** The characters after an opening quote, up to the closing one. *)
Fixpoint parse_str (l : list ascii) : option (list ascii * list ascii) :=
  match l with
  | [] => None
  | c :: l1 =>
      if (code c =? 34)%N then Some ([], l1)
      else if (code c =? 92)%N then
        match l1 with
        | "u"%char :: h1 :: h2 :: h3 :: h4 :: l2 =>
            a ← hex_val h1; b ← hex_val h2; d ← hex_val h3; e ← hex_val h4;
            if ((a =? 0) && (b =? 0))%N then
              '(s, r) ← parse_str l2; Some (ascii_of_N (d * 16 + e) :: s, r)
            else None
        | x :: l2 => y ← unescape x; '(s, r) ← parse_str l2; Some (y :: s, r)
        | [] => None
        end
      else if (code c <? 32)%N then None
      else '(s, r) ← parse_str l1; Some (c :: s, r)
  end.

Fixpoint take_digits (l : list ascii) : list ascii * list ascii :=
  match l with
  | c :: l' => if is_digit c then let '(d, r) := take_digits l' in (c :: d, r) else ([], l)
  | [] => ([], [])
  end.

(** The integer part: one zero, or digits that do not start with zero. *)
Definition take_int_part (l : list ascii) : option (list ascii * list ascii) :=
  match l with
  | "0"%char :: l' => Some (["0"%char], l')
  | c :: _ => if is_digit c then Some (take_digits l) else None
  | [] => None
  end.

Definition take_frac (l : list ascii) : list ascii * list ascii :=
  match l with
  | "."%char :: l' =>
      let '(d, r) := take_digits l' in
      match d with [] => ([], l) | _ => ("."%char :: d, r) end
  | _ => ([], l)
  end.

Definition take_exp (l : list ascii) : list ascii * list ascii :=
  match l with
  | c :: l' =>
      if Ascii.eqb c "e" || Ascii.eqb c "E" then
        let '(sign, l2) := match l' with
                           | s :: l2 => if Ascii.eqb s "+" || Ascii.eqb s "-"
                                        then ([s], l2) else ([], l')
                           | [] => ([], [])
                           end in
        let '(d, r) := take_digits l2 in
        match d with [] => ([], l) | _ => (c :: sign ++ d, r) end
      else ([], l)
  | [] => ([], [])
  end.

Definition digits_val (l : list ascii) : Z :=
  fold_left (λ acc c, acc * 10 + digit_val c)%Z l 0%Z.

Definition take_sign (l : list ascii) : bool * list ascii :=
  match l with "-"%char :: l1 => (true, l1) | _ => (false, l) end.

Definition parse_number (l : list ascii) : option (json * list ascii) :=
  let '(neg, l1) := take_sign l in
  '(ip, l2) ← take_int_part l1;
  let '(fr, l3) := take_frac l2 in
  let '(ex, l4) := take_exp l3 in
  match fr, ex with
  | [], [] => Some (JInt (if neg then - digits_val ip else digits_val ip)%Z, l4)
  | _, _ => Some (JFloat (text ((if neg then ["-"%char] else []) ++ ip ++ fr ++ ex)), l4)
  end.

Definition keyword (k : string) (l : list ascii) : option (list ascii) :=
  if prefix_chars (chars k) l then Some (drop (length (chars k)) l) else None.

(** A value from its first character on; [Some] when it is not a container. *)
Definition parse_scalar (l : list ascii) : option (json * list ascii) :=
  match l with
  | "n"%char :: _ => r ← keyword "null" l; Some (JNull, r)
  | "t"%char :: _ => r ← keyword "true" l; Some (JBool true, r)
  | "f"%char :: _ => r ← keyword "false" l; Some (JBool false, r)
  | "N"%char :: _ => r ← keyword "NaN" l; Some (JFloat "NaN", r)
  | "I"%char :: _ => r ← keyword "Infinity" l; Some (JFloat "Infinity", r)
  | "-"%char :: "I"%char :: _ =>
      r ← keyword "-Infinity" l; Some (JFloat "-Infinity", r)
  | c :: l' =>
      if (code c =? 34)%N then '(s, r) ← parse_str l'; Some (JStr (text s), r)
      else parse_number l
  | [] => None
  end.

(** A later member of an object replaces an earlier one of the same name and
    keeps its place, as in a Python dict. *)
Fixpoint dict_set (k : string) (v : json) (kvs : list (string * json))
  : list (string * json) :=
  match kvs with
  | [] => [(k, v)]
  | (k', v') :: r => if String.eqb k k' then (k, v) :: r else (k', v') :: dict_set k v r
  end.

Definition dict_of (kvs : list (string * json)) : list (string * json) :=
  fold_left (λ acc '(k, v), dict_set k v acc) kvs [].

(** The parser: [value] reads a value, [elements] the rest of an array after
    its bracket or a comma, [members] the rest of an object; blanks before a
    token are skipped by the caller.  The fuel bounds the depth of the calls
    and [parse_enough] shows that [2 * length + 2] is always enough. *)
Fixpoint value (n : nat) (l : list ascii) : option (json * list ascii) :=
  match n with
  | O => None
  | S n =>
      match l with
      | "["%char :: l1 =>
          match skip_ws l1 with
          | "]"%char :: r => Some (JList [], r)
          | l2 => '(vs, r) ← elements n l2; Some (JList vs, r)
          end
      | "{"%char :: l1 =>
          match skip_ws l1 with
          | "}"%char :: r => Some (JObj [], r)
          | l2 => '(kvs, r) ← members n l2; Some (JObj (dict_of kvs), r)
          end
      | _ => parse_scalar l
      end
  end
with elements (n : nat) (l : list ascii) : option (list json * list ascii) :=
  match n with
  | O => None
  | S n =>
      '(v, r1) ← value n l;
      match skip_ws r1 with
      | "]"%char :: r => Some ([v], r)
      | ","%char :: r2 => '(vs, r) ← elements n (skip_ws r2); Some (v :: vs, r)
      | _ => None
      end
  end
with members (n : nat) (l : list ascii) : option (list (string * json) * list ascii) :=
  match n with
  | O => None
  | S n =>
      '(k, r1) ← match l with
                 | c :: l1 => if (code c =? 34)%N then parse_str l1 else None
                 | [] => None
                 end;
      match skip_ws r1 with
      | ":"%char :: r2 =>
          '(v, r3) ← value n (skip_ws r2);
          match skip_ws r3 with
          | "}"%char :: r => Some ([(text k, v)], r)
          | ","%char :: r4 =>
              '(kvs, r) ← members n (skip_ws r4); Some ((text k, v) :: kvs, r)
          | _ => None
          end
      | _ => None
      end
  end.

Definition loads_chars (l : list ascii) : option json :=
  match value (2 * length l + 2) (skip_ws l) with
  | Some (v, r) => match skip_ws r with [] => Some v | _ => None end
  | None => None
  end.

(** [json.loads(s)]: [None] stands for [JSONDecodeError]. *)
Definition loads (s : string) : option json := loads_chars (chars s).

(** ** Reading an object: [d.get(k)] and [d[k]] *)
Fixpoint dict_get (k : string) (kvs : list (string * json)) : option json :=
  match kvs with
  | [] => None
  | (k', v) :: r => if String.eqb k k' then Some v else dict_get k r
  end.

(** [==] on values without floats; a boolean equals 0 or 1. *)
Fixpoint json_eqb (a b : json) : bool :=
  match a, b with
  | JNull, JNull => true
  | JBool x, JBool y => Bool.eqb x y
  | JBool x, JInt y => Z.eqb (if x then 1 else 0) y
  | JInt x, JBool y => Z.eqb x (if y then 1 else 0)
  | JInt x, JInt y => Z.eqb x y
  | JFloat x, JFloat y => String.eqb x y
  | JStr x, JStr y => String.eqb x y
  | JList l, JList l' =>
      (fix go l l' := match l, l' with
                      | [], [] => true
                      | x :: l, y :: l' => json_eqb x y && go l l'
                      | _, _ => false
                      end) l l'
  | JObj l, JObj l' =>
      (fix go l l' := match l, l' with
                      | [], [] => true
                      | (k, x) :: l, (k', y) :: l' => String.eqb k k' && json_eqb x y && go l l'
                      | _, _ => false
                      end) l l'
  | _, _ => false
  end.

(** ** Decidable equality *)

#[export] Instance json_eq_dec : EqDecision json.
Proof.
  refine (fix go (x y : json) : Decision (x = y) :=
    match x, y with
    | JNull, JNull => left _
    | JBool a, JBool b => cast_if (decide (a = b))
    | JInt a, JInt b => cast_if (decide (a = b))
    | JFloat a, JFloat b => cast_if (decide (a = b))
    | JStr a, JStr b => cast_if (decide (a = b))
    | JList l, JList l' => cast_if (@list_eq_dec _ go l l')
    | JObj l, JObj l' => cast_if (@list_eq_dec _ (@prod_eq_dec _ _ _ go) l l')
    | _, _ => right _
    end); clear go; congruence.
Defined.

(** ** Induction over nested values *)

Section json_ind.
Context (P : json → Prop)
  (Hnull : P JNull) (Hbool : ∀ b, P (JBool b)) (Hint : ∀ z, P (JInt z))
  (Hfloat : ∀ s, P (JFloat s)) (Hstr : ∀ s, P (JStr s))
  (Hlist : ∀ l, Forall P l → P (JList l))
  (Hobj : ∀ kvs, Forall (λ kv, P kv.2) kvs → P (JObj kvs)).

Fixpoint json_nested_ind (v : json) : P v :=
  match v with
  | JNull => Hnull
  | JBool b => Hbool b
  | JInt z => Hint z
  | JFloat s => Hfloat s
  | JStr s => Hstr s
  | JList l => Hlist l ((fix go l : Forall P l :=
      match l with
      | [] => Forall_nil_2 P
      | v :: l => Forall_cons_2 P v l (json_nested_ind v) (go l)
      end) l)
  | JObj kvs => Hobj kvs ((fix go kvs : Forall (λ kv, P kv.2) kvs :=
      match kvs with
      | [] => Forall_nil_2 _
      | kv :: r => Forall_cons_2 (λ kv, P kv.2) kv r (json_nested_ind kv.2) (go r)
      end) kvs)
  end.
End json_ind.

(** ** Numbers *)

Definition no_digit (l : list ascii) : Prop :=
  match l with [] => True | c :: _ => is_digit c = false end.

(** What may follow a value the printer wrote: nothing, a comma or a closing
    bracket. *)
Definition stop (l : list ascii) : Prop :=
  match l with
  | [] => True
  | c :: _ => c = ","%char ∨ c = "]"%char ∨ c = "}"%char
  end.

Lemma stop_no_digit l : stop l → no_digit l.
Proof. destruct l as [|c l]; [done|]. by intros [-> | [-> | ->]]. Qed.

Lemma take_digits_print d rest :
  no_digit rest → take_digits (print_uint d ++ rest) = (print_uint d, rest).
Proof.
  intros Hr. induction d; cbn -[is_digit]; try (by rewrite IHd).
  destruct rest as [|c rest]; [done|]. cbn in Hr |- *. by rewrite Hr.
Qed.

Lemma digits_val_acc d p :
  fold_left (λ acc c, acc * 10 + digit_val c)%Z (print_uint d) (Zpos p)
  = Zpos (Pos.of_uint_acc d p).
Proof.
  revert p. induction d; intros p; cbn -[Z.mul Z.add digit_val]; [done|..];
    rewrite <- IHd; f_equal; cbn [digit_val]; vm_compute digit_val; lia.
Qed.

Lemma digits_val_print d : digits_val (print_uint d) = Z.of_N (Pos.of_uint d).
Proof.
  unfold digits_val. induction d; [done|exact IHd|..];
    cbn [print_uint fold_left Pos.of_uint Z.of_N];
    rewrite <- digits_val_acc; reflexivity.
Qed.

Lemma to_uint_head p : match Pos.to_uint p with Nil | D0 _ => False | _ => True end.
Proof.
  pose proof (DecimalPos.Unsigned.to_of (Pos.to_uint p)) as H.
  rewrite DecimalPos.Unsigned.of_to in H. cbn in H.
  pose proof (DecimalPos.Unsigned.to_uint_nonnil p) as Hnil.
  pose proof (DecimalPos.Unsigned.to_uint_nonzero p) as Hzero.
  rewrite H in *. unfold unorm in *.
  destruct (nzhead (Pos.to_uint p)) eqn:E; try done.
  by apply DecimalFacts.nzhead_nonzero in E.
Qed.

Lemma take_int_part_print p rest :
  no_digit rest →
  take_int_part (print_uint (Pos.to_uint p) ++ rest)
  = Some (print_uint (Pos.to_uint p), rest).
Proof.
  intros Hr. pose proof (to_uint_head p) as Hh.
  pose proof (take_digits_print (Pos.to_uint p) rest Hr) as Ht.
  destruct (Pos.to_uint p); try done; cbn -[take_digits] in *; by rewrite Ht.
Qed.

Lemma take_frac_stop l : stop l → take_frac l = ([], l).
Proof. destruct l as [|c l]; [done|]. by intros [-> | [-> | ->]]. Qed.
Lemma take_exp_stop l : stop l → take_exp l = ([], l).
Proof. destruct l as [|c l]; [done|]. by intros [-> | [-> | ->]]. Qed.

Lemma take_sign_print p rest :
  take_sign (print_uint (Pos.to_uint p) ++ rest)
  = (false, print_uint (Pos.to_uint p) ++ rest).
Proof. pose proof (to_uint_head p). by destruct (Pos.to_uint p). Qed.

Lemma parse_number_pos b p l rest :
  stop rest →
  take_sign l = (b, print_uint (Pos.to_uint p) ++ rest) →
  parse_number l = Some (JInt (if b then Zneg p else Zpos p), rest).
Proof.
  intros Hs Hl. unfold parse_number. rewrite Hl.
  rewrite take_int_part_print by (by apply stop_no_digit). cbn.
  rewrite take_frac_stop, take_exp_stop by done.
  rewrite digits_val_print, DecimalPos.Unsigned.of_to. by destruct b.
Qed.

Lemma parse_number_print z rest :
  stop rest → parse_number (print_int z ++ rest) = Some (JInt z, rest).
Proof.
  intros Hs. destruct z as [|p|p]; unfold print_int; cbn [Z.to_int].
  - unfold parse_number. cbn. by rewrite take_frac_stop, take_exp_stop.
  - apply (parse_number_pos false); [done|apply take_sign_print].
  - by apply (parse_number_pos true).
Qed.

(** ** Strings *)

Lemma parse_escaped c l :
  parse_str (escape_char c ++ l) = '(s, r) ← parse_str l; Some (c :: s, r).
Proof. destruct c as [[] [] [] [] [] [] [] []]; reflexivity. Qed.

Lemma parse_str_print s rest :
  parse_str ((s ≫= escape_char) ++ quote :: rest) = Some (s, rest).
Proof.
  induction s as [|c s IH]; [done|]. cbn [mbind list_bind].
  by rewrite <- app_assoc, parse_escaped, IH.
Qed.

(** ** The round trip *)

(** Objects have distinct keys (Python dicts always do) and no number is a
    float literal. *)
Fixpoint json_wf (v : json) : Prop :=
  match v with
  | JFloat _ => False
  | JList l => (fix go l := match l with [] => True | v :: l => json_wf v ∧ go l end) l
  | JObj kvs =>
      NoDup kvs.*1 ∧
      (fix go kvs := match kvs with [] => True | kv :: r => json_wf kv.2 ∧ go r end) kvs
  | _ => True
  end.

(** The same, as a boolean function. *)
Fixpoint json_wfb (v : json) : bool :=
  match v with
  | JFloat _ => false
  | JList l => forallb json_wfb l
  | JObj kvs => bool_decide (NoDup kvs.*1) && forallb (λ kv, json_wfb kv.2) kvs
  | _ => true
  end.

Lemma json_wf_list l : json_wf (JList l) ↔ Forall json_wf l.
Proof.
  cbn. induction l as [|v l IH]; [by rewrite Forall_nil|].
  by rewrite Forall_cons, IH.
Qed.
Lemma json_wf_obj kvs :
  json_wf (JObj kvs) ↔ NoDup kvs.*1 ∧ Forall (λ kv, json_wf kv.2) kvs.
Proof.
  cbn. f_equiv. induction kvs as [|kv kvs IH]; [by rewrite Forall_nil|].
  by rewrite Forall_cons, IH.
Qed.

Lemma json_wfb_spec v : json_wfb v = true ↔ json_wf v.
Proof.
  assert (∀ A (f : A → bool) (P : A → Prop) l, Forall (λ x, f x = true ↔ P x) l →
    (forallb f l = true ↔ Forall P l)) as Hall.
  { intros A f P l Hl. induction Hl as [|x l Hx Hl IH]; cbn; [by rewrite Forall_nil|].
    by rewrite andb_true_iff, Forall_cons, Hx, IH. }
  induction v using json_nested_ind; [done..| |].
  - rewrite json_wf_list. cbn. by apply Hall.
  - rewrite json_wf_obj. cbn. rewrite andb_true_iff, bool_decide_eq_true.
    f_equiv. by apply Hall.
Qed.

Lemma dict_set_fresh k v kvs : k ∉ kvs.*1 → dict_set k v kvs = kvs ++ [(k, v)].
Proof.
  induction kvs as [|[k' v'] kvs IH]; cbn; [done|].
  intros [Hne Hk]%not_elem_of_cons. destruct (String.eqb_spec k k'); [done|].
  by rewrite IH.
Qed.

Lemma dict_of_nodup kvs : NoDup kvs.*1 → dict_of kvs = kvs.
Proof.
  unfold dict_of. intros Hnd.
  enough (∀ acc, NoDup (acc ++ kvs).*1 →
    fold_left (λ acc '(k, v), dict_set k v acc) kvs acc = acc ++ kvs) as H by by apply H.
  clear Hnd. induction kvs as [|[k v] kvs IH]; intros acc Hnd; cbn.
  { by rewrite app_nil_r. }
  rewrite dict_set_fresh, IH; rewrite <- ?app_assoc; try done.
  rewrite fmap_app in Hnd. apply NoDup_app in Hnd as (_ & Hd & _).
  intros Hin. apply (Hd _ Hin). cbn. by left.
Qed.

(** Blanks are allowed after the comma and the colon of a separator. *)
Definition blanks (l : list ascii) : Prop := Forall (λ c, is_ws c = true) l.
Definition sep_ok (sep : separators) : Prop :=
  ∃ b1 b2, blanks b1 ∧ blanks b2 ∧
    item_sep sep = ","%char :: b1 ∧ key_sep sep = ":"%char :: b2.

Lemma default_separators_ok : sep_ok default_separators.
Proof. exists [" "%char], [" "%char]. by repeat constructor. Qed.
Lemma compact_separators_ok : sep_ok compact_separators.
Proof. exists [], []. by repeat constructor. Qed.
#[export] Hint Resolve default_separators_ok compact_separators_ok : app.

Lemma skip_blanks b l : blanks b → skip_ws (b ++ l) = skip_ws l.
Proof. induction 1 as [|c b Hc _ IH]; [done|]. cbn. by rewrite Hc. Qed.

(** A printed value starts with a character that is neither a blank nor a
    closing bracket. *)
Definition starts_value (l : list ascii) : Prop :=
  match l with
  | [] => False
  | c :: _ => is_ws c = false ∧ c ≠ "]"%char ∧ c ≠ "}"%char
  end.

Lemma print_uint_starts d : d ≠ Nil → starts_value (print_uint d).
Proof. by destruct d. Qed.

Lemma print_starts sep v rest : json_wf v → starts_value (print sep v ++ rest).
Proof.
  destruct v as [|[]|z| | | |]; try done. intros _. cbn. unfold print_int.
  destruct z as [|p|p]; cbn; try done.
  pose proof (print_uint_starts (Pos.to_uint p)
    (DecimalPos.Unsigned.to_uint_nonnil p)). by destruct (print_uint _).
Qed.

Lemma skip_starts l : starts_value l → skip_ws l = l.
Proof. destruct l as [|c l]; [done|]. cbn. by intros [-> _]. Qed.

Fixpoint need (v : json) : nat :=
  match v with
  | JList l => S (foldr (λ v m, S (need v `max` m)) 0 l)
  | JObj kvs => S (foldr (λ kv m, S (need kv.2 `max` m)) 0 kvs)
  | _ => 1
  end.

Section roundtrip.
Context (sep : separators) (Hsep : sep_ok sep).
Abbreviation pr := (print sep).

Definition reads_back (v : json) : Prop :=
  json_wf v → ∀ n rest, need v ≤ n → stop rest →
  value n (pr v ++ rest) = Some (v, rest).

Lemma value_scalar n l c :
  c ≠ "["%char → c ≠ "{"%char → value (S n) (c :: l) = parse_scalar (c :: l).
Proof.
  intros H1 H2. cbn [value].
  destruct c as [[] [] [] [] [] [] [] []]; try reflexivity; congruence.
Qed.

Lemma reads_back_int z : reads_back (JInt z).
Proof.
  intros _ [|n] rest Hn Hs; cbn in Hn; [lia|]. cbn [print].
  rewrite <- (parse_number_print z rest Hs). unfold print_int.
  destruct z as [|p|p]; cbn [Z.to_int].
  - cbn. reflexivity.
  - pose proof (to_uint_head p). by destruct (Pos.to_uint p).
  - pose proof (to_uint_head p). by destruct (Pos.to_uint p).
Qed.

Lemma reads_back_str s : reads_back (JStr s).
Proof.
  intros _ [|n] rest Hn Hs; cbn in Hn; [lia|]. cbn [print].
  unfold print_str. cbn [app]. rewrite value_scalar by done.
  cbn. rewrite <- app_assoc. cbn. rewrite parse_str_print. cbn.
  by rewrite text_chars.
Qed.

Definition need_list (l : list json) : nat := foldr (λ v m, S (need v `max` m)) 0 l.
Definition need_members (kvs : list (string * json)) : nat :=
  foldr (λ kv m, S (need kv.2 `max` m)) 0 kvs.

Lemma intersperse_cons x l :
  intersperse sep (x :: l) =
  x ++ match l with [] => [] | _ => item_sep sep ++ intersperse sep l end.
Proof. destruct l; cbn; [by rewrite app_nil_r|done]. Qed.

Lemma skip_item l : ∃ b, item_sep sep ++ l = ","%char :: b ++ l ∧ blanks b.
Proof. destruct Hsep as (b1 & b2 & H1 & _ & -> & _). by exists b1. Qed.
Lemma skip_key l : ∃ b, key_sep sep ++ l = ":"%char :: b ++ l ∧ blanks b.
Proof. destruct Hsep as (b1 & b2 & _ & H2 & _ & ->). by exists b2. Qed.

Lemma stop_close l c : c = "]"%char ∨ c = "}"%char → stop (c :: l).
Proof. cbn. tauto. Qed.
Lemma stop_item l : stop (item_sep sep ++ l).
Proof. destruct (skip_item l) as (b & -> & _). cbn. tauto. Qed.
Hint Resolve stop_close stop_item : core.

Lemma elements_print v l n rest :
  Forall reads_back (v :: l) → Forall json_wf (v :: l) →
  need_list (v :: l) ≤ n →
  elements n (intersperse sep (map pr (v :: l)) ++ "]"%char :: rest)
  = Some (v :: l, rest).
Proof.
  revert v n. induction l as [|w l IH]; intros v n HP Hwf Hn;
    destruct n as [|n]; cbn in Hn; try lia;
    inv HP; inv Hwf; cbn [map elements]; rewrite intersperse_cons.
  - rewrite app_nil_r, H1 by (auto; lia). reflexivity.
  - cbn [map] in *. rewrite <- !app_assoc.
    remember (intersperse sep (pr w :: map pr l) ++ "]"%char :: rest) as tl eqn:Htl.
    rewrite H1 by (auto; lia). cbn -[elements].
    destruct (skip_item tl) as (b & -> & Hb).
    rewrite (skip_starts (","%char :: _)), skip_blanks by done.
    rewrite skip_starts.
    2:{ rewrite Htl. rewrite intersperse_cons, <- app_assoc. apply print_starts.
        by inv H4. }
    by rewrite Htl, (IH w n) by (cbn; auto; lia).
Qed.

Definition pr_member (kv : string * json) : list ascii :=
  print_str kv.1 ++ key_sep sep ++ pr kv.2.

Lemma map_pr_member kvs :
  map (λ '(k, v), print_str k ++ key_sep sep ++ pr v) kvs = map pr_member kvs.
Proof. apply map_ext. by intros []. Qed.

Lemma members_step n k v tl :
  reads_back v → json_wf v → need v ≤ n → stop tl →
  members (S n) (pr_member (k, v) ++ tl) =
  match skip_ws tl with
  | "}"%char :: r => Some ([(k, v)], r)
  | ","%char :: r4 => '(kvs, r) ← members n (skip_ws r4); Some ((k, v) :: kvs, r)
  | _ => None
  end.
Proof.
  intros Hv Hwf Hn Htl. unfold pr_member, print_str; cbn [fst snd].
  cbn [app]. rewrite <- !app_assoc. cbn [app members].
  change (code quote =? 34)%N with true. cbn beta iota.
  rewrite parse_str_print. cbn -[value members skip_ws].
  destruct (skip_key (pr v ++ tl)) as (b & -> & Hb).
  rewrite (skip_starts (":"%char :: _)), skip_blanks by done.
  rewrite skip_starts by by apply print_starts.
  rewrite Hv by done. cbn -[members skip_ws]. by rewrite text_chars.
Qed.

Lemma members_print kv kvs n rest :
  Forall (λ kv, reads_back kv.2) (kv :: kvs) →
  Forall (λ kv, json_wf kv.2) (kv :: kvs) →
  need_members (kv :: kvs) ≤ n →
  members n (intersperse sep (map pr_member (kv :: kvs)) ++ "}"%char :: rest)
  = Some (kv :: kvs, rest).
Proof.
  revert kv n. induction kvs as [|kv' kvs IH]; intros [k v] n HP Hwf Hn;
    destruct n as [|n]; cbn in Hn; try lia; inv HP; inv Hwf; cbn in H1, H3;
    cbn [map]; rewrite intersperse_cons.
  - rewrite app_nil_r, members_step by (auto; lia). reflexivity.
  - cbn [map] in *. rewrite <- !app_assoc, members_step by (auto; lia).
    remember (intersperse sep (pr_member kv' :: map pr_member kvs) ++ "}"%char :: rest)
      as tl eqn:Htl.
    destruct (skip_item tl) as (b & -> & Hb).
    rewrite (skip_starts (","%char :: _)), skip_blanks by done.
    rewrite skip_starts by by rewrite Htl, intersperse_cons.
    by rewrite Htl, (IH kv' n) by (cbn; auto; lia).
Qed.

(** A container is read by its own loop unless it is empty. *)
Lemma value_list n l :
  starts_value l →
  value (S n) ("["%char :: l) = '(vs, r) ← elements n l; Some (JList vs, r).
Proof.
  intros H. cbn [value]. rewrite skip_starts by done.
  destruct l as [|c l]; [done|]. destruct H as (_ & Hc & _).
  destruct c as [[] [] [] [] [] [] [] []]; try reflexivity; congruence.
Qed.
Lemma value_obj n l :
  starts_value l →
  value (S n) ("{"%char :: l) = '(kvs, r) ← members n l; Some (JObj (dict_of kvs), r).
Proof.
  intros H. cbn [value]. rewrite skip_starts by done.
  destruct l as [|c l]; [done|]. destruct H as (_ & _ & Hc).
  destruct c as [[] [] [] [] [] [] [] []]; try reflexivity; congruence.
Qed.

Lemma reads_back_all v : reads_back v.
Proof.
  induction v as [|[]| | | |l IH|kvs IH] using json_nested_ind;
    try (by intros ? [|n] rest Hn; cbn in Hn; [lia|]).
  - apply reads_back_int.
  - apply reads_back_str.
  - intros Hwf [|n] rest Hn Hs; cbn in Hn; [lia|].
    apply json_wf_list in Hwf. cbn [print app]. rewrite <- app_assoc. cbn [app].
    destruct l as [|v l]; [reflexivity|].
    rewrite value_list, elements_print; [done|done|done|by apply le_S_n|].
    cbn [map]. rewrite intersperse_cons, <- app_assoc. apply print_starts. by inv Hwf.
  - intros Hwf [|n] rest Hn Hs; cbn in Hn; [lia|].
    apply json_wf_obj in Hwf as [Hnd Hwf]. cbn [print app].
    rewrite map_pr_member, <- app_assoc. cbn [app].
    destruct kvs as [|kv kvs]; [reflexivity|].
    rewrite value_obj, members_print; [|done|done|by apply le_S_n|].
    + cbn -[dict_of]. by rewrite dict_of_nodup.
    + cbn [map]. by rewrite intersperse_cons.
Qed.

Lemma length_intersperse_cons x l :
  length x ≤ length (intersperse sep (x :: l)) ∧
  (l ≠ [] → S (length x + length (intersperse sep l)) ≤ length (intersperse sep (x :: l))).
Proof.
  rewrite intersperse_cons. destruct l as [|y l].
  - rewrite app_nil_r. split; [done|congruence].
  - rewrite !length_app. destruct (skip_item []) as (b & Hb & _).
    rewrite app_nil_r in Hb. rewrite Hb, length_cons. lia.
Qed.

Lemma need_bound {A} (f : A → json) (g : A → list ascii) (l : list A) :
  Forall (λ a, need (f a) ≤ 2 * length (g a)) l →
  foldr (λ a m, S (need (f a) `max` m)) 0 l ≤ 2 * length (intersperse sep (map g l)) + 1.
Proof.
  induction 1 as [|a l Ha _ IH]; cbn [foldr map]; [lia|].
  destruct (length_intersperse_cons (g a) (map g l)) as [H1 H2].
  destruct l as [|b l]; cbn [foldr map] in *; [lia|].
  assert (map g (b :: l) ≠ []) as Hne by done. specialize (H2 Hne).
  cbn [map] in *. lia.
Qed.

Lemma need_print v : json_wf v → need v ≤ 2 * length (pr v).
Proof.
  induction v as [|[]|z| | |l IH|kvs IH] using json_nested_ind; intros Hwf;
    try done; try (by cbn; lia).
  - pose proof (print_starts sep (JInt z) [] I) as H. rewrite app_nil_r in H.
    destruct (pr (JInt z)) as [|c tl]; [done|]. cbn. lia.
  - apply json_wf_list in Hwf. cbn [need print length]. rewrite length_app. cbn.
    pose proof (need_bound id pr l) as H. cbn in H.
    assert (Forall (λ a : json, need a ≤ 2 * length (pr a)) l) as Hl.
    { apply Forall_forall. intros x Hx.
      rewrite Forall_forall in IH, Hwf. auto. }
    specialize (H Hl). lia.
  - apply json_wf_obj in Hwf as [_ Hwf]. cbn [need print length].
    rewrite map_pr_member, length_app. cbn.
    pose proof (need_bound snd pr_member kvs) as H. cbn in H.
    assert (Forall (λ kv, need kv.2 ≤ 2 * length (pr_member kv)) kvs) as Hl.
    { apply Forall_forall. intros x Hx. rewrite Forall_forall in IH, Hwf.
      unfold pr_member. rewrite !length_app. specialize (IH x Hx (Hwf x Hx)). lia. }
    specialize (H Hl). lia.
Qed.

Theorem loads_print v : json_wf v → loads_chars (pr v) = Some v.
Proof.
  intros Hwf. unfold loads_chars.
  pose proof (print_starts sep v [] Hwf) as Hst. rewrite app_nil_r in Hst.
  rewrite skip_starts by done.
  pose proof (reads_back_all v Hwf (2 * length (pr v) + 2) []) as H.
  rewrite app_nil_r in H. rewrite H; [done| |done].
  pose proof (need_print v Hwf). lia.
Qed.
End roundtrip.

(** [json.loads(json.dumps(v)) = v] *)
Theorem loads_dumps v : json_wf v → loads (dumps v) = Some v.
Proof.
  intros H. unfold loads, dumps. rewrite chars_text. by apply loads_print; [auto with app|].
Qed.

Corollary dumps_inj v w : json_wf v → json_wf w → dumps v = dumps w → v = w.
Proof.
  intros Hv Hw H. apply loads_dumps in Hv, Hw. rewrite H in Hv. congruence.
Qed.

(** ** The fuel is enough on every input *)

Section fuel.
#[local] Abbreviation len := length.

Lemma skip_ws_length l : len (skip_ws l) ≤ len l.
Proof. induction l as [|c l IH]; cbn; [lia|]. destruct (is_ws c); cbn; lia. Qed.

Lemma parse_str_length l s r : parse_str l = Some (s, r) → len r < len l.
Proof.
  revert s r. induction l as [l IH] using (induction_ltof1 _ (@length ascii)); unfold ltof in IH.
  intros s r H. destruct l as [|c l]; [done|]. cbn in H.
  assert (∀ k (f : list ascii * list ascii → list ascii),
    len k < S (len l) → ('(s, r) ← parse_str k; Some (f (s, r), r)) = Some (s, r) →
    len r < len k) as Hrec.
  { intros k f Hk Hb. destruct (parse_str k) as [[s' r']|] eqn:E; [|done].
    injection Hb as <- <-. by apply IH in E. }
  destruct (code c =? 34)%N. { injection H as <- <-. cbn. lia. }
  destruct (code c =? 92)%N.
  - destruct l as [|x l2]; [done|].
    assert ((y ← unescape x; '(s, r) ← parse_str l2; Some (y :: s, r)) = Some (s, r) →
      len r < S (S (len l2))) as Hplain.
    { destruct (unescape x) as [y|]; [|done]. cbn.
      intros Hy%(Hrec l2 (λ p, y :: p.1)); cbn; lia. }
    destruct (Ascii.ascii_dec x "u"%char) as [->|Hx].
    + destruct l2 as [|h1 [|h2 [|h3 [|h4 l2]]]]; try (apply Hplain in H; cbn in *; lia).
      destruct (hex_val h1) as [a|], (hex_val h2) as [b|], (hex_val h3) as [d|],
        (hex_val h4) as [e|]; try done. cbn in H.
      destruct ((a =? 0) && (b =? 0))%N; [|done].
      apply (Hrec l2 (λ p, _ :: p.1)) in H; cbn in *; lia.
    + cut (len r < S (S (len l2))); [cbn; lia|]. apply Hplain. revert H.
      destruct x as [[] [] [] [] [] [] [] []]; try (intros H; exact H); congruence.
  - destruct (code c <? 32)%N; [done|].
    apply (Hrec l (λ p, c :: p.1)) in H; cbn; lia.
Qed.

Lemma take_digits_length l : len (take_digits l).2 ≤ len l.
Proof.
  induction l as [|c l IH]; cbn; [lia|]. destruct (is_digit c); cbn; [|lia].
  destruct (take_digits l). cbn in *. lia.
Qed.

Lemma take_int_part_length l d r : take_int_part l = Some (d, r) → len r < len l.
Proof.
  destruct l as [|c l]; [done|].
  pose proof (take_digits_length l) as Hl.
  assert ((if is_digit c then Some (take_digits (c :: l)) else None) = Some (d, r) →
    len r < S (len l)) as Hd.
  { destruct (is_digit c) eqn:E; [|done]. cbn. rewrite E.
    destruct (take_digits l). intros [= <- <-]. cbn in *. lia. }
  unfold take_int_part.
  destruct c as [[] [] [] [] [] [] [] []]; try exact Hd.
  intros [= <- <-]. cbn. lia.
Qed.

Lemma take_frac_length l : len (take_frac l).2 ≤ len l.
Proof.
  destruct l as [|c l]; [done|]. pose proof (take_digits_length l).
  destruct c as [[] [] [] [] [] [] [] []]; try done. cbn.
  destruct (take_digits l) as [[|] r]; cbn in *; lia.
Qed.

Lemma take_exp_length l : len (take_exp l).2 ≤ len l.
Proof.
  destruct l as [|c l]; [done|]. cbn. destruct (_ || _); [|done].
  assert (∀ (sg l2 : list ascii), len l2 ≤ len l →
    len (let '(d, r) := take_digits l2 in
         match d with [] => ([], c :: l) | _ => (c :: sg ++ d, r) end).2 ≤ S (len l)) as Hd.
  { intros sg l2 Hl2. pose proof (take_digits_length l2).
    destruct (take_digits l2) as [[|] r]; cbn in *; lia. }
  destruct l as [|s l2]; [by apply (Hd [] [])|].
  destruct (_ || _); apply Hd; cbn; lia.
Qed.

Lemma parse_number_length l v r : parse_number l = Some (v, r) → len r < len l.
Proof.
  unfold parse_number. assert (len (take_sign l).2 ≤ len l) as Hs.
  { destruct l as [|c l]; [done|]. destruct c as [[] [] [] [] [] [] [] []]; cbn; lia. }
  destruct (take_sign l) as [b l1]. cbn in Hs.
  destruct (take_int_part l1) as [[d l2]|] eqn:Ei; [|done]. cbn.
  apply take_int_part_length in Ei.
  pose proof (take_frac_length l2). destruct (take_frac l2) as [fr l3].
  pose proof (take_exp_length l3). destruct (take_exp l3) as [ex l4]. cbn in *.
  destruct fr, ex; intros [= <- <-]; lia.
Qed.

Lemma keyword_length k l r : k ≠ ""%string → keyword k l = Some r → len r < len l.
Proof.
  unfold keyword. intros Hk. destruct (prefix_chars _ _) eqn:E; [|done].
  apply prefix_chars_spec in E as [q ->]. intros [= <-].
  rewrite length_drop, length_app. destruct k; [done|]. cbn. lia.
Qed.

Lemma parse_scalar_length l v r : parse_scalar l = Some (v, r) → len r < len l.
Proof.
  assert (∀ k (f : json), k ≠ ""%string →
    (r ← keyword k l; Some (f, r)) = Some (v, r) → len r < len l) as Hk.
  { intros k f Hne. destruct (keyword k l) eqn:E; [|done].
    intros [= <- <-]. by apply keyword_length in E. }
  destruct l as [|c l]; [done|].
  assert ((if (code c =? 34)%N then '(s, r) ← parse_str l; Some (JStr (text s), r)
           else parse_number (c :: l)) = Some (v, r) → len r < S (len l)) as Hd.
  { destruct (code c =? 34)%N; [|apply parse_number_length].
    destruct (parse_str l) as [[s r']|] eqn:E; [|done]. cbn.
    intros [= <- <-]. apply parse_str_length in E. lia. }
  unfold parse_scalar.
  destruct c as [[] [] [] [] [] [] [] []]; try exact Hd; try (apply Hk; done).
  destruct l as [|c l]; [exact Hd|].
  destruct c as [[] [] [] [] [] [] [] []]; try exact Hd. by apply Hk.
Qed.

(** The first token after an opening bracket: either the closing one, and
  the container is empty, or the rest is read by [k]. *)
Definition open_container {A} (close : ascii) (empty : json)
    (k : list ascii → option (A * list ascii)) (f : A → json) (l1 : list ascii) :
    option (json * list ascii) :=
  match skip_ws l1 with
  | c :: r => if Ascii.eqb c close then Some (empty, r)
              else '(vs, r) ← k (c :: r); Some (f vs, r)
  | [] => '(vs, r) ← k []; Some (f vs, r)
  end.

Lemma value_unfold n l :
  value (S n) l =
  match l with
  | c :: l1 =>
      if Ascii.eqb c "[" then
        open_container "]" (JList []) (elements n) JList l1
      else if Ascii.eqb c "{" then
        open_container "}" (JObj []) (members n) (λ kvs, JObj (dict_of kvs)) l1
      else parse_scalar (c :: l1)
  | [] => parse_scalar []
  end.
Proof.
  destruct l as [|c l]; [reflexivity|]. cbn [value]. unfold open_container.
  destruct c as [[] [] [] [] [] [] [] []]; try reflexivity;
    cbn [Ascii.eqb Bool.eqb andb]; destruct (skip_ws l) as [|d r]; try reflexivity;
    destruct d as [[] [] [] [] [] [] [] []]; reflexivity.
Qed.

(** What follows an element: the end of the container, or a comma and [k]. *)
Definition next_item {A} (close : ascii) (x : A)
    (k : list ascii → option (list A * list ascii)) (r : list ascii) :
    option (list A * list ascii) :=
  match skip_ws r with
  | c :: r2 =>
      if Ascii.eqb c close then Some ([x], r2)
      else if Ascii.eqb c "," then '(xs, r) ← k (skip_ws r2); Some (x :: xs, r)
      else None
  | [] => None
  end.

Lemma elements_unfold n l :
  elements (S n) l = '(v, r1) ← value n l; next_item "]" v (elements n) r1.
Proof.
  cbn [elements]. destruct (value n l) as [[v r1]|]; [|reflexivity].
  cbn [mbind option_bind]. unfold next_item.
  destruct (skip_ws r1) as [|c r]; [reflexivity|].
  destruct c as [[] [] [] [] [] [] [] []]; reflexivity.
Qed.

Definition member_key (l : list ascii) : option (list ascii * list ascii) :=
  '(k, r1) ← match l with
             | c :: l1 => if (code c =? 34)%N then parse_str l1 else None
             | [] => None
             end;
  match skip_ws r1 with
  | c :: r2 => if Ascii.eqb c ":" then Some (k, skip_ws r2) else None
  | [] => None
  end.

Lemma members_unfold n l :
  members (S n) l =
  '(k, r2) ← member_key l; '(v, r3) ← value n r2;
  next_item "}" (text k, v) (members n) r3.
Proof.
  cbn [members]. unfold member_key.
  destruct (match l with [] => None | c :: l1 => _ end) as [[k r1]|]; [|reflexivity].
  cbn [mbind option_bind].
  destruct (skip_ws r1) as [|c r2]; [reflexivity|].
  destruct c as [[] [] [] [] [] [] [] []]; try reflexivity.
  cbn [Ascii.eqb Bool.eqb andb mbind option_bind].
  destruct (value n (skip_ws r2)) as [[v r3]|]; [|reflexivity].
  cbn [mbind option_bind]. unfold next_item.
  destruct (skip_ws r3) as [|c r]; [reflexivity|].
  destruct c as [[] [] [] [] [] [] [] []]; reflexivity.
Qed.

Lemma member_key_length l k r : member_key l = Some (k, r) → len r < len l.
Proof.
  unfold member_key. destruct l as [|c l]; [done|].
  destruct (code c =? 34)%N; [|done].
  destruct (parse_str l) as [[k' r1]|] eqn:E; [|done]. cbn.
  apply parse_str_length in E. pose proof (skip_ws_length r1).
  destruct (skip_ws r1) as [|d r2]; [done|].
  destruct (Ascii.eqb d ":"); [|done]. intros [= <- <-].
  pose proof (skip_ws_length r2). cbn in *. lia.
Qed.

Lemma next_item_length {A} close (x : A) k r xs r' :
  (∀ l ys s, len l < len r → k l = Some (ys, s) → len s < len l) →
  next_item close x k r = Some (xs, r') → len r' < len r.
Proof.
  intros Hk. unfold next_item. pose proof (skip_ws_length r).
  destruct (skip_ws r) as [|c r2]; [done|]. cbn in *.
  destruct (Ascii.eqb c close); [intros [= <- <-]; lia|].
  destruct (Ascii.eqb c ","); [|done]. pose proof (skip_ws_length r2).
  destruct (k (skip_ws r2)) as [[ys s]|] eqn:E; [|done].
  apply Hk in E; [|lia]. intros [= <- <-]. lia.
Qed.

Lemma open_container_length {A} close e (k : _ → option (A * _)) f l1 v r :
  (∀ l ys s, k l = Some (ys, s) → len s < len l) →
  open_container close e k f l1 = Some (v, r) → len r < S (len l1).
Proof.
  intros Hk. unfold open_container. pose proof (skip_ws_length l1).
  destruct (skip_ws l1) as [|c l2].
  - destruct (k []) as [[ys s]|] eqn:E; [|done]. apply Hk in E. cbn in E. lia.
  - destruct (Ascii.eqb c close); [intros [= <- <-]; cbn in *; lia|].
    destruct (k (c :: l2)) as [[ys s]|] eqn:E; [|done].
    apply Hk in E. intros [= <- <-]. cbn in *. lia.
Qed.

Lemma parse_length n :
  (∀ l v r, value n l = Some (v, r) → len r < len l) ∧
  (∀ l vs r, elements n l = Some (vs, r) → len r < len l) ∧
  (∀ l kvs r, members n l = Some (kvs, r) → len r < len l).
Proof.
  induction n as [|n (IHv & IHe & IHm)]; [done|].
  split_and!; intros l x r.
  - rewrite value_unfold. destruct l as [|c l]; [done|].
    destruct (Ascii.eqb c "["); [by apply open_container_length|].
    destruct (Ascii.eqb c "{"); [by apply open_container_length|].
    apply parse_scalar_length.
  - rewrite elements_unfold. destruct (value n l) as [[v r1]|] eqn:E; [|done].
    apply IHv in E. intros H. apply next_item_length in H; [lia|].
    intros; by eapply IHe.
  - rewrite members_unfold. destruct (member_key l) as [[k r2]|] eqn:Ek; [|done].
    apply member_key_length in Ek. cbn [mbind option_bind].
    destruct (value n r2) as [[v r1]|] eqn:E; [|done].
    apply IHv in E. intros H. apply next_item_length in H; [lia|].
    intros; by eapply IHm.
Qed.

Lemma next_item_ext {A} close (x : A) k1 k2 r :
  (∀ l, len l < len r → k1 l = k2 l) →
  next_item close x k1 r = next_item close x k2 r.
Proof.
  intros Hk. unfold next_item. pose proof (skip_ws_length r).
  destruct (skip_ws r) as [|c r2]; [done|]. cbn in *.
  pose proof (skip_ws_length r2). by rewrite Hk by lia.
Qed.

Lemma open_container_ext {A} close e (k1 k2 : _ → option (A * _)) f l :
  (∀ l', len l' ≤ len l → k1 l' = k2 l') →
  open_container close e k1 f l = open_container close e k2 f l.
Proof.
  intros Hk. unfold open_container. pose proof (skip_ws_length l).
  destruct (skip_ws l) as [|c l2]; by rewrite Hk by (cbn in *; lia).
Qed.

(** More fuel than twice the length of the text does not change the result,
  so the fuel [loads] uses is enough on every input. *)
Theorem parse_enough n :
  ∀ m l, n ≤ m →
  (2 * len l + 1 ≤ n → value n l = value m l) ∧
  (2 * len l + 2 ≤ n → elements n l = elements m l ∧ members n l = members m l).
Proof.
  induction n as [|n IH]; intros m l Hnm; [split; lia|].
  destruct m as [|m]; [lia|]. apply le_S_n in Hnm.
  split; [intros Hl|intros Hl; split].
  - rewrite !value_unfold. destruct l as [|c l]; [done|]. cbn in Hl.
    destruct (Ascii.eqb c "[");
      [apply open_container_ext; intros l' ?; apply (IH m l'); lia|].
    destruct (Ascii.eqb c "{"); [|done].
    apply open_container_ext; intros l' ?; apply (IH m l'); lia.
  - rewrite !elements_unfold.
    destruct (IH m l Hnm) as [Hv _]. rewrite <- Hv by lia.
    destruct (value n l) as [[v r1]|] eqn:E; [|done].
    apply parse_length in E. cbn. apply next_item_ext.
    intros l' ?. apply (IH m l'); lia.
  - rewrite !members_unfold.
    destruct (member_key l) as [[k r2]|] eqn:Ek; [|done].
    apply member_key_length in Ek. cbn [mbind option_bind].
    destruct (IH m r2 Hnm) as [Hv _]. rewrite <- Hv by lia.
    destruct (value n r2) as [[v r1]|] eqn:E; [|done].
    apply parse_length in E. cbn. apply next_item_ext.
    intros l' ?. apply (IH m l'); lia.
Qed.
End fuel.


(** ** Integers as texts *)

Section integers.
Local Open Scope Z_scope.

Lemma chars_string_of_uint d : chars (NilEmpty.string_of_uint d) = print_uint d.
Proof. induction d; cbn; [done|..]; by rewrite <- IHd. Qed.
Lemma chars_str_of_int z : chars (str_of_int z) = print_int z.
Proof.
  unfold str_of_int, print_int. destruct (Z.to_int z); cbn; [|f_equal]; apply chars_string_of_uint.
Qed.
Lemma int_digits_fold l acc b :
  forallb is_digit l = true → b = true ∨ l ≠ [] →
  int_digits l acc b = Some (fold_left (λ acc c, acc * 10 + digit_val c) l acc).
Proof.
  revert acc b. induction l as [|c l IH]; intros acc b.
  - intros _ [->|?]; done.
  - cbn [forallb int_digits fold_left]. rewrite andb_true_iff. intros [-> Hl] _. apply IH; auto.
Qed.
Lemma print_uint_digits d : forallb is_digit (print_uint d) = true.
Proof. induction d; done. Qed.
Lemma is_digit_not_space c : is_digit c = true → is_space c = false.
Proof. by destruct c as [[] [] [] [] [] [] [] []]. Qed.
Lemma drop_spaces_none l : forallb (negb ∘ is_space) l = true → drop_spaces l = l.
Proof. destruct l as [|c l]; cbn; [done|]. by destruct (is_space c). Qed.
Lemma strip_chars_none l : forallb (negb ∘ is_space) l = true → strip_chars l = l.
Proof.
  intros Hl. unfold strip_chars. rewrite (drop_spaces_none l Hl), (drop_spaces_none (reverse l)).
  - apply reverse_involutive.
  - apply forallb_forall. intros x Hx. rewrite forallb_forall in Hl. apply Hl.
    apply list_elem_of_In. apply list_elem_of_In in Hx. by apply elem_of_reverse.
Qed.

Lemma print_int_no_spaces z : forallb (negb ∘ is_space) (print_int z) = true.
Proof.
  assert (∀ d, forallb (negb ∘ is_space) (print_uint d) = true) as Hd
    by (intros d; induction d; done).
  unfold print_int. destruct (Z.to_int z); [apply Hd|]. cbn. apply Hd.
Qed.

(** [int(str(n))] is [n]. *)
Lemma int_of_str_of_int z : int_of_str (str_of_int z) = Some z.
Proof.
  unfold int_of_str. rewrite chars_str_of_int, strip_chars_none by apply print_int_no_spaces.
  assert (∀ d, int_digits (print_uint (Pos.to_uint d)) 0 false = Some (Zpos d)) as Hp.
  { intros d. rewrite int_digits_fold.
    - pose proof (digits_val_print (Pos.to_uint d)) as E. unfold digits_val in E. rewrite E.
      by rewrite DecimalPos.Unsigned.of_to.
    - apply print_uint_digits.
    - right. intros E. pose proof (DecimalPos.Unsigned.to_uint_nonnil d) as Hnil.
      by destruct (Pos.to_uint d). }
  destruct z as [|d|d]; unfold print_int; cbn [Z.to_int]; [done|..].
  - specialize (Hp d). pose proof (print_uint_digits (Pos.to_uint d)) as Hd.
    destruct (print_uint (Pos.to_uint d)) as [|c l]; [done|].
    cbn [forallb] in Hd. apply andb_prop in Hd as [Hc _].
    destruct c as [[] [] [] [] [] [] [] []]; try done.
  - by rewrite Hp.
Qed.
End integers.
