(* ===== verification/Errors.v ===== *)
(** * Exceptions and the HTTP error envelope

    [app/core/domain_errors.py] and [app/core/exception_handlers.py], with the
    exceptions of the libraries the program catches by class.  A library
    exception carries the text [str(exc)] gives. *)

From Stdlib Require Import ZArith String.
From stdpp Require Import base tactics option list strings.
From S2P Require Import Prelude PyText Json.
Local Open Scope Z_scope.

(** The subclasses of [DomainError]. *)
Inductive domain_class : Type :=
| DomainErrorBase
| BadRequestError
| UnauthorizedError
| ForbiddenError
| NotFoundError
| ConflictError
| PayloadTooLargeError
| ServiceUnavailableError.

#[export] Instance domain_class_eq_dec : EqDecision domain_class.
Proof. solve_decision. Defined.

(** The class attribute [status_code]. *)
Definition class_status_code (c : domain_class) : Z :=
  match c with
  | DomainErrorBase => 400
  | BadRequestError => 400
  | UnauthorizedError => 401
  | ForbiddenError => 403
  | NotFoundError => 404
  | ConflictError => 409
  | PayloadTooLargeError => 413
  | ServiceUnavailableError => 503
  end.

Inductive exn : Type :=
| DomainError (c : domain_class) (message : string) (status_code : Z)
| HTTPException (status_code : Z) (detail : string) (headers : list (string * string))
| RequestValidationError (errors : json)
| ResponseValidationError                (* of FastAPI: an answer its response model refuses *)
| ValueError (message : string)
| JSONDecodeError
| WebhookSignatureError (message : string)
| TypeError (message : string)
| AttributeError (name : string)
| KeyError (key : string)
| JWTError (message : string)
| UnknownJobTypeError (job_type : string)
| EmailDeliveryError (message : string)
| OSError (message : string)
| URLError (message : string)
| UnicodeDecodeError
| IntegrityError
| OperationalError (message : string)
| InvalidRequestError (message : string)
| RedisError (message : string)
| ClientError (message : string)
| BotoCoreError (message : string).

(** [DomainError.__init__]: the status of the instance is the argument when one
    is given and the class attribute otherwise. *)
Definition domain_error (c : domain_class) (message : string)
    (status_code : option Z) : exn :=
  DomainError c message
    (match status_code with Some s => s | None => class_status_code c end).

(** [raise BadRequestError(message)] and so on. *)
Definition raised (c : domain_class) (message : string) : exn :=
  domain_error c message None.

(** [except ValueError]: [JSONDecodeError], [UnicodeDecodeError] and
    [WebhookSignatureError] are subclasses. *)
Definition is_value_error (e : exn) : bool :=
  match e with
  | ValueError _ | JSONDecodeError | UnicodeDecodeError | WebhookSignatureError _ => true
  | _ => false
  end.
Definition is_domain_error (e : exn) : bool :=
  match e with DomainError _ _ _ => true | _ => false end.
Definition is_redis_error (e : exn) : bool :=
  match e with RedisError _ => true | _ => false end.
(** [except OSError]: [URLError] is a subclass. *)
Definition is_os_error (e : exn) : bool :=
  match e with OSError _ | URLError _ => true | _ => false end.
(** [except (BotoCoreError, ClientError)] *)
Definition is_boto_error (e : exn) : bool :=
  match e with ClientError _ | BotoCoreError _ => true | _ => false end.

(** [str(exc)] *)
Definition exn_str (e : exn) : string :=
  match e with
  | DomainError _ m _ => m
  | HTTPException s d _ => str_of_int s ++ ": " ++ d
  | RequestValidationError v => dumps v
  | ResponseValidationError => "ResponseValidationError"
  | ValueError m | WebhookSignatureError m | TypeError m | JWTError m => m
  | JSONDecodeError => "invalid JSON"
  | AttributeError n => "no attribute " ++ n
  | KeyError k => "'" ++ k ++ "'"
  | UnknownJobTypeError t => "unknown job type: " ++ t
  | UnicodeDecodeError => "invalid UTF-8"
  | InvalidRequestError m | EmailDeliveryError m | OSError m | URLError m | OperationalError m | RedisError m
  | ClientError m | BotoCoreError m => m
  | IntegrityError => "IntegrityError"
  end.

(** ** [exception_handlers.py] *)

Record response := {
  resp_status : Z;
  resp_content : json;
  resp_headers : list (string * string);
}.

Definition ERROR_CODES_BY_STATUS : list (Z * string) :=
  [(400, "bad_request"); (401, "unauthorized"); (403, "forbidden");
   (404, "not_found"); (405, "method_not_allowed"); (409, "conflict");
   (413, "payload_too_large"); (422, "validation_error");
   (429, "rate_limit_exceeded"); (500, "internal_server_error")]%string.

Definition error_response (status_code : Z) (error_code message : string)
    (details : option json) (headers : list (string * string)) : response :=
  {| resp_status := status_code;
     resp_content := JObj [("error"%string,
       JObj ([("code"%string, JStr error_code); ("message"%string, JStr message)] ++
             match details with Some d => [("details"%string, d)] | None => [] end))];
     resp_headers := headers |}.

Fixpoint assoc_Z {A} (k : Z) (l : list (Z * A)) : option A :=
  match l with
  | [] => None
  | (k', a) :: l' => if k =? k' then Some a else assoc_Z k l'
  end.

Definition get_error_code (status_code : Z) : string :=
  opt_default "api_error"%string (assoc_Z status_code ERROR_CODES_BY_STATUS).

Definition domain_error_handler (message : string) (status_code : Z) : response :=
  error_response status_code (get_error_code status_code) message None [].

(** [detail] is a text at every [raise HTTPException] of the program. *)
Definition http_exception_handler (status_code : Z) (detail : string)
    (headers : list (string * string)) : response :=
  error_response status_code (get_error_code status_code) detail None headers.

Definition validation_exception_handler (errors : json) : response :=
  error_response 422 "validation_error" "Request validation failed" (Some errors) [].

Definition unhandled_exception_handler : response :=
  error_response 500 "internal_server_error" "An unexpected error occurred" None [].

(** The handlers [main.py] registers, by the class of the exception. *)
Definition respond (e : exn) : response :=
  match e with
  | DomainError _ m s => domain_error_handler m s
  | HTTPException s d h => http_exception_handler s d h
  | RequestValidationError v => validation_exception_handler v
  | _ => unhandled_exception_handler
  end.

(** The envelope: an object with the single member [error], itself an object
    with a code, a message and possibly details. *)
Definition is_envelope (v : json) : bool :=
  match v with
  | JObj [(k, JObj ((c, JStr _) :: (m, JStr _) :: rest))] =>
      String.eqb k "error" && String.eqb c "code" && String.eqb m "message" &&
      match rest with
      | [] => true
      | [(d, _)] => String.eqb d "details"
      | _ => false
      end
  | _ => false
  end.

Lemma error_response_envelope s c m d h :
  is_envelope (resp_content (error_response s c m d h)) = true.
Proof. by destruct d. Qed.
#[export] Hint Resolve error_response_envelope : app.

(** Anything that is not one of the three handled classes. *)
Definition is_unhandled (e : exn) : bool :=
  match e with
  | DomainError _ _ _ | HTTPException _ _ _ | RequestValidationError _ => false
  | _ => true
  end.

Lemma respond_envelope e : is_envelope (resp_content (respond e)) = true.
Proof. destruct e; cbn [respond]; auto with app. Qed.

Lemma respond_unhandled e :
  is_unhandled e = true → respond e = unhandled_exception_handler.
Proof. by destruct e. Qed.
