(* ===== verification/DateTime.v ===== *)
(** * Dates and times

    What the program uses of Python's [datetime]: a UTC time is a number of
    microseconds since the epoch; [isoformat] writes it and [fromisoformat] reads
    the extended ISO format back.  The other formats [fromisoformat] accepts
    (basic format, week dates, offsets with seconds) are outside the model and
    read as an error. *)

From Stdlib Require Import ZArith NArith Lia Ascii String.
From stdpp Require Import base tactics option list strings.
From S2P Require Import Prelude PyText Errors.
Local Open Scope Z_scope.

(** ** The proleptic Gregorian calendar *)

(** Days since 1 March of the first year of a 400-year era, from the year of
    the era, the month counted from March and the day. *)
Definition day_of_era (yoe mp d : Z) : Z :=
  yoe * 365 + yoe / 4 - yoe / 100 + ((153 * mp + 2) / 5 + d - 1).

Definition era_fields (doe : Z) : Z * Z * Z :=
  let yoe := (doe - doe / 1460 + doe / 36524 - doe / 146096) / 365 in
  let doy := doe - (365 * yoe + yoe / 4 - yoe / 100) in
  let mp := (5 * doy + 2) / 153 in
  (yoe, mp, doy - (153 * mp + 2) / 5 + 1).

Definition days_from_civil (y m d : Z) : Z :=
  let y' := if m <=? 2 then y - 1 else y in
  let mp := if m <=? 2 then m + 9 else m - 3 in
  y' / 400 * 146097 + day_of_era (y' mod 400) mp d - 719468.

Definition civil_from_days (z : Z) : Z * Z * Z :=
  let z' := z + 719468 in
  let '(yoe, mp, d) := era_fields (z' mod 146097) in
  let m := if mp <? 10 then mp + 3 else mp - 9 in
  let y := yoe + z' / 146097 * 400 in
  (if m <=? 2 then y + 1 else y, m, d).

Definition is_leap (y : Z) : bool :=
  (y mod 4 =? 0) && (negb (y mod 100 =? 0) || (y mod 400 =? 0)).
Definition days_in_month (y m : Z) : Z :=
  if m =? 2 then if is_leap y then 29 else 28
  else if (m =? 4) || (m =? 6) || (m =? 9) || (m =? 11) then 30 else 31.

(** ** [datetime.isoformat] *)

Definition digit_char (d : Z) : ascii := ascii_of_N (Z.to_N (48 + d)).

(** [%0nd] for a number of at most [n] digits. *)
Fixpoint pad (n : nat) (z : Z) : list ascii :=
  match n with
  | O => []
  | S n' => digit_char (z / 10 ^ Z.of_nat n') :: pad n' (z mod 10 ^ Z.of_nat n')
  end.

Definition us_per_day : Z := 86400000000.

(** The time of a day, as [isoformat] writes it. *)
Definition time_chars (us : Z) : list ascii :=
  let secs := us / 1000000 in
  pad 2 (secs / 3600) ++ ":"%char :: pad 2 (secs / 60 mod 60) ++ ":"%char ::
  pad 2 (secs mod 60) ++
  (if us mod 1000000 =? 0 then [] else "."%char :: pad 6 (us mod 1000000)).

Definition isoformat_chars (t : Z) : list ascii :=
  let '(y, m, d) := civil_from_days (t / us_per_day) in
  pad 4 y ++ "-"%char :: pad 2 m ++ "-"%char :: pad 2 d ++ "T"%char ::
  time_chars (t mod us_per_day) ++ ["+"; "0"; "0"; ":"; "0"; "0"]%char.

(** [datetime.fromtimestamp(t, timezone.utc).isoformat()] *)
Definition isoformat (t : Z) : string := text (isoformat_chars t).

(** ** [datetime.fromisoformat] *)

(** An aware time, or one without an offset. *)
Inductive datetime : Type := Aware (us : Z) | Naive (us : Z).

Definition bad_isoformat : exn := ValueError "Invalid isoformat string".

(** Exactly [n] digits. *)
Fixpoint take_num (n : nat) (l : list ascii) (acc : Z) : option (Z * list ascii) :=
  match n, l with
  | O, _ => Some (acc, l)
  | S n', c :: l' => if is_digit c then take_num n' l' (acc * 10 + digit_val c) else None
  | S _, [] => None
  end.

Definition expect (c : ascii) (l : list ascii) : option (list ascii) :=
  match l with
  | c' :: l' => if Ascii.eqb c c' then Some l' else None
  | [] => None
  end.

Definition parse_date (l : list ascii) : option (Z * list ascii) :=
  '(y, l) ← take_num 4 l 0; l ← expect "-" l;
  '(m, l) ← take_num 2 l 0; l ← expect "-" l;
  '(d, l) ← take_num 2 l 0;
  if (1 <=? y) && (1 <=? m) && (m <=? 12) && (1 <=? d) && (d <=? days_in_month y m)
  then Some (days_from_civil y m d, l) else None.

(** The digits after the decimal point: six count, more are dropped. *)
Fixpoint parse_fraction (n : nat) (l : list ascii) : Z * list ascii :=
  match l with
  | c :: l' =>
      if is_digit c then
        match n with
        | S n' => let '(v, r) := parse_fraction n' l' in
                  (digit_val c * 10 ^ Z.of_nat n' + v, r)
        | O => parse_fraction O l'
        end
      else (0, l)
  | [] => (0, [])
  end.

(** [HH:MM:SS], with a fraction or not, in microseconds. *)
Definition parse_time (l : list ascii) : option (Z * list ascii) :=
  '(h, l) ← take_num 2 l 0; l ← expect ":" l;
  '(m, l) ← take_num 2 l 0; l ← expect ":" l;
  '(s, l) ← take_num 2 l 0;
  if (h <=? 23) && (m <=? 59) && (s <=? 59) then
    let us := ((h * 60 + m) * 60 + s) * 1000000 in
    match l with
    | c :: (d :: _) as l' =>
        if (Ascii.eqb c "." || Ascii.eqb c ",") && is_digit d then
          let '(f, r) := parse_fraction 6 (drop 1 l) in Some (us + f, r)
        else Some (us, l)
    | _ => Some (us, l)
    end
  else None.

(** The end of the text: nothing, [Z] or an offset [+HH:MM]. *)
Definition parse_offset (t : Z) (l : list ascii) : option datetime :=
  match l with
  | [] => Some (Naive t)
  | ["Z"%char] => Some (Aware t)
  | s :: l =>
      if Ascii.eqb s "+" || Ascii.eqb s "-" then
        '(h, l) ← take_num 2 l 0; l ← expect ":" l; '(m, l) ← take_num 2 l 0;
        let off := (h * 60 + m) * 60000000 in
        match l with
        | [] => if (h <=? 23) && (m <=? 59)
                then Some (Aware (if Ascii.eqb s "+" then t - off else t + off)) else None
        | _ => None
        end
      else None
  end.

(** Any character separates the date from the time. *)
Definition fromisoformat (s : string) : result exn datetime :=
  result_of_option bad_isoformat
    ('(days, l) ← parse_date (chars s);
     match l with
     | [] => Some (Naive (days * us_per_day))
     | _ :: l => '(us, l) ← parse_time l; parse_offset (days * us_per_day + us) l
     end).

#[global] Arguments isoformat : simpl never.
#[global] Arguments fromisoformat : simpl never.

(** ** Facts *)

(** Finite checks by computation. *)
Fixpoint check_below (p : Z → bool) (n : nat) (z : Z) : bool :=
  match n with O => true | S n' => p z && check_below p n' (z + 1) end.

Lemma check_below_spec p n : check_below p n 0 = true →
  ∀ i, 0 <= i < Z.of_nat n → p i = true.
Proof.
  intros H i Hi. assert (∀ z, check_below p n z = true → z <= i < z + Z.of_nat n → p i = true)
    as Hz; [|by apply (Hz 0)]. clear H Hi.
  induction n as [|n IH]; intros z; cbn [check_below]; [lia|].
  intros [H1 H2]%andb_prop Hi. destruct (decide (i = z)) as [->|]; [done|].
  apply (IH (z + 1)); [done|lia].
Qed.

(** The first day of a year of the era, and the approximation of the year. *)
Definition year_start (yoe : Z) : Z := 365 * yoe + yoe / 4 - yoe / 100.
Definition year_numerator (doe : Z) : Z := doe - doe / 1460 + doe / 36524 - doe / 146096.

Lemma year_numerator_mono a b : 0 <= a <= b → b < 146097 →
  year_numerator a / 365 <= year_numerator b / 365.
Proof.
  intros Hab Hb. apply Z.div_le_mono; [lia|]. unfold year_numerator.
  assert (b / 1460 <= a / 1460 + (b - a)).
  { rewrite <- Z.div_add by lia. apply Z.div_le_mono; lia. }
  assert (a / 36524 <= b / 36524) by (apply Z.div_le_mono; lia).
  destruct (decide (b = 146096)) as [->|].
  - destruct (decide (a = 146096)) as [->|]; [lia|].
    rewrite (Z.div_small a 146096) by lia. change (146096 / 146096) with 1.
    change (146096 / 36524) with 4.
    assert (a / 36524 < 4) by (apply Z.div_lt_upper_bound; lia). lia.
  - rewrite (Z.div_small a 146096), (Z.div_small b 146096) by lia. lia.
Qed.

Definition year_ok (y : Z) : bool :=
  (year_numerator (year_start y) / 365 =? y) &&
  ((y =? 0) || (year_numerator (year_start y - 1) / 365 =? y - 1)) &&
  (if y =? 399 then is_leap 400
   else year_start (y + 1) - year_start y =? if is_leap (y + 1) then 366 else 365).

Definition day_ok (doy : Z) : bool :=
  let mp := (5 * doy + 2) / 153 in
  let d := doy - (153 * mp + 2) / 5 + 1 in
  let m := if mp <? 10 then mp + 3 else mp - 9 in
  (0 <=? mp) && (mp <=? 11) && (1 <=? d) &&
  (if m =? 2 then d <=? (if doy <? 365 then 28 else 29) else d <=? days_in_month 1 m).

Lemma years_ok y : 0 <= y < 400 → year_ok y = true.
Proof. apply (check_below_spec year_ok (Z.to_nat 400)). vm_compute. reflexivity. Qed.
Lemma days_ok doy : 0 <= doy < 366 → day_ok doy = true.
Proof. apply (check_below_spec day_ok (Z.to_nat 366)). vm_compute. reflexivity. Qed.

(** The year of a day of the era, and the day in that year. *)
Lemma year_of_era doe : 0 <= doe < 146097 →
  let yoe := year_numerator doe / 365 in
  0 <= yoe < 400 ∧
  0 <= doe - year_start yoe < (if is_leap (yoe + 1) then 366 else 365).
Proof.
  intros Hd. cbn zeta. set (y := year_numerator doe / 365).
  assert (0 <= y) by (apply (year_numerator_mono 0 doe); lia).
  assert (y <= 399) by (apply (year_numerator_mono doe 146096); lia).
  split; [lia|].
  pose proof (years_ok y ltac:(lia)) as Hy. unfold year_ok in Hy.
  apply andb_prop in Hy as [[Hs Hp]%andb_prop Hl].
  assert (∀ k, 0 <= k < 400 → 0 <= year_start k < 146097) as Hst.
  { intros k Hk. unfold year_start. Z.div_mod_to_equations. lia. }
  pose proof (Hst y ltac:(lia)).
  assert (year_start y <= doe).
  { apply Z.nlt_ge. intros Hlt. apply orb_prop in Hp as [Hp|Hp]; apply Z.eqb_eq in Hp.
    - rewrite Hp in Hlt. change (year_start 0) with 0 in Hlt. lia.
    - pose proof (year_numerator_mono doe (year_start y - 1) ltac:(lia) ltac:(lia)).
      fold y in H2. lia. }
  split; [lia|]. destruct (Z.eqb_spec y 399) as [->|Hne].
  - rewrite (Hl : is_leap (399 + 1) = true). change (year_start 399) with 145731. lia.
  - apply Z.eqb_eq in Hl.
    enough (doe < year_start (y + 1)) by (destruct (is_leap (y + 1)); lia).
    apply Z.nle_gt. intros Hle.
    pose proof (years_ok (y + 1) ltac:(lia)) as Hy1. unfold year_ok in Hy1.
    apply andb_prop in Hy1 as [[Hs1%Z.eqb_eq _]%andb_prop _].
    pose proof (Hst (y + 1) ltac:(lia)).
    pose proof (year_numerator_mono (year_start (y + 1)) doe ltac:(lia) ltac:(lia)).
    fold y in H3. lia.
Qed.

Lemma is_leap_era y e : is_leap (y + e * 400) = is_leap y.
Proof.
  unfold is_leap. f_equal; [|f_equal; [f_equal|]]; f_equal;
    Z.div_mod_to_equations; lia.
Qed.

(** A day number is a valid date, and the date gives the day number back. *)
Lemma civil_from_days_spec z :
  let '(y, m, d) := civil_from_days z in
  1 <= m <= 12 ∧ 1 <= d <= days_in_month y m ∧ days_from_civil y m d = z.
Proof.
  unfold civil_from_days, era_fields. set (z' := z + 719468).
  pose proof (Z.mod_pos_bound z' 146097 ltac:(lia)) as Hdoe.
  pose proof (Z.div_mod z' 146097 ltac:(lia)) as Hz.
  set (doe := z' mod 146097) in *. set (era := z' / 146097) in *.
  pose proof (year_of_era doe Hdoe) as [Hy Hdoy]. unfold year_numerator, year_start in Hy, Hdoy.
  set (yoe := (doe - doe / 1460 + doe / 36524 - doe / 146096) / 365) in *.
  set (doy := doe - (365 * yoe + yoe / 4 - yoe / 100)) in *.
  assert (0 <= doy < 366) as Hdoy' by (destruct (is_leap (yoe + 1)); lia).
  pose proof (days_ok doy Hdoy') as Hd. unfold day_ok in Hd.
  set (mp := (5 * doy + 2) / 153) in *.
  apply andb_prop in Hd as [[[Hm1 Hm2]%andb_prop Hd1]%andb_prop Hd2].
  bool_to_prop. set (m := if mp <? 10 then mp + 3 else mp - 9) in *.
  assert (1 <= m <= 12) by (unfold m; destruct (Z.ltb_spec mp 10); lia).
  split_and!; [lia..| |].
  - destruct (Z.eqb_spec m 2) as [Hm|Hm]; bool_to_prop.
    + rewrite Hm. cbn. replace (yoe + era * 400 + 1) with (yoe + 1 + era * 400) by lia.
      rewrite is_leap_era. unfold days_in_month. cbn.
      destruct (is_leap (yoe + 1)); destruct (Z.ltb_spec doy 365); lia.
    + replace (days_in_month _ m) with (days_in_month 1 m); [done|].
      unfold days_in_month. by apply Z.eqb_neq in Hm as ->.
  - unfold days_from_civil.
    replace (if m <=? 2 then m + 9 else m - 3) with mp
      by (destruct (Z.leb_spec m 2); unfold m in *; destruct (Z.ltb_spec mp 10); lia).
    assert (∀ y, (if m <=? 2 then (if m <=? 2 then y + 1 else y) - 1
                  else if m <=? 2 then y + 1 else y) = y) as ->
      by (intros; destruct (Z.leb_spec m 2); lia).
    rewrite Z.div_add, Z.mod_add, Z.div_small, Z.mod_small by lia.
    unfold day_of_era. unfold doy. lia.
Qed.

Lemma civil_year_range t : 0 <= t < 253402300800000000 →
  let '(y, _, _) := civil_from_days (t / us_per_day) in 1 <= y <= 9999.
Proof.
  intros Ht. assert (0 <= t / us_per_day < 2932897) as Hd
    by (unfold us_per_day; Z.div_mod_to_equations; lia).
  unfold civil_from_days, era_fields. set (z' := t / us_per_day + 719468).
  pose proof (Z.mod_pos_bound z' 146097 ltac:(lia)) as Hdoe.
  pose proof (Z.div_mod z' 146097 ltac:(lia)) as Hz.
  set (doe := z' mod 146097) in *. set (era := z' / 146097) in *.
  pose proof (year_of_era doe Hdoe) as [Hy Hdoy]. unfold year_numerator, year_start in Hy, Hdoy.
  set (yoe := (doe - doe / 1460 + doe / 36524 - doe / 146096) / 365) in *.
  set (doy := doe - (365 * yoe + yoe / 4 - yoe / 100)) in *.
  assert (4 <= era <= 24) by lia.
  set (mp := (5 * doy + 2) / 153).
  destruct (Z.leb_spec (if mp <? 10 then mp + 3 else mp - 9) 2) as [Hm|]; [|lia].
  pose proof (Z.mul_div_le (5 * doy + 2) 153 ltac:(lia)) as Hmp. fold mp in Hmp.
  assert (0 <= mp) by (apply Z.div_pos; destruct (is_leap (yoe + 1)); lia).
  clearbody mp. revert Hm. destruct (Z.ltb_spec mp 10); intros Hm; [lia|].
  assert (306 <= doy) by (clear - Hmp H1; clearbody doy; lia).
  destruct (decide (yoe = 399)) as [->|]; [|lia].
  enough (era ≠ 24) by lia. intros ->.
  change (365 * 399 + 399 / 4 - 399 / 100) with 145731 in *. lia.
Qed.

(** ** Digits *)

Lemma digit_char_spec d : 0 <= d < 10 →
  is_digit (digit_char d) = true ∧ digit_val (digit_char d) = d.
Proof.
  intros H. unfold is_digit, digit_val, digit_char, code.
  rewrite N_ascii_embedding by lia. split; [|lia].
  apply andb_true_iff. rewrite !N.leb_le. lia.
Qed.

Lemma take_num_pad n z acc l : 0 <= z < 10 ^ Z.of_nat n →
  take_num n (pad n z ++ l) acc = Some (acc * 10 ^ Z.of_nat n + z, l).
Proof.
  revert z acc. induction n as [|n IH]; intros z acc Hz.
  - cbn in *. repeat f_equal. lia.
  - rewrite Nat2Z.inj_succ, Z.pow_succ_r in * by lia.
    set (p := 10 ^ Z.of_nat n) in *. assert (0 < p) by (subst p; apply Z.pow_pos_nonneg; lia).
    cbn [pad app take_num]. fold p.
    destruct (digit_char_spec (z / p)) as [-> ->].
    { split; [apply Z.div_pos; lia|]. apply Z.div_lt_upper_bound; lia. }
    rewrite IH by (apply Z.mod_pos_bound; lia).
    f_equal. f_equal. rewrite Z.mod_eq by lia. ring.
Qed.

Lemma parse_fraction_pad n z c l : is_digit c = false → 0 <= z < 10 ^ Z.of_nat n →
  parse_fraction n (pad n z ++ c :: l) = (z, c :: l).
Proof.
  intros Hc. revert z. induction n as [|n IH]; intros z Hz.
  - cbn in *. rewrite Hc. f_equal. lia.
  - rewrite Nat2Z.inj_succ, Z.pow_succ_r in * by lia.
    set (p := 10 ^ Z.of_nat n) in *. assert (0 < p) by (subst p; apply Z.pow_pos_nonneg; lia).
    cbn [pad app parse_fraction]. fold p.
    destruct (digit_char_spec (z / p)) as [-> ->].
    { split; [apply Z.div_pos; lia|]. apply Z.div_lt_upper_bound; lia. }
    rewrite IH by (apply Z.mod_pos_bound; lia).
    f_equal. rewrite Z.mod_eq by lia. ring.
Qed.

Lemma parse_date_pad y m d l :
  1 <= y <= 9999 → 1 <= m <= 12 → 1 <= d <= days_in_month y m →
  parse_date (pad 4 y ++ "-"%char :: pad 2 m ++ "-"%char :: pad 2 d ++ l)
    = Some (days_from_civil y m d, l).
Proof.
  intros Hy Hm Hd. assert (days_in_month y m <= 31)
    by (unfold days_in_month; repeat case_match; lia).
  unfold parse_date. rewrite take_num_pad by (change (10 ^ _) with 10000; lia). cbn [mbind option_bind expect].
  change (Ascii.eqb "-" "-") with true. cbv iota. cbn [mbind option_bind].
  rewrite take_num_pad by (change (10 ^ _) with 100; lia). cbn [mbind option_bind expect].
  change (Ascii.eqb "-" "-") with true. cbv iota. cbn [mbind option_bind].
  rewrite take_num_pad by (change (10 ^ _) with 100; lia). cbn [mbind option_bind].
  rewrite !Z.mul_0_l, !Z.add_0_l.
  repeat match goal with |- context [?a <=? ?b] =>
    replace (a <=? b) with true by (symmetry; apply Z.leb_le; lia) end.
  done.
Qed.

Lemma parse_time_chars us l : 0 <= us < us_per_day →
  parse_time (time_chars us ++ "+"%char :: l) = Some (us, "+"%char :: l).
Proof.
  unfold us_per_day. intros Hus. unfold time_chars. set (secs := us / 1000000).
  assert (0 <= secs < 86400) by (unfold secs; Z.div_mod_to_equations; lia).
  assert (us = secs * 1000000 + us mod 1000000) as Hus'
    by (unfold secs; Z.div_mod_to_equations; lia).
  pose proof (Z.mod_pos_bound us 1000000 ltac:(lia)) as Hfr.
  clearbody secs. set (fr := us mod 1000000) in *. clearbody fr.
  assert (0 <= secs / 3600 < 24) by (Z.div_mod_to_equations; lia).
  pose proof (Z.mod_pos_bound (secs / 60) 60 ltac:(lia)).
  pose proof (Z.mod_pos_bound secs 60 ltac:(lia)).
  assert ((secs / 3600 * 60 + secs / 60 mod 60) * 60 + secs mod 60 = secs) as Hs
    by (Z.div_mod_to_equations; lia).
  rewrite <- !app_assoc. cbn [app]. rewrite <- !app_assoc. cbn [app].
  rewrite <- !app_assoc. unfold parse_time.
  rewrite take_num_pad by (change (10 ^ _) with 100; lia). cbn [mbind option_bind expect].
  change (Ascii.eqb ":" ":") with true. cbv iota. cbn [mbind option_bind].
  rewrite take_num_pad by (change (10 ^ _) with 100; lia). cbn [mbind option_bind expect].
  change (Ascii.eqb ":" ":") with true. cbv iota. cbn [mbind option_bind].
  rewrite take_num_pad by (change (10 ^ _) with 100; lia). cbn [mbind option_bind].
  rewrite !Z.mul_0_l, !Z.add_0_l.
  repeat match goal with |- context [?a <=? ?b] =>
    replace (a <=? b) with true by (symmetry; apply Z.leb_le; lia) end.
  cbn [andb]. rewrite Hs. destruct (Z.eqb_spec fr 0) as [Hf|Hf].
  - cbn [app]. destruct l as [|c l]; cbn; repeat f_equal; lia.
  - cbn [app]. assert (∃ c r, pad 6 fr ++ "+"%char :: l = c :: r ∧ is_digit c = true)
      as (c & r & E & Hc).
    { do 2 eexists. split; [done|]. apply digit_char_spec. split;
        [apply Z.div_pos; [lia|done]|apply Z.div_lt_upper_bound; [done|]].
      change (10 ^ _) with 100000. lia. }
    rewrite E. change (Ascii.eqb "." ".") with true. cbn [orb andb]. rewrite Hc.
    cbn [drop]. rewrite <- E. rewrite parse_fraction_pad by (change (10 ^ _) with 1000000; done || lia).
    do 2 f_equal. lia.
Qed.

Lemma parse_offset_utc t :
  parse_offset t ["+"; "0"; "0"; ":"; "0"; "0"]%char = Some (Aware t).
Proof.
  transitivity (Some (Aware (t - 0))); [reflexivity|]. by rewrite Z.sub_0_r.
Qed.

(** [datetime.fromisoformat(t.isoformat())] is [t], up to the year 9999. *)
Lemma fromisoformat_isoformat t : 0 <= t < 253402300800000000 →
  fromisoformat (isoformat t) = Ok (Aware t).
Proof.
  intros Ht. unfold fromisoformat, isoformat, isoformat_chars. rewrite chars_text.
  pose proof (civil_from_days_spec (t / us_per_day)) as Hc.
  pose proof (civil_year_range t Ht) as Hy.
  destruct (civil_from_days _) as [[y m] d]. destruct Hc as (Hm & Hd & Hdays).
  rewrite parse_date_pad by done. cbn [mbind option_bind].
  rewrite Hdays.
  pose proof (Z.mod_pos_bound t us_per_day ltac:(done)) as Hus.
  pose proof (parse_time_chars (t mod us_per_day) ["0"; "0"; ":"; "0"; "0"]%char Hus) as E.
  rewrite E. cbn [mbind option_bind].
  pose proof (Z.div_mod t us_per_day ltac:(done)) as Ht'.
  rewrite parse_offset_utc. cbn. do 2 f_equal. lia.
Qed.

(** The text determines the time. *)
Lemma isoformat_inj t t' :
  0 <= t < 253402300800000000 → 0 <= t' < 253402300800000000 →
  isoformat t = isoformat t' → t = t'.
Proof.
  intros Ht Ht' E. pose proof (fromisoformat_isoformat t Ht) as H.
  rewrite E, fromisoformat_isoformat in H by done. by injection H.
Qed.
