(* ===== verification/Models.v ===== *)
(** * The database schema

    [app/models]: one record per table, in the order of the columns, the
    tables as finite maps from the primary key, and the constraints of the
    schema (unique keys, foreign keys) as a decidable predicate of the tables.
    A time is a number of microseconds since the epoch. *)

From Stdlib Require Import ZArith String Lia.
From stdpp Require Import base tactics option list gmap strings fin_maps.
From S2P Require Import Prelude PyText.
Local Open Scope Z_scope.

(** ** Rows *)

Record Tenant := {
  t_id : Z; t_slug : string; t_name : string; t_is_active : bool }.

Record User := {
  u_id : Z; u_tenant_id : Z; u_email : string; u_hashed_password : string;
  u_is_active : bool; u_role : string; u_token_version : Z }.

Record AuditLog := {
  al_id : Z; al_tenant_id : Z; al_admin_id : option Z; al_action : string;
  al_target_user_id : option Z; al_created_at : Z }.

Record IdempotencyRecord := {
  ir_id : Z; ir_scope_key : string; ir_status_code : Z; ir_response_body : string;
  ir_created_at : Z; ir_expires_at : Z }.

Record PasswordResetJobCompletion := {
  jc_id : Z; jc_job_id : string; jc_completed_at : Z }.

Record PasswordResetToken := {
  pt_id : Z; pt_user_id : Z; pt_token_hash : string; pt_expires_at : Z;
  pt_used_at : option Z; pt_created_at : Z }.

Record UploadedFile := {
  f_id : Z; f_tenant_id : Z; f_owner_id : Z; f_object_key : string; f_filename : string;
  f_content_type : string; f_size_bytes : Z; f_verification_status : string;
  f_created_at : Z }.

Record WebhookEvent := {
  we_id : Z; we_provider : string; we_event_id : string; we_payload_hash : string;
  we_received_at : Z }.

#[export] Instance Tenant_eq_dec : EqDecision Tenant.
Proof. solve_decision. Defined.
#[export] Instance User_eq_dec : EqDecision User.
Proof. solve_decision. Defined.
#[export] Instance AuditLog_eq_dec : EqDecision AuditLog.
Proof. solve_decision. Defined.
#[export] Instance IdempotencyRecord_eq_dec : EqDecision IdempotencyRecord.
Proof. solve_decision. Defined.
#[export] Instance PasswordResetJobCompletion_eq_dec : EqDecision PasswordResetJobCompletion.
Proof. solve_decision. Defined.
#[export] Instance PasswordResetToken_eq_dec : EqDecision PasswordResetToken.
Proof. solve_decision. Defined.
#[export] Instance UploadedFile_eq_dec : EqDecision UploadedFile.
Proof. solve_decision. Defined.
#[export] Instance WebhookEvent_eq_dec : EqDecision WebhookEvent.
Proof. solve_decision. Defined.

(** [AuditAction] *)
Definition USER_UPDATED : string := "user.updated".
Definition USER_DEACTIVATED : string := "user.deactivated".
Definition USER_ACTIVATED : string := "user.activated".
Definition USER_DELETED : string := "user.deleted".
Definition PASSWORD_RESET_REQUESTED : string := "password_reset.requested".
Definition PASSWORD_RESET_CONFIRMED : string := "password_reset.confirmed".
Definition TENANT_CREATED : string := "tenant.created".
Definition TENANT_ACTIVATED : string := "tenant.activated".
Definition TENANT_DEACTIVATED : string := "tenant.deactivated".

(** [UploadVerificationStatus] *)
Definition status_pending : string := "pending".
Definition status_verified : string := "verified".

(** ** Tables *)

Record tables := {
  tenants : gmap Z Tenant;
  users : gmap Z User;
  audit_logs : gmap Z AuditLog;
  idempotency_records : gmap Z IdempotencyRecord;
  job_completions : gmap Z PasswordResetJobCompletion;
  reset_tokens : gmap Z PasswordResetToken;
  uploaded_files : gmap Z UploadedFile;
  webhook_events : gmap Z WebhookEvent;
}.

Definition empty_tables : tables :=
  {| tenants := ∅; users := ∅; audit_logs := ∅; idempotency_records := ∅;
     job_completions := ∅; reset_tokens := ∅; uploaded_files := ∅; webhook_events := ∅ |}.

(** The mapped classes, by the type of their rows. *)
Inductive table : Type → Type :=
| TTenant : table Tenant
| TUser : table User
| TAuditLog : table AuditLog
| TIdempotencyRecord : table IdempotencyRecord
| TJobCompletion : table PasswordResetJobCompletion
| TResetToken : table PasswordResetToken
| TUploadedFile : table UploadedFile
| TWebhookEvent : table WebhookEvent.

Definition get_table {R} (t : table R) (d : tables) : gmap Z R :=
  match t in table R return gmap Z R with
  | TTenant => tenants d
  | TUser => users d
  | TAuditLog => audit_logs d
  | TIdempotencyRecord => idempotency_records d
  | TJobCompletion => job_completions d
  | TResetToken => reset_tokens d
  | TUploadedFile => uploaded_files d
  | TWebhookEvent => webhook_events d
  end.

Definition set_table {R} (t : table R) : gmap Z R → tables → tables :=
  match t in table R return gmap Z R → tables → tables with
  | TTenant => λ m d, {| tenants := m; users := users d; audit_logs := audit_logs d;
      idempotency_records := idempotency_records d; job_completions := job_completions d;
      reset_tokens := reset_tokens d; uploaded_files := uploaded_files d;
      webhook_events := webhook_events d |}
  | TUser => λ m d, {| tenants := tenants d; users := m; audit_logs := audit_logs d;
      idempotency_records := idempotency_records d; job_completions := job_completions d;
      reset_tokens := reset_tokens d; uploaded_files := uploaded_files d;
      webhook_events := webhook_events d |}
  | TAuditLog => λ m d, {| tenants := tenants d; users := users d; audit_logs := m;
      idempotency_records := idempotency_records d; job_completions := job_completions d;
      reset_tokens := reset_tokens d; uploaded_files := uploaded_files d;
      webhook_events := webhook_events d |}
  | TIdempotencyRecord => λ m d, {| tenants := tenants d; users := users d;
      audit_logs := audit_logs d; idempotency_records := m;
      job_completions := job_completions d; reset_tokens := reset_tokens d;
      uploaded_files := uploaded_files d; webhook_events := webhook_events d |}
  | TJobCompletion => λ m d, {| tenants := tenants d; users := users d;
      audit_logs := audit_logs d; idempotency_records := idempotency_records d;
      job_completions := m; reset_tokens := reset_tokens d;
      uploaded_files := uploaded_files d; webhook_events := webhook_events d |}
  | TResetToken => λ m d, {| tenants := tenants d; users := users d;
      audit_logs := audit_logs d; idempotency_records := idempotency_records d;
      job_completions := job_completions d; reset_tokens := m;
      uploaded_files := uploaded_files d; webhook_events := webhook_events d |}
  | TUploadedFile => λ m d, {| tenants := tenants d; users := users d;
      audit_logs := audit_logs d; idempotency_records := idempotency_records d;
      job_completions := job_completions d; reset_tokens := reset_tokens d;
      uploaded_files := m; webhook_events := webhook_events d |}
  | TWebhookEvent => λ m d, {| tenants := tenants d; users := users d;
      audit_logs := audit_logs d; idempotency_records := idempotency_records d;
      job_completions := job_completions d; reset_tokens := reset_tokens d;
      uploaded_files := uploaded_files d; webhook_events := m |}
  end.

(** ** Constraints *)

(** No two rows of the table have the same value of [key]. *)
Definition unique_on {R K} `{EqDecision K} (key : R → K) (m : gmap Z R) : Prop :=
  NoDup (key ∘ snd <$> map_to_list m).
#[export] Instance unique_on_dec {R K} `{EqDecision K} (key : R → K) (m : gmap Z R) :
  Decision (unique_on key m).
Proof. unfold unique_on. apply _. Defined.

(** Every row of the table refers to a row of the other one. *)
Definition refers {R R'} (fk : R → option Z) (m : gmap Z R) (m' : gmap Z R') : Prop :=
  map_Forall (λ _ r, match fk r with Some k => is_Some (m' !! k) | None => True end) m.
#[export] Instance refers_dec {R R'} (fk : R → option Z) (m : gmap Z R) (m' : gmap Z R') :
  Decision (refers fk m m').
Proof.
  unfold refers. apply map_Forall_dec. intros i r. destruct (fk r); apply _.
Defined.

Definition unique_constraints (d : tables) : Prop :=
  unique_on t_slug (tenants d) ∧
  unique_on (λ u, (u_tenant_id u, u_email u)) (users d) ∧
  unique_on ir_scope_key (idempotency_records d) ∧
  unique_on jc_job_id (job_completions d) ∧
  unique_on pt_token_hash (reset_tokens d) ∧
  unique_on f_object_key (uploaded_files d) ∧
  unique_on (λ e, (we_provider e, we_event_id e)) (webhook_events d).
#[export] Instance unique_constraints_dec d : Decision (unique_constraints d).
Proof. unfold unique_constraints. apply _. Defined.

Definition foreign_keys (d : tables) : Prop :=
  refers (Some ∘ u_tenant_id) (users d) (tenants d) ∧
  refers (Some ∘ al_tenant_id) (audit_logs d) (tenants d) ∧
  refers al_admin_id (audit_logs d) (users d) ∧
  refers (Some ∘ pt_user_id) (reset_tokens d) (users d) ∧
  refers (Some ∘ f_tenant_id) (uploaded_files d) (tenants d) ∧
  refers (Some ∘ f_owner_id) (uploaded_files d) (users d).
#[export] Instance foreign_keys_dec d : Decision (foreign_keys d).
Proof. unfold foreign_keys. apply _. Defined.

Definition constraints (d : tables) : Prop := unique_constraints d ∧ foreign_keys d.
#[export] Instance constraints_dec d : Decision (constraints d).
Proof. unfold constraints. apply _. Defined.

(** Deleting a row.  The reset tokens of a user (the [delete-orphan] cascade
    of the relationship and [ON DELETE CASCADE]) and the files a user owns
    ([ON DELETE CASCADE]) go with it. *)
Definition delete_row {R} (t : table R) (k : Z) (d : tables) : tables :=
  match t with
  | TUser =>
      set_table TResetToken (filter (λ '(_, r), pt_user_id r ≠ k) (reset_tokens d))
      (set_table TUploadedFile (filter (λ '(_, f), f_owner_id f ≠ k) (uploaded_files d))
      (set_table TUser (delete k (users d)) d))
  | t => set_table t (delete k (get_table t d)) d
  end.

(** ** Facts *)

Lemma get_set_table {R} (t : table R) m d : get_table t (set_table t m d) = m.
Proof. by destruct t. Qed.

Lemma unique_on_spec {R K} `{EqDecision K} (key : R → K) (m : gmap Z R) :
  unique_on key m ↔
  ∀ i j r r', m !! i = Some r → m !! j = Some r' → key r = key r' → i = j.
Proof.
  unfold unique_on. induction m as [|k r m Hk IH] using map_ind.
  - rewrite map_to_list_empty. cbn. split; [|constructor].
    intros _ i j r r' H. by rewrite lookup_empty in H.
  - rewrite map_to_list_insert by done. cbn. rewrite NoDup_cons, IH.
    rewrite list_elem_of_fmap. split.
    + intros [Hn Hu] i j a b Ha Hb Hab.
      apply lookup_insert_Some in Ha as [[<- <-]|[Hi Ha]];
        apply lookup_insert_Some in Hb as [[<- <-]|[Hj Hb]]; [done|..].
      * destruct Hn. exists (j, b). by rewrite elem_of_map_to_list.
      * destruct Hn. exists (i, a). by rewrite elem_of_map_to_list.
      * eauto.
    + intros Hu. split.
      * intros ([j b] & Heq & Hb%elem_of_map_to_list). cbn in *.
        assert (k = j) as <-; [|by rewrite Hk in Hb].
        apply (Hu k j r b); [by rewrite lookup_insert_eq| |done].
        rewrite lookup_insert_ne; [done|]. by intros ->; rewrite Hk in Hb.
      * intros i j a b Ha Hb. apply Hu; rewrite lookup_insert_ne; try done;
          intros ->; congruence.
Qed.
