(* ===== verification/Permissions.v ===== *)
(** * Permissions

    [app/core/permissions.py], [app/services/permission_service.py] and
    [app/services/tenant_membership_service.py]: which role may do what, and who
    may read or change whom. *)

From Stdlib Require Import ZArith String.
From stdpp Require Import base tactics option list gmap strings.
From S2P Require Import Prelude PyText Json Errors Models.
Local Open Scope string_scope.
Local Open Scope Z_scope.

Inductive Permission : Type :=
| USERS_LIST | USERS_READ | USERS_READ_SELF | USERS_UPDATE | USERS_UPDATE_SELF
| USERS_DELETE | USERS_ACTIVATE | USERS_DEACTIVATE | ADMIN_ACCESS | AUDIT_LOGS_LIST
| FILES_UPLOAD | FILES_DOWNLOAD | FILES_DOWNLOAD_SELF | FILES_DELETE | FILES_DELETE_SELF
| TENANTS_LIST | TENANTS_PROVISION | TENANTS_MANAGE.

#[export] Instance Permission_eq_dec : EqDecision Permission.
Proof. solve_decision. Defined.

(** [permission.value] *)
Definition value (p : Permission) : string :=
  match p with
  | USERS_LIST => "users.list"
  | USERS_READ => "users.read"
  | USERS_READ_SELF => "users.read.self"
  | USERS_UPDATE => "users.update"
  | USERS_UPDATE_SELF => "users.update.self"
  | USERS_DELETE => "users.delete"
  | USERS_ACTIVATE => "users.activate"
  | USERS_DEACTIVATE => "users.deactivate"
  | ADMIN_ACCESS => "admin.access"
  | AUDIT_LOGS_LIST => "audit_logs.list"
  | FILES_UPLOAD => "files.upload"
  | FILES_DOWNLOAD => "files.download"
  | FILES_DOWNLOAD_SELF => "files.download.self"
  | FILES_DELETE => "files.delete"
  | FILES_DELETE_SELF => "files.delete.self"
  | TENANTS_LIST => "tenants.list"
  | TENANTS_PROVISION => "tenants.provision"
  | TENANTS_MANAGE => "tenants.manage"
  end.

(** The members of the enumeration. *)
Definition all_permissions : list Permission :=
  [USERS_LIST; USERS_READ; USERS_READ_SELF; USERS_UPDATE; USERS_UPDATE_SELF;
   USERS_DELETE; USERS_ACTIVATE; USERS_DEACTIVATE; ADMIN_ACCESS; AUDIT_LOGS_LIST;
   FILES_UPLOAD; FILES_DOWNLOAD; FILES_DOWNLOAD_SELF; FILES_DELETE; FILES_DELETE_SELF;
   TENANTS_LIST; TENANTS_PROVISION; TENANTS_MANAGE].

Definition USER_PERMISSIONS : list Permission :=
  [USERS_READ_SELF; USERS_UPDATE_SELF; FILES_UPLOAD; FILES_DOWNLOAD_SELF; FILES_DELETE_SELF].

Definition TENANT_ADMIN_PERMISSIONS : list Permission :=
  filter (λ p, startswith (value p) "tenants." = false) all_permissions.

Definition PLATFORM_ADMIN_PERMISSIONS : list Permission := all_permissions.

(** [d.get(key)] on a dictionary written as a list of items. *)
Fixpoint lookup_str {A} (k : string) (l : list (string * A)) : option A :=
  match l with
  | [] => None
  | (k', a) :: l' => if String.eqb k k' then Some a else lookup_str k l'
  end.

Definition ROLE_PERMISSIONS : list (string * list Permission) :=
  [("user", USER_PERMISSIONS); ("admin", TENANT_ADMIN_PERMISSIONS);
   ("platform_admin", PLATFORM_ADMIN_PERMISSIONS)].

Definition ROLE_HIERARCHY : list (string * list string) :=
  [("platform_admin", ["platform_admin"; "admin"; "user"]);
   ("admin", ["admin"; "user"]); ("user", ["user"])].

(** ** [permission_service.py] *)

Definition get_permissions_for_role (role : string) : list Permission :=
  opt_default [] (lookup_str role ROLE_PERMISSIONS).

Definition role_includes (actor_role required_role : string) : bool :=
  bool_decide (required_role ∈ opt_default [] (lookup_str actor_role ROLE_HIERARCHY)).

Definition user_has_permission (user : User) (permission : Permission) : bool :=
  bool_decide (permission ∈ get_permissions_for_role (u_role user)).

Definition user_has_any_permission (user : User) (permissions : list Permission) : bool :=
  existsb (λ p, bool_decide (p ∈ get_permissions_for_role (u_role user))) permissions.

Definition users_share_tenant (current_user target_user : User) : bool :=
  u_tenant_id current_user =? u_tenant_id target_user.

Definition can_read_user (current_user target_user : User) : bool :=
  if negb (users_share_tenant current_user target_user) then false
  else if user_has_permission current_user USERS_READ then true
  else (u_id current_user =? u_id target_user) &&
       user_has_permission current_user USERS_READ_SELF.

Definition can_update_user (current_user target_user : User) : bool :=
  if negb (users_share_tenant current_user target_user) then false
  else if user_has_permission current_user USERS_UPDATE then true
  else (u_id current_user =? u_id target_user) &&
       user_has_permission current_user USERS_UPDATE_SELF.

(** ** [tenant_membership_service.py] *)

Definition tenant_access_denied : exn := raised ForbiddenError "Tenant access denied".

Definition user_belongs_to_tenant (user : User) (tenant_id : Z) : bool :=
  u_tenant_id user =? tenant_id.

Definition assert_user_belongs_to_tenant (user : User) (tenant_id : Z) : result exn unit :=
  if negb (user_belongs_to_tenant user tenant_id) then Err tenant_access_denied else Ok tt.

(** [tenant] is the related row, [user.tenant]. *)
Definition assert_active_tenant_membership (tenant : option Tenant) : result exn unit :=
  match tenant with
  | None => Err tenant_access_denied
  | Some t => if negb (t_is_active t) then Err tenant_access_denied else Ok tt
  end.

Definition assert_request_tenant_matches_user (user : User) (request_tenant : Tenant) :
    result exn unit :=
  if negb (u_tenant_id user =? t_id request_tenant) then Err tenant_access_denied else Ok tt.

(** ** Facts *)

Lemma lookup_str_cases {A} k (l : list (string * A)) :
  (∃ a, lookup_str k l = Some a ∧ (k, a) ∈ l) ∨ (lookup_str k l = None ∧ k ∉ l.*1).
Proof.
  induction l as [|[k' a] l IH]; cbn.
  - right. split; [done|]. by intros ?%elem_of_nil.
  - destruct (String.eqb_spec k k') as [->|Hne].
    + left. exists a. split; [done|by left].
    + destruct IH as [(b & Hb & Hin)|[Hb Hin]]; [left|right].
      * exists b. split; [done|by right].
      * split; [done|]. by intros [?|?]%elem_of_cons.
Qed.

(** The three roles, or one without permissions. *)
Lemma role_cases r :
  r = "user" ∨ r = "admin" ∨ r = "platform_admin" ∨
  (lookup_str r ROLE_PERMISSIONS = None ∧ lookup_str r ROLE_HIERARCHY = None).
Proof.
  unfold ROLE_PERMISSIONS, ROLE_HIERARCHY. cbn [lookup_str].
  destruct (String.eqb_spec r "user"); [by left|].
  destruct (String.eqb_spec r "admin"); [by right; left|].
  destruct (String.eqb_spec r "platform_admin"); [by do 2 right; left|].
  by do 3 right.
Qed.

Lemma user_has_permission_spec u p :
  user_has_permission u p = true ↔ p ∈ get_permissions_for_role (u_role u).
Proof. apply bool_decide_eq_true. Qed.

(** A text that is no role has no permission and includes nothing. *)
Lemma no_role r p : lookup_str r ROLE_PERMISSIONS = None → p ∉ get_permissions_for_role r.
Proof. unfold get_permissions_for_role. intros ->. apply not_elem_of_nil. Qed.

(** A role that includes another one has all of its permissions, whatever
    texts the two roles are; the tenant permissions are those of
    [platform_admin] only. *)
Theorem role_hierarchy_sound a b p :
  (role_includes a b = true → p ∈ get_permissions_for_role b →
   p ∈ get_permissions_for_role a) ∧
  (startswith (value p) "tenants." = true →
   (p ∈ get_permissions_for_role a ↔ a = "platform_admin")).
Proof.
  split.
  - destruct (role_cases b) as [->|[->|[->|[Hp _]]]];
      [..|intros _ Hb; by apply no_role in Hb];
    destruct (role_cases a) as [->|[->|[->|[_ Hh]]]];
      try (unfold role_includes; rewrite Hh; done);
      apply (bool_decide_unpack _); destruct p; vm_compute; exact I.
  - intros Ht. destruct (role_cases a) as [->|[->|[->|[Hp _]]]].
    + apply (bool_decide_unpack _). destruct p; try discriminate Ht; vm_compute; exact I.
    + apply (bool_decide_unpack _). destruct p; try discriminate Ht; vm_compute; exact I.
    + apply (bool_decide_unpack _). destruct p; try discriminate Ht; vm_compute; exact I.
    + split; [intros Ha; by apply no_role in Ha|]. intros ->. discriminate Hp.
Qed.

(** C11: who may read or change whom.  Only users of the same tenant; an admin
    anyone of it, a user only themselves, and a user whose role is unknown
    nobody. *)
Theorem user_access_spec (me other : User) :
  let staff := u_role me = "admin" ∨ u_role me = "platform_admin" in
  let self := u_id me = u_id other ∧ u_role me = "user" in
  (can_read_user me other = true ↔ u_tenant_id me = u_tenant_id other ∧ (staff ∨ self)) ∧
  (can_update_user me other = true ↔ u_tenant_id me = u_tenant_id other ∧ (staff ∨ self)).
Proof.
  cbn zeta. unfold can_read_user, can_update_user, users_share_tenant.
  destruct (Z.eqb_spec (u_tenant_id me) (u_tenant_id other)) as [Ht|Ht]; cbn [negb]; [|naive_solver].
  assert (∀ p, user_has_permission me p = bool_decide (p ∈ get_permissions_for_role (u_role me)))
    as Hp by done.
  rewrite !Hp. destruct (role_cases (u_role me)) as [->|[->|[->|[Hr _]]]].
  - change (bool_decide (USERS_READ ∈ _)) with false.
    change (bool_decide (USERS_UPDATE ∈ _)) with false.
    change (bool_decide (USERS_READ_SELF ∈ _)) with true.
    change (bool_decide (USERS_UPDATE_SELF ∈ _)) with true.
    destruct (Z.eqb_spec (u_id me) (u_id other)); naive_solver.
  - change (bool_decide (USERS_READ ∈ _)) with true.
    change (bool_decide (USERS_UPDATE ∈ _)) with true. naive_solver.
  - change (bool_decide (USERS_READ ∈ _)) with true.
    change (bool_decide (USERS_UPDATE ∈ _)) with true. naive_solver.
  - assert (∀ p, bool_decide (p ∈ get_permissions_for_role (u_role me)) = false) as Hno.
    { intros p. apply bool_decide_eq_false. by apply no_role. }
    rewrite !Hno, !andb_false_r. split; (split; [done|]);
      intros [_ [[Hu|Hu]|[_ Hu]]]; rewrite Hu in Hr; discriminate Hr.
Qed.
