(* ===== verification/Services.v ===== *)
(** * The services the program calls

    Redis, PostgreSQL through a SQLAlchemy session, S3, SMTP, the clock, the
    random sources and the state of the process.  They are not code of the
    repository: a program of the development is a tree of the commands it sends
    ([prog]), and what a command does is a parameter ([Services]) about which
    only documented behaviour is assumed ([ServicesSpec], against [svc_spec]).

    - A command is atomic.  Time may pass before it, and a shutdown signal may
      arrive.
    - With [faults], any command to Redis, the database or S3 may also raise the
      error of its client library, and then it was either carried out or not.
    - A time is in microseconds; scores of sorted sets (times in seconds in the
      code) are too, so the rounding of floats is outside the model. *)

From Stdlib Require Import ZArith Ascii String Lia.
From stdpp Require Import base tactics option list gmap strings sorting fin_maps.
From S2P Require Import Prelude PyText Json Errors Models.
Local Open Scope Z_scope.

(** ** Redis *)

Inductive redis_value : Type :=
| RStr (s : string)
| RList (l : list string)
| RZset (z : gmap string Z).

Record redis_entry := REntry { re_value : redis_value; re_expires : option Z }.
Abbreviation rstate := (gmap string redis_entry).

Inductive redis_cmd : Type → Type :=
| LPUSH (k v : string) : redis_cmd Z
| LREM1 (k v : string) : redis_cmd Z                      (* LREM k 1 v *)
| BRPOPLPUSH (src dst : string) (timeout : Z) : redis_cmd (option string)
| RPOP (k : string) : redis_cmd (option string)
| LRANGE (k : string) (first last : Z) : redis_cmd (list string)
| ZADD (k member : string) (score : Z) : redis_cmd Z
| ZREM (k member : string) : redis_cmd Z
| ZRANGEBYSCORE (k : string) (lo hi : Z) : redis_cmd (list string)
| SET (k v : string) (nx : bool) (ex : option Z) : redis_cmd bool
| GET (k : string) : redis_cmd (option string)
| EXISTS (k : string) : redis_cmd Z
| DEL (k : string) : redis_cmd Z
| DELS (ks : list string) : redis_cmd Z                   (* DEL of several keys *)
| INCR (k : string) : redis_cmd Z
| EXPIRE (k : string) (seconds : Z) : redis_cmd bool
| PING : redis_cmd bool.

Definition second : Z := 1000000.

(** The entry of a key at a time: a key is gone once its time to live is over. *)
Definition live (now : Z) (st : rstate) (k : string) : option redis_entry :=
  match st !! k with
  | Some e => match re_expires e with
              | Some t => if t <=? now then None else Some e
              | None => Some e
              end
  | None => None
  end.

Definition wrong_type : exn :=
  RedisError "WRONGTYPE Operation against a key holding the wrong kind of value".

Definition as_list (now : Z) (st : rstate) (k : string) :
    result exn (list string * option Z) :=
  match live now st k with
  | None => Ok ([], None)
  | Some (REntry (RList l) ex) => Ok (l, ex)
  | Some _ => Err wrong_type
  end.
Definition as_zset (now : Z) (st : rstate) (k : string) :
    result exn (gmap string Z * option Z) :=
  match live now st k with
  | None => Ok (∅, None)
  | Some (REntry (RZset z) ex) => Ok (z, ex)
  | Some _ => Err wrong_type
  end.
Definition as_str (now : Z) (st : rstate) (k : string) :
    result exn (option (string * option Z)) :=
  match live now st k with
  | None => Ok None
  | Some (REntry (RStr s) ex) => Ok (Some (s, ex))
  | Some _ => Err wrong_type
  end.

(** An empty list or sorted set is no key at all. *)
Definition put_list (k : string) (l : list string) (ex : option Z) (st : rstate) : rstate :=
  match l with [] => delete k st | _ => <[k := REntry (RList l) ex]> st end.
Definition put_zset (k : string) (z : gmap string Z) (ex : option Z) (st : rstate) : rstate :=
  if decide (z = ∅) then delete k st else <[k := REntry (RZset z) ex]> st.

(** [l[first..last]], both included, counted from the end when negative. *)
Definition lrange {A} (first last : Z) (l : list A) : list A :=
  let n := Z.of_nat (length l) in
  let norm i := if i <? 0 then Z.max 0 (n + i) else i in
  let last' := if last <? 0 then n + last else last in
  take (Z.to_nat (last' + 1 - norm first)) (drop (Z.to_nat (norm first)) l).

(** Members by score, then by name. *)
Definition zle (a b : string * Z) : Prop :=
  a.2 < b.2 ∨ (a.2 = b.2 ∧ String.leb a.1 b.1 = true).
#[export] Instance zle_dec a b : Decision (zle a b).
Proof. unfold zle. apply _. Defined.

Definition zrange (lo hi : Z) (z : gmap string Z) : list string :=
  fst <$> filter (λ '(_, s), lo <= s <= hi) (merge_sort zle (map_to_list z)).

(** DEL of several keys: how many there were. *)
Fixpoint delete_keys (now : Z) (ks : list string) (st : rstate) : Z * rstate :=
  match ks with
  | [] => (0, st)
  | k :: ks' =>
      let '(n, st') := delete_keys now ks' (delete k st) in
      ((if decide (is_Some (live now st k)) then 1 else 0) + n, st')
  end.

Definition redis_exec {B} (now : Z) (c : redis_cmd B) (st : rstate) :
    result exn B * rstate :=
  match c in redis_cmd B return result exn B * rstate with
  | LPUSH k v =>
      match as_list now st k with
      | Ok (l, ex) => (Ok (Z.of_nat (S (length l))), put_list k (v :: l) ex st)
      | Err e => (Err e, st)
      end
  | LREM1 k v =>
      match as_list now st k with
      | Ok (l, ex) => if decide (v ∈ l) then (Ok 1, put_list k (remove_first v l) ex st)
                      else (Ok 0, st)
      | Err e => (Err e, st)
      end
  | BRPOPLPUSH src dst _ =>
      match as_list now st src with
      | Ok (l, ex) =>
          match unsnoc l with
          | None => (Ok None, st)
          | Some (l', v) =>
              let st' := put_list src l' ex st in
              match as_list now st' dst with
              | Ok (d, ex') => (Ok (Some v), put_list dst (v :: d) ex' st')
              | Err e => (Err e, st)
              end
          end
      | Err e => (Err e, st)
      end
  | RPOP k =>
      match as_list now st k with
      | Ok (l, ex) => match unsnoc l with
                      | None => (Ok None, st)
                      | Some (l', v) => (Ok (Some v), put_list k l' ex st)
                      end
      | Err e => (Err e, st)
      end
  | LRANGE k a b =>
      match as_list now st k with
      | Ok (l, _) => (Ok (lrange a b l), st)
      | Err e => (Err e, st)
      end
  | ZADD k m s =>
      match as_zset now st k with
      | Ok (z, ex) => (Ok (if decide (is_Some (z !! m)) then 0 else 1),
                       put_zset k (<[m := s]> z) ex st)
      | Err e => (Err e, st)
      end
  | ZREM k m =>
      match as_zset now st k with
      | Ok (z, ex) => if decide (is_Some (z !! m)) then (Ok 1, put_zset k (delete m z) ex st)
                      else (Ok 0, st)
      | Err e => (Err e, st)
      end
  | ZRANGEBYSCORE k lo hi =>
      match as_zset now st k with
      | Ok (z, _) => (Ok (zrange lo hi z), st)
      | Err e => (Err e, st)
      end
  | SET k v nx ex =>
      let e := REntry (RStr v) ((λ s, now + s * second) <$> ex) in
      if match ex with Some s => s <=? 0 | None => false end
      then (Err (RedisError "invalid expire time in 'set' command"), st)
      else if nx && bool_decide (is_Some (live now st k)) then (Ok false, st)
      else (Ok true, <[k := e]> st)
  | GET k =>
      match as_str now st k with
      | Ok o => (Ok (fst <$> o), st)
      | Err e => (Err e, st)
      end
  | EXISTS k => (Ok (if decide (is_Some (live now st k)) then 1 else 0), st)
  | DEL k => (Ok (if decide (is_Some (live now st k)) then 1 else 0), delete k st)
  | DELS ks => let '(n, st') := delete_keys now ks st in (Ok n, st')
  | INCR k =>
      match as_str now st k with
      | Ok None => (Ok 1, <[k := REntry (RStr "1") None]> st)
      | Ok (Some (s, ex)) =>
          match int_of_str s with
          | Some n =>
              if String.eqb (str_of_int n) s && (- 2 ^ 63 <=? n) && (n + 1 <? 2 ^ 63)
              then (Ok (n + 1), <[k := REntry (RStr (str_of_int (n + 1))) ex]> st)
              else (Err (RedisError "value is not an integer or out of range"), st)
          | None => (Err (RedisError "value is not an integer or out of range"), st)
          end
      | Err e => (Err e, st)
      end
  | EXPIRE k s =>
      match live now st k with
      | Some e => (Ok true, if s <=? 0 then delete k st
                            else <[k := REntry (re_value e) (Some (now + s * second))]> st)
      | None => (Ok false, st)
      end
  | PING => (Ok true, st)
  end.

(** ** The database session

    One session belongs to the running request or job.  What it has changed is
    a list of writes, [s_pending] not yet sent (the session does not autoflush)
    and [s_flushed] sent in the open transaction; the committed tables are the
    ones every session sees.  A write that gives a column a value of the wrong
    nullity is [None]. *)

Definition write : Type := tables → option tables.

Record session := Session { s_flushed : list write; s_pending : list write }.
Definition empty_session : session := Session [] [].

Record query (R : Type) := Query {
  q_where : R → bool;
  q_order : R → R → bool;            (* before or equal; [λ _ _, true] without ORDER BY *)
  q_offset : nat;
  q_limit : option nat;
}.
Arguments Query {R}.
Arguments q_where {R}.
Arguments q_order {R}.
Arguments q_offset {R}.
Arguments q_limit {R}.

Inductive db_cmd : Type → Type :=
| Select {R} (t : table R) (q : query R) : db_cmd (list R)
| Add {R} (t : table R) (mk : Z → Z → R) : db_cmd R  (* from the key and the time *)
| SetRow {R} (t : table R) (key : Z) (f : R → option R) : db_cmd unit
| DeleteRow {R} (t : table R) (key : Z) : db_cmd unit
| BulkUpdate {R} (t : table R) (p : R → bool) (f : R → R) : db_cmd Z
| BulkDelete {R} (t : table R) (p : R → bool) : db_cmd Z
| Refresh {R} (t : table R) (key : Z) : db_cmd R
| Flush : db_cmd unit
| Commit : db_cmd unit
| Rollback : db_cmd unit
| Close : db_cmd unit
| SelectOne : db_cmd unit.                             (* SELECT 1 *)

Definition run_writes (ws : list write) (d : tables) : option tables :=
  fold_left (λ od w, d ← od; w d) ws (Some d).

(** What the open transaction sees. *)
Definition tx_view (d : tables) (s : session) : option tables :=
  run_writes (s_flushed s) d.

Definition rows {R} (t : table R) (d : tables) : list R := snd <$> map_to_list (get_table t d).

(** Any two rows are comparable: what an ORDER BY clause gives. *)
Definition total_order {R} (le : R → R → bool) : Prop :=
  ∀ a b, le a b = true ∨ le b a = true.

(** The rows a query may return: some order of the matching rows that respects
    ORDER BY, cut by OFFSET and LIMIT. *)
Definition select_spec {R} (q : query R) (l res : list R) : Prop :=
  ∃ l', l' ≡ₚ filter (λ r, q_where q r = true) l ∧
        (total_order (q_order q) → Sorted (λ a b, q_order q a b = true) l') ∧
        res = match q_limit q with
              | Some n => take n (drop (q_offset q) l')
              | None => drop (q_offset q) l'
              end.

Definition insert_row {R} (t : table R) (key : Z) (r : R) : write :=
  λ d, Some (set_table t (<[key := r]> (get_table t d)) d).
Definition set_row {R} (t : table R) (key : Z) (f : R → option R) : write :=
  λ d, match get_table t d !! key with
       | Some r => r' ← f r; Some (set_table t (<[key := r']> (get_table t d)) d)
       | None => Some d
       end.
Definition drop_row {R} (t : table R) (key : Z) : write := λ d, Some (delete_row t key d).
Definition bulk_update {R} (t : table R) (p : R → bool) (f : R → R) : write :=
  λ d, Some (set_table t ((λ r, if p r then f r else r) <$> get_table t d) d).
Definition bulk_delete {R} (t : table R) (p : R → bool) : write :=
  λ d, Some (fold_right (delete_row t) d
               (fst <$> filter (λ '(_, r), p r = true) (map_to_list (get_table t d)))).

Definition count {R} (t : table R) (p : R → bool) (d : tables) : Z :=
  Z.of_nat (length (filter (λ r, p r = true) (rows t d))).

(** ** The rest of the world *)

Record s3_object := S3Object { o_body : string; o_content_type : string }.

Inductive s3_cmd : Type → Type :=
| PutObject (key body content_type : string) : s3_cmd unit
| UploadFileobj (key body content_type : string) : s3_cmd unit
| DeleteObject (key : string) : s3_cmd unit
| HeadObject (key : string) : s3_cmd (Z * string)      (* ContentLength, ContentType *)
| GetObject (key : string) : s3_cmd string
| HeadBucket : s3_cmd unit.

Record mail := Mail { m_from : string; m_to : string; m_subject : string; m_body : string }.

(** The reply of an HTTP server: its status and its body; a request that was
    answered. *)
Record http_reply := HttpReply { h_status : Z; h_body : string }.
Record post := Post { p_url : string; p_filename : string; p_body : string;
                      p_reply : http_reply }.

(** The module-level and context variables of the process. *)
Record proc := Proc {
  p_request_id : option string;
  p_tenant_id : option Z;
  p_tenant_slug : option string;
  p_in_flight : Z;
  p_shutdown_requested : bool;
  p_job_in_progress : bool;
  p_last_maintenance_attempt_at : Z;
  p_last_queue_maintenance_at : Z;
}.

(** A sample recorded by the Prometheus client. *)
Record sample := Sample { sm_name : string; sm_labels : list string }.

Inductive svc : Type → Type :=
| Redis {B} (c : redis_cmd B) : svc B
| Db {B} (c : db_cmd B) : svc B
| S3 {B} (c : s3_cmd B) : svc B
| SendMail (m : mail) : svc unit
| HttpPost (url filename body : string) : svc http_reply
| Now : svc Z
| Monotonic : svc Z
| Sleep (us : Z) : svc unit
| RandBits (k : N) : svc Z
| TokenUrlsafe : svc string
| BcryptHash (password : string) : svc string
| OnProc {B} (f : proc → B * proc) : svc B
| Observe (m : sample) : svc unit.

Record world := World {
  w_clock : Z;
  w_monotonic : Z;
  w_redis : rstate;
  w_db : tables;
  w_session : session;
  w_s3 : gmap string s3_object;
  w_mail : list mail;
  w_posts : list post;
  w_proc : proc;
  w_metrics : list sample;
}.

(** The world as it may be when the next command is carried out. *)
Definition set_shutdown (b : bool) (p : proc) : proc :=
  {| p_request_id := p_request_id p; p_tenant_id := p_tenant_id p;
     p_tenant_slug := p_tenant_slug p; p_in_flight := p_in_flight p;
     p_shutdown_requested := b; p_job_in_progress := p_job_in_progress p;
     p_last_maintenance_attempt_at := p_last_maintenance_attempt_at p;
     p_last_queue_maintenance_at := p_last_queue_maintenance_at p |}.

Definition with_clock (t m : Z) (p : proc) (w : world) : world :=
  {| w_clock := t; w_monotonic := m; w_redis := w_redis w; w_db := w_db w;
     w_session := w_session w; w_s3 := w_s3 w; w_mail := w_mail w; w_posts := w_posts w; w_proc := p;
     w_metrics := w_metrics w |}.
Definition with_redis (st : rstate) (w : world) : world :=
  {| w_clock := w_clock w; w_monotonic := w_monotonic w; w_redis := st; w_db := w_db w;
     w_session := w_session w; w_s3 := w_s3 w; w_mail := w_mail w; w_posts := w_posts w; w_proc := w_proc w;
     w_metrics := w_metrics w |}.
Definition with_db (d : tables) (s : session) (w : world) : world :=
  {| w_clock := w_clock w; w_monotonic := w_monotonic w; w_redis := w_redis w; w_db := d;
     w_session := s; w_s3 := w_s3 w; w_mail := w_mail w; w_posts := w_posts w; w_proc := w_proc w;
     w_metrics := w_metrics w |}.
Definition with_s3 (o : gmap string s3_object) (w : world) : world :=
  {| w_clock := w_clock w; w_monotonic := w_monotonic w; w_redis := w_redis w;
     w_db := w_db w; w_session := w_session w; w_s3 := o; w_mail := w_mail w; w_posts := w_posts w;
     w_proc := w_proc w; w_metrics := w_metrics w |}.
Definition with_mail (m : list mail) (w : world) : world :=
  {| w_clock := w_clock w; w_monotonic := w_monotonic w; w_redis := w_redis w;
     w_db := w_db w; w_session := w_session w; w_s3 := w_s3 w; w_mail := m; w_posts := w_posts w;
     w_proc := w_proc w; w_metrics := w_metrics w |}.
Definition with_posts (l : list post) (w : world) : world :=
  {| w_clock := w_clock w; w_monotonic := w_monotonic w; w_redis := w_redis w;
     w_db := w_db w; w_session := w_session w; w_s3 := w_s3 w; w_mail := w_mail w;
     w_posts := l; w_proc := w_proc w; w_metrics := w_metrics w |}.
Definition with_proc (p : proc) (w : world) : world :=
  {| w_clock := w_clock w; w_monotonic := w_monotonic w; w_redis := w_redis w;
     w_db := w_db w; w_session := w_session w; w_s3 := w_s3 w; w_mail := w_mail w; w_posts := w_posts w;
     w_proc := p; w_metrics := w_metrics w |}.
Definition with_metrics (m : list sample) (w : world) : world :=
  {| w_clock := w_clock w; w_monotonic := w_monotonic w; w_redis := w_redis w;
     w_db := w_db w; w_session := w_session w; w_s3 := w_s3 w; w_mail := w_mail w; w_posts := w_posts w;
     w_proc := w_proc w; w_metrics := m |}.

Definition advance (w w' : world) : Prop :=
  ∃ t m b, w_clock w <= t ∧ w_monotonic w <= m ∧
    (p_shutdown_requested (w_proc w) = true → b = true) ∧
    w' = with_clock t m (set_shutdown b (w_proc w)) w.

(** The errors a command may raise when its service fails. *)
Definition infra_error {B} (c : svc B) (e : exn) : Prop :=
  match c with
  | Redis _ => ∃ m, e = RedisError m
  | Db _ => ∃ m, e = OperationalError m
  | S3 _ => ∃ m, e = ClientError m ∨ e = BotoCoreError m
  | SendMail _ => ∃ m, e = OSError m
  | HttpPost _ _ _ => ∃ m, e = URLError m
  | _ => False
  end.

(** ** Cryptography

    The functions of [hashlib], [hmac], [passlib] and [python-jose]. *)

Class Crypto := {
  sha256_hex : string → string;
  hmac_sha256_hex : string → string → string;       (* key, message *)
  bcrypt_verify : string → string → bool;           (* password, hash *)
  bcrypt_refuses : string → bool;                   (* a ValueError for the password *)
  jwt_encode : list (string * json) → string → string → string;  (* claims, key, algorithm *)
  jwt_decode : Z → string → string → string → result exn (list (string * json));
      (* now in whole seconds, token, key, algorithm *)
}.

(** What [python-jose] documents: the claims of a token are what was signed, a
    token is accepted until its expiry and only with the key and algorithm it was
    signed with; what the expiry, the subject and the identifier of the claims
    must be; a refused token raises a [JWTError]. *)
Class CryptoSpec `{Crypto} : Prop := {
  jwt_decode_encode now claims key alg exp :
    dict_get "exp" claims = Some (JInt exp) → now <= exp →
    json_wf (JObj claims) →
    (∀ k, k ∈ claims.*1 → k ∉ ["nbf"; "iat"; "aud"; "iss"; "at_hash"]%string) →
    (∀ v, dict_get "sub" claims = Some v → ∃ s, v = JStr s) →
    (∀ v, dict_get "jti" claims = Some v → ∃ s, v = JStr s) →
    jwt_decode now (jwt_encode claims key alg) key alg = Ok claims;
  jwt_decode_claims now now' token key alg claims claims' :
    jwt_decode now token key alg = Ok claims →
    jwt_decode now' token key alg = Ok claims' → claims' = claims;
  jwt_decode_expiry now token key alg claims exp :
    jwt_decode now token key alg = Ok claims →
    dict_get "exp" claims = Some (JInt exp) → now <= exp;
  jwt_decode_error now token key alg e :
    jwt_decode now token key alg = Err e → ∃ m, e = JWTError m;
}.

(** ** SQL texts

    The order of the database's collation and its ILIKE operator with a
    backslash as escape character: [%] matches any text, [_] any character, and
    letters are compared after folding their case. *)

Section like.
Context (fold_case : ascii → ascii).

Fixpoint like (p t : list ascii) : bool :=
  match p with
  | [] => bool_decide (t = [])
  | x :: p' =>
      if Ascii.eqb x "%" then
        (fix any t := like p' t || match t with [] => false | _ :: t' => any t' end) t
      else if Ascii.eqb x "_" then
        match t with [] => false | _ :: t' => like p' t' end
      else if Ascii.eqb x "\" then
        match p', t with
        | y :: p'', c :: t' => Ascii.eqb (fold_case c) (fold_case y) && like p'' t'
        | _, _ => false
        end
      else match t with
           | [] => false
           | c :: t' => Ascii.eqb (fold_case c) (fold_case x) && like p' t'
           end
  end.
End like.

Class SqlText := {
  text_le : string → string → bool;
  fold_case : ascii → ascii;
  ilike : string → string → bool;                   (* text, pattern *)
}.

(** The order is total, and ILIKE is as documented. *)
Class SqlTextSpec `{SqlText} : Prop := {
  text_le_total a b : text_le a b = true ∨ text_le b a = true;
  text_le_antisym a b : text_le a b = true → text_le b a = true → a = b;
  text_le_trans a b c : text_le a b = true → text_le b c = true → text_le a c = true;
  ilike_spec t p : ilike t p = like fold_case (chars p) (chars t);
}.

(** ** What the services promise *)

Section spec.
Context `{Crypto} (faults : bool).

Definition all_writes (s : session) : list write := s_flushed s ++ s_pending s.

(** Sending every write: a violated constraint raises and ends the transaction. *)
Definition flush_result (w : world) : option tables :=
  d ← run_writes (all_writes (w_session w)) (w_db w);
  if decide (constraints d) then Some d else None.

Definition bulk (wr : write) (w : world) : option tables :=
  d ← run_writes (s_flushed (w_session w) ++ [wr]) (w_db w);
  if decide (constraints d) then Some d else None.

Definition push (wr : write) (w : world) : world :=
  with_db (w_db w) (Session (s_flushed (w_session w)) (s_pending (w_session w) ++ [wr])) w.
Definition push_flushed (wr : write) (w : world) : world :=
  with_db (w_db w) (Session (s_flushed (w_session w) ++ [wr]) (s_pending (w_session w))) w.
Definition end_session (w : world) : world := with_db (w_db w) empty_session w.

Definition aborted : exn := OperationalError "current transaction is aborted".

Definition bulk_spec {R} (t : table R) (p : R → bool) (wr : write) (w : world)
    (r : result exn Z) (w' : world) : Prop :=
  match tx_view (w_db w) (w_session w), bulk wr w with
  | Some d, Some _ => r = Ok (count t p d) ∧ w' = push_flushed wr w
  | _, _ => r = Err IntegrityError ∧ w' = end_session w
  end.

Definition db_spec {B} (c : db_cmd B) (w : world) : result exn B → world → Prop :=
  match c in db_cmd B return result exn B → world → Prop with
  | Select t q => λ r w',
      w' = w ∧ match tx_view (w_db w) (w_session w) with
               | Some d => ∃ res, select_spec q (rows t d) res ∧ r = Ok res
               | None => r = Err aborted
               end
  | Add t mk => λ r w',
      ∃ key created, created <= w_clock w ∧
        (∀ d, run_writes (all_writes (w_session w)) (w_db w) = Some d →
              get_table t d !! key = None) ∧
        r = Ok (mk key created) ∧ w' = push (insert_row t key (mk key created)) w
  | SetRow t key f => λ r w', r = Ok tt ∧ w' = push (set_row t key f) w
  | DeleteRow t key => λ r w', r = Ok tt ∧ w' = push (drop_row t key) w
  | BulkUpdate t p f => bulk_spec t p (bulk_update t p f) w
  | BulkDelete t p => bulk_spec t p (bulk_delete t p) w
  | Refresh t key => λ r w',
      w' = w ∧ r = match d ← tx_view (w_db w) (w_session w); get_table t d !! key with
                   | Some row => Ok row
                   | None => Err (InvalidRequestError "Could not refresh instance")
                   end
  | Flush => λ r w',
      match flush_result w with
      | Some d => r = Ok tt ∧ w' = with_db (w_db w) (Session (all_writes (w_session w)) []) w
      | None => r = Err IntegrityError ∧ w' = end_session w
      end
  | Commit => λ r w',
      match flush_result w with
      | Some d => r = Ok tt ∧ w' = with_db d empty_session w
      | None => r = Err IntegrityError ∧ w' = end_session w
      end
  | Rollback => λ r w', r = Ok tt ∧ w' = end_session w
  | Close => λ r w', r = Ok tt ∧ w' = end_session w
  | SelectOne => λ r w', r = Ok tt ∧ w' = w
  end.

Definition no_such_key : exn := ClientError "404".

Definition s3_exec {B} (c : s3_cmd B) (o : gmap string s3_object) :
    result exn B * gmap string s3_object :=
  match c in s3_cmd B return result exn B * gmap string s3_object with
  | PutObject k b ct | UploadFileobj k b ct => (Ok tt, <[k := S3Object b ct]> o)
  | DeleteObject k => (Ok tt, delete k o)
  | HeadObject k =>
      (match o !! k with
       | Some ob => Ok (slen (o_body ob), o_content_type ob)
       | None => Err no_such_key
       end, o)
  | GetObject k =>
      (match o !! k with Some ob => Ok (o_body ob) | None => Err no_such_key end, o)
  | HeadBucket => (Ok tt, o)
  end.

(** A command carried out at the instant [w]. *)
Definition cmd_spec {B} (c : svc B) (w : world) : result exn B → world → Prop :=
  match c in svc B return result exn B → world → Prop with
  | Redis c => λ r w',
      (r, w') = let '(r, st) := redis_exec (w_clock w) c (w_redis w) in (r, with_redis st w)
  | Db c => db_spec c w
  | S3 c => λ r w',
      (r, w') = let '(r, o) := s3_exec c (w_s3 w) in (r, with_s3 o w)
  | SendMail m => λ r w', r = Ok tt ∧ w' = with_mail (m :: w_mail w) w
  | HttpPost url filename body => λ r w', ∃ reply,
      r = Ok reply ∧ w' = with_posts (Post url filename body reply :: w_posts w) w
  | Now => λ r w', r = Ok (w_clock w) ∧ w' = w
  | Monotonic => λ r w', r = Ok (w_monotonic w) ∧ w' = w
  | Sleep us => λ r w',
      r = Ok tt ∧
      w' = with_clock (w_clock w + Z.max 0 us) (w_monotonic w + Z.max 0 us) (w_proc w) w
  | RandBits k => λ r w', w' = w ∧ ∃ n, r = Ok n ∧ 0 <= n < 2 ^ Z.of_N k
  | TokenUrlsafe => λ r w', w' = w ∧ ∃ t, r = Ok t ∧ slen t = 43
  | BcryptHash pw => λ r w',
      w' = w ∧ if bcrypt_refuses pw then ∃ m, r = Err (ValueError m)
               else ∃ h, r = Ok h ∧ bcrypt_verify pw h = true
  | OnProc f => λ r w', let '(b, p) := f (w_proc w) in r = Ok b ∧ w' = with_proc p w
  | Observe m => λ r w', r = Ok tt ∧ w' = with_metrics (m :: w_metrics w) w
  end.

Definition svc_spec {B} (c : svc B) (w : world) (r : result exn B) (w' : world) : Prop :=
  ∃ w1, advance w w1 ∧
    (cmd_spec c w1 r w' ∨
     faults = true ∧ ∃ e, infra_error c e ∧ r = Err e ∧
       (w' = w1 ∨ ∃ r', cmd_spec c w1 r' w')).
End spec.

(** The services themselves: how they answer a command, in states of which the
    development sees the [view]. *)
Class Services (W : Type) := {
  serve : ∀ B, svc B → W → result exn B * W;
  view : W → world;
}.
Arguments serve {W _ B} c w.

Class ServicesSpec `{Crypto} (faults : bool) (W : Type) `{Services W} : Prop :=
  serve_spec : ∀ B (c : svc B) (w : W),
    svc_spec faults c (view w) (fst (serve c w)) (view (snd (serve c w))).

(** ** Programs *)

Inductive prog (A : Type) : Type :=
| Ret (a : A)
| Raise (e : exn)
| Call (B : Type) (c : svc B) (k : result exn B → prog A).
Arguments Ret {A} a.
Arguments Raise {A} e.
Arguments Call {A B} c k.

Fixpoint bind {A B} (p : prog A) (f : A → prog B) : prog B :=
  match p with
  | Ret a => f a
  | Raise e => Raise e
  | Call c k => Call c (λ r, bind (k r) f)
  end.

(** [try: p except e: h(e)] *)
Fixpoint catch {A} (p : prog A) (h : exn → prog A) : prog A :=
  match p with
  | Ret a => Ret a
  | Raise e => h e
  | Call c k => Call c (λ r, catch (k r) h)
  end.

(** [try: p finally: q] *)
Fixpoint finally {A} (p : prog A) (q : prog unit) : prog A :=
  match p with
  | Ret a => bind q (λ _, Ret a)
  | Raise e => bind q (λ _, Raise e)
  | Call c k => Call c (λ r, finally (k r) q)
  end.

Definition of_result {A} (r : result exn A) : prog A :=
  match r with Ok a => Ret a | Err e => Raise e end.

(** A command whose error is raised. *)
Definition call {B} (c : svc B) : prog B := Call c of_result.

#[export] Instance prog_ret : MRet prog := @Ret.
#[export] Instance prog_bind : MBind prog := λ A B f p, bind p f.

Definition redis {B} (c : redis_cmd B) : prog B := call (Redis c).
Definition db {B} (c : db_cmd B) : prog B := call (Db c).
Definition s3 {B} (c : s3_cmd B) : prog B := call (S3 c).
Definition on_proc {B} (f : proc → B * proc) : prog B := call (OnProc f).
Definition read_proc {B} (f : proc → B) : prog B := on_proc (λ p, (f p, p)).
Definition set_proc (f : proc → proc) : prog unit := on_proc (λ p, (tt, f p)).
Definition now_us : prog Z := call Now.

(** [db.query(R).filter(p).first()] *)
Definition one_where {R} (p : R → bool) : query R := Query p (λ _ _, true) 0 (Some 1%nat).
Definition first {R} (t : table R) (p : R → bool) : prog (option R) :=
  l ← db (Select t (one_where p)); Ret (head l).

(** A request handler: the session of [get_db] is closed at its end. *)
Definition in_session {A} (p : prog A) : prog A := finally p (db Close).

(** Running a program against the services. *)
Fixpoint run `{Services W} {A} (p : prog A) (w : W) : result exn A * W :=
  match p with
  | Ret a => (Ok a, w)
  | Raise e => (Err e, w)
  | Call c k => let '(r, w') := serve c w in run (k r) w'
  end.
