(* ===== verification/Programs.v ===== *)
(** * Reasoning about programs

    A weakest precondition for [prog] against the documented behaviour of the
    services ([svc_spec]), its rules, and its soundness for every implementation
    of the services: what [wp] shows of a program holds of [run]. *)

From Stdlib Require Import ZArith String Lia.
From stdpp Require Import base tactics option list gmap strings sorting fin_maps.
From S2P Require Import Prelude PyText Json Errors Models Services.
Local Open Scope Z_scope.

(** ** Weakest preconditions *)

Section wp.
Context `{Crypto} (faults : bool).

Fixpoint wp {A} (p : prog A) (Q : result exn A → world → Prop) (w : world) : Prop :=
  match p with
  | Ret a => Q (Ok a) w
  | Raise e => Q (Err e) w
  | Call c k => ∀ r w', svc_spec faults c w r w' → wp (k r) Q w'
  end.

(** The same, with every state the program goes through, the first and the last
  included, satisfying [I]: what another client, or a crash, can see. *)
Fixpoint wpi {A} (I : world → Prop) (p : prog A) (Q : result exn A → world → Prop)
    (w : world) : Prop :=
  I w ∧ match p with
        | Ret a => Q (Ok a) w
        | Raise e => Q (Err e) w
        | Call c k => ∀ r w', svc_spec faults c w r w' → wpi I (k r) Q w'
        end.

(** A postcondition of the normal results only. *)
Definition on_ok {A} (Q : A → world → Prop) (r : result exn A) (w : world) : Prop :=
  match r with Ok a => Q a w | Err _ => True end.

Lemma wp_mono {A} (p : prog A) (Q Q' : result exn A → world → Prop) w :
  (∀ r w', Q r w' → Q' r w') → wp p Q w → wp p Q' w.
Proof. intros HQ. revert w. induction p; cbn; eauto. Qed.

Lemma wp_and {A} (p : prog A) (Q Q' : result exn A → world → Prop) w :
  wp p Q w → wp p Q' w → wp p (λ r w', Q r w' ∧ Q' r w') w.
Proof. revert w. induction p; cbn; eauto. Qed.

Lemma wp_bind {A B} (p : prog A) (f : A → prog B) Q w :
  wp p (λ r w', match r with Ok a => wp (f a) Q w' | Err e => Q (Err e) w' end) w →
  wp (bind p f) Q w.
Proof. revert w. induction p; cbn; eauto. Qed.

Lemma wp_catch {A} (p : prog A) (h : exn → prog A) Q w :
  wp p (λ r w', match r with Ok a => Q (Ok a) w' | Err e => wp (h e) Q w' end) w →
  wp (catch p h) Q w.
Proof. revert w. induction p; cbn; eauto. Qed.

Lemma wp_finally {A} (p : prog A) (q : prog unit) Q w :
  wp p (λ r w', wp q (λ r' w', match r' with Ok _ => Q r w' | Err e => Q (Err e) w' end) w') w →
  wp (finally p q) Q w.
Proof.
  revert w. induction p; cbn; eauto; intros w Hw; apply wp_bind;
    (eapply wp_mono; [|exact Hw]); by intros [] ?.
Qed.

Lemma wp_of_result {A} (r : result exn A) Q w : Q r w → wp (of_result r) Q w.
Proof. by destruct r. Qed.

Lemma wp_ret_bind {A B} (a : A) (f : A → prog B) Q w :
  wp (f a) Q w → wp (Ret a ≫= f) Q w.
Proof. done. Qed.
Lemma wp_ok_bind {A B} (a : A) (f : A → prog B) Q w :
  wp (f a) Q w → wp (of_result (Ok a) ≫= f) Q w.
Proof. done. Qed.
Lemma wp_err_bind {A B} e (f : A → prog B) Q w :
  Q (Err e) w → wp (of_result (Err e) ≫= f) Q w.
Proof. done. Qed.

Lemma wp_call {B} (c : svc B) Q w :
  (∀ r w', svc_spec faults c w r w' → Q r w') → wp (call c) Q w.
Proof. cbn. intros HQ r w' Hr. apply wp_of_result. eauto. Qed.
End wp.

Section wpi.
Context `{Crypto} (faults : bool) (I : world → Prop).

Lemma wpi_inv {A} (p : prog A) Q w : wpi faults I p Q w → I w.
Proof. by destruct p; intros [? _]. Qed.

Lemma wpi_mono {A} (p : prog A) (Q Q' : result exn A → world → Prop) w :
  (∀ r w', I w' → Q r w' → Q' r w') → wpi faults I p Q w → wpi faults I p Q' w.
Proof. intros HQ. revert w. induction p; cbn; intros w []; eauto. Qed.

Lemma wpi_mono_ok {A} (p : prog A) (Q Q' : A → world → Prop) w :
  (∀ a w', I w' → Q a w' → Q' a w') → wpi faults I p (on_ok Q) w → wpi faults I p (on_ok Q') w.
Proof. intros HQ. apply wpi_mono. intros [a|e] w'; cbn; auto. Qed.

Lemma wpi_bind {A B} (p : prog A) (f : A → prog B) Q w :
  wpi faults I p (λ r w', match r with Ok a => wpi faults I (f a) Q w' | Err e => Q (Err e) w' end) w →
  wpi faults I (bind p f) Q w.
Proof. revert w. induction p; cbn; intros w []; eauto. Qed.

Lemma wpi_bind_ok {A B} (p : prog A) (f : A → prog B) Q w :
  wpi faults I p (on_ok (λ a w', wpi faults I (f a) (on_ok Q) w')) w →
  wpi faults I (bind p f) (on_ok Q) w.
Proof. intros Hp. apply wpi_bind. by eapply wpi_mono; [|exact Hp]; intros [] ?. Qed.

Lemma wpi_catch {A} (p : prog A) (h : exn → prog A) Q w :
  wpi faults I p (λ r w', match r with Ok a => Q (Ok a) w' | Err e => wpi faults I (h e) Q w' end) w →
  wpi faults I (catch p h) Q w.
Proof. revert w. induction p; cbn; intros w []; eauto. Qed.

Lemma wpi_finally {A} (p : prog A) (q : prog unit) Q w :
  wpi faults I p (λ r w', wpi faults I q
    (λ r' w', match r' with Ok _ => Q r w' | Err e => Q (Err e) w' end) w') w →
  wpi faults I (finally p q) Q w.
Proof.
  revert w. induction p; cbn; intros w [HI Hw]; [| |by eauto];
    apply wpi_bind; (eapply wpi_mono; [|exact Hw]); intros [] ?; by cbn.
Qed.

Lemma wpi_ret {A} (a : A) Q w : I w → Q (Ok a) w → wpi faults I (Ret a) Q w.
Proof. done. Qed.
Lemma wpi_raise {A} e (Q : A → world → Prop) w : I w → wpi faults I (Raise e) (on_ok Q) w.
Proof. done. Qed.
Lemma wpi_of_result {A} (r : result exn A) Q w : I w → Q r w → wpi faults I (of_result r) Q w.
Proof. by destruct r. Qed.

Lemma wpi_call {B} (c : svc B) Q w :
  I w → (∀ r w', svc_spec faults c w r w' → I w' ∧ Q r w') → wpi faults I (call c) Q w.
Proof. cbn. intros HI HQ. split; [done|]. intros r w' Hr. apply wpi_of_result; naive_solver. Qed.

(** A program whose commands all keep [I]. *)
Fixpoint keeps {A} (P : ∀ B, svc B → Prop) (p : prog A) : Prop :=
  match p with
  | Call c k => P _ c ∧ ∀ r, keeps P (k r)
  | _ => True
  end.

Lemma wpi_keeps {A} (P : ∀ B, svc B → Prop) (p : prog A) w :
  (∀ B (c : svc B) w r w', P B c → svc_spec faults c w r w' → I w → I w') →
  keeps P p → I w → wpi faults I p (λ _ _, True) w.
Proof.
  intros HP. revert w. induction p as [| |B c k IH]; intros w; cbn; [done..|].
  intros [Hc Hk] HI. split; [done|]. intros r w' Hr. eauto.
Qed.

Lemma keeps_bind {A B} P (p : prog A) (f : A → prog B) :
  keeps P p → (∀ a, keeps P (f a)) → keeps P (bind p f).
Proof. intros Hp Hf. induction p; cbn in *; naive_solver. Qed.
Lemma keeps_catch {A} P (p : prog A) h :
  keeps P p → (∀ e, keeps P (h e)) → keeps P (catch p h).
Proof. intros Hp Hf. induction p; cbn in *; naive_solver. Qed.
Lemma keeps_of_result {A} P (r : result exn A) : keeps P (of_result r).
Proof. by destruct r. Qed.
Lemma keeps_call {B} (P : ∀ B, svc B → Prop) (c : svc B) : P B c → keeps P (call c).
Proof. intros Hc. split; [done|]. intros r. apply keeps_of_result. Qed.
Lemma keeps_finally {A} P (p : prog A) q : keeps P p → keeps P q → keeps P (finally p q).
Proof. intros Hp Hq. induction p; cbn in *; [by apply keeps_bind..|naive_solver]. Qed.
End wpi.

(** Every command of a program, one construct after the other. *)
Ltac solve_keeps :=
  repeat first
    [ done
    | apply keeps_of_result
    | apply keeps_call; done
    | apply keeps_bind; [|intros ?]
    | apply keeps_catch; [|intros ?]
    | case_match ].

(** The states of a run, from the first to the last. *)
Fixpoint trace `{Services W} {A} (p : prog A) (w : W) : list W :=
  w :: match p with
       | Call c k => let '(r, w') := serve c w in trace (k r) w'
       | _ => []
       end.

Lemma wpi_trace `{ServicesSpec faults W} {A} I (p : prog A) Q w :
  wpi faults I p Q (view w) →
  Forall (I ∘ view) (trace p w) ∧ Q (fst (run p w)) (view (snd (run p w))).
Proof.
  revert w. induction p as [a|e|B c k IH]; intros w; cbn; [naive_solver..|].
  intros [HI Hwp]. pose proof (serve_spec B c w) as Hs.
  destruct (serve c w) as [r w']. cbn in Hs.
  destruct (IH r w' (Hwp _ _ Hs)). by split; [constructor|].
Qed.

(** What [wp] shows holds of every run. *)
Lemma wp_run `{ServicesSpec faults W} {A} (p : prog A) Q w :
  wp faults p Q (view w) → Q (fst (run p w)) (view (snd (run p w))).
Proof.
  revert w. induction p as [a|e|B c k IH]; intros w; cbn; [done..|].
  intros Hwp. pose proof (serve_spec B c w) as Hs.
  destruct (serve c w) as [r w']. cbn in Hs. by apply IH, Hwp.
Qed.

(** ** Running *)

Lemma run_bind `{Services W} {A B} (p : prog A) (f : A → prog B) w :
  run (bind p f) w =
    match run p w with
    | (Ok a, w') => run (f a) w'
    | (Err e, w') => (Err e, w')
    end.
Proof.
  revert w. induction p; intros w; cbn; [done..|].
  destruct (serve c w); cbn. auto.
Qed.

Lemma run_catch `{Services W} {A} (p : prog A) (h : exn → prog A) w :
  run (catch p h) w =
    match run p w with
    | (Ok a, w') => (Ok a, w')
    | (Err e, w') => run (h e) w'
    end.
Proof.
  revert w. induction p; intros w; cbn; [done..|].
  destruct (serve c w); cbn. auto.
Qed.

Lemma run_finally `{Services W} {A} (p : prog A) (q : prog unit) w :
  run (finally p q) w =
    let '(r, w1) := run p w in
    match run q w1 with (Ok _, w2) => (r, w2) | (Err e, w2) => (Err e, w2) end.
Proof.
  revert w. induction p as [| |B c k IH]; intros w; cbn; [rewrite run_bind; by destruct (run q w) as [[]]..|].
  destruct (serve c w). apply IH.
Qed.

(** ** Time *)

#[export] Instance advance_refl : Reflexive advance.
Proof.
  intros [t m ? ? ? ? ? ? [? ? ? ? b ? ? ?] ?]. exists t, m, b. cbn.
  split_and!; [lia..|done|done].
Qed.

#[export] Instance advance_trans : Transitive advance.
Proof.
  intros w1 w2 w3 (t & m & b & Ht & Hm & Hb & ->) (t' & m' & b' & Ht' & Hm' & Hb' & ->).
  exists t', m', b'. cbn in *. split_and!; [lia..|auto|done].
Qed.

Lemma advance_clock w w1 : advance w w1 → w_clock w <= w_clock w1.
Proof. by intros (t & m & b & Ht & Hm & Hb & ->). Qed.
Lemma advance_monotonic w w1 : advance w w1 → w_monotonic w <= w_monotonic w1.
Proof. by intros (t & m & b & Ht & Hm & Hb & ->). Qed.
Lemma advance_redis w w1 : advance w w1 → w_redis w1 = w_redis w.
Proof. by intros (t & m & b & Ht & Hm & Hb & ->). Qed.
Lemma advance_db w w1 : advance w w1 → w_db w1 = w_db w.
Proof. by intros (t & m & b & Ht & Hm & Hb & ->). Qed.
Lemma advance_session w w1 : advance w w1 → w_session w1 = w_session w.
Proof. by intros (t & m & b & Ht & Hm & Hb & ->). Qed.
Lemma advance_s3 w w1 : advance w w1 → w_s3 w1 = w_s3 w.
Proof. by intros (t & m & b & Ht & Hm & Hb & ->). Qed.
Lemma advance_mail w w1 : advance w w1 → w_mail w1 = w_mail w.
Proof. by intros (t & m & b & Ht & Hm & Hb & ->). Qed.

(** The clock never goes back. *)
Lemma cmd_clock `{Crypto} {B} (c : svc B) w r w' :
  cmd_spec c w r w' → w_clock w <= w_clock w'.
Proof.
  destruct c; cbn [cmd_spec].
  - destruct (redis_exec _ _ _). by intros [= -> ->].
  - destruct c; cbn; unfold bulk_spec; intros; repeat case_match;
      naive_solver (cbn; lia).
  - destruct (s3_exec _ _). by intros [= -> ->].
  - by intros [_ ->].
  - by intros (reply & _ & ->).
  - by intros [_ ->].
  - by intros [_ ->].
  - intros [_ ->]. cbn. lia.
  - by intros [-> _].
  - by intros [-> _].
  - by intros [-> _].
  - destruct (f _). by intros [_ ->].
  - by intros [_ ->].
Qed.

Lemma svc_clock `{Crypto} faults {B} (c : svc B) w r w' :
  svc_spec faults c w r w' → w_clock w <= w_clock w'.
Proof.
  intros (w1 & Hadv & Hcase). apply advance_clock in Hadv. etrans; [exact Hadv|].
  destruct Hcase as [Hs|(_ & e & _ & _ & [->|[r' Hs]])]; [|done|]; by eapply cmd_clock.
Qed.

Lemma wp_clock `{Crypto} faults {A} (p : prog A) w :
  wp faults p (λ _ w', w_clock w <= w_clock w') w.
Proof.
  assert (∀ w1, w_clock w <= w_clock w1 → wp faults p (λ _ w', w_clock w <= w_clock w') w1) as Hp;
    [|by apply Hp].
  induction p as [| |B c k IH]; intros w1 Hw; cbn; [done..|].
  intros r w' Hs%svc_clock. apply IH. lia.
Qed.

(** Only a Redis command changes Redis. *)
Definition is_redis {B} (c : svc B) : bool :=
  match c with Redis _ => true | _ => false end.

Lemma cmd_redis_frame `{Crypto} {B} (c : svc B) w r w' :
  is_redis c = false → cmd_spec c w r w' → w_redis w' = w_redis w.
Proof.
  destruct c; cbn [is_redis cmd_spec]; intros Hr; try done.
  - destruct c; cbn; unfold bulk_spec; intros; repeat case_match; naive_solver.
  - destruct (s3_exec _ _). by intros [= -> ->].
  - by intros [_ ->].
  - by intros (reply & _ & ->).
  - by intros [_ ->].
  - by intros [_ ->].
  - by intros [_ ->].
  - by intros [-> _].
  - by intros [-> _].
  - by intros [-> _].
  - destruct (f _). by intros [_ ->].
  - by intros [_ ->].
Qed.

(** Only sending an email changes the outbox. *)
Definition is_mail {B} (c : svc B) : bool :=
  match c with SendMail _ => true | _ => false end.

Lemma cmd_mail_frame `{Crypto} {B} (c : svc B) w r w' :
  is_mail c = false → cmd_spec c w r w' → w_mail w' = w_mail w.
Proof.
  destruct c; cbn [is_mail cmd_spec]; intros Hr; try done.
  - destruct (redis_exec _ _ _). by intros [= -> ->].
  - destruct c; cbn; unfold bulk_spec; intros; repeat case_match; naive_solver.
  - destruct (s3_exec _ _). by intros [= -> ->].
  - by intros (reply & _ & ->).
  - by intros [_ ->].
  - by intros [_ ->].
  - by intros [_ ->].
  - by intros [-> _].
  - by intros [-> _].
  - by intros [-> _].
  - destruct (f _). by intros [_ ->].
  - by intros [_ ->].
Qed.

(** Only COMMIT changes the committed tables. *)
Definition is_commit {B} (c : svc B) : bool :=
  match c with Db c => match c with Commit => true | _ => false end | _ => false end.

Lemma cmd_db_frame `{Crypto} {B} (c : svc B) w r w' :
  is_commit c = false → cmd_spec c w r w' → w_db w' = w_db w.
Proof.
  destruct c; cbn [is_commit cmd_spec]; intros Hr; try done.
  - destruct (redis_exec _ _ _). by intros [= -> ->].
  - destruct c; cbn; unfold bulk_spec; intros; repeat case_match; naive_solver.
  - destruct (s3_exec _ _). by intros [= -> ->].
  - by intros [_ ->].
  - by intros (reply & _ & ->).
  - by intros [_ ->].
  - by intros [_ ->].
  - by intros [_ ->].
  - by intros [-> _].
  - by intros [-> _].
  - by intros [-> _].
  - destruct (f _). by intros [_ ->].
  - by intros [_ ->].
Qed.

Lemma svc_db_frame `{Crypto} faults {B} (c : svc B) w r w' :
  is_commit c = false → svc_spec faults c w r w' → w_db w' = w_db w.
Proof.
  intros Hc (w1 & Hadv & Hcase). rewrite <- (advance_db _ _ Hadv).
  destruct Hcase as [Hs|(_ & e & _ & _ & [->|[r' Hs]])]; [|done|]; by eapply cmd_db_frame.
Qed.

Lemma svc_mail_frame `{Crypto} faults {B} (c : svc B) w r w' :
  is_mail c = false → svc_spec faults c w r w' → w_mail w' = w_mail w.
Proof.
  intros Hc (w1 & Hadv & Hcase). rewrite <- (advance_mail _ _ Hadv).
  destruct Hcase as [Hs|(_ & e & _ & _ & [->|[r' Hs]])]; [|done|]; by eapply cmd_mail_frame.
Qed.

Definition no_commit {A} (p : prog A) : Prop := keeps (λ _ c, is_commit c = false) p.

(** The errors of the services are not the program's own. *)
Lemma svc_not_domain `{Crypto} faults {B} (c : svc B) w e w' :
  svc_spec faults c w (Err e) w' → is_domain_error e = false.
Proof.
  intros (w1 & _ & [Hs|(_ & e' & He & [= <-] & _)]).
  - destruct c; cbn [cmd_spec] in Hs; try done.
    + destruct c; cbn in Hs; unfold as_list, as_str, as_zset in Hs; repeat case_match;
        by simplify_eq.
    + destruct c; cbn in Hs; unfold bulk_spec in Hs; repeat case_match; naive_solver.
    + destruct c; cbn in Hs; repeat case_match; by simplify_eq.
    + by destruct Hs.
    + by destruct Hs as (? & ? & _).
    + by destruct Hs.
    + by destruct Hs.
    + by destruct Hs.
    + by destruct Hs as (_ & ? & ? & _).
    + by destruct Hs as (_ & ? & ? & _).
    + destruct Hs as [_ Hs]. case_match; [by destruct Hs as [m [= ->]]|by destruct Hs as (h & ? & _)].
    + destruct (f _). by destruct Hs.
    + by destruct Hs.
  - destruct c; cbn in He; try done; by destruct He as [? He]; destruct_or? He; subst.
Qed.

(** A program that raises no domain error of its own. *)
Fixpoint no_domain {A} (p : prog A) : Prop :=
  match p with
  | Ret _ => True
  | Raise e => is_domain_error e = false
  | Call c k => ∀ r, (∀ e, r = Err e → is_domain_error e = false) → no_domain (k r)
  end.

Lemma no_domain_call {B} (c : svc B) : no_domain (call c).
Proof. intros [b|e] He; cbn; [done|]. by apply He. Qed.

Lemma no_domain_bind {A B} (p : prog A) (f : A → prog B) :
  no_domain p → (∀ a, no_domain (f a)) → no_domain (bind p f).
Proof. intros Hp Hf. induction p; cbn in *; naive_solver. Qed.

Lemma no_domain_catch {A} (p : prog A) h :
  no_domain p → (∀ e, is_domain_error e = false → no_domain (h e)) → no_domain (catch p h).
Proof. intros Hp Hf. induction p; cbn in *; naive_solver. Qed.

(** Its errors can be told from domain errors. *)
Lemma wpi_not_domain `{Crypto} faults I {A} (p : prog A) (Q : A → world → Prop) w :
  no_domain p → wpi faults I p (on_ok Q) w →
  wpi faults I p (λ r w', match r with Ok a => Q a w' | Err e => is_domain_error e = false end) w.
Proof.
  revert w. induction p as [a|e|B c k IH]; intros w Hp; cbn [wpi]; intros [HI Hw].
  - by split.
  - by split.
  - split; [done|]. intros r w' Hs. apply IH; [|by apply Hw]. apply Hp. intros e ->.
    by eapply svc_not_domain.
Qed.

(** Time has passed when a program ends. *)
Lemma wpi_clock `{Crypto} faults I {A} (p : prog A) (Q : A → world → Prop) w :
  wpi faults I p (on_ok Q) w →
  wpi faults I p (on_ok (λ a w', Q a w' ∧ w_clock w <= w_clock w')) w.
Proof.
  intros Hw.
  enough (∀ w1, w_clock w <= w_clock w1 → wpi faults I p (on_ok Q) w1 →
    wpi faults I p (on_ok (λ a w', Q a w' ∧ w_clock w <= w_clock w')) w1) as Hall
    by (apply Hall; [lia|done]).
  clear Hw. induction p as [a|e|B c k IH]; intros w1 Hc; cbn [wpi]; intros [HI Hw]; [by split..|].
  split; [done|]. intros r w' Hs. apply IH; [apply svc_clock in Hs; lia|by apply Hw].
Qed.

(** ** Redis commands *)

Section redis.
Context `{Crypto} (faults : bool).

(** A Redis command without failures. *)
Lemma wp_redis {B} (c : redis_cmd B) Q w :
  faults = false →
  (∀ w1, advance w w1 →
     let '(r, st) := redis_exec (w_clock w1) c (w_redis w) in Q r (with_redis st w1)) →
  wp faults (redis c) Q w.
Proof.
  intros -> HQ. apply wp_call. intros r w' (w1 & Hadv & [Hc|[? _]]); [|done].
  specialize (HQ _ Hadv). cbn in Hc. rewrite (advance_redis _ _ Hadv) in Hc.
  destruct (redis_exec _ _ _). by injection Hc as -> ->.
Qed.

(** A Redis command, failures included: an error may hide an effect. *)
Lemma wp_redis_faulty {B} (c : redis_cmd B) Q w :
  (∀ w1, advance w w1 →
     let '(r, st) := redis_exec (w_clock w1) c (w_redis w) in
     Q r (with_redis st w1) ∧
     (faults = true → ∀ m, Q (Err (RedisError m)) w1 ∧ Q (Err (RedisError m)) (with_redis st w1))) →
  wp faults (redis c) Q w.
Proof.
  intros HQ. apply wp_call. intros r w' (w1 & Hadv & Hc).
  specialize (HQ _ Hadv). cbn in Hc. rewrite (advance_redis _ _ Hadv) in Hc.
  destruct (redis_exec _ _ _) as [r0 st0]. destruct HQ as [HQ1 HQ2].
  destruct Hc as [[= -> ->]|(Hf & e & [m ->] & -> & [->|[r' [= -> ->]]])]; [done|..];
    by apply HQ2.
Qed.

Lemma wp_now Q w :
  (∀ w1, advance w w1 → Q (Ok (w_clock w1)) w1) → wp faults now_us Q w.
Proof.
  intros HQ. apply wp_call. intros r w' (w1 & Hadv & [[-> ->]|(_ & e & [] & _)]).
  auto.
Qed.

Lemma wp_on_proc {B} (f : proc → B * proc) Q w :
  (∀ w1, advance w w1 → let '(b, p) := f (w_proc w1) in Q (Ok b) (with_proc p w1)) →
  wp faults (on_proc f) Q w.
Proof.
  intros HQ. apply wp_call. intros r w' (w1 & Hadv & [Hc|(_ & e & [] & _)]).
  specialize (HQ _ Hadv). cbn in Hc. destruct (f _). by destruct Hc as [-> ->].
Qed.
End redis.

(** ** Several programs at once

    A pool of programs that share the services: a program may start at any
    time, and each step carries out the next command of one of them.  With
    [crashes] a program may also stop anywhere. *)

Definition killed : exn := OSError "killed".

Section pool.
Context `{Crypto} {A : Type} (faults crashes : bool) (may_start : prog A → Prop).

Inductive pool_step : list (prog A) * world → list (prog A) * world → Prop :=
| pool_start p ps w : may_start p → pool_step (ps, w) (ps ++ [p], w)
| pool_call i B (c : svc B) k r ps w w' :
  ps !! i = Some (Call c k) → svc_spec faults c w r w' →
  pool_step (ps, w) (<[i := k r]> ps, w')
| pool_crash i p ps w :
  crashes = true → ps !! i = Some p → pool_step (ps, w) (<[i := Raise killed]> ps, w).

(** An invariant of the shared world together with a predicate of the programs
  that is stable under their own steps. *)
Lemma pool_invariant (I : world → list (prog A) → Prop) :
  (∀ p ps w, may_start p → I w ps → I w (ps ++ [p])) →
  (∀ i B (c : svc B) k r ps w w', ps !! i = Some (Call c k) →
     svc_spec faults c w r w' → I w ps → I w' (<[i := k r]> ps)) →
  crashes = false →
  ∀ s s', star pool_step s s' → I s.2 s.1 → I s'.2 s'.1.
Proof.
  intros Hstart Hcall Hcr s s' Hstar HI.
  apply (star_invariant pool_step (λ s, I s.2 s.1) s s'); [|done..].
  intros a b Ha Hstep. destruct Hstep; cbn in *; [eauto..|congruence].
Qed.
End pool.

Lemma pool_step_mono `{Crypto} {A} faults crashes (may_start may_start' : prog A → Prop) st st' :
  (∀ p, may_start p → may_start' p) →
  pool_step faults crashes may_start st st' → pool_step faults crashes may_start' st st'.
Proof.
  intros Hp [p ps w Hs|i B c k r ps w w' Hi Hs|i p ps w Hc Hi];
    [by apply pool_start, Hp|by eapply pool_call|by eapply pool_crash].
Qed.

Definition finished {A} (p : prog A) : bool :=
  match p with Call _ _ => false | _ => true end.

(** A program whose result nobody reads. *)
Definition ignore {A} (p : prog A) : prog unit := bind p (λ _, Ret tt).

(** Expose the next command of a program. *)
Ltac prog_step :=
  cbv [mbind prog_bind mret prog_ret redis db s3 call now_us set_proc read_proc on_proc ignore];
  cbn [bind catch finally of_result].
