(* ===== verification/DbFacts.v ===== *)
(** * The database session

    Rules for the commands of a session without failures, and what they do to
    the committed tables. *)

From Stdlib Require Import ZArith String Lia.
From stdpp Require Import base tactics option list gmap strings sorting fin_maps.
From S2P Require Import Prelude PyText Json Errors Models Services Programs.
Local Open Scope Z_scope.

(** Rows are stored under their own key. *)
Definition keyed (d : tables) : Prop :=
  map_Forall (λ k r, t_id r = k) (tenants d) ∧
  map_Forall (λ k r, u_id r = k) (users d) ∧
  map_Forall (λ k r, al_id r = k) (audit_logs d) ∧
  map_Forall (λ k r, ir_id r = k) (idempotency_records d) ∧
  map_Forall (λ k r, jc_id r = k) (job_completions d) ∧
  map_Forall (λ k r, pt_id r = k) (reset_tokens d) ∧
  map_Forall (λ k r, f_id r = k) (uploaded_files d) ∧
  map_Forall (λ k r, we_id r = k) (webhook_events d).

(** The result of [first]: a matching row, or none when no row matches. *)
Definition first_spec {R} (t : table R) (p : R → bool) (d : tables) (o : option R) : Prop :=
  match o with
  | Some r => (∃ k, get_table t d !! k = Some r) ∧ p r = true
  | None => ∀ k r, get_table t d !! k = Some r → p r = false
  end.

(** ** Sequences of writes *)

Lemma run_writes_cons wr ws d : run_writes (wr :: ws) d = d' ← wr d; run_writes ws d'.
Proof.
  unfold run_writes. cbn. destruct (wr d) as [d1|]; [reflexivity|]. cbn.
  induction ws as [|wr' ws IH]; [reflexivity|exact IH].
Qed.

Lemma run_writes_app ws1 ws2 d : run_writes (ws1 ++ ws2) d = d' ← run_writes ws1 d; run_writes ws2 d'.
Proof.
  revert d. induction ws1 as [|wr ws1 IH]; intros d; [reflexivity|]. rewrite <- app_comm_cons, !run_writes_cons.
  destruct (wr d) as [d1|]; [exact (IH d1)|reflexivity].
Qed.

(** What every write preserves, all of them do. *)
Lemma writes_preserve (P : tables → Prop) ws d d' :
  Forall (λ wr : write, ∀ d d', P d → wr d = Some d' → P d') ws → P d → run_writes ws d = Some d' → P d'.
Proof.
  revert d. induction ws as [|wr ws IH]; intros d Hws Hd; [by intros [= <-]|].
  apply Forall_cons in Hws as [Hwr Hws]. rewrite run_writes_cons.
  destruct (wr d) as [d1|] eqn:E; [|done]. cbn. apply IH; [done|]. by eapply Hwr.
Qed.

Lemma elem_of_rows {R} (t : table R) d r :
  r ∈ rows t d ↔ ∃ k, get_table t d !! k = Some r.
Proof.
  unfold rows. rewrite list_elem_of_fmap. split.
  - intros ([k r'] & -> & Hin%elem_of_map_to_list). by exists k.
  - intros [k Hk]. exists (k, r). split; [done|]. by apply elem_of_map_to_list.
Qed.

Lemma select_one_spec {R} (t : table R) p d res :
  select_spec (one_where p) (rows t d) res → first_spec t p d (head res).
Proof.
  intros (l & Hp & _ & ->). cbn [one_where q_limit q_offset q_where] in *. rewrite drop_0.
  assert (∀ r, r ∈ l ↔ (∃ k, get_table t d !! k = Some r) ∧ p r = true) as Hl.
  { intros r. rewrite Hp, list_elem_of_filter, elem_of_rows. tauto. }
  destruct l as [|r l]; cbn.
  - intros k r Hk. destruct (p r) eqn:E; [|done].
    assert (r ∈ []) as Hin by (apply Hl; eauto). by apply elem_of_nil in Hin.
  - apply Hl. by left.
Qed.

Section rules.
Context `{Crypto}.

Lemma wp_db {B} (c : db_cmd B) Q w :
  (∀ w1 r w', advance w w1 → db_spec c w1 r w' → Q r w') → wp false (db c) Q w.
Proof.
  intros HQ. apply wp_call. intros r w' (w1 & Hadv & [Hc|[? _]]); [|done]. by eapply HQ.
Qed.

Lemma wp_first {R} (t : table R) p Q w d :
  tx_view (w_db w) (w_session w) = Some d →
  (∀ w1 o, advance w w1 → first_spec t p d o → Q (Ok o) w1) →
  wp false (first t p) Q w.
Proof.
  intros Hd HQ. apply wp_bind, wp_db. intros w1 r w' Hadv [-> Hc].
  rewrite (advance_db _ _ Hadv), (advance_session _ _ Hadv), Hd in Hc.
  destruct Hc as (res & Hres & ->). apply HQ; [done|]. by apply select_one_spec.
Qed.
End rules.

(** ** Constraints *)

Lemma unique_on_fmap {R K} `{EqDecision K} (key : R → K) (f : R → R) (m : gmap Z R) :
  (∀ r, key (f r) = key r) → unique_on key m → unique_on key (f <$> m).
Proof.
  intros Hf. rewrite !unique_on_spec. intros Hu i j r r' Hi Hj Hrr.
  apply lookup_fmap_Some in Hi as (a & <- & Hi), Hj as (b & <- & Hj).
  eapply Hu; [exact Hi|exact Hj|]. by rewrite !Hf in Hrr.
Qed.

(** Replacing a row by one with the same key. *)
Lemma unique_on_replace {R K} `{EqDecision K} (key : R → K) (m : gmap Z R) k r r' :
  m !! k = Some r → key r' = key r → unique_on key m → unique_on key (<[k := r']> m).
Proof.
  intros Hk Hr. rewrite !unique_on_spec. intros Hu i j a b Hi Hj Hab.
  apply lookup_insert_Some in Hi as [[<- <-]|[_ Hi]], Hj as [[<- <-]|[_ Hj]]; [done|..];
    [apply (Hu k j r b)|apply (Hu i k a r)|apply (Hu i j a b)]; congruence.
Qed.

(** A new row with a new key. *)
Lemma unique_on_new {R K} `{EqDecision K} (key : R → K) (m : gmap Z R) k r :
  m !! k = None → (∀ j r', m !! j = Some r' → key r' ≠ key r) →
  unique_on key m → unique_on key (<[k := r]> m).
Proof.
  intros Hk Hr. rewrite !unique_on_spec. intros Hu i j a b Hi Hj Hab.
  apply lookup_insert_Some in Hi as [[<- <-]|[_ Hi]], Hj as [[<- <-]|[_ Hj]]; [done|..].
  - by destruct (Hr j b).
  - by destruct (Hr i a).
  - by eapply Hu.
Qed.

Lemma refers_fmap {R R'} (fk : R → option Z) (f : R → R) (m : gmap Z R) (m' : gmap Z R') :
  (∀ r, fk (f r) = fk r) → refers fk m m' → refers fk (f <$> m) m'.
Proof.
  intros Hf Hm k r Hk. apply lookup_fmap_Some in Hk as (a & <- & Hk). rewrite Hf. by eapply Hm.
Qed.

Lemma refers_insert {R R'} (fk : R → option Z) (m : gmap Z R) (m' : gmap Z R') k r :
  match fk r with Some i => is_Some (m' !! i) | None => True end →
  refers fk m m' → refers fk (<[k := r]> m) m'.
Proof.
  intros Hr Hm j a Hj. apply lookup_insert_Some in Hj as [[_ <-]|[_ Hj]]; [done|by eapply Hm].
Qed.

(** More rows to refer to. *)
Lemma refers_target {R R'} (fk : R → option Z) (m : gmap Z R) (m' : gmap Z R') k r :
  refers fk m m' → refers fk m (<[k := r]> m').
Proof.
  intros Hm j a Hj. specialize (Hm j a Hj). cbn in Hm. destruct (fk a) as [i|]; [|done].
  destruct (decide (k = i)) as [->|]; [rewrite lookup_insert_eq|rewrite lookup_insert_ne by done]; by eauto.
Qed.

Lemma constraints_set_user d k u u' :
  users d !! k = Some u → u_tenant_id u' = u_tenant_id u → u_email u' = u_email u →
  constraints d → constraints (set_table TUser (<[k := u']> (users d)) d).
Proof.
  intros Hk Ht He [(H1 & H2 & H3 & H4 & H5 & H6 & H7) (F1 & F2 & F3 & F4 & F5 & F6)].
  split; unfold unique_constraints, foreign_keys; cbn.
  - split_and!; try done. eapply unique_on_replace; [done|congruence|done].
  - split_and!; try done; try by apply refers_target.
    apply refers_insert; [|done]. cbn. rewrite Ht. exact (F1 k u Hk).
Qed.

Lemma constraints_update_tokens d f :
  (∀ t, pt_token_hash (f t) = pt_token_hash t) → (∀ t, pt_user_id (f t) = pt_user_id t) →
  constraints d → constraints (set_table TResetToken (f <$> reset_tokens d) d).
Proof.
  intros Hh Hu [(H1 & H2 & H3 & H4 & H5 & H6 & H7) (F1 & F2 & F3 & F4 & F5 & F6)].
  split; unfold unique_constraints, foreign_keys; cbn; split_and!; try done.
  - by apply unique_on_fmap.
  - apply refers_fmap; [|done]. intros r. cbn. by rewrite Hu.
Qed.

Lemma constraints_add_token d k r :
  reset_tokens d !! k = None → is_Some (users d !! pt_user_id r) →
  (∀ j r', reset_tokens d !! j = Some r' → pt_token_hash r' ≠ pt_token_hash r) →
  constraints d → constraints (set_table TResetToken (<[k := r]> (reset_tokens d)) d).
Proof.
  intros Hk Hu Hh [(H1 & H2 & H3 & H4 & H5 & H6 & H7) (F1 & F2 & F3 & F4 & F5 & F6)].
  split; unfold unique_constraints, foreign_keys; cbn; split_and!; try done.
  - by apply unique_on_new.
  - by apply refers_insert.
Qed.

Lemma constraints_add_completion d k r :
  job_completions d !! k = None →
  (∀ j r', job_completions d !! j = Some r' → jc_job_id r' ≠ jc_job_id r) →
  constraints d → constraints (set_table TJobCompletion (<[k := r]> (job_completions d)) d).
Proof.
  intros Hk Hj [(H1 & H2 & H3 & H4 & H5 & H6 & H7) (F1 & F2 & F3 & F4 & F5 & F6)].
  split; unfold unique_constraints, foreign_keys; cbn; split_and!; try done.
  by apply unique_on_new.
Qed.

Lemma constraints_add_audit d k l :
  is_Some (tenants d !! al_tenant_id l) →
  match al_admin_id l with Some i => is_Some (users d !! i) | None => True end →
  constraints d → constraints (set_table TAuditLog (<[k := l]> (audit_logs d)) d).
Proof.
  intros Ht Ha [(H1 & H2 & H3 & H4 & H5 & H6 & H7) (F1 & F2 & F3 & F4 & F5 & F6)].
  split; unfold unique_constraints, foreign_keys; cbn; split_and!; try done; by apply refers_insert.
Qed.

(** ** Failures

    Rules for the same commands when any of them may fail, for properties [I] of
    the committed tables and the stored objects that must hold all along.  Only
    normal results need a postcondition: an error ends the request, and closing
    the session does not change the tables. *)

(** A property of the tables, the objects and the answered HTTP requests. *)
Definition stored (J : tables → gmap string s3_object → list post → Prop) (w : world) : Prop :=
  J (w_db w) (w_s3 w) (w_posts w).

Lemma stable J w w' :
  w_db w' = w_db w → w_s3 w' = w_s3 w → w_posts w' = w_posts w → stored J w → stored J w'.
Proof. unfold stored. by intros -> -> ->. Qed.

Section failures.
Context `{Crypto} (faults : bool) (J : tables → gmap string s3_object → list post → Prop).
Local Abbreviation I := (stored J).
Local Abbreviation seen p Q := (wpi faults (stored J) p (on_ok Q)).

(** Commands that change neither the tables nor what is outside. *)
Definition is_s3 {B} (c : svc B) : bool := match c with S3 _ => true | _ => false end.
Definition is_post {B} (c : svc B) : bool := match c with HttpPost _ _ _ => true | _ => false end.
Definition quiet (B : Type) (c : svc B) : Prop :=
  is_commit c = false ∧ is_s3 c = false ∧ is_post c = false.

Lemma cmd_quiet {B} (c : svc B) w r w' :
  quiet B c → cmd_spec c w r w' →
  w_db w' = w_db w ∧ w_s3 w' = w_s3 w ∧ w_posts w' = w_posts w.
Proof.
  intros (Hc & Hs3 & Hp) Hs. split; [by eapply cmd_db_frame|].
  destruct c; cbn [is_s3 is_post cmd_spec] in *; try done.
  - destruct (redis_exec _ _ _). by injection Hs as -> ->.
  - destruct c; cbn in *; unfold bulk_spec in *; repeat case_match; naive_solver.
  - by destruct Hs as [_ ->].
  - by destruct Hs as [_ ->].
  - by destruct Hs as [_ ->].
  - by destruct Hs as [_ ->].
  - by destruct Hs as [-> _].
  - by destruct Hs as [-> _].
  - by destruct Hs as [-> _].
  - destruct (f _). by destruct Hs as [_ ->].
  - by destruct Hs as [_ ->].
Qed.

Lemma advance_outside w w1 :
  advance w w1 → w_db w1 = w_db w ∧ w_s3 w1 = w_s3 w ∧ w_posts w1 = w_posts w.
Proof. by intros (t & m & b & Ht & Hm & Hb & ->). Qed.

Lemma svc_quiet {B} (c : svc B) w r w' :
  quiet B c → svc_spec faults c w r w' →
  w_db w' = w_db w ∧ w_s3 w' = w_s3 w ∧ w_posts w' = w_posts w.
Proof.
  intros Hq (w1 & Hadv & Hcase). destruct (advance_outside _ _ Hadv) as (<- & <- & <-).
  destruct Hcase as [Hs|(_ & e & _ & _ & [->|[r' Hs]])]; [|done|]; by eapply cmd_quiet.
Qed.

Lemma advance_stable w w1 : advance w w1 → I w → I w1.
Proof. intros Hadv. destruct (advance_outside _ _ Hadv) as (? & ? & ?). by apply stable. Qed.

Lemma wpi_frame {B} (c : svc B) (Q : B → world → Prop) w :
  quiet B c → I w →
  (∀ w1 r w', advance w w1 → cmd_spec c w1 r w' → on_ok Q r w') → seen (call c) Q w.
Proof.
  intros Hq HI HQ. apply wpi_call; [done|]. intros r w' Hs. split.
  - destruct (svc_quiet _ _ _ _ Hq Hs) as (? & ? & ?). by apply (stable J w).
  - destruct Hs as (w1 & Hadv & [Hs|(_ & e & _ & -> & _)]); [by eapply HQ|done].
Qed.

(** Programs of such commands. *)
Lemma wpi_quiet {A} (p : prog A) (Q : A → world → Prop) w :
  keeps quiet p → I w →
  (∀ a w', w_db w' = w_db w → w_s3 w' = w_s3 w → w_posts w' = w_posts w → Q a w') → seen p Q w.
Proof.
  intros Hp HI HQ.
  enough (∀ w1, w_db w1 = w_db w → w_s3 w1 = w_s3 w → w_posts w1 = w_posts w → seen p Q w1) by auto.
  induction p as [a|e|B c k IH]; intros w1 Hd Ho Hposts; cbn [wpi];
    (split; [by eapply stable|]).
  - by apply HQ.
  - done.
  - destruct Hp as [Hq Hk]. intros r w' Hs. destruct (svc_quiet _ _ _ _ Hq Hs) as (? & ? & ?).
    apply IH; [apply Hk|congruence..].
Qed.

Lemma wpi_first {R} (t : table R) p Q w d :
  I w → tx_view (w_db w) (w_session w) = Some d →
  (∀ w1 o, advance w w1 → first_spec t p d o → Q o w1) →
  seen (first t p) Q w.
Proof.
  intros HI Hd HQ. apply wpi_bind_ok, wpi_frame; [done..|].
  intros w1 r w' Hadv [-> Hc].
  rewrite (advance_db _ _ Hadv), (advance_session _ _ Hadv), Hd in Hc.
  destruct Hc as (res & Hres & ->). split; [by eapply advance_stable|].
  apply HQ; [done|]. by apply select_one_spec.
Qed.

Lemma wpi_now Q w :
  I w → (∀ w1, advance w w1 → Q (w_clock w1) w1) → seen now_us Q w.
Proof. intros HI HQ. apply wpi_frame; [done..|]. intros w1 r w' Hadv [-> ->]. by apply HQ. Qed.

Lemma wpi_on_proc {B} (f : proc → B * proc) Q w :
  I w →
  (∀ w1, advance w w1 → Q (fst (f (w_proc w1))) (with_proc (snd (f (w_proc w1))) w1)) →
  seen (on_proc f) Q w.
Proof.
  intros HI HQ. apply wpi_frame; [done..|]. intros w1 r w' Hadv Hs. cbn in Hs.
  specialize (HQ _ Hadv). destruct (f (w_proc w1)). by destruct Hs as [-> ->].
Qed.

(** A write that is not sent yet. *)
Definition pushed (wr : write) (w w' : world) : Prop :=
  w_db w' = w_db w ∧ w_s3 w' = w_s3 w ∧ w_posts w' = w_posts w ∧
  w_session w' = Session (s_flushed (w_session w)) (s_pending (w_session w) ++ [wr]).

Lemma advance_pushed wr w w1 : advance w w1 → pushed wr w (push wr w1).
Proof.
  intros Hadv. unfold pushed. cbn. destruct (advance_outside _ _ Hadv) as (-> & -> & ->).
  by rewrite (advance_session _ _ Hadv).
Qed.

Lemma wpi_set_row {R} (t : table R) key f Q w :
  I w → (∀ w', pushed (set_row t key f) w w' → Q tt w') →
  seen (db (SetRow t key f)) Q w.
Proof.
  intros HI HQ. apply wpi_frame; [done..|]. intros w1 r w' Hadv [-> ->]. by apply HQ, advance_pushed.
Qed.

Lemma wpi_delete_row {R} (t : table R) key Q w :
  I w → (∀ w', pushed (drop_row t key) w w' → Q tt w') →
  seen (db (DeleteRow t key)) Q w.
Proof.
  intros HI HQ. apply wpi_frame; [done..|]. intros w1 r w' Hadv [-> ->]. by apply HQ, advance_pushed.
Qed.

Lemma wpi_add {R} (t : table R) mk Q w :
  I w →
  (∀ key created w',
     (∀ d, run_writes (all_writes (w_session w)) (w_db w) = Some d → get_table t d !! key = None) →
     pushed (insert_row t key (mk key created)) w w' → w_clock w <= w_clock w' →
     Q (mk key created) w') →
  seen (db (Add t mk)) Q w.
Proof.
  intros HI HQ. apply wpi_frame; [done..|].
  intros w1 r w' Hadv (key & created & _ & Hfresh & -> & ->).
  rewrite (advance_db _ _ Hadv), (advance_session _ _ Hadv) in Hfresh.
  apply HQ; [done|by apply advance_pushed|]. cbn. by apply advance_clock.
Qed.

Lemma flush_result_advance w w1 : advance w w1 → flush_result w1 = flush_result w.
Proof.
  intros Hadv. unfold flush_result. by rewrite (advance_db _ _ Hadv), (advance_session _ _ Hadv).
Qed.

Lemma wpi_flush Q w :
  I w →
  (∀ d w', flush_result w = Some d → w_db w' = w_db w → w_s3 w' = w_s3 w →
     w_posts w' = w_posts w → w_session w' = Session (all_writes (w_session w)) [] → Q tt w') →
  seen (db Flush) Q w.
Proof.
  intros HI HQ. apply wpi_frame; [done..|]. intros w1 r w' Hadv Hs. cbn in Hs.
  rewrite (flush_result_advance _ _ Hadv) in Hs.
  destruct (flush_result w) as [d|] eqn:E; destruct Hs as [-> ->]; [|done].
  destruct (advance_outside _ _ Hadv) as (? & ? & ?).
  apply (HQ d); cbn; [done..|]. by rewrite (advance_session _ _ Hadv).
Qed.

Lemma wpi_commit Q w :
  I w →
  (∀ d, flush_result w = Some d →
     ∀ w', w_db w' = d → w_s3 w' = w_s3 w → w_posts w' = w_posts w →
       w_session w' = empty_session → I w' ∧ Q tt w') →
  seen (db Commit) Q w.
Proof.
  intros HI HQ. apply wpi_call; [done|]. intros r w' (w1 & Hadv & Hs).
  assert (∀ r' w2, cmd_spec (Db Commit) w1 r' w2 → I w2 ∧ on_ok Q r' w2) as Hc.
  { intros r' w2. cbn. rewrite (flush_result_advance _ _ Hadv).
    destruct (flush_result w) as [d|]; intros [-> ->].
    - destruct (advance_outside _ _ Hadv) as (? & ? & ?). by apply (HQ d).
    - split; [|done]. destruct (advance_outside _ _ Hadv) as (? & ? & ?). by apply (stable J w). }
  destruct Hs as [Hs|(_ & e & _ & -> & [->|[r' Hs]])]; [by apply Hc| |].
  - split; [by eapply advance_stable|done].
  - by destruct (Hc _ _ Hs).
Qed.

(** A commit of known writes. *)
Lemma wpi_commit_writes Q w d0 wrs :
  I w → w_db w = d0 → all_writes (w_session w) = wrs →
  (∀ d, run_writes wrs d0 = Some d → constraints d →
     ∀ w', w_db w' = d → w_s3 w' = w_s3 w → w_posts w' = w_posts w →
       w_session w' = empty_session → I w' ∧ Q tt w') →
  seen (db Commit) Q w.
Proof.
  intros HI <- <- HQ. apply wpi_commit; [done|]. intros d Hflush. unfold flush_result in Hflush.
  destruct (run_writes _ _) as [d1|] eqn:E; [|done]. cbn in Hflush. case_decide; [|done].
  injection Hflush as <-. by apply HQ.
Qed.

(** An UPDATE is sent at once. *)
Lemma wpi_bulk_update {R} (t : table R) p f Q w d :
  I w → tx_view (w_db w) (w_session w) = Some d →
  (∀ w', w_db w' = w_db w → w_s3 w' = w_s3 w → w_posts w' = w_posts w →
     w_session w' = Session (s_flushed (w_session w) ++ [bulk_update t p f])
                            (s_pending (w_session w)) → Q (count t p d) w') →
  seen (db (BulkUpdate t p f)) Q w.
Proof.
  intros HI Hd HQ. apply wpi_frame; [done..|]. intros w1 r w' Hadv Hs. cbn in Hs. unfold bulk_spec in Hs.
  destruct (advance_outside _ _ Hadv) as (Hd1 & Ho1 & Hp1).
  rewrite Hd1, (advance_session _ _ Hadv), Hd in Hs.
  destruct (bulk _ _); destruct Hs as [-> ->]; [|done]. apply HQ; cbn; [done..|].
  by rewrite (advance_session _ _ Hadv).
Qed.

Lemma wpi_refresh {R} (t : table R) key Q w :
  I w → (∀ d r w1, tx_view (w_db w) (w_session w) = Some d → get_table t d !! key = Some r →
           advance w w1 → Q r w1) →
  seen (db (Refresh t key)) Q w.
Proof.
  intros HI HQ. apply wpi_frame; [done..|]. intros w1 r w' Hadv [-> ->].
  rewrite (advance_db _ _ Hadv), (advance_session _ _ Hadv).
  destruct (tx_view _ _) as [d|] eqn:Ed; [|done]. cbn.
  destruct (get_table t d !! key) eqn:Er; [|done]. by apply (HQ d).
Qed.

(** Commands that reach neither the database nor what is stored outside. *)
Definition away (B : Type) (c : svc B) : Prop :=
  match c with Db _ | S3 _ | HttpPost _ _ _ => False | _ => True end.

Definition still (w w' : world) : Prop :=
  w_db w' = w_db w ∧ w_s3 w' = w_s3 w ∧ w_posts w' = w_posts w ∧ w_session w' = w_session w.

Lemma still_trans w1 w2 w3 : still w1 w2 → still w2 w3 → still w1 w3.
Proof. unfold still. intuition congruence. Qed.

Lemma advance_still w w1 : advance w w1 → still w w1.
Proof.
  intros Hadv. destruct (advance_outside _ _ Hadv) as (? & ? & ?).
  split_and!; [done..|by apply advance_session].
Qed.

Lemma cmd_still {B} (c : svc B) w r w' : away B c → cmd_spec c w r w' → still w w'.
Proof.
  intros Hc Hs. destruct c; cbn [away cmd_spec] in *; try done.
  - destruct (redis_exec _ _ _). by injection Hs as -> ->.
  - by destruct Hs as [_ ->].
  - by destruct Hs as [_ ->].
  - by destruct Hs as [_ ->].
  - by destruct Hs as [_ ->].
  - by destruct Hs as [-> _].
  - by destruct Hs as [-> _].
  - by destruct Hs as [-> _].
  - destruct (f _). by destruct Hs as [_ ->].
  - by destruct Hs as [_ ->].
Qed.

Lemma svc_still {B} (c : svc B) w r w' : away B c → svc_spec faults c w r w' → still w w'.
Proof.
  intros Hc (w1 & Hadv & Hcase). apply still_trans with w1; [by apply advance_still|].
  destruct Hcase as [Hs|(_ & e & _ & _ & [->|[r' Hs]])]; [|done|]; by eapply cmd_still.
Qed.

Lemma wpi_away {A} (p : prog A) (Q : A → world → Prop) w :
  keeps away p → I w → (∀ a w', still w w' → Q a w') → seen p Q w.
Proof.
  intros Hp HI HQ.
  enough (∀ w1, still w w1 → seen p Q w1) as Hall by by apply Hall.
  induction p as [a|e|B c k IH]; intros w1 Hw; cbn [wpi];
    (split; [by destruct Hw as (? & ? & ? & _); eapply stable|]); [by apply HQ|done|].
  destruct Hp as [Hc Hk]. intros r w' Hs. apply IH; [apply Hk|].
  eapply still_trans; [exact Hw|by eapply svc_still].
Qed.

Lemma wpi_in_session_clock {A} (p : prog A) (Q : A → world → Prop) w :
  seen p (λ a w', ∀ w'', w_db w'' = w_db w' → w_s3 w'' = w_s3 w' → w_posts w'' = w_posts w' →
                    w_clock w' <= w_clock w'' → Q a w'') w →
  seen (in_session p) Q w.
Proof.
  intros Hp. apply wpi_finally. eapply wpi_mono; [|exact Hp].
  intros r w' HI HQ. eapply wpi_mono; [|apply wpi_clock, (wpi_quiet (db Close)
    (λ _ w'', w_db w'' = w_db w' ∧ w_s3 w'' = w_s3 w' ∧ w_posts w'' = w_posts w'));
    [by apply keeps_call|done|done]].
  intros [[]|e] w'' _; [|done]. cbn. intros [(? & ? & ?) ?]. destruct r; [|done]. by apply HQ.
Qed.

Lemma wpi_in_session {A} (p : prog A) (Q : A → world → Prop) w :
  seen p (λ a w', ∀ w'', w_db w'' = w_db w' → w_s3 w'' = w_s3 w' → w_posts w'' = w_posts w' →
                    Q a w'') w →
  seen (in_session p) Q w.
Proof.
  intros Hp. apply wpi_in_session_clock. eapply wpi_mono_ok; [|exact Hp].
  intros a w' _ HQ w'' ? ? ? _. by apply HQ.
Qed.
End failures.

(** ** A healthy database

    The rules without failures, for properties that say that a request succeeds. *)

Section healthy.
Context `{Crypto}.

Lemma wp_away {A} (p : prog A) Q w :
  keeps away p → (∀ r w', still w w' → Q r w') → wp false p Q w.
Proof.
  intros Hp HQ. enough (∀ w1, still w w1 → wp false p Q w1) as Hall by by apply Hall.
  induction p as [a|e|B c k IH]; intros w1 Hw; cbn [wp]; [by apply HQ..|].
  destruct Hp as [Hc Hk]. intros r w' Hs. apply IH; [apply Hk|].
  eapply still_trans; [exact Hw|by eapply svc_still].
Qed.

Lemma wp_set_row {R} (t : table R) key f Q w :
  (∀ w', pushed (set_row t key f) w w' → Q (Ok tt) w') → wp false (db (SetRow t key f)) Q w.
Proof. intros HQ. apply wp_db. intros w1 r w' Hadv [-> ->]. by apply HQ, advance_pushed. Qed.

Lemma wp_add {R} (t : table R) mk Q w :
  (∀ key created w',
     (∀ d, run_writes (all_writes (w_session w)) (w_db w) = Some d → get_table t d !! key = None) →
     pushed (insert_row t key (mk key created)) w w' → w_mail w' = w_mail w →
     Q (Ok (mk key created)) w') →
  wp false (db (Add t mk)) Q w.
Proof.
  intros HQ. apply wp_db. intros w1 r w' Hadv (key & created & _ & Hfresh & -> & ->).
  rewrite (advance_db _ _ Hadv), (advance_session _ _ Hadv) in Hfresh.
  apply HQ; [done|by apply advance_pushed|]. cbn. by apply advance_mail.
Qed.

Lemma wp_bulk_update {R} (t : table R) p f Q w d d' :
  tx_view (w_db w) (w_session w) = Some d →
  run_writes (s_flushed (w_session w) ++ [bulk_update t p f]) (w_db w) = Some d' → constraints d' →
  (∀ w', w_db w' = w_db w →
     w_session w' = Session (s_flushed (w_session w) ++ [bulk_update t p f])
                            (s_pending (w_session w)) → Q (Ok (count t p d)) w') →
  wp false (db (BulkUpdate t p f)) Q w.
Proof.
  intros Hd Hd' Hc HQ. apply wp_db. intros w1 r w' Hadv Hs. cbn in Hs. unfold bulk_spec, bulk in Hs.
  rewrite (advance_db _ _ Hadv), (advance_session _ _ Hadv), Hd, Hd' in Hs. cbn in Hs.
  rewrite decide_True in Hs by done. destruct Hs as [-> ->].
  apply HQ; cbn; [by apply advance_db|]. by rewrite (advance_session _ _ Hadv).
Qed.

Lemma wp_commit Q w d0 wrs d :
  w_db w = d0 → all_writes (w_session w) = wrs → run_writes wrs d0 = Some d → constraints d →
  (∀ w', w_db w' = d → w_session w' = empty_session → w_mail w' = w_mail w → Q (Ok tt) w') →
  wp false (db Commit) Q w.
Proof.
  intros <- <- Hrun Hc HQ. apply wp_db. intros w1 r w' Hadv Hs. cbn in Hs.
  rewrite (flush_result_advance _ _ Hadv) in Hs. unfold flush_result in Hs.
  rewrite Hrun in Hs. cbn in Hs. rewrite decide_True in Hs by done. destruct Hs as [-> ->].
  apply HQ; [done..|]. cbn. by apply advance_mail.
Qed.

(** A flush sends the writes, or ends the transaction. *)
Lemma wp_flush Q w d0 wrs d :
  w_db w = d0 → all_writes (w_session w) = wrs → run_writes wrs d0 = Some d →
  (∀ w', w_db w' = d0 → w_mail w' = w_mail w →
     if decide (constraints d)
     then w_session w' = Session wrs [] → Q (Ok tt) w'
     else w_session w' = empty_session → Q (Err IntegrityError) w') →
  wp false (db Flush) Q w.
Proof.
  intros <- <- Hrun HQ. apply wp_db. intros w1 r w' Hadv Hs. cbn in Hs.
  rewrite (flush_result_advance _ _ Hadv) in Hs. unfold flush_result in Hs.
  rewrite Hrun in Hs. cbn in Hs. pose proof (advance_mail _ _ Hadv) as Hm.
  case_decide; destruct Hs as [-> ->]; apply HQ; cbn; try done; try by apply advance_db.
  by rewrite (advance_session _ _ Hadv).
Qed.

Lemma wp_refresh {R} (t : table R) key Q w d r :
  tx_view (w_db w) (w_session w) = Some d → get_table t d !! key = Some r →
  (∀ w1, advance w w1 → Q (Ok r) w1) → wp false (db (Refresh t key)) Q w.
Proof.
  intros Hd Hr HQ. apply wp_db. intros w1 res w' Hadv [-> ->].
  rewrite (advance_db _ _ Hadv), (advance_session _ _ Hadv), Hd. cbn. rewrite Hr. by apply HQ.
Qed.

Lemma wp_close Q w : (∀ w', w_db w' = w_db w → w_session w' = empty_session → Q (Ok tt) w') →
  wp false (db Close) Q w.
Proof.
  intros HQ. apply wp_db. intros w1 r w' Hadv [-> ->]. apply HQ; cbn; [by apply advance_db|done].
Qed.

Lemma wp_in_session {A} (p : prog A) Q w :
  wp false p (λ r w', ∀ w'', w_db w'' = w_db w' → w_session w'' = empty_session →
                        w_clock w' <= w_clock w'' → Q r w'') w →
  wp false (in_session p) Q w.
Proof.
  intros Hp. apply wp_finally. eapply wp_mono; [|exact Hp]. intros r w' HQ.
  apply wp_db. intros w1 r' w2 Hadv [-> ->].
  apply HQ; cbn; [by apply advance_db|done|by apply advance_clock].
Qed.
End healthy.
