(* ===== verification/Reference.v ===== *)
(** * A reference implementation of the services

    An in-memory implementation of every service, with a toy cryptography, that
    never fails and whose clock only moves when a program sleeps.  It satisfies
    [ServicesSpec], so the hypotheses of the development are consistent, and it
    runs: the witnesses of the theorems evaluate programs on it. *)

From Stdlib Require Import ZArith Ascii String Lia.
From stdpp Require Import base tactics option list gmap strings sorting fin_maps.
From S2P Require Import Prelude PyText Json Errors Models Services Programs.
Local Open Scope Z_scope.

(** ** Toy cryptography: every function keeps its arguments readable. *)

(** The claims followed by the key, as JSON. *)
Definition toy_jwt_encode (claims : list (string * json)) (key alg : string) : string :=
  dumps (JList [JObj claims; JStr key; JStr alg]).

Definition jwt_expired (now : Z) (claims : list (string * json)) : bool :=
  match dict_get "exp" claims with
  | Some (JInt exp) => exp <? now
  | Some _ => true
  | None => false
  end.

Definition toy_jwt_decode (now : Z) (token key alg : string) :
    result exn (list (string * json)) :=
  match loads token with
  | Some (JList [JObj claims; JStr key'; JStr alg']) =>
      if String.eqb key key' && String.eqb alg alg' then
        if jwt_expired now claims then Err (JWTError "Signature has expired.") else Ok claims
      else Err (JWTError "Signature verification failed.")
  | _ => Err (JWTError "Not enough segments")
  end.

#[export] Instance toy_crypto : Crypto := {|
  sha256_hex s := s;
  hmac_sha256_hex key msg := dumps (JList [JStr key; JStr msg]);
  bcrypt_verify pw h := String.eqb h ("bcrypt:" ++ pw);
  bcrypt_refuses pw := existsb (Ascii.eqb Ascii.zero) (chars pw);
  jwt_encode := toy_jwt_encode;
  jwt_decode := toy_jwt_decode;
|}.

Lemma toy_decode_spec now token key alg claims :
  toy_jwt_decode now token key alg = Ok claims ↔
  loads token = Some (JList [JObj claims; JStr key; JStr alg]) ∧ jwt_expired now claims = false.
Proof.
  unfold toy_jwt_decode. split.
  - repeat case_match; try done. intros [= <-].
    match goal with H : (_ && _)%bool = true |- _ =>
      apply andb_prop in H as [Hk%String.eqb_eq Ha%String.eqb_eq] end.
    by subst.
  - intros [-> ->]. by rewrite !String.eqb_refl.
Qed.

#[export] Instance toy_crypto_spec : CryptoSpec.
Proof.
  split; cbn [jwt_decode jwt_encode toy_crypto].
  - intros now claims key alg exp He Hnow Hwf _ _ _. apply toy_decode_spec.
    unfold toy_jwt_encode. rewrite loads_dumps.
    + unfold jwt_expired. rewrite He. split; [done|]. lia.
    + apply json_wf_list. repeat (apply Forall_cons; split; [done|]). apply Forall_nil_2.
  - intros now now' token key alg c c' [H _]%toy_decode_spec [H' _]%toy_decode_spec. congruence.
  - intros now token key alg c exp [_ H]%toy_decode_spec He.
    unfold jwt_expired in H. rewrite He in H. lia.
  - intros now token key alg e. unfold toy_jwt_decode.
    repeat case_match; intros [= <-]; eauto.
Qed.

(** Texts by their characters, letters folded to lower case. *)
#[export] Instance toy_sql : SqlText := {|
  text_le := String.leb;
  fold_case := lower_char;
  ilike t p := like lower_char (chars p) (chars t);
|}.

(** ** The services *)

Definition order_rel {R} (q : query R) (a b : R) : Prop := q_order q a b = true.
#[export] Instance order_rel_dec {R} (q : query R) a b : Decision (order_rel q a b).
Proof. unfold order_rel. apply _. Defined.

Definition select_rows {R} (q : query R) (l : list R) : list R :=
  let l' := merge_sort (order_rel q) (filter (λ r, q_where q r = true) l) in
  match q_limit q with
  | Some n => take n (drop (q_offset q) l')
  | None => drop (q_offset q) l'
  end.

(** A key no row has. *)
Definition next_key {R} (m : gmap Z R) : Z :=
  1 + foldr Z.max 0 (fst <$> map_to_list m).

Definition ref_bulk {R} (t : table R) (p : R → bool) (wr : write) (w : world) :
    result exn Z * world :=
  match tx_view (w_db w) (w_session w), bulk wr w with
  | Some d, Some _ => (Ok (count t p d), push_flushed wr w)
  | _, _ => (Err IntegrityError, end_session w)
  end.

Definition ref_db {B} (c : db_cmd B) (w : world) : result exn B * world :=
  match c in db_cmd B return result exn B * world with
  | Select t q =>
      match tx_view (w_db w) (w_session w) with
      | Some d => (Ok (select_rows q (rows t d)), w)
      | None => (Err aborted, w)
      end
  | Add t mk =>
      let key := match run_writes (all_writes (w_session w)) (w_db w) with
                 | Some d => next_key (get_table t d)
                 | None => 1
                 end in
      (Ok (mk key (w_clock w)), push (insert_row t key (mk key (w_clock w))) w)
  | SetRow t key f => (Ok tt, push (set_row t key f) w)
  | DeleteRow t key => (Ok tt, push (drop_row t key) w)
  | BulkUpdate t p f => ref_bulk t p (bulk_update t p f) w
  | BulkDelete t p => ref_bulk t p (bulk_delete t p) w
  | Refresh t key =>
      (match d ← tx_view (w_db w) (w_session w); get_table t d !! key with
       | Some row => Ok row
       | None => Err (InvalidRequestError "Could not refresh instance")
       end, w)
  | Flush =>
      match flush_result w with
      | Some d => (Ok tt, with_db (w_db w) (Session (all_writes (w_session w)) []) w)
      | None => (Err IntegrityError, end_session w)
      end
  | Commit =>
      match flush_result w with
      | Some d => (Ok tt, with_db d empty_session w)
      | None => (Err IntegrityError, end_session w)
      end
  | Rollback | Close => (Ok tt, end_session w)
  | SelectOne => (Ok tt, w)
  end.

Definition ref_serve (B : Type) (c : svc B) (w : world) : result exn B * world :=
  match c in svc B return result exn B * world with
  | Redis c => let '(r, st) := redis_exec (w_clock w) c (w_redis w) in (r, with_redis st w)
  | Db c => ref_db c w
  | S3 c => let '(r, o) := s3_exec c (w_s3 w) in (r, with_s3 o w)
  | SendMail m => (Ok tt, with_mail (m :: w_mail w) w)
  | HttpPost url filename body =>
      let reply := HttpReply 200 (dumps (JObj [("clean", JBool true)]))%string in
      (Ok reply, with_posts (Post url filename body reply :: w_posts w) w)
  | Now => (Ok (w_clock w), w)
  | Monotonic => (Ok (w_monotonic w), w)
  | Sleep us => (Ok tt, with_clock (w_clock w + Z.max 0 us) (w_monotonic w + Z.max 0 us) (w_proc w) w)
  | RandBits k => (Ok (w_clock w mod 2 ^ Z.of_N k), w)
  | TokenUrlsafe => (Ok (text (repeat "t"%char (Z.to_nat 43))), w)
  | BcryptHash pw => (if bcrypt_refuses pw then Err (ValueError "NULL")
                      else Ok ("bcrypt:" ++ pw)%string, w)
  | OnProc f => let '(b, p) := f (w_proc w) in (Ok b, with_proc p w)
  | Observe m => (Ok tt, with_metrics (m :: w_metrics w) w)
  end.

#[export] Instance ref_services : Services world := {| serve := ref_serve; view := id |}.

(** Carry out the next command of the programs of a pool in a given order. *)
Fixpoint schedule {A} (order : list nat) (ps : list (prog A)) (w : world) :
    list (prog A) * world :=
  match order with
  | [] => (ps, w)
  | j :: order' =>
      match ps !! j with
      | Some (Call c k) =>
          let '(r, w') := ref_serve _ c w in schedule order' (<[j := k r]> ps) w'
      | _ => schedule order' ps w
      end
  end.

(** ** It keeps the promises *)

Lemma select_rows_spec {R} (q : query R) l : select_spec q l (select_rows q l).
Proof.
  exists (merge_sort (order_rel q) (filter (λ r, q_where q r = true) l)).
  split_and!; [apply merge_sort_Permutation| |done].
  intros Htot. assert (Total (order_rel q)) by (intros a b; apply Htot).
  apply (Sorted_merge_sort (order_rel q)).
Qed.

Lemma next_key_fresh {R} (m : gmap Z R) : m !! next_key m = None.
Proof.
  apply eq_None_not_Some. intros [r Hr].
  apply elem_of_map_to_list in Hr.
  enough (next_key m <= foldr Z.max 0 (fst <$> map_to_list m)) by (unfold next_key in *; lia).
  revert Hr. generalize (next_key m) as k. induction (map_to_list m) as [|[k' r'] l IH]; intros k.
  - by intros ?%elem_of_nil.
  - cbn. intros [[= -> ->]|Hin]%elem_of_cons; [lia|]. specialize (IH _ Hin). cbn in IH. lia.
Qed.

Lemma ref_bulk_spec {R} (t : table R) p wr w :
  bulk_spec t p wr w (fst (ref_bulk t p wr w)) (snd (ref_bulk t p wr w)).
Proof. unfold bulk_spec, ref_bulk. by repeat case_match. Qed.

Lemma ref_db_spec {B} (c : db_cmd B) w :
  db_spec c w (fst (ref_db c w)) (snd (ref_db c w)).
Proof.
  destruct c; cbn; try solve [done | apply ref_bulk_spec].
  - destruct (tx_view _ _) as [d|] eqn:E; cbn; (split; [done|]); [|done].
    eexists. split; [|done]. apply select_rows_spec.
  - do 2 eexists. split_and!; [done| |done|done].
    intros d ->. apply next_key_fresh.
  - by destruct (flush_result w).
  - by destruct (flush_result w).
Qed.

#[export] Instance ref_services_spec faults : ServicesSpec faults world.
Proof.
  intros B c w. exists w. split; [reflexivity|]. left. cbn.
  destruct c; cbn; try done.
  - by destruct (redis_exec _ _ _).
  - apply ref_db_spec.
  - by destruct (s3_exec _ _).
  - by eexists.
  - split; [done|]. eexists. split; [done|]. apply Z.mod_pos_bound. lia.
  - split; [done|]. by eexists.
  - split; [done|]. case_match; eexists; [done|]. split; [done|]. apply String.eqb_refl.
  - by destruct (f _).
Qed.

Lemma string_leb_trans a b c :
  String.leb a b = true → String.leb b c = true → String.leb a c = true.
Proof.
  unfold String.leb. revert b c. induction a as [|x a IH]; intros [|y b] [|z c]; cbn; try done.
  unfold Ascii.compare.
  destruct (N.compare_spec (N_of_ascii x) (N_of_ascii y)) as [Hxy|Hxy|Hxy]; [| |done];
    destruct (N.compare_spec (N_of_ascii y) (N_of_ascii z)) as [Hyz|Hyz|Hyz]; try done;
    destruct (N.compare_spec (N_of_ascii x) (N_of_ascii z)); try done; try lia.
  apply IH.
Qed.

#[export] Instance toy_sql_spec : SqlTextSpec.
Proof.
  split; cbn; [apply String.leb_total|apply String.leb_antisym|apply string_leb_trans|done].
Qed.

(** ** Schedules are runs of the pool *)

Lemma star_start {A} crashes (may_start : prog A → Prop) ps w :
  Forall may_start ps → star (pool_step false crashes may_start) ([], w) (ps, w).
Proof.
  induction ps as [|p ps IH] using rev_ind; [constructor|].
  rewrite Forall_app, Forall_singleton. intros [Hps Hp].
  eapply star_snoc; [by apply IH|]. by constructor.
Qed.

Lemma star_schedule {A} crashes (may_start : prog A → Prop) order ps w :
  star (pool_step false crashes may_start) (ps, w) (schedule order ps w).
Proof.
  revert ps w. induction order as [|j order IH]; intros ps w; cbn; [constructor|].
  destruct (ps !! j) as [[|?|B c k]|] eqn:E; [apply IH..| |apply IH].
  pose proof (ref_services_spec false B c w) as Hs. cbn in Hs.
  destruct (ref_serve _ c w) as [r w']. cbn in Hs.
  eapply star_trans; [|apply IH]. eapply star_snoc; [constructor|]. by eapply pool_call.
Qed.

Lemma star_crash {A} (may_start : prog A → Prop) j ps w :
  is_Some (ps !! j) → star (pool_step false true may_start) (ps, w) (<[j := Raise killed]> ps, w).
Proof. intros [p Hp]. eapply star_snoc; [constructor|]. by eapply pool_crash. Qed.

(** ** Small worlds for the witnesses *)

Definition no_proc : proc := {|
  p_request_id := None; p_tenant_id := None; p_tenant_slug := None; p_in_flight := 0;
  p_shutdown_requested := false; p_job_in_progress := false;
  p_last_maintenance_attempt_at := 0; p_last_queue_maintenance_at := 0 |}.

(** Nothing stored, at a time in microseconds. *)
Definition world_at (t : Z) : world := {|
  w_clock := t; w_monotonic := t; w_redis := ∅; w_db := empty_tables;
  w_session := empty_session; w_s3 := ∅; w_mail := []; w_posts := []; w_proc := no_proc; w_metrics := [] |}.
