(* ===== verification/RedisFacts.v ===== *)
(** * Lists and sorted sets in Redis

    What a key without time to live holds, as a list or a sorted set, and what
    the commands of the job queue do to it.  [qview] gathers the lemmas: a
    command on a key that holds a list is an equation. *)

From Stdlib Require Import ZArith String Lia.
From stdpp Require Import base tactics option list gmap strings sorting fin_maps.
From S2P Require Import Prelude PyText Json Errors Models Services.
Local Open Scope Z_scope.

(** The list of a key; [None] when the key holds something else or expires. *)
Definition rlist (st : rstate) (k : string) : option (list string) :=
  match st !! k with
  | None => Some []
  | Some (REntry (RList l) None) => Some l
  | Some _ => None
  end.

Definition rzset (st : rstate) (k : string) : option (gmap string Z) :=
  match st !! k with
  | None => Some ∅
  | Some (REntry (RZset z) None) => Some z
  | Some _ => None
  end.

Create Rewrite HintDb qview.

Section facts.
Context (now : Z) (st : rstate) (k : string).

Lemma as_list_rlist l : rlist st k = Some l → as_list now st k = Ok (l, None).
Proof.
  unfold rlist, as_list, live. destruct (st !! k) as [[v [t|]]|]; [by destruct v| |].
  - cbn. by destruct v; intros [= ->].
  - by intros [= <-].
Qed.

Lemma as_zset_rzset z : rzset st k = Some z → as_zset now st k = Ok (z, None).
Proof.
  unfold rzset, as_zset, live. destruct (st !! k) as [[v [t|]]|]; [by destruct v| |].
  - cbn. by destruct v; intros [= ->].
  - by intros [= <-].
Qed.

Lemma rlist_put_list l : rlist (put_list k l None st) k = Some l.
Proof.
  unfold rlist, put_list. destruct l; [by rewrite lookup_delete_eq|by rewrite lookup_insert_eq].
Qed.
Lemma lookup_put_list_ne l ex k' : k ≠ k' → put_list k l ex st !! k' = st !! k'.
Proof. intros. unfold put_list. destruct l; by simplify_map_eq. Qed.
Lemma rlist_put_list_ne l ex k' : k ≠ k' → rlist (put_list k l ex st) k' = rlist st k'.
Proof. intros. unfold rlist. by rewrite lookup_put_list_ne. Qed.
Lemma rzset_put_list_ne l ex k' : k ≠ k' → rzset (put_list k l ex st) k' = rzset st k'.
Proof. intros. unfold rzset. by rewrite lookup_put_list_ne. Qed.

Lemma rzset_put_zset z : rzset (put_zset k z None st) k = Some z.
Proof.
  unfold rzset, put_zset. case_decide; [subst; by rewrite lookup_delete_eq|].
  by rewrite lookup_insert_eq.
Qed.
Lemma lookup_put_zset_ne z ex k' : k ≠ k' → put_zset k z ex st !! k' = st !! k'.
Proof. intros. unfold put_zset. case_decide; by simplify_map_eq. Qed.
Lemma rlist_put_zset_ne z ex k' : k ≠ k' → rlist (put_zset k z ex st) k' = rlist st k'.
Proof. intros. unfold rlist. by rewrite lookup_put_zset_ne. Qed.
Lemma rzset_put_zset_ne z ex k' : k ≠ k' → rzset (put_zset k z ex st) k' = rzset st k'.
Proof. intros. unfold rzset. by rewrite lookup_put_zset_ne. Qed.

(** *** The commands *)

Lemma exec_LPUSH l v : rlist st k = Some l →
  redis_exec now (LPUSH k v) st = (Ok (Z.of_nat (S (length l))), put_list k (v :: l) None st).
Proof. intros H. cbn. by rewrite (as_list_rlist l). Qed.

Lemma exec_LREM1 l v : rlist st k = Some l →
  redis_exec now (LREM1 k v) st =
    if decide (v ∈ l) then (Ok 1, put_list k (remove_first v l) None st) else (Ok 0, st).
Proof. intros H. cbn. by rewrite (as_list_rlist l). Qed.

Lemma exec_RPOP l : rlist st k = Some l →
  redis_exec now (RPOP k) st =
    match unsnoc l with
    | None => (Ok None, st)
    | Some (l', v) => (Ok (Some v), put_list k l' None st)
    end.
Proof. intros H. cbn. by rewrite (as_list_rlist l). Qed.

Lemma exec_LRANGE l a b : rlist st k = Some l →
  redis_exec now (LRANGE k a b) st = (Ok (lrange a b l), st).
Proof. intros H. cbn. by rewrite (as_list_rlist l). Qed.

Lemma exec_ZADD z m s : rzset st k = Some z →
  redis_exec now (ZADD k m s) st =
    (Ok (if decide (is_Some (z !! m)) then 0 else 1), put_zset k (<[m := s]> z) None st).
Proof. intros H. cbn. by rewrite (as_zset_rzset z). Qed.

Lemma exec_ZREM z m : rzset st k = Some z →
  redis_exec now (ZREM k m) st =
    if decide (is_Some (z !! m)) then (Ok 1, put_zset k (delete m z) None st) else (Ok 0, st).
Proof. intros H. cbn. by rewrite (as_zset_rzset z). Qed.

Lemma exec_ZRANGEBYSCORE z lo hi : rzset st k = Some z →
  redis_exec now (ZRANGEBYSCORE k lo hi) st = (Ok (zrange lo hi z), st).
Proof. intros H. cbn. by rewrite (as_zset_rzset z). Qed.
End facts.

Lemma exec_BRPOPLPUSH now st src dst t l d : src ≠ dst →
  rlist st src = Some l → rlist st dst = Some d →
  redis_exec now (BRPOPLPUSH src dst t) st =
    match unsnoc l with
    | None => (Ok None, st)
    | Some (l', v) => (Ok (Some v), put_list dst (v :: d) None (put_list src l' None st))
    end.
Proof.
  intros Hne Hl Hd. cbn. rewrite (as_list_rlist now st src l Hl).
  destruct (unsnoc l) as [[l' v]|]; [|done].
  by rewrite (as_list_rlist now _ dst d) by (by rewrite rlist_put_list_ne).
Qed.

Lemma lrange_all {A} (l : list A) : lrange 0 (-1) l = l.
Proof.
  unfold lrange. cbn -[Z.of_nat]. rewrite drop_0. apply take_ge. lia.
Qed.

(** [LRANGE key 0 (n - 1)] is the first [n] elements, for a positive [n]. *)
Lemma lrange_first {A} n (l : list A) : 0 < n → lrange 0 (n - 1) l = take (Z.to_nat n) l.
Proof.
  intros Hn. unfold lrange. destruct (Z.ltb_spec (n - 1) 0); [lia|].
  cbn -[Z.of_nat]. rewrite drop_0. f_equal. lia.
Qed.

Lemma elem_of_zrange lo hi z m :
  m ∈ zrange lo hi z ↔ ∃ s, z !! m = Some s ∧ lo <= s <= hi.
Proof.
  unfold zrange. rewrite list_elem_of_fmap. split.
  - intros ([m' s] & -> & [Hs Hin]%list_elem_of_filter).
    rewrite merge_sort_Permutation in Hin. apply elem_of_map_to_list in Hin. eauto.
  - intros (s & Hz & Hs). exists (m, s). split; [done|].
    apply list_elem_of_filter. split; [done|].
    by rewrite merge_sort_Permutation, elem_of_map_to_list.
Qed.

Lemma NoDup_zrange lo hi z : NoDup (zrange lo hi z).
Proof.
  unfold zrange. assert (∀ l : list (string * Z), NoDup l.*1 →
    NoDup (filter (λ '(_, s), lo <= s <= hi) l).*1) as Hf.
  { induction l as [|[m s] l IH]; [done|]. rewrite fmap_cons, filter_cons.
    intros [Hn Hnd]%NoDup_cons. case_decide; [|by apply IH].
    rewrite fmap_cons. apply NoDup_cons. split; [|by apply IH].
    intros ([m1 s1] & Heq & [_ Hin]%list_elem_of_filter)%list_elem_of_fmap.
    apply Hn. rewrite Heq. apply list_elem_of_fmap. eexists. split; [|exact Hin]. done. }
  apply Hf. rewrite (merge_sort_Permutation zle). apply NoDup_fst_map_to_list.
Qed.
#[export] Hint Rewrite rlist_put_list rzset_put_zset : qview.

(** ** Frame *)

(** The keys a command reads or writes. *)
Definition cmd_keys {B} (c : redis_cmd B) : list string :=
  match c with
  | LPUSH k _ | LREM1 k _ | RPOP k | LRANGE k _ _ | ZADD k _ _ | ZREM k _
  | ZRANGEBYSCORE k _ _ | SET k _ _ _ | GET k | EXISTS k | DEL k | INCR k | EXPIRE k _ => [k]
  | BRPOPLPUSH src dst _ => [src; dst]
  | DELS ks => ks
  | PING => []
  end.

Lemma delete_keys_ne now ks st k : k ∉ ks → snd (delete_keys now ks st) !! k = st !! k.
Proof.
  revert st. induction ks as [|k' ks IH]; intros st; [done|]. intros [Hne Hk]%not_elem_of_cons. cbn.
  specialize (IH (delete k' st) Hk). destruct (delete_keys _ _ _). cbn in *. by rewrite IH, lookup_delete_ne.
Qed.

Lemma delete_keys_gone now ks st k : k ∈ ks → snd (delete_keys now ks st) !! k = None.
Proof.
  revert st. induction ks as [|k' ks IH]; intros st; [by intros ?%elem_of_nil|]. cbn.
  specialize (IH (delete k' st)). pose proof (delete_keys_ne now ks (delete k' st) k) as Hne.
  destruct (delete_keys _ _ _). cbn in *. destruct (decide (k ∈ ks)) as [Hin|Hin]; [auto|].
  intros [->|?]%elem_of_cons; [|done]. by rewrite Hne, lookup_delete_eq.
Qed.

Lemma redis_frame {B} now (c : redis_cmd B) st k :
  k ∉ cmd_keys c → snd (redis_exec now c st) !! k = st !! k.
Proof.
  assert (∀ st k0 l ex, k ≠ k0 → put_list k0 l ex st !! k = st !! k) as Hl
    by (intros; by rewrite lookup_put_list_ne).
  assert (∀ st k0 z ex, k ≠ k0 → put_zset k0 z ex st !! k = st !! k) as Hz
    by (intros; by rewrite lookup_put_zset_ne).
  destruct c; cbn [cmd_keys];
    try (intros Hk; cbn; rewrite <- (delete_keys_ne now ks st k Hk); by destruct (delete_keys _ _ _));
    rewrite ?not_elem_of_cons; intros Hk; destruct_and?;
    cbn; repeat case_match; cbn; rewrite ?Hl, ?Hz by done;
    rewrite ?lookup_insert_ne, ?lookup_delete_ne by done; rewrite ?Hl by done; done.
Qed.

(** A refused command raises a [RedisError]. *)
Lemma redis_exec_error {B} now (c : redis_cmd B) st e :
  fst (redis_exec now c st) = Err e → is_redis_error e = true.
Proof.
  destruct c; cbn; unfold as_list, as_zset, as_str; intros He; repeat case_match;
    cbn in He; simplify_eq; done.
Qed.
