(* ===== verification/Tickets.v ===== *)
(** * Programs that share one Redis key

    A rely-guarantee reading of programs, for the keys that several processes
    use to agree: the revocation mark of a refresh token, the maintenance lock,
    the counter of a rate limit.  Such a key hands out tickets: [inv n w] says
    that [n] tickets have been given out in the world [w].  [rg T tk p Q] says
    that [p], started at any time from [T] on with the ticket [tk], keeps the
    invariant with each of its commands whatever the other programs have done in
    between, takes at most one ticket, which is a new one, and ends in [Q].
    Everything is about the time before a deadline [E]. *)

From Stdlib Require Import ZArith String Lia.
From stdpp Require Import base tactics option list gmap strings sorting fin_maps.
From S2P Require Import Prelude PyText Json Errors Models Services Programs RedisFacts.
Local Open Scope Z_scope.

Section tickets.
Context `{Crypto} (faults : bool) (E : Z) (inv : nat → world → Prop).

(** Tickets given out by one command. *)
Definition tick (n n' : nat) (tk tk' : option nat) : Prop :=
  (n <= n')%nat ∧ (tk' = tk ∨ tk = None ∧ ∃ t, tk' = Some t ∧ (n < t <= n')%nat).

Fixpoint rg {A} (T : Z) (tk : option nat) (p : prog A)
    (Q : result exn A → Z → option nat → Prop) : Prop :=
  match p with
  | Ret a => Q (Ok a) T tk
  | Raise e => Q (Err e) T tk
  | Call c k =>
      ∀ n w r w', T <= w_clock w → w_clock w' < E → inv n w → svc_spec faults c w r w' →
        ∃ n' tk', inv n' w' ∧ tick n n' tk tk' ∧ rg (w_clock w') tk' (k r) Q
  end.

Lemma rg_mono {A} (p : prog A) T T' tk (Q Q' : result exn A → Z → option nat → Prop) :
  T <= T' → (∀ r t t' b, Q r t b → t <= t' → Q' r t' b) → rg T tk p Q → rg T' tk p Q'.
Proof.
  intros HT HQ. revert T T' tk HT. induction p as [| |B c k IH]; intros T T' tk HT; cbn; [eauto..|].
  intros Hp n w r w' Hw HE Hi Hs.
  destruct (Hp n w r w' ltac:(lia) HE Hi Hs) as (n' & tk' & Hi' & Htk & Hk).
  exists n', tk'. split_and!; [done..|]. by eapply IH.
Qed.

Lemma rg_bind {A B} (p : prog A) (f : A → prog B) T tk Q :
  rg T tk p (λ r t b, match r with Ok a => rg t b (f a) Q | Err e => Q (Err e) t b end) →
  rg T tk (bind p f) Q.
Proof.
  revert T tk. induction p as [| |C c k IH]; intros T tk; cbn; [done..|].
  intros Hp n w r w' Hw HE Hi Hs.
  destruct (Hp n w r w' Hw HE Hi Hs) as (n' & tk' & Hi' & Htk & Hk).
  exists n', tk'. split_and!; [done..|]. by apply IH.
Qed.

Lemma rg_catch {A} (p : prog A) h T tk Q :
  rg T tk p (λ r t b, match r with Ok a => Q (Ok a) t b | Err e => rg t b (h e) Q end) →
  rg T tk (catch p h) Q.
Proof.
  revert T tk. induction p as [| |C c k IH]; intros T tk; cbn; [done..|].
  intros Hp n w r w' Hw HE Hi Hs.
  destruct (Hp n w r w' Hw HE Hi Hs) as (n' & tk' & Hi' & Htk & Hk).
  exists n', tk'. split_and!; [done..|]. by apply IH.
Qed.

Lemma rg_of_result {A} (r : result exn A) T tk Q : Q r T tk → rg T tk (of_result r) Q.
Proof. by destruct r. Qed.

Lemma tick_refl n tk : tick n n tk tk.
Proof. split; [done|by left]. Qed.

(** One command. *)
Lemma rg_svc {B} (c : svc B) T tk (Q : result exn B → Z → option nat → Prop) :
  (∀ n w r w', T <= w_clock w → w_clock w' < E → inv n w → svc_spec faults c w r w' →
     ∃ n' tk', inv n' w' ∧ tick n n' tk tk' ∧ Q r (w_clock w') tk') →
  rg T tk (call c) Q.
Proof.
  intros Hc n w r w' Hw HE Hi Hs. destruct (Hc n w r w' Hw HE Hi Hs) as (n' & tk' & ? & ? & HQ).
  exists n', tk'. split_and!; [done..|]. by apply rg_of_result.
Qed.

(** A command that gives out no ticket. *)
Lemma rg_call {B} (c : svc B) T tk Q :
  (∀ n w r w', T <= w_clock w → w_clock w' < E → svc_spec faults c w r w' →
     inv n w → inv n w') →
  (∀ w r w', T <= w_clock w → svc_spec faults c w r w' → Q r (w_clock w') tk) →
  rg T tk (call c) Q.
Proof.
  intros Hh HQ n w r w' Hw HE Hi Hs. exists n, tk.
  split_and!; [by eapply Hh|apply tick_refl|]. apply rg_of_result. by eapply HQ.
Qed.

(** ** Commands that leave the key alone *)

Section frame.
Context (K : string).
Context (inv_frame : ∀ n w w', w_redis w' !! K = w_redis w !! K → w_clock w <= w_clock w' →
  inv n w → inv n w').

Definition leaves_key (B : Type) (c : svc B) : Prop :=
  match c with Redis rc => K ∉ cmd_keys rc | _ => True end.

Lemma leaves_key_redis {B} (c : svc B) w r w' :
  leaves_key B c → svc_spec faults c w r w' → w_redis w' !! K = w_redis w !! K.
Proof.
  intros Hc (w1 & Hadv & Hcase). rewrite <- (advance_redis _ _ Hadv).
  assert (∀ r' w2, cmd_spec c w1 r' w2 → w_redis w2 !! K = w_redis w1 !! K) as Hs.
  { intros r' w2 Hs. destruct (is_redis c) eqn:Hr; [|by rewrite (cmd_redis_frame _ _ _ _ Hr Hs)].
  destruct c; try done. cbn in Hc, Hs.
  pose proof (redis_frame (w_clock w1) c (w_redis w1) K Hc) as Hf.
  destruct (redis_exec _ _ _). by injection Hs as -> ->. }
  destruct Hcase as [Hcase|(_ & e & _ & _ & [->|[r' Hcase]])]; [|done|]; by eapply Hs.
Qed.

Lemma leaves_key_inv {B} (c : svc B) n w r w' :
  leaves_key B c → svc_spec faults c w r w' → inv n w → inv n w'.
Proof.
  intros Hc Hs. apply inv_frame; [by eapply leaves_key_redis|by eapply svc_clock].
Qed.

Lemma rg_keeps {A} (p : prog A) T tk (Q : result exn A → Z → option nat → Prop) :
  keeps leaves_key p → (∀ r t, T <= t → Q r t tk) → rg T tk p Q.
Proof.
  revert T. induction p as [| |B c k IH]; intros T; cbn; [intros _ HQ; apply HQ; lia..|].
  intros [Hc Hk] HQ n w r w' Hw HE Hi Hs. exists n, tk.
  split_and!; [by eapply leaves_key_inv|apply tick_refl|]. apply IH; [done|]. intros r' t Ht. apply HQ.
  pose proof (svc_clock _ _ _ _ _ Hs). lia.
Qed.

Lemma rg_now T tk Q :
  (∀ t t', T <= t → t <= t' → Q (Ok t) t' tk) → rg T tk now_us Q.
Proof.
  intros HQ. apply rg_call; [intros n w r w' _ _; by apply leaves_key_inv|].
  intros w r w' Hw (w1 & Hadv & Hcase). pose proof (advance_clock _ _ Hadv).
  destruct Hcase as [[-> ->]|(_ & e & [] & _)]. apply HQ; lia.
Qed.

(** A command that only reads the key. *)
Lemma rg_read {B} (rc : redis_cmd B) T tk Q :
  (∀ now st, snd (redis_exec now rc st) = st) →
  (∀ r t, T <= t → Q r t tk) → rg T tk (redis rc) Q.
Proof.
  intros Hrc HQ. apply rg_call.
  - intros n w r w' _ _ Hs. pose proof (svc_clock _ _ _ _ _ Hs) as Hclock.
  apply inv_frame; [|done]. destruct Hs as (w1 & Hadv & Hcase).
  rewrite <- (advance_redis _ _ Hadv).
  assert (∀ r' w2, cmd_spec (Redis rc) w1 r' w2 → w_redis w2 = w_redis w1) as Hread.
  { intros r' w2. cbn. specialize (Hrc (w_clock w1) (w_redis w1)).
    destruct (redis_exec _ _ _) as [r2 st2]. cbn in Hrc. intros [= _ ->]. by subst. }
  destruct Hcase as [Hs|(_ & e & _ & _ & [->|[r' Hs]])]; [|done|]; by rewrite (Hread _ _ Hs).
  - intros w r w' Hw Hs%svc_clock. apply HQ. lia.
Qed.
End frame.

(** ** The pool *)

Section pool.
Context {A : Type} (fair : result exn A → Z → option nat → Prop).
Context (fair_later : ∀ r t t' tk, fair r t tk → t <= t' → fair r t' tk).
Context (fair_killed : ∀ t tk, fair (Err killed) t tk).

Definition pool_ok (w : world) (ps : list (prog A)) : Prop :=
  E <= w_clock w ∨
  ∃ n (tk : nat → option nat),
  inv n w ∧
  (∀ j p, ps !! j = Some p → rg (w_clock w) (tk j) p fair) ∧
  (∀ i j t, tk i = Some t → tk j = Some t → i = j) ∧
  (∀ i t, tk i = Some t → (i < length ps)%nat ∧ (1 <= t <= n)%nat).

Lemma pool_ok_start p ps w :
  rg (w_clock w) None p fair → pool_ok w ps → pool_ok w (ps ++ [p]).
Proof.
  intros Hp [HE|(n & tk & Hi & Hrg & Huniq & Hlt)]; [by left|]. right. exists n, tk.
  split_and!; [done| |done|].
  - intros j q Hj. apply lookup_snoc_Some in Hj as [[_ Hj]|[-> <-]]; [by apply Hrg|].
  destruct (tk (length ps)) as [t|] eqn:Et; [|apply Hp]. destruct (Hlt _ _ Et). lia.
  - intros i t Ht. destruct (Hlt _ _ Ht). rewrite length_app. cbn. split; lia.
Qed.

Lemma pool_ok_crash i ps w : pool_ok w ps → pool_ok w (<[i := Raise killed]> ps).
Proof.
  intros [HE|(n & tk & Hi & Hrg & Huniq & Hlt)]; [by left|]. right. exists n, tk.
  rewrite length_insert. split_and!; [done| |done..].
  intros j p [(<- & <- & _)|[_ Hj]]%list_lookup_insert_Some; [apply fair_killed|by apply Hrg].
Qed.

Lemma pool_ok_call i B (c : svc B) k r ps w w' :
  ps !! i = Some (Call c k) → svc_spec faults c w r w' → pool_ok w ps →
  pool_ok w' (<[i := k r]> ps).
Proof.
  intros Hi Hs [HE|(n & tk & Hinv & Hrg & Huniq & Hlt)].
  { left. pose proof (svc_clock _ _ _ _ _ Hs). lia. }
  destruct (decide (E <= w_clock w')) as [|HE]; [by left|]. right.
  destruct (Hrg _ _ Hi n w r w' (Z.le_refl _) ltac:(lia) Hinv Hs)
  as (n' & tk' & Hinv' & [Hn Htk] & Hk).
  pose proof (svc_clock _ _ _ _ _ Hs) as Hclock.
  assert (∀ t, tk' = Some t → tk i = Some t ∨ (n < t <= n')%nat) as Hnew
  by (intros t Ht; destruct Htk as [->|(_ & t' & -> & ?)]; [by left|right; congruence]).
  exists n', (λ j, if decide (j = i) then tk' else tk j). rewrite length_insert. split_and!.
  - done.
  - intros j p. destruct (decide (j = i)) as [->|Hne].
  + rewrite list_lookup_insert_eq by by eapply lookup_lt_Some. by intros [= <-].
  + rewrite list_lookup_insert_ne by done. intros Hj.
    eapply rg_mono; [exact Hclock| |by apply Hrg]. eauto.
  - intros j1 j2 t. destruct (decide (j1 = i)) as [->|Hne1], (decide (j2 = i)) as [->|Hne2];
    [done| | |by apply Huniq].
  + intros [Ht1|Ht1]%Hnew Ht2; [by eapply Huniq|]. destruct (Hlt _ _ Ht2). lia.
  + intros Ht2 [Ht1|Ht1]%Hnew; [by eapply Huniq|]. destruct (Hlt _ _ Ht2). lia.
  - intros j t. destruct (decide (j = i)) as [->|Hne].
  + intros Ht. split; [by eapply lookup_lt_Some|].
    destruct (Hnew _ Ht) as [Ht'|?]; [destruct (Hlt _ _ Ht')|]; lia.
  + intros Ht. destruct (Hlt _ _ Ht). split; [done|lia].
Qed.

(** What holds of the programs that have ended. *)
Lemma pool_tickets crashes (may_start : prog A → Prop) w0 ps w :
  inv 0 w0 → (∀ p, may_start p → ∀ T, w_clock w0 <= T → rg T None p fair) →
  star (pool_step faults crashes may_start) ([], w0) (ps, w) → w_clock w < E →
  ∃ tk : nat → option nat,
  (∀ j r p, ps !! j = Some p → (p = of_result r) → fair r (w_clock w) (tk j)) ∧
  (∀ i j t, tk i = Some t → tk j = Some t → i = j) ∧
  (∀ i t, tk i = Some t → (1 <= t)%nat).
Proof.
  intros Hinv Hstart Hstar HE.
  assert (pool_ok w ps) as [?|(n & tk & _ & Hrg & Huniq & Hlt)].
  - apply (star_invariant _ (λ st, w_clock w0 <= w_clock st.2 ∧ pool_ok st.2 st.1)) in Hstar;
      [by destruct Hstar| |].
  + intros a b [Hc Ha] Hstep. destruct Hstep as [|j B c k r qs v v' Hj Hs|]; cbn in *;
      [split; [done|by apply pool_ok_start; [apply Hstart|]]
      |split; [apply svc_clock in Hs; lia|by eapply pool_ok_call]
      |split; [done|by apply pool_ok_crash]].
  + split; [done|]. right. exists 0%nat, (λ _, None). by split_and!.
  - lia.
  - exists tk. split_and!; [|done|intros i t Ht; apply Hlt in Ht; lia].
  intros j r p Hj ->. specialize (Hrg _ _ Hj). destruct r; exact Hrg.
Qed.
End pool.
End tickets.

(** Distinct tickets up to [m]: at most [m] of them. *)
Lemma tickets_bound (tk : nat → option nat) (m : nat) (js : list nat) :
  (∀ i j t, tk i = Some t → tk j = Some t → i = j) →
  NoDup js → (∀ j, j ∈ js → ∃ t, tk j = Some t ∧ (1 <= t <= m)%nat) →
  (length js <= m)%nat.
Proof.
  intros Huniq Hnd Hjs.
  assert (∃ ts, Forall2 (λ j t, tk j = Some t ∧ (1 <= t <= m)%nat) js ts) as [ts Hts].
  { clear Hnd. induction js as [|j js IH]; [by exists []|].
    destruct IH as [ts Hts]; [intros k Hk; apply Hjs; by right|].
    destruct (Hjs j) as [t Ht]; [by left|]. exists (t :: ts). by constructor. }
  assert (NoDup ts) as Hndt.
  { clear Hjs. induction Hts as [|j t js ts [Hj Ht] Hts IH]; [constructor|].
    apply NoDup_cons in Hnd as [Hn Hnd]. constructor; [|by apply IH].
    intros Hin. apply list_elem_of_lookup in Hin as [i Hi].
    destruct (Forall2_lookup_r _ _ _ _ _ Hts Hi) as (j' & Hj' & Ht' & _).
    rewrite (Huniq j j' t Hj Ht') in Hn. by apply Hn, list_elem_of_lookup_2 with i. }
  rewrite (Forall2_length _ _ _ Hts). rewrite <- (length_seq m 1).
  apply submseteq_length, NoDup_submseteq; [done|].
  intros t Hin. apply list_elem_of_lookup in Hin as [i Hi].
  destruct (Forall2_lookup_r _ _ _ _ _ Hts Hi) as (j & _ & _ & Ht).
  apply elem_of_seq. lia.
Qed.

(** ** A key that is held until a deadline

    [K] is held when it is stored with an expiry that is not before [E]; holding
    it is the only ticket. *)
Definition held (K : string) (E : Z) (st : rstate) : Prop :=
  ∃ v ex, st !! K = Some (REntry v (Some ex)) ∧ E <= ex.
Definition held_once (K : string) (E : Z) (n : nat) (w : world) : Prop :=
  n = 0%nat ∨ n = 1%nat ∧ held K E (w_redis w).

Lemma held_once_frame K E n w w' :
  w_redis w' !! K = w_redis w !! K → w_clock w <= w_clock w' →
  held_once K E n w → held_once K E n w'.
Proof. unfold held_once, held. by intros ->. Qed.

Section held.
Context `{Crypto} (faults : bool) (K : string) (E : Z).

(** [SET K v EX ttl], with and without [NX], at a time from which [ttl] reaches
    the deadline. *)
Lemma set_held v nx ttl w r w' :
  0 < ttl → E <= w_clock w + ttl * second → w_clock w' < E →
  svc_spec faults (Redis (SET K v nx (Some ttl))) w r w' →
  (held K E (w_redis w) → held K E (w_redis w')) ∧
  (nx = true → r = Ok true → held K E (w_redis w') ∧ ¬ held K E (w_redis w)).
Proof.
  intros Hpos Httl HE (w1 & Hadv & Hcase). rewrite <- (advance_redis _ _ Hadv).
  pose proof (advance_clock _ _ Hadv) as Hclock.
  assert (∀ r' w2, cmd_spec (Redis (SET K v nx (Some ttl))) w1 r' w2 →
    (held K E (w_redis w1) → held K E (w_redis w2)) ∧ w_clock w2 = w_clock w1 ∧
    (nx = true → r' = Ok true → held K E (w_redis w2) ∧ live (w_clock w1) (w_redis w1) K = None))
    as Hset.
  { intros r' w2 Hs. cbn in Hs. rewrite (proj2 (Z.leb_gt ttl 0)) in Hs by lia.
    assert (held K E (<[K := REntry (RStr v) (Some (w_clock w1 + ttl * second))]> (w_redis w1)))
      as Hnew.
    { eexists _, _. rewrite lookup_insert_eq. split; [done|lia]. }
    destruct nx; cbn [andb] in Hs.
    - case_bool_decide as Hl; injection Hs as -> ->; cbn; [done|].
      split_and!; [done..|]. intros _ _. split; [done|]. by apply eq_None_not_Some.
    - injection Hs as -> ->. done. }
  destruct Hcase as [Hs|(_ & e & _ & -> & [->|[r' Hs]])].
  - destruct (Hset _ _ Hs) as (Hk & Hc & Hw). split; [done|]. intros Hnx Hr.
    destruct (Hw Hnx Hr) as [? Hl]. split; [done|]. intros (x & ex & Hv & Hex).
    unfold live in Hl. rewrite Hv in Hl. cbn in Hl.
    destruct (Z.leb_spec ex (w_clock w1)); [lia|done].
  - done.
  - split; [by apply (Hset _ _ Hs)|done].
Qed.

Lemma rg_set nx ttl T :
  0 < ttl → E <= T + ttl * second →
  rg faults E (held_once K E) T None (redis (SET K "1" nx (Some ttl)))
    (λ r t tk, nx = true → r = Ok true → tk = Some 1%nat).
Proof.
  intros Hpos Httl n w r w' Hw HE Hn Hs.
  destruct (set_held "1" nx ttl w r w') as [Hk Hwin]; [lia..|done|].
  destruct (nx && match r with Ok b => b | Err _ => false end)%bool eqn:Ewin.
  - apply andb_prop in Ewin as [-> Hr]. destruct r as [[]|e]; try done.
    destruct (Hwin eq_refl eq_refl) as [Hheld Hnot]. destruct Hn as [->|[_ ?]]; [|done].
    exists 1%nat, (Some 1%nat). split; [by right|]. split; [|done].
    split; [lia|right]. split; [done|]. exists 1%nat. split; [done|lia].
  - exists n, None. split_and!; [|apply tick_refl|].
    + destruct Hn as [->|[-> ?]]; [by left|right; auto].
    + apply rg_of_result. intros ->. destruct r as [b|e]; [|done]. cbn in Ewin. by intros [= ->].
Qed.
End held.
