(* ===== verification/Ids.v ===== *)
(** * Identifiers

    [app/core/ids.py]: the UUIDv7 the program builds on interpreters whose
    [uuid] module has no [uuid7] of its own (Python 3.13, the one of the
    container image). *)

From Stdlib Require Import ZArith NArith Lia Ascii String.
From stdpp Require Import base tactics option list strings.
From S2P Require Import Prelude PyText Json Errors Models Services Programs.
Local Open Scope Z_scope.

(** The integer of the UUID, from the milliseconds and the random bits. *)
Definition uuid7_int (timestamp_ms random_a random_b : Z) : Z :=
  Z.lor (Z.lor (Z.lor (Z.lor
    (Z.shiftl (Z.land timestamp_ms (Z.shiftl 1 48 - 1)) 80)
    (Z.shiftl 7 76))
    (Z.shiftl random_a 64))
    (Z.shiftl 2 62))
    random_b.

(** [n] hexadecimal digits. *)
Fixpoint hex_digits (n : nat) (z : Z) : list ascii :=
  match n with
  | O => []
  | S n' => hex_digit (Z.to_N (z / 16 ^ Z.of_nat n')) :: hex_digits n' (z mod 16 ^ Z.of_nat n')
  end.

(** [str(uuid.UUID(int=n))] *)
Definition uuid_str (n : Z) : string :=
  let h := hex_digits 32 n in
  text (take 8 h ++ "-"%char :: take 4 (drop 8 h) ++ "-"%char :: take 4 (drop 12 h) ++
        "-"%char :: take 4 (drop 16 h) ++ "-"%char :: drop 20 h).

(** [str(uuid7())]; [time.time_ns() // 1_000_000] from a clock in microseconds. *)
Definition uuid7 : prog string :=
  t ← now_us;
  a ← call (RandBits 12);
  b ← call (RandBits 62);
  Ret (uuid_str (uuid7_int (t / 1000) a b)).

(** ** The layout *)

Lemma lor_shift hi low n : 0 <= n → 0 <= low < 2 ^ n →
  Z.lor (hi * 2 ^ n) low = hi * 2 ^ n + low.
Proof.
  intros Hn Hl. rewrite <- Z.shiftl_mul_pow2 by done.
  rewrite <- Z.add_lor_land. rewrite <- (Z.add_0_r (Z.lor _ _)) at 1. f_equal. symmetry.
  apply Z.bits_inj'. intros i Hi.
  rewrite Z.land_spec, Z.bits_0.
  destruct (decide (i < n)).
  - by rewrite Z.shiftl_spec_low by lia.
  - destruct (decide (low = 0)) as [->|]; [by rewrite Z.bits_0, andb_false_r|].
    rewrite (Z.bits_above_log2 low); [apply andb_false_r|lia|].
    apply Z.log2_lt_pow2; [lia|]. apply Z.lt_le_trans with (2 ^ n); [lia|].
    apply Z.pow_le_mono_r; lia.
Qed.

Lemma uuid7_int_sum ts a b : 0 <= a < 2 ^ 12 → 0 <= b < 2 ^ 62 →
  uuid7_int ts a b = (ts mod 2 ^ 48) * 2 ^ 80 + 7 * 2 ^ 76 + a * 2 ^ 64 + 2 * 2 ^ 62 + b.
Proof.
  intros Ha Hb. unfold uuid7_int. change (Z.shiftl 1 48 - 1) with (Z.ones 48).
  rewrite Z.land_ones, !Z.shiftl_mul_pow2 by lia. set (t := ts mod 2 ^ 48).
  rewrite (lor_shift t) by lia.
  replace (t * 2 ^ 80 + 7 * 2 ^ 76) with ((t * 2 ^ 4 + 7) * 2 ^ 76) by lia.
  rewrite lor_shift by lia.
  replace ((t * 2 ^ 4 + 7) * 2 ^ 76 + a * 2 ^ 64)
    with (((t * 2 ^ 4 + 7) * 2 ^ 12 + a) * 2 ^ 64) by lia.
  rewrite lor_shift by lia.
  replace (((t * 2 ^ 4 + 7) * 2 ^ 12 + a) * 2 ^ 64 + 2 * 2 ^ 62)
    with ((((t * 2 ^ 4 + 7) * 2 ^ 12 + a) * 2 ^ 2 + 2) * 2 ^ 62) by lia.
  rewrite lor_shift by lia. lia.
Qed.

Lemma hex_digits_inj n a b : 0 <= a < 16 ^ Z.of_nat n → 0 <= b < 16 ^ Z.of_nat n →
  hex_digits n a = hex_digits n b → a = b.
Proof.
  revert a b. induction n as [|n IH]; intros a b Ha Hb; [cbn in *; lia|].
  rewrite Nat2Z.inj_succ, Z.pow_succ_r in Ha, Hb by lia.
  cbn [hex_digits]. set (p := 16 ^ Z.of_nat n) in *.
  assert (0 < p) by (subst p; apply Z.pow_pos_nonneg; lia).
  intros [= Hd Hr]. apply IH in Hr; [|apply Z.mod_pos_bound; lia..].
  assert (∀ x y, 0 <= x < 16 → 0 <= y < 16 →
            hex_digit (Z.to_N x) = hex_digit (Z.to_N y) → x = y) as Hinj.
  { intros x y Hx Hy. unfold hex_digit.
    destruct (N.ltb_spec (Z.to_N x) 10), (N.ltb_spec (Z.to_N y) 10); intros E;
      apply (f_equal N_of_ascii) in E; rewrite !N_ascii_embedding in E by lia; lia. }
  apply Hinj in Hd; [|split; [apply Z.div_pos|apply Z.div_lt_upper_bound]; lia..].
  rewrite (Z.div_mod a p), (Z.div_mod b p) by lia. congruence.
Qed.

Lemma length_hex_digits n z : length (hex_digits n z) = n.
Proof. revert z. induction n; cbn; auto. Qed.

(** Two identifiers are the same text only when they are the same number. *)
Lemma uuid_str_inj a b : 0 <= a < 2 ^ 128 → 0 <= b < 2 ^ 128 →
  uuid_str a = uuid_str b → a = b.
Proof.
  intros Ha Hb E. apply (f_equal chars) in E. unfold uuid_str in E.
  rewrite !chars_text in E.
  apply (hex_digits_inj 32); [done..|].
  pose proof (length_hex_digits 32 a). pose proof (length_hex_digits 32 b).
  revert E. generalize dependent (hex_digits 32 b). generalize dependent (hex_digits 32 a).
  intros l Hl l' Hl'.
  do 32 (destruct l as [|? l]; [done|]). destruct l; [|done].
  do 32 (destruct l' as [|? l']; [done|]). destruct l'; [|done].
  cbn. congruence.
Qed.

(** ** The program *)

Lemma uuid7_int_range ts a b : 0 <= a < 2 ^ 12 → 0 <= b < 2 ^ 62 → 0 <= uuid7_int ts a b < 2 ^ 128.
Proof.
  intros Ha Hb. rewrite uuid7_int_sum by done.
  pose proof (Z.mod_pos_bound ts (2 ^ 48) ltac:(lia)). lia.
Qed.

Lemma wp_uuid7 `{Crypto} Q w :
  (∀ n w1, 0 <= n < 2 ^ 128 → advance w w1 → Q (Ok (uuid_str n)) w1) → wp false uuid7 Q w.
Proof.
  intros HQ. unfold uuid7. apply wp_bind, wp_now. intros w1 Hadv1.
  apply wp_bind, wp_call. intros r2 w2' (w2 & Hadv2 & [Hc|[? _]]); [|done].
  cbn in Hc. destruct Hc as (-> & a & -> & Ha).
  apply wp_bind, wp_call. intros r3 w3' (w3 & Hadv3 & [Hc|[? _]]); [|done].
  cbn in Hc. destruct Hc as (-> & b & -> & Hb).
  cbn [wp]. apply HQ; [by apply uuid7_int_range|]. by do 2 (etrans; [eassumption|]).
Qed.

(** A UUID is made of hexadecimal digits and hyphens. *)
Lemma hex_digits_no_slash k z : 0 <= z < 16 ^ Z.of_nat k → "/"%char ∉ hex_digits k z.
Proof.
  revert z. induction k as [|k IH]; intros z Hz; cbn [hex_digits]; [apply not_elem_of_nil|].
  rewrite Nat2Z.inj_succ, Z.pow_succ_r in Hz by lia.
  apply not_elem_of_cons. split; [|apply IH, Z.mod_pos_bound; lia].
  assert (0 <= z / 16 ^ Z.of_nat k < 16) as Hd.
  { split; [apply Z.div_pos; lia|]. apply Z.div_lt_upper_bound; lia. }
  assert (∀ d, (d < 16)%nat → "/"%char ≠ hex_digit (N.of_nat d)) as Hdigit.
  { intros d Hlt. do 16 (destruct d as [|d]; [done|]). lia. }
  specialize (Hdigit (Z.to_nat (z / 16 ^ Z.of_nat k)) ltac:(lia)).
  by rewrite Z_nat_N in Hdigit.
Qed.

Lemma elem_of_take_drop {A} i j (l : list A) x : x ∈ take i (drop j l) → x ∈ l.
Proof.
  intros [m [Hm _]%lookup_take_Some]%list_elem_of_lookup. rewrite lookup_drop in Hm.
  by eapply list_elem_of_lookup_2.
Qed.

(** The characters of a UUID. *)
Lemma uuid_str_chars n c : c ∈ chars (uuid_str n) → c = "-"%char ∨ c ∈ hex_digits 32 n.
Proof.
  unfold uuid_str. rewrite chars_text.
  rewrite <- (take_ge (drop 20 (hex_digits 32 n)) 12) by (rewrite length_drop, length_hex_digits; done).
  change (take 8 (hex_digits 32 n)) with (take 8 (drop 0 (hex_digits 32 n))).
  generalize (hex_digits 32 n). intros l.
  repeat (rewrite elem_of_app || rewrite elem_of_cons).
  intros [Hc|[Hc|[Hc|[Hc|[Hc|[Hc|[Hc|[Hc|Hc]]]]]]]];
    (by left) || (right; by eapply elem_of_take_drop).
Qed.

Lemma uuid_str_no_slash n : 0 <= n < 2 ^ 128 → "/"%char ∉ chars (uuid_str n).
Proof. intros Hn [?|Hin]%uuid_str_chars; [done|]. by apply hex_digits_no_slash in Hin. Qed.
