(* ===== verification/JobQueue.v ===== *)
(** * The job queue

    [app/core/job_queue.py]: jobs are JSON texts in four Redis keys, the ready
    and the processing list, the delayed sorted set and the failed list.  The
    fields of a [Job] read from a queue are whatever the text holds ([json],
    with [JNull] for [None]); a float count of attempts is outside the model and
    raises.  Keys and limits are arguments, as in the source. *)

From Stdlib Require Import ZArith Ascii String Lia.
From stdpp Require Import base tactics option list gmap strings sorting fin_maps.
From S2P Require Import Prelude PyText Json Errors Config DateTime Models Services.
From S2P Require Import Programs RedisFacts Ids.
Local Open Scope string_scope.
Local Open Scope Z_scope.

Definition MAX_JOB_ERROR_LENGTH : nat := 500.

Record Job := {
  id : json;
  type : json;
  payload : json;
  attempts : json;
  request_id : json;
  last_error : json;
  failed_at : json;
  processing_started_at : json;
}.

(** [if self.x is not None: data[key] = self.x] *)
Definition opt_item (key : string) (v : json) : list (string * json) :=
  match v with JNull => [] | _ => [(key, v)] end.

Definition job_data (self : Job) : json :=
  JObj ([("id", id self); ("type", type self); ("payload", payload self);
         ("attempts", attempts self)] ++
        opt_item "request_id" (request_id self) ++
        opt_item "last_error" (last_error self) ++
        opt_item "failed_at" (failed_at self) ++
        opt_item "processing_started_at" (processing_started_at self))%list.

(** [to_dict]: every field, [None] included. *)
Definition to_dict (self : Job) : json :=
  JObj [("id", id self); ("type", type self); ("payload", payload self);
        ("attempts", attempts self); ("request_id", request_id self);
        ("last_error", last_error self); ("failed_at", failed_at self);
        ("processing_started_at", processing_started_at self)].

Definition to_json (self : Job) : string := dumps (job_data self).

(** [data[key]] and [data.get(key, default)] on a dictionary. *)
Definition get_item (key : string) (kvs : list (string * json)) : result exn json :=
  result_of_option (KeyError key) (dict_get key kvs).
Definition get_default (key : string) (default : json) (kvs : list (string * json)) : json :=
  opt_default default (dict_get key kvs).

Definition from_json (raw_job : string) : result exn Job :=
  match loads raw_job with
  | None => Err JSONDecodeError
  | Some (JObj data) =>
      match get_item "id" data with
      | Err e => Err e
      | Ok i =>
          match get_item "type" data with
          | Err e => Err e
          | Ok t =>
              match get_item "payload" data with
              | Err e => Err e
              | Ok p =>
                  Ok {| id := i; type := t; payload := p;
                        attempts := get_default "attempts" (JInt 0) data;
                        request_id := get_default "request_id" JNull data;
                        last_error := get_default "last_error" JNull data;
                        failed_at := get_default "failed_at" JNull data;
                        processing_started_at :=
                          get_default "processing_started_at" JNull data |}
              end
          end
      end
  | Some _ => Err (TypeError "indices must be integers")
  end.

Definition set_processing_started_at (v : json) (self : Job) : Job :=
  {| id := id self; type := type self; payload := payload self; attempts := attempts self;
     request_id := request_id self; last_error := last_error self;
     failed_at := failed_at self; processing_started_at := v |}.

(** [started_at or datetime.now(timezone.utc).isoformat()] *)
Definition or_now (t : option string) : prog string :=
  match t with
  | Some s => if truthy s then Ret s else now ← now_us; Ret (isoformat now)
  | None => now ← now_us; Ret (isoformat now)
  end.

Definition with_processing_started_at (self : Job) (started_at : option string) : prog Job :=
  timestamp ← or_now started_at;
  Ret (set_processing_started_at (JStr timestamp) self).

Definition without_processing_started_at (self : Job) : Job :=
  set_processing_started_at JNull self.

(** [x + 1] *)
Definition plus_one (x : json) : result exn json :=
  match x with
  | JInt z => Ok (JInt (z + 1))
  | JBool b => Ok (JInt (if b then 2 else 1))
  | _ => Err (TypeError "unsupported operand type(s) for +")
  end.

Definition with_next_attempt (self : Job) : result exn Job :=
  match plus_one (attempts self) with
  | Err e => Err e
  | Ok n =>
      Ok {| id := id self; type := type self; payload := payload self; attempts := n;
            request_id := request_id self; last_error := last_error self;
            failed_at := failed_at self; processing_started_at := JNull |}
  end.

(** [message[:MAX_JOB_ERROR_LENGTH]] *)
Definition truncate_error (message : json) : result exn json :=
  match message with
  | JStr s => Ok (JStr (sprefix MAX_JOB_ERROR_LENGTH s))
  | JList l => Ok (JList (take MAX_JOB_ERROR_LENGTH l))
  | _ => Err (TypeError "object is not subscriptable")
  end.

Definition with_error (self : Job) (message : json) : result exn Job :=
  match truncate_error message with
  | Err e => Err e
  | Ok m =>
      Ok {| id := id self; type := type self; payload := payload self;
            attempts := attempts self; request_id := request_id self; last_error := m;
            failed_at := failed_at self;
            processing_started_at := processing_started_at self |}
  end.

Definition with_failed_at (self : Job) (failed_at : option string) : prog Job :=
  timestamp ← or_now failed_at;
  Ret {| id := id self; type := type self; payload := payload self;
         attempts := attempts self; request_id := request_id self;
         last_error := last_error self; failed_at := JStr timestamp;
         processing_started_at := processing_started_at self |}.

Definition calculate_retry_delay_seconds (s : Settings) (attempts : Z) : Z :=
  if attempts <=? 0 then worker_retry_backoff_base_seconds s
  else Z.min (worker_retry_backoff_base_seconds s * 2 ^ (attempts - 1))
             (worker_retry_backoff_max_seconds s).

(** [attempts] as the integer [calculate_retry_delay_seconds] compares. *)
Definition as_int (x : json) : result exn Z :=
  match x with
  | JInt z => Ok z
  | JBool b => Ok (if b then 1 else 0)
  | _ => Err (TypeError "'<=' not supported between instances")
  end.

Section operations.
Context (s : Settings).

Definition enqueue_job (job_type : string) (payload : json) (queue_name : string) : prog Job :=
  i ← uuid7;
  rid ← read_proc p_request_id;
  let job := {| id := JStr i; type := JStr job_type; payload := payload;
                attempts := JInt 0;
                request_id := match rid with Some r => JStr r | None => JNull end;
                last_error := JNull; failed_at := JNull;
                processing_started_at := JNull |} in
  _ ← redis (LPUSH queue_name (to_json job));
  Ret job.

Definition dequeue_job (queue_name processing_queue_name : string)
    (timeout_seconds : Z) : prog (option Job) :=
  raw ← redis (BRPOPLPUSH queue_name processing_queue_name timeout_seconds);
  match raw with
  | None => Ret None
  | Some raw_job =>
      job ← of_result (from_json raw_job);
      processing_job ← with_processing_started_at job None;
      if negb (String.eqb (to_json processing_job) raw_job) then
        _ ← redis (LREM1 processing_queue_name raw_job);
        _ ← redis (LPUSH processing_queue_name (to_json processing_job));
        Ret (Some processing_job)
      else Ret (Some processing_job)
  end.

Definition ack_job (job : Job) (processing_queue_name : string) : prog unit :=
  _ ← redis (LREM1 processing_queue_name (to_json job));
  Ret tt.

(** [error] is [str(error)]; [now] is in microseconds. *)
Definition schedule_retry (job : Job) (error : string)
    (processing_queue_name delayed_queue_name : string) (now : option Z) : prog Job :=
  next ← of_result (with_next_attempt job);
  retried_job ← of_result (with_error next (JStr error));
  current_time ← match now with Some t => Ret t | None => now_us end;
  n ← of_result (as_int (attempts retried_job));
  let available_at := current_time + calculate_retry_delay_seconds s n * second in
  _ ← redis (LREM1 processing_queue_name (to_json job));
  _ ← redis (ZADD delayed_queue_name (to_json retried_job) available_at);
  Ret retried_job.

Fixpoint promote_loop (queue_name delayed_queue_name : string) (limit : option Z)
    (raw_jobs : list string) (promoted_count : Z) : prog Z :=
  match raw_jobs with
  | [] => Ret promoted_count
  | raw_job :: rest =>
      if match limit with Some n => n <=? promoted_count | None => false end
      then Ret promoted_count
      else
        removed ← redis (ZREM delayed_queue_name raw_job);
        if negb (removed =? 0) then
          _ ← redis (LPUSH queue_name raw_job);
          promote_loop queue_name delayed_queue_name limit rest (promoted_count + 1)
        else promote_loop queue_name delayed_queue_name limit rest promoted_count
  end.

Definition promote_delayed_jobs (queue_name delayed_queue_name : string)
    (now limit : option Z) : prog Z :=
  current_time ← match now with Some t => Ret t | None => now_us end;
  raw_jobs ← redis (ZRANGEBYSCORE delayed_queue_name 0 current_time);
  promote_loop queue_name delayed_queue_name limit raw_jobs 0.

(** [started_at is None or (current_time - started_at).total_seconds() >= timeout] *)
Definition is_stale (current_time visibility_timeout_seconds : Z) (job : Job) :
    result exn bool :=
  match processing_started_at job with
  | JNull => Ok true
  | JStr t =>
      match fromisoformat t with
      | Err e => Err e
      | Ok (Naive _) =>
          Err (TypeError "can't subtract offset-naive and offset-aware datetimes")
      | Ok (Aware started_at) =>
          Ok (visibility_timeout_seconds * second <=? current_time - started_at)
      end
  | _ => Err (TypeError "fromisoformat: argument must be str")
  end.

Fixpoint reclaim_loop (queue_name processing_queue_name : string)
    (visibility_timeout_seconds current_time : Z) (raw_jobs : list string)
    (reclaimed_count : Z) : prog Z :=
  match raw_jobs with
  | [] => Ret reclaimed_count
  | raw_job :: rest =>
      job ← of_result (from_json raw_job);
      stale ← of_result (is_stale current_time visibility_timeout_seconds job);
      if negb stale then
        reclaim_loop queue_name processing_queue_name visibility_timeout_seconds
          current_time rest reclaimed_count
      else
        removed ← redis (LREM1 processing_queue_name raw_job);
        if negb (removed =? 0) then
          _ ← redis (LPUSH queue_name (to_json (without_processing_started_at job)));
          reclaim_loop queue_name processing_queue_name visibility_timeout_seconds
            current_time rest (reclaimed_count + 1)
        else
          reclaim_loop queue_name processing_queue_name visibility_timeout_seconds
            current_time rest reclaimed_count
  end.

Definition reclaim_stale_processing_jobs (queue_name processing_queue_name : string)
    (visibility_timeout_seconds : Z) (now : option Z) : prog Z :=
  current_time ← match now with Some t => Ret t | None => now_us end;
  raw_jobs ← redis (LRANGE processing_queue_name 0 (-1));
  reclaim_loop queue_name processing_queue_name visibility_timeout_seconds
    current_time raw_jobs 0.

Definition requeue_job (job : Job) (queue_name : string) : prog Job :=
  retried_job ← of_result (with_next_attempt job);
  _ ← redis (LPUSH queue_name (to_json retried_job));
  Ret retried_job.

Definition move_job_to_failed_queue (job : Job) (error : option string)
    (processing_queue_name failed_queue_name : string) : prog Job :=
  failed_job ← with_failed_at job None;
  failed_job ← of_result
    match error with
    | Some e => with_error failed_job (JStr e)
    | None => match last_error job with
              | JNull => Ok failed_job
              | m => with_error failed_job m
              end
    end;
  _ ← redis (LREM1 processing_queue_name (to_json job));
  _ ← redis (LPUSH failed_queue_name (to_json failed_job));
  Ret failed_job.

Fixpoint of_raw_jobs (raw_jobs : list string) : result exn (list Job) :=
  match raw_jobs with
  | [] => Ok []
  | raw :: rest =>
      match from_json raw with
      | Err e => Err e
      | Ok j => match of_raw_jobs rest with Err e => Err e | Ok js => Ok (j :: js) end
      end
  end.

Definition list_failed_jobs (failed_queue_name : string) (limit : Z) : prog (list Job) :=
  raw_jobs ← redis (LRANGE failed_queue_name 0 (limit - 1));
  of_result (of_raw_jobs raw_jobs).

(** The loop of [requeue_failed_jobs].  Without a limit it ends when the failed
  queue is empty; [fuel] bounds the number of rounds, and running out of it
  is [None]. *)
Fixpoint requeue_loop (fuel : nat) (queue_name failed_queue_name : string)
    (limit : option Z) (requeued_count : Z) : prog (option Z) :=
  match fuel with
  | O => Ret None
  | S fuel' =>
      if match limit with Some n => requeued_count <? n | None => true end then
        raw ← redis (RPOP failed_queue_name);
        match raw with
        | None => Ret (Some requeued_count)
        | Some raw_job =>
            job ← of_result (from_json raw_job);
            _ ← redis (LPUSH queue_name (to_json job));
            requeue_loop fuel' queue_name failed_queue_name limit (requeued_count + 1)
        end
      else Ret (Some requeued_count)
  end.

Definition requeue_failed_jobs (fuel : nat) (queue_name failed_queue_name : string)
    (limit : option Z) : prog (option Z) :=
  requeue_loop fuel queue_name failed_queue_name limit 0.

Definition try_acquire_maintenance_lock (lock_key : string) (ttl_seconds : Z) : prog bool :=
  redis (SET lock_key "1" true (Some ttl_seconds)).
End operations.

#[global] Arguments to_json : simpl never.
#[global] Arguments from_json : simpl never.
#[global] Arguments set_processing_started_at : simpl never.
#[global] Arguments with_error : simpl never.
#[global] Arguments with_next_attempt : simpl never.
#[global] Arguments is_stale : simpl never.

(** ** The identity of a queue entry *)

(** The program gives its jobs JSON values without floats. *)
Definition job_wfb (j : Job) : bool :=
  json_wfb (id j) && json_wfb (type j) && json_wfb (payload j) && json_wfb (attempts j) &&
  json_wfb (request_id j) && json_wfb (last_error j) && json_wfb (failed_at j) &&
  json_wfb (processing_started_at j).

(** The id of the job a text is, as JSON text; [None] for a text that is no job. *)
Definition job_key (raw : string) : option string :=
  match from_json raw with
  | Ok j => if job_wfb j then Some (dumps (id j)) else None
  | Err _ => None
  end.

#[global] Arguments job_key : simpl never.

(** ** Jobs as text *)

Definition job_wf (j : Job) : Prop :=
  json_wf (id j) ∧ json_wf (type j) ∧ json_wf (payload j) ∧ json_wf (attempts j) ∧
  json_wf (request_id j) ∧ json_wf (last_error j) ∧ json_wf (failed_at j) ∧
  json_wf (processing_started_at j).

Lemma job_wfb_spec j : job_wfb j = true ↔ job_wf j.
Proof. unfold job_wfb, job_wf. rewrite !andb_true_iff, !json_wfb_spec. tauto. Qed.

Lemma opt_item_cases key v :
  v = JNull ∧ opt_item key v = [] ∨ opt_item key v = [(key, v)] ∧ v ≠ JNull.
Proof. destruct v; auto. Qed.

(** Split on the optional items a job has. *)
Ltac opt_items :=
  repeat match goal with
  | |- context [opt_item ?k ?v] =>
      let H := fresh in let E := fresh in
      destruct (opt_item_cases k v) as [[H E]|[E H]]; rewrite E in *; clear E
  end.

Lemma job_data_wf j : job_wf j → json_wf (job_data j).
Proof.
  destruct j as [i t p a r le f ps]. unfold job_wf, job_data.
  cbn [id type payload attempts request_id last_error failed_at processing_started_at].
  intros (Hi & Ht & Hp & Ha & Hr & Hl & Hf & Hps). apply json_wf_obj.
  opt_items; (split; [apply (bool_decide_unpack _); vm_compute; exact I|]);
    repeat (apply Forall_cons; split; [done|]); apply Forall_nil_2.
Qed.

(** A job read back from its text is the job. *)
Lemma from_json_to_json j : job_wf j → from_json (to_json j) = Ok j.
Proof.
  intros Hwf. unfold from_json, to_json. rewrite loads_dumps by by apply job_data_wf.
  destruct j as [i t p a r le f ps]. unfold job_data.
  cbn [id type payload attempts request_id last_error failed_at processing_started_at].
  opt_items; subst; reflexivity.
Qed.

Lemma to_json_inj j j' : job_wf j → job_wf j' → to_json j = to_json j' → j = j'.
Proof.
  intros Hj Hj' E. apply from_json_to_json in Hj, Hj'. rewrite E in Hj. congruence.
Qed.

Lemma job_key_to_json j : job_wf j → job_key (to_json j) = Some (dumps (id j)).
Proof.
  intros Hwf. unfold job_key. rewrite from_json_to_json by done.
  by apply job_wfb_spec in Hwf as ->.
Qed.

Lemma job_key_Some raw i : job_key raw = Some i →
  ∃ j, from_json raw = Ok j ∧ job_wf j ∧ i = dumps (id j).
Proof.
  unfold job_key. destruct (from_json raw) as [j|]; [|done].
  destruct (job_wfb j) eqn:E; [|done]. intros [= <-]. exists j. by rewrite <- job_wfb_spec.
Qed.

Definition demo_text_job : Job :=
  {| id := JStr "a"; type := JStr "t"; payload := JObj [("user_id", JInt 7)]; attempts := JInt 2;
     request_id := JStr "r"; last_error := JNull; failed_at := JNull;
     processing_started_at := JNull |}.

(** C38: a job survives the queue.  For a job whose fields are JSON values without
    floats, the text in the queue reads back as the same job, with the fields that
    were not set, and no other job has the same text; so removing a job's text from
    a list removes that job and no other. *)
Theorem job_text_round_trip (j j' : Job) :
  job_wf j → job_wf j' →
  from_json (to_json j) = Ok j ∧ (to_json j = to_json j' ↔ j = j').
Proof.
  intros Hj Hj'. split; [by apply from_json_to_json|]. split; [by apply to_json_inj|by intros ->].
Qed.

Lemma job_text_round_trip_witness :
  from_json (to_json demo_text_job) = Ok demo_text_job ∧
  from_json "not a job" = Err JSONDecodeError.
Proof.
  assert (job_wf demo_text_job) as Hwf by (apply job_wfb_spec; vm_compute; reflexivity).
  split; [|vm_compute; reflexivity].
  exact (proj1 (job_text_round_trip demo_text_job demo_text_job Hwf Hwf)).
Defined.
