(* ===== verification/QueueSpec.v ===== *)
(** * What the job queue promises

    A job queue is three lists of jobs in the order they came and the jobs that
    wait for a time.  [serve_op] says what an operation does to it, without texts,
    keys and commands; the operations of [JobQueue], each run to its end without
    failures, do that to the four Redis keys ([queue_refines]).  What may happen when
    operations overlap or fail is in [QueueSafety]. *)

From Stdlib Require Import ZArith Ascii String Lia.
From stdpp Require Import base tactics option list gmap strings sorting fin_maps.
From S2P Require Import Prelude PyText Json Errors Config DateTime Models Services Programs Reference.
From S2P Require Import RedisFacts Ids JobQueue.
Local Open Scope string_scope.
Local Open Scope list_scope.
Local Open Scope Z_scope.

#[export] Instance job_eq_dec : EqDecision Job.
Proof. solve_decision. Defined.

(** ** The abstract queue *)

Record queue := Queue {
  q_ready : list Job;                     (* the oldest first *)
  q_processing : list Job;                (* the newest first *)
  q_delayed : list (Job * Z);             (* with the time each is due *)
  q_failed : list Job;                    (* the oldest first *)
}.

Inductive queue_op :=
| Enqueue (job_type : string) (payload : json)
| Dequeue (timeout_seconds : Z)
| Ack (job : Job)
| Retry (job : Job) (error : string)
| Fail (job : Job) (error : option string)
| Promote (limit : option Z)
| Reclaim (visibility_timeout_seconds : Z)
| RequeueFailed (limit : option Z)
| ListFailed (limit : Z).

Inductive outcome := Got (job : option Job) | Moved (n : Z) | Listed (jobs : list Job).

(** *** Jobs *)

Definition new_job (i : string) (rid : option string) (job_type : string) (payload : json) : Job :=
  {| id := JStr i; type := JStr job_type; payload := payload; attempts := JInt 0;
     request_id := match rid with Some r => JStr r | None => JNull end;
     last_error := JNull; failed_at := JNull; processing_started_at := JNull |}.

Definition started (t : Z) (j : Job) : Job := set_processing_started_at (JStr (isoformat t)) j.

Definition with_record (attempts' error failed started : json) (j : Job) : Job :=
  {| id := id j; type := type j; payload := payload j; attempts := attempts';
     request_id := request_id j; last_error := error; failed_at := failed;
     processing_started_at := started |}.

(** The first 500 characters of a message. *)
Definition shortened (m : string) : json := JStr (sprefix MAX_JOB_ERROR_LENGTH m).

Definition retried (n : Z) (error : string) (j : Job) : Job :=
  with_record (JInt (n + 1)) (shortened error) (failed_at j) JNull j.
Definition given_up (t : Z) (error : option string) (j : Job) : Job :=
  let message := match error, last_error j with
                 | Some e, _ => shortened e
                 | None, JStr e => shortened e
                 | None, v => v
                 end in
  with_record (attempts j) message (JStr (isoformat t)) (processing_started_at j) j.

(** The time a job was started at, and whether it is overdue. *)
Definition started_at (j : Job) : option Z :=
  match processing_started_at j with
  | JStr x => match fromisoformat x with Ok (Aware t) => Some t | _ => None end
  | _ => None
  end.
Definition overdue (now timeout_seconds : Z) (j : Job) : bool :=
  match started_at j with Some t => timeout_seconds * second <=? now - t | None => true end.

(** *** Operations *)

Definition job_le (a b : Job * Z) : Prop := zle (to_json a.1, a.2) (to_json b.1, b.2).
#[export] Instance job_le_dec a b : Decision (job_le a b).
Proof. unfold job_le. apply _. Defined.

(** The jobs that are due, in the order of their times; equal times in the order of
    their texts. *)
Definition due (now : Z) (d : list (Job * Z)) : list Job :=
  fst <$> filter (λ '(_, t), 0 <= t <= now) (merge_sort job_le d).

Definition at_most {A} (limit : option Z) (l : list A) : list A :=
  match limit with Some n => take (Z.to_nat n) l | None => l end.

Definition ready_again (jobs : list Job) (q : queue) : queue :=
  Queue (q_ready q ++ jobs) (q_processing q) (q_delayed q) (q_failed q).
Definition with_processing (jobs : list Job) (q : queue) : queue :=
  Queue (q_ready q) jobs (q_delayed q) (q_failed q).
Definition not_waiting (jobs : list Job) (q : queue) : queue :=
  Queue (q_ready q) (q_processing q) (filter (λ e, e.1 ∉ jobs) (q_delayed q)) (q_failed q).
Definition promoted (jobs : list Job) (q : queue) : queue := ready_again jobs (not_waiting jobs q).
Definition finish (j : Job) (q : queue) : queue :=
  Queue (q_ready q) (remove_first j (q_processing q)) (q_delayed q) (q_failed q).

(** [t] is the time, [i] and [rid] are the identifiers of a new job and of the
    request it is made in. *)
Definition serve_op (s : Settings) (t : Z) (i : string) (rid : option string) (o : queue_op) (q : queue) :
    outcome * queue :=
  match o with
  | Enqueue ty p => let j := new_job i rid ty p in (Got (Some j), ready_again [j] q)
  | Dequeue _ =>
      match q_ready q with
      | [] => (Got None, q)
      | j :: rest => (Got (Some (started t j)),
                      Queue rest (started t j :: q_processing q) (q_delayed q) (q_failed q))
      end
  | Ack j => (Got None, finish j q)
  | Retry j e =>
      let n := match attempts j with JInt n => n | _ => 0 end in
      let j' := retried n e j in
      let q := finish j q in
      (Got (Some j'),
       Queue (q_ready q) (q_processing q)
         ((j', t + calculate_retry_delay_seconds s (n + 1) * second) ::
          filter (λ e, e.1 ≠ j') (q_delayed q)) (q_failed q))
  | Fail j e =>
      let j' := given_up t e j in
      let q := finish j q in
      (Got (Some j'), Queue (q_ready q) (q_processing q) (q_delayed q) (q_failed q ++ [j']))
  | Promote limit =>
      let jobs := at_most limit (due t (q_delayed q)) in
      (Moved (Z.of_nat (length jobs)), promoted jobs q)
  | Reclaim timeout =>
      let jobs := filter (λ j, overdue t timeout j = true) (q_processing q) in
      (Moved (Z.of_nat (length jobs)),
       ready_again (without_processing_started_at <$> jobs)
         (with_processing (filter (λ j, overdue t timeout j = false) (q_processing q)) q))
  | RequeueFailed limit =>
      let jobs := at_most limit (q_failed q) in
      (Moved (Z.of_nat (length jobs)),
       ready_again jobs (Queue (q_ready q) (q_processing q) (q_delayed q)
                           (drop (length jobs) (q_failed q))))
  | ListFailed n => (Listed (take (Z.to_nat n) (reverse (q_failed q))), q)
  end.

(** *** No job is lost or doubled *)

Definition all_jobs (q : queue) : list Job :=
  q_ready q ++ q_processing q ++ (q_delayed q).*1 ++ q_failed q.
Definition ids (q : queue) : list json := id <$> all_jobs q.

Lemma filter_split {A} (f : A → bool) l : filter (λ x, f x = true) l ++ filter (λ x, f x = false) l ≡ₚ l.
Proof.
  induction l as [|x l IH]; [done|]. rewrite !filter_cons. destruct (f x); cbn.
  - by constructor.
  - etrans; [symmetry; apply Permutation_middle|]. by constructor.
Qed.

Lemma at_most_sublist {A} limit (l : list A) : at_most limit l `sublist_of` l.
Proof. destruct limit; [apply sublist_take|done]. Qed.

Lemma promoted_split now limit (d : list (Job * Z)) : NoDup d.*1 →
  let jobs := at_most limit (due now d) in jobs ++ (filter (λ e, e.1 ∉ jobs) d).*1 ≡ₚ d.*1.
Proof.
  intros Hd jobs.
  assert (jobs `sublist_of` (merge_sort job_le d).*1) as Hsub.
  { etrans; [apply at_most_sublist|]. unfold due. apply fmap_sublist, sublist_filter. }
  assert (NoDup (merge_sort job_le d).*1) as Hs by (by rewrite merge_sort_Permutation).
  assert (∀ j, j ∈ jobs → j ∈ d.*1) as Hin.
  { intros j Hj. rewrite <- (merge_sort_Permutation job_le d). by eapply elem_of_sublist. }
  apply NoDup_Permutation; [|done|].
  - apply NoDup_app. split_and!; [by eapply sublist_NoDup| |].
    + intros j Hj ([k t] & -> & [Hk _]%list_elem_of_filter)%list_elem_of_fmap. done.
    + eapply sublist_NoDup; [exact Hd|]. apply fmap_sublist, sublist_filter.
  - intros j. rewrite elem_of_app, !list_elem_of_fmap. setoid_rewrite list_elem_of_filter. split.
    + intros [Hj%Hin|(e & -> & _ & He)]; [by apply list_elem_of_fmap in Hj|by exists e].
    + intros (e & -> & He). destruct (decide (e.1 ∈ jobs)); [by left|]. right. by exists e.
Qed.

Local Ltac flat := rewrite ?fmap_app, ?fmap_cons; cbn [List.app]; rewrite ?fmap_app, <- ?app_assoc; cbn [List.app].

(** Every operation keeps the jobs there are, by their identifiers: one more after
    [Enqueue], one less after [Ack], and the same ones after all others. *)
Lemma serve_conserves s t i rid o q : NoDup (q_delayed q).*1 →
  let q' := snd (serve_op s t i rid o q) in
  match o with
  | Enqueue _ _ => ids q' ≡ₚ JStr i :: ids q
  | Ack j => j ∈ q_processing q → ids q ≡ₚ id j :: ids q'
  | Retry j e => j ∈ q_processing q →
      (∀ k, k ∈ (q_delayed q).*1 → id k ≠ id j) → ids q' ≡ₚ ids q
  | Fail j _ => j ∈ q_processing q → ids q' ≡ₚ ids q
  | _ => ids q' ≡ₚ ids q
  end.
Proof.
  intros Hnd q'. subst q'. unfold ids, all_jobs.
  destruct o as [ty p|timeout|j|j e|j e|limit|timeout|limit|n]; cbn [serve_op snd]; try done.
  - cbn. rewrite <- app_assoc, !fmap_app. symmetry. apply Permutation_middle.
  - destruct (q_ready q) as [|j rest] eqn:E; cbn; [by rewrite E|]. flat. symmetry. apply Permutation_middle.
  - intros Hj. cbn. rewrite (remove_first_perm j (q_processing q)) at 1 by done.
    flat. symmetry. apply Permutation_middle.
  - intros Hj Hk. cbn. rewrite (remove_first_perm j (q_processing q)) at 2 by done.
    rewrite filter_all.
    2:{ apply Forall_forall. intros x Hx E. apply (Hk x.1); [apply list_elem_of_fmap; by exists x|]. by rewrite E. }
    flat. apply Permutation_app_head. symmetry. apply Permutation_middle.
  - intros Hj. cbn. rewrite (remove_first_perm j (q_processing q)) at 2 by done.
    rewrite !app_assoc, !fmap_app. cbn. rewrite <- (Permutation_cons_append _ (id j)), <- !app_assoc.
    apply Permutation_middle.
  - cbn. rewrite <- (promoted_split t limit _ Hnd). flat. apply Permutation_app_head. rewrite !app_assoc. apply Permutation_app_tail, Permutation_app_tail, Permutation_app_comm.
  - cbn. rewrite !fmap_app, <- list_fmap_compose, <- !app_assoc. apply Permutation_app_head.
    rewrite !app_assoc. apply Permutation_app_tail, Permutation_app_tail. rewrite <- fmap_app.
    apply fmap_Permutation. apply filter_split.
  - cbn. set (jobs := at_most limit (q_failed q)). set (rest := drop (length jobs) (q_failed q)).
    assert (q_failed q = jobs ++ rest) as E.
    { rewrite <- (take_drop (length jobs) (q_failed q)) at 1. f_equal.
      unfold jobs. destruct limit as [m|]; cbn; [|apply firstn_all]. rewrite length_take.
      destruct (Nat.le_ge_cases (Z.to_nat m) (length (q_failed q))); [by rewrite Nat.min_l|].
      by rewrite Nat.min_r, !take_ge. }
    clearbody jobs rest. rewrite E. flat. apply Permutation_app_head. rewrite !app_assoc.
    apply Permutation_app_tail. rewrite <- !app_assoc. etrans; [apply Permutation_app_comm|]. by rewrite <- app_assoc.
Qed.

(** ** The operations of the code *)

Section refinement.
Context `{Crypto} (s : Settings) (rq pq dq fq : string).
Context (Hnd : NoDup [rq; pq; dq; fq]).

(** The operation of [JobQueue], and what it returns; [None] when [fuel] did not do. *)
Definition run_op (fuel : nat) (o : queue_op) : prog (option outcome) :=
  match o with
  | Enqueue ty p => j ← enqueue_job ty p rq; Ret (Some (Got (Some j)))
  | Dequeue timeout => j ← dequeue_job rq pq timeout; Ret (Some (Got j))
  | Ack j => _ ← ack_job j pq; Ret (Some (Got None))
  | Retry j e => j' ← schedule_retry s j e pq dq None; Ret (Some (Got (Some j')))
  | Fail j e => j' ← move_job_to_failed_queue j e pq fq; Ret (Some (Got (Some j')))
  | Promote limit => n ← promote_delayed_jobs rq dq None limit; Ret (Some (Moved n))
  | Reclaim timeout => n ← reclaim_stale_processing_jobs rq pq timeout None; Ret (Some (Moved n))
  | RequeueFailed limit =>
      n ← requeue_failed_jobs fuel rq fq limit; Ret (option_map Moved n)
  | ListFailed n => js ← list_failed_jobs fq n; Ret (Some (Listed js))
  end.

(** *** The queue that Redis holds *)

Definition entries (d : list (Job * Z)) : list (string * Z) := (λ e, (to_json e.1, e.2)) <$> d.

Record represents (q : queue) (st : rstate) : Prop := {
  rep_ready : rlist st rq = Some (reverse (to_json <$> q_ready q));
  rep_processing : rlist st pq = Some (to_json <$> q_processing q);
  rep_failed : rlist st fq = Some (reverse (to_json <$> q_failed q));
  rep_delayed : ∃ z, rzset st dq = Some z ∧ map_to_list z ≡ₚ entries (q_delayed q);
}.

Definition in_calendar (t : Z) : Prop := 0 <= t < 253402300800000000.

(** A job that is worked on has a time of its start, or none. *)
Definition start_known (j : Job) : Prop :=
  processing_started_at j = JNull ∨
  ∃ t, in_calendar t ∧ processing_started_at j = JStr (isoformat t).

Record queue_ok (q : queue) : Prop := {
  ok_ready : Forall job_wf (q_ready q);
  ok_processing : Forall job_wf (q_processing q);
  ok_delayed : Forall job_wf (q_delayed q).*1;
  ok_failed : Forall job_wf (q_failed q);
  ok_started : Forall start_known (q_processing q);
}.

(** What the callers give the operations. *)
Definition op_ok (o : queue_op) : Prop :=
  match o with
  | Enqueue _ p => json_wf p
  | Ack j => job_wf j
  | Retry j _ => job_wf j ∧ ∃ n, attempts j = JInt n
  | Fail j e => job_wf j ∧ (e = None → last_error j = JNull ∨ ∃ m, last_error j = JStr m)
  | ListFailed n => 0 < n
  | _ => True
  end.

(** *** Jobs and texts *)

Lemma remove_first_texts j l : job_wf j → Forall job_wf l →
  remove_first (to_json j) (to_json <$> l) = to_json <$> remove_first j l.
Proof.
  intros Hj. induction 1 as [|k l Hk _ IH]; [done|]. cbn [fmap list_fmap remove_first].
  destruct (decide (j = k)) as [->|Hne]; [by rewrite decide_True|].
  rewrite decide_False by (intros E; apply Hne; by apply to_json_inj). cbn. by rewrite IH.
Qed.

Lemma wf_set_started v j : json_wf v → job_wf j → job_wf (set_processing_started_at v j).
Proof. unfold job_wf. cbn. tauto. Qed.
Lemma wf_started t j : job_wf j → job_wf (started t j).
Proof. by apply wf_set_started. Qed.
Lemma wf_unstarted j : job_wf j → job_wf (without_processing_started_at j).
Proof. by apply wf_set_started. Qed.
Lemma wf_retried n e j : job_wf j → job_wf (retried n e j).
Proof. unfold job_wf. cbn. tauto. Qed.
Lemma wf_given_up t e j : job_wf j → job_wf (given_up t e j).
Proof.
  unfold job_wf, given_up. cbn. intros ?. destruct_and?. split_and!; try done.
  destruct e; [done|]. by destruct (last_error j).
Qed.

(** The code's test of staleness is [overdue]. *)
Lemma is_stale_overdue now timeout j : start_known j → is_stale now timeout j = Ok (overdue now timeout j).
Proof.
  unfold is_stale, overdue, started_at. intros [->|(t & Ht & ->)]; [done|].
  by rewrite fromisoformat_isoformat.
Qed.

Lemma overdue_start j j' now timeout :
  processing_started_at j = processing_started_at j' → overdue now timeout j = overdue now timeout j'.
Proof. unfold overdue, started_at. by intros ->. Qed.

(** *** The order of a sorted set *)

#[local] Instance zle_total : Total zle.
Proof.
  intros [a x] [b y]. unfold zle. cbn. destruct (Z.lt_trichotomy x y) as [H1|[H1|H1]]; [left; left; exact H1| |right; left; exact H1].
  destruct (String.leb_total a b); [left|right]; right; by split.
Qed.
#[local] Instance zle_trans : Transitive zle.
Proof.
  intros [a x] [b y] [c z]. unfold zle. cbn. intros [?|[-> ?]] [?|[-> ?]]; [left; lia|by left|by left|].
  right. split; [done|]. by eapply string_leb_trans.
Qed.
#[local] Instance zle_antisym : AntiSymm (=) zle.
Proof.
  intros [a x] [b y]. unfold zle. cbn. intros [?|[-> ?]] [?|[? ?]]; try lia. f_equal. by apply String.leb_antisym.
Qed.
#[local] Instance job_le_total : Total job_le.
Proof. intros a b. apply zle_total. Qed.
#[local] Instance job_le_trans : Transitive job_le.
Proof. intros a b c. apply zle_trans. Qed.

(** What ZRANGEBYSCORE gives are the texts of the jobs that are due. *)
Lemma zrange_due z d now : map_to_list z ≡ₚ entries d → zrange 0 now z = to_json <$> due now d.
Proof.
  intros Hz. unfold zrange, due.
  assert (merge_sort zle (map_to_list z) = entries (merge_sort job_le d)) as ->.
  { apply (StronglySorted_unique zle).
    - apply StronglySorted_merge_sort; apply _.
    - assert (StronglySorted job_le (merge_sort job_le d)) as Hs by (apply StronglySorted_merge_sort; apply _).
      unfold entries. induction Hs as [|e l _ IH He]; [constructor|]. cbn. constructor; [done|].
      apply Forall_fmap. eapply Forall_impl; [exact He|]. done.
    - unfold entries. by rewrite !merge_sort_Permutation. }
  generalize (merge_sort job_le d). intros l. unfold entries. induction l as [|[j t] l IH]; [done|].
  cbn [fmap list_fmap fst snd]. rewrite !filter_cons. repeat case_decide; cbn; rewrite ?IH; done.
Qed.

Lemma elem_of_due now d j : j ∈ due now d → ∃ t, (j, t) ∈ d.
Proof.
  unfold due. intros ([k t] & -> & [_ Hin]%list_elem_of_filter)%list_elem_of_fmap. exists t.
  by rewrite merge_sort_Permutation in Hin.
Qed.

(** *** Redis commands on a represented queue *)

Lemma names : rq ≠ pq ∧ rq ≠ dq ∧ rq ≠ fq ∧ pq ≠ dq ∧ pq ≠ fq ∧ dq ≠ fq.
Proof. rewrite !NoDup_cons, !not_elem_of_cons in Hnd. naive_solver. Qed.

Local Ltac rep_solve :=
  destruct names as (? & ? & ? & ? & ? & ?); constructor; cbn [w_redis with_redis q_ready q_processing q_delayed q_failed];
  rewrite ?rlist_put_list_ne, ?rzset_put_list_ne, ?rlist_put_zset_ne, ?rzset_put_zset_ne by done;
  rewrite ?rlist_put_list, ?rzset_put_zset; try done.

Lemma represents_advance q w w1 : advance w w1 → represents q (w_redis w) → represents q (w_redis w1).
Proof. by intros ->%advance_redis. Qed.

(** A run ends with the outcome and the queue of the specification, at a time from
    its start to its end. *)
Definition served (q : queue) (o : queue_op) (w : world) (r : result exn (option outcome)) (w' : world) : Prop :=
  ∃ t i rid, w_clock w <= t <= w_clock w' ∧ r = Ok (Some (fst (serve_op s t i rid o q))) ∧
    represents (snd (serve_op s t i rid o q)) (w_redis w').

Lemma wp_push_ready j q Q w : represents q (w_redis w) →
  (∀ n w', w_clock w <= w_clock w' → represents (ready_again [j] q) (w_redis w') → Q (Ok n) w') →
  wp false (redis (LPUSH rq (to_json j))) Q w.
Proof.
  intros [Hr Hp Hf Hd] HQ. apply wp_redis; [done|]. intros w1 Hadv.
  rewrite (exec_LPUSH _ _ _ _ _ Hr). apply HQ; [exact (advance_clock _ _ Hadv)|]. unfold ready_again. rep_solve.
  by rewrite fmap_app, reverse_app.
Qed.

Lemma wp_push_failed j q Q w : represents q (w_redis w) →
  (∀ n w', w_clock w <= w_clock w' →
     represents (Queue (q_ready q) (q_processing q) (q_delayed q) (q_failed q ++ [j])) (w_redis w') → Q (Ok n) w') →
  wp false (redis (LPUSH fq (to_json j))) Q w.
Proof.
  intros [Hr Hp Hf Hd] HQ. apply wp_redis; [done|]. intros w1 Hadv.
  rewrite (exec_LPUSH _ _ _ _ _ Hf). apply HQ; [exact (advance_clock _ _ Hadv)|]. rep_solve.
  by rewrite fmap_app, reverse_app.
Qed.

Lemma wp_push_processing j q Q w : represents q (w_redis w) →
  (∀ n w', w_clock w <= w_clock w' →
     represents (Queue (q_ready q) (j :: q_processing q) (q_delayed q) (q_failed q)) (w_redis w') → Q (Ok n) w') →
  wp false (redis (LPUSH pq (to_json j))) Q w.
Proof.
  intros [Hr Hp Hf Hd] HQ. apply wp_redis; [done|]. intros w1 Hadv.
  rewrite (exec_LPUSH _ _ _ _ _ Hp). apply HQ; [exact (advance_clock _ _ Hadv)|]. rep_solve.
Qed.

Lemma wp_finish_job j q Q w : job_wf j → Forall job_wf (q_processing q) → represents q (w_redis w) →
  (∀ w', w_clock w <= w_clock w' → represents (finish j q) (w_redis w') →
     Q (Ok (if decide (j ∈ q_processing q) then 1 else 0)) w') →
  wp false (redis (LREM1 pq (to_json j))) Q w.
Proof.
  intros Hj Hq [Hr Hp Hf Hd] HQ. apply wp_redis; [done|]. intros w1 Hadv.
  rewrite (exec_LREM1 _ _ _ _ _ Hp). unfold finish in HQ.
  assert (to_json j ∈ to_json <$> q_processing q ↔ j ∈ q_processing q) as Hin.
  { rewrite list_elem_of_fmap. split; [|by eauto]. intros (k & E & Hk).
    rewrite Forall_forall in Hq. apply to_json_inj in E as ->; auto. }
  destruct (decide (to_json j ∈ _)) as [Ht|Ht]; destruct (decide (j ∈ q_processing q)) as [Hj'|Hj']; try tauto;
    apply HQ; try exact (advance_clock _ _ Hadv).
  - rep_solve. rewrite remove_first_texts by done. done.
  - rewrite remove_first_not_in by done. rep_solve.
Qed.

Lemma wp_now_rep q Q w : represents q (w_redis w) →
  (∀ w', w_clock w <= w_clock w' → represents q (w_redis w') → Q (Ok (w_clock w')) w') →
  wp false now_us Q w.
Proof.
  intros Hrep HQ. apply wp_now. intros w1 Hadv. apply HQ; [by apply advance_clock|by eapply represents_advance].
Qed.

(** *** The jobs that wait *)

Lemma elem_of_map_pair (z : gmap string Z) l k v : map_to_list z ≡ₚ l → (k, v) ∈ l ↔ z !! k = Some v.
Proof. intros <-. apply elem_of_map_to_list. Qed.

Lemma remove_entry z d j : job_wf j → Forall job_wf d.*1 → map_to_list z ≡ₚ entries d →
  map_to_list (delete (to_json j) z) ≡ₚ entries (filter (λ e, e.1 ≠ j) d).
Proof.
  intros Hj Hd Hz. rewrite Forall_forall in Hd.
  assert (∀ e, e ∈ d → to_json j = to_json e.1 ↔ e.1 = j) as Hinj.
  { intros e He. split; [|by intros ->]. intros E. symmetry. apply to_json_inj; [done| |done].
    apply Hd, list_elem_of_fmap. by exists e. }
  apply NoDup_Permutation.
  - apply NoDup_map_to_list.
  - assert (NoDup (entries d)) as Hnd' by (rewrite <- Hz; apply NoDup_map_to_list).
    apply (sublist_NoDup _ _ Hnd'). apply fmap_sublist, sublist_filter.
  - intros [k v]. rewrite elem_of_map_to_list, lookup_delete_Some, <- (elem_of_map_pair _ _ _ _ Hz).
    unfold entries. rewrite !list_elem_of_fmap. split.
    + intros (Hne & e & [= -> ->] & He). exists e. split; [done|]. apply list_elem_of_filter. split; [|done].
      intros Hej. by apply Hne, Hinj.
    + intros (e & [= -> ->] & [Hp He]%list_elem_of_filter). split; [|by exists e].
      intros E. by apply Hp, Hinj.
Qed.

Lemma insert_entries z d j v : job_wf j → Forall job_wf d.*1 → map_to_list z ≡ₚ entries d →
  map_to_list (<[to_json j := v]> z) ≡ₚ entries ((j, v) :: filter (λ e, e.1 ≠ j) d).
Proof.
  intros Hj Hd Hz. rewrite <- insert_delete_eq, map_to_list_insert by apply lookup_delete_eq.
  apply Permutation_skip. by apply remove_entry.
Qed.

(** *** The loops *)

Lemma promoted_nil q : promoted [] q = q.
Proof.
  destruct q as [r p d f]. unfold promoted, ready_again, not_waiting. cbn. rewrite app_nil_r. f_equal.
  induction d as [|e d IH]; [done|]. rewrite filter_cons, decide_True by apply not_elem_of_nil. by rewrite IH.
Qed.

Lemma promoted_cons j js q : promoted (j :: js) q = promoted js (promoted [j] q).
Proof.
  destruct q as [r p d f]. unfold promoted, ready_again, not_waiting. cbn. f_equal; [by rewrite <- app_assoc|].
  rewrite list_filter_filter. apply list_filter_iff. intros e. rewrite !not_elem_of_cons.
  pose proof (not_elem_of_nil e.1). tauto.
Qed.

Lemma wp_zrem j q Q w : job_wf j → Forall job_wf (q_delayed q).*1 → j ∈ (q_delayed q).*1 →
  represents q (w_redis w) →
  (∀ w', w_clock w <= w_clock w' → represents (not_waiting [j] q) (w_redis w') → Q (Ok 1) w') →
  wp false (redis (ZREM dq (to_json j))) Q w.
Proof.
  intros Hj Hd Hin [Hr Hp Hf (z & Hz & Hperm)] HQ. apply wp_redis; [done|]. intros w1 Hadv.
  rewrite (exec_ZREM _ _ _ _ _ Hz).
  assert (is_Some (z !! to_json j)) as Hs.
  { apply list_elem_of_fmap in Hin as ([j' t] & -> & He). exists t. apply (elem_of_map_pair _ _ _ _ Hperm).
    unfold entries. apply list_elem_of_fmap. by exists (j', t). }
  rewrite decide_True by done. apply HQ; [exact (advance_clock _ _ Hadv)|]. unfold not_waiting. rep_solve.
  eexists. split; [reflexivity|]. rewrite (remove_entry _ _ _ Hj Hd Hperm). unfold entries. apply fmap_Permutation.
  erewrite list_filter_iff; [done|]. intros e. cbn. rewrite not_elem_of_cons. pose proof (not_elem_of_nil e.1). tauto.
Qed.

Lemma promote_loop_served limit js : ∀ q count w Q,
  Forall job_wf (q_delayed q).*1 → NoDup js → (∀ j, j ∈ js → j ∈ (q_delayed q).*1) → represents q (w_redis w) →
  let jobs := at_most ((λ n, n - count) <$> limit) js in
  (∀ w', w_clock w <= w_clock w' → represents (promoted jobs q) (w_redis w') →
     Q (Ok (count + Z.of_nat (length jobs))) w') →
  wp false (promote_loop rq dq limit (to_json <$> js) count) Q w.
Proof.
  induction js as [|j js IH]; intros q count w Q Hwf Hnd' Hin Hrep jobs HQ.
  - assert (jobs = []) as E by (unfold jobs, at_most; destruct limit; cbn; [apply take_nil|done]).
    rewrite E, promoted_nil in HQ. cbn [length Z.of_nat] in HQ. rewrite Z.add_0_r in HQ. by apply HQ.
  - cbn [fmap list_fmap promote_loop].
    destruct (match limit with Some n => n <=? count | None => false end) eqn:Elim.
    { destruct limit as [n|]; [|done]. apply Z.leb_le in Elim.
      assert (jobs = []) as E by (unfold jobs, at_most; cbn; by replace (Z.to_nat (n - count)) with O by lia).
      rewrite E, promoted_nil in HQ. cbn [length Z.of_nat] in HQ. rewrite Z.add_0_r in HQ. by apply HQ. }
    assert (jobs = j :: at_most ((λ n, n - (count + 1)) <$> limit) js) as E.
    { unfold jobs, at_most. destruct limit as [n|]; [|done]. apply Z.leb_gt in Elim. cbn.
      by replace (Z.to_nat (n - count)) with (S (Z.to_nat (n - (count + 1)))) by lia. }
    rewrite E, promoted_cons in HQ. clearbody jobs. clear E jobs.
    apply NoDup_cons in Hnd' as [Hnj Hnd']. assert (j ∈ (q_delayed q).*1) as Hj by (apply Hin; left).
    assert (job_wf j) as Hjwf by (rewrite Forall_forall in Hwf; auto).
    apply wp_bind, (wp_zrem j q); [done..|]. intros w1 Hc1 Hrep1. cbn [negb Z.eqb].
    apply wp_bind, (wp_push_ready _ _ _ _ Hrep1). intros m w2 Hc2 Hrep2.
    assert (∀ k, k ∈ (q_delayed (promoted [j] q)).*1 ↔ k ∈ (q_delayed q).*1 ∧ k ≠ j) as Hd.
    { intros k. cbn. rewrite !list_elem_of_fmap. setoid_rewrite list_elem_of_filter.
      setoid_rewrite list_elem_of_singleton. naive_solver. }
    apply (IH (promoted [j] q)); [|done| |done|].
    + rewrite Forall_forall in *. intros k Hk. apply Hwf, Hd, Hk.
    + intros k Hk. apply Hd. split; [by apply Hin; right|]. by intros ->.
    + intros w3 Hc3 Hrep3. cbn [length] in HQ. rewrite Nat2Z.inj_succ in HQ.
      replace (count + 1 + _) with (count + Z.succ (Z.of_nat (length (at_most ((λ n, n - (count + 1)) <$> limit) js)))) by lia.
      apply HQ; [lia|done].
Qed.

Lemma remove_first_app (j : Job) l l' : j ∉ l → remove_first j (l ++ j :: l') = l ++ l'.
Proof.
  induction l as [|k l IH]; cbn [List.app remove_first]; [by rewrite decide_True|].
  intros [Hne Hn]%not_elem_of_cons. by rewrite decide_False, IH.
Qed.

(** [kept] are the jobs the loop has passed by. *)
Lemma reclaim_loop_served timeout now js : ∀ kept q count w Q,
  q_processing q = kept ++ js → Forall job_wf (kept ++ js) → Forall start_known js →
  Forall (λ j, overdue now timeout j = false) kept → represents q (w_redis w) →
  let jobs := filter (λ j, overdue now timeout j = true) js in
  (∀ w', w_clock w <= w_clock w' →
     represents (ready_again (without_processing_started_at <$> jobs)
       (with_processing (kept ++ filter (λ j, overdue now timeout j = false) js) q)) (w_redis w') →
     Q (Ok (count + Z.of_nat (length jobs))) w') →
  wp false (reclaim_loop rq pq timeout now (to_json <$> js) count) Q w.
Proof.
  induction js as [|j js IH]; intros kept q count w Q Hp Hwf Hst Hkept Hrep jobs HQ.
  - cbn in HQ. rewrite Z.add_0_r in HQ. apply HQ; [lia|]. destruct q as [r p d f]. cbn in Hp. subst p.
    unfold ready_again, with_processing. cbn. by rewrite app_nil_r.
  - cbn [fmap list_fmap reclaim_loop]. pose proof Hwf as (Hwk & [Hj Hwjs]%Forall_cons)%Forall_app.
    apply Forall_cons in Hst as [Hsj Hst]. rewrite from_json_to_json by done. apply wp_ok_bind.
    rewrite (is_stale_overdue _ _ _ Hsj). apply wp_ok_bind. unfold jobs in HQ. clear jobs.
    rewrite !filter_cons in HQ. destruct (overdue now timeout j) eqn:Eo; cbn [negb].
    + rewrite decide_True, decide_False in HQ by done.
      assert (j ∉ kept) as Hjk by (rewrite Forall_forall in Hkept; intros H1%Hkept; congruence).
      apply wp_bind, (wp_finish_job j q); [done|by rewrite Hp|done|]. intros w1 Hc1 Hrep1.
      rewrite decide_True by (rewrite Hp; apply elem_of_app; right; left). cbn [Z.eqb negb].
      unfold finish in Hrep1. rewrite Hp, remove_first_app in Hrep1 by done.
      apply wp_bind, (wp_push_ready _ _ _ _ Hrep1). intros m w2 Hc2 Hrep2.
      eapply (IH kept); [|by apply Forall_app|done|done|exact Hrep2|]; [done|]. intros w3 Hc3 Hrep3.
      cbn [length] in HQ. rewrite Nat2Z.inj_succ in HQ.
      replace (count + 1 + _) with (count + Z.succ (Z.of_nat (length (filter (λ j, overdue now timeout j = true) js)))) by lia.
      apply HQ; [lia|]. revert Hrep3. unfold ready_again, with_processing.
      cbn [q_ready q_processing q_delayed q_failed fmap list_fmap]. by rewrite <- app_assoc.
    + rewrite decide_False, decide_True in HQ by done.
      eapply (IH (kept ++ [j])); [by rewrite <- app_assoc|by rewrite <- app_assoc|done| |exact Hrep|].
      * by apply Forall_app; split; [|constructor].
      * intros w3 Hc3. rewrite <- app_assoc. by apply HQ.
Qed.

Lemma requeue_loop_served limit fuel : ∀ q count w Q,
  (length (q_failed q) < fuel)%nat → Forall job_wf (q_failed q) → represents q (w_redis w) →
  let jobs := at_most ((λ n, n - count) <$> limit) (q_failed q) in
  (∀ w', w_clock w <= w_clock w' →
     represents (ready_again jobs (Queue (q_ready q) (q_processing q) (q_delayed q)
                                     (drop (length jobs) (q_failed q)))) (w_redis w') →
     Q (Ok (Some (count + Z.of_nat (length jobs)))) w') →
  wp false (requeue_loop fuel rq fq limit count) Q w.
Proof.
  induction fuel as [|fuel IH]; intros q count w Q Hfuel Hwf Hrep jobs HQ; [lia|]. cbn [requeue_loop].
  assert (jobs = [] → ∀ w', w_clock w <= w_clock w' → represents q (w_redis w') → Q (Ok (Some count)) w') as Hstop.
  { intros E w' Hc Hrep'. rewrite E in HQ. cbn [length drop Z.of_nat] in HQ. rewrite Z.add_0_r in HQ.
    apply HQ; [done|]. destruct q. unfold ready_again. cbn. by rewrite app_nil_r. }
  destruct (match limit with Some n => count <? n | None => true end) eqn:Elim.
  2:{ destruct limit as [n|]; [|done]. apply Z.ltb_ge in Elim. apply Hstop; [|lia|done].
      unfold jobs, at_most. cbn. by replace (Z.to_nat (n - count)) with O by lia. }
  apply wp_bind, wp_redis; [done|]. intros w1 Hadv1. pose proof (advance_clock _ _ Hadv1) as Hc1.
  destruct Hrep as [Hr Hp Hf Hd]. rewrite (exec_RPOP _ _ _ _ Hf).
  destruct (q_failed q) as [|j rest] eqn:Ef.
  - cbn. apply Hstop; [|done|].
    + unfold jobs, at_most. destruct limit; cbn; [apply take_nil|done].
    + rep_solve. by rewrite Ef.
  - rewrite fmap_cons, reverse_cons, (proj2 (unsnoc_Some _ _ _)) by reflexivity. cbv beta iota.
    apply Forall_cons in Hwf as [Hj Hwf]. rewrite from_json_to_json by done. apply wp_ok_bind.
    apply wp_bind, (wp_push_ready _ (Queue (q_ready q) (q_processing q) (q_delayed q) rest)).
    { rep_solve. }
    intros m w2 Hc2 Hrep2. cbn [w_clock with_redis] in Hc2.
    assert (jobs = j :: at_most ((λ n, n - (count + 1)) <$> limit) rest) as E.
    { unfold jobs, at_most. destruct limit as [n|]; [|done]. apply Z.ltb_lt in Elim. cbn.
      by replace (Z.to_nat (n - count)) with (S (Z.to_nat (n - (count + 1)))) by lia. }
    apply (IH (ready_again [j] (Queue (q_ready q) (q_processing q) (q_delayed q) rest)) (count + 1));
      [cbn in *; lia|done|exact Hrep2|]. cbn [q_failed ready_again]. intros w3 Hc3 Hrep3.
    rewrite E in HQ. cbn [length drop] in HQ. rewrite Nat2Z.inj_succ in HQ.
    replace (count + 1 + _) with (count + Z.succ (Z.of_nat (length (at_most ((λ n, n - (count + 1)) <$> limit) rest)))) by lia.
    apply HQ; [lia|]. revert Hrep3. unfold ready_again. cbn [q_ready q_processing q_delayed q_failed]. by rewrite <- app_assoc.
Qed.

(** *** One lemma per operation *)

Section operations.
Context (fuel : nat) (q : queue) (w : world) (Hq : queue_ok q) (Hrep : represents q (w_redis w)).

Lemma enqueue_served ty p : wp false (run_op fuel (Enqueue ty p)) (served q (Enqueue ty p) w) w.
Proof.
  cbn [run_op]. apply wp_bind. unfold enqueue_job. apply wp_bind, wp_uuid7. intros n w1 _ Hadv1.
  apply wp_bind, wp_on_proc. intros w2 Hadv2. apply wp_bind.
  pose proof (advance_clock _ _ Hadv1). pose proof (advance_clock _ _ Hadv2).
  eapply (wp_push_ready (new_job (uuid_str n) (p_request_id (w_proc w2)) ty p) q).
  { cbn. by rewrite (advance_redis _ _ Hadv2), (advance_redis _ _ Hadv1). }
  intros m w3 Hc Hrep3. cbn in Hc. exists (w_clock w), (uuid_str n), (p_request_id (w_proc w2)).
  split; [lia|]. by split.
Qed.

Lemma ack_served j : job_wf j → wp false (run_op fuel (Ack j)) (served q (Ack j) w) w.
Proof.
  intros Hj. cbn [run_op]. apply wp_bind. unfold ack_job. apply wp_bind.
  eapply wp_finish_job; [done|exact (ok_processing _ Hq)|done|]. intros w1 Hc Hrep1. exists (w_clock w), "", None. by split; [lia|].
Qed.

Lemma retry_served j e n : job_wf j → attempts j = JInt n →
  wp false (run_op fuel (Retry j e)) (served q (Retry j e) w) w.
Proof.
  intros Hj Hn. cbn [run_op]. apply wp_bind. unfold schedule_retry, with_next_attempt, with_error.
  rewrite Hn. cbn [plus_one truncate_error]. apply wp_ok_bind, wp_ok_bind.
  cbn [id type payload attempts request_id last_error failed_at processing_started_at].
  apply wp_bind, (wp_now_rep q); [done|]. intros w1 Hc1 Hrep1. apply wp_ok_bind, wp_bind.
  eapply wp_finish_job; [done|exact (ok_processing _ Hq)|done|]. intros w2 Hc2 Hrep2. apply wp_bind, wp_redis; [done|]. intros w3 Hadv3.
  pose proof (advance_clock _ _ Hadv3). destruct (rep_delayed _ _ Hrep2) as (z & Hz & Hperm).
  rewrite (exec_ZADD _ _ _ _ _ _ Hz). exists (w_clock w1), "", None. cbn [w_clock with_redis]. split; [lia|].
  cbn [serve_op fst snd]. rewrite Hn. split; [done|]. destruct Hrep2 as [Hr Hp Hf _]. rep_solve.
  eexists. split; [reflexivity|]. apply insert_entries; [by apply wf_retried|exact (ok_delayed _ Hq)|done].
Qed.

Lemma fail_served j e : job_wf j → (e = None → last_error j = JNull ∨ ∃ m, last_error j = JStr m) →
  wp false (run_op fuel (Fail j e)) (served q (Fail j e) w) w.
Proof.
  intros Hj He. cbn [run_op]. apply wp_bind. unfold move_job_to_failed_queue, with_failed_at, or_now.
  apply wp_bind, wp_bind, wp_bind, (wp_now_rep q); [done|]. intros w1 Hc1 Hrep1. cbn [wp mbind prog_bind bind mret prog_ret].
  match goal with |- context [of_result ?r] => assert (r = Ok (given_up (w_clock w1) e j)) as -> end.
  { unfold given_up, with_record, with_error, truncate_error. destruct e as [m|]; [done|].
    by destruct (He eq_refl) as [->|[m ->]]. }
  apply wp_ok_bind, wp_bind. eapply wp_finish_job; [done|exact (ok_processing _ Hq)|done|]. intros w2 Hc2 Hrep2.
  apply wp_bind, (wp_push_failed _ _ _ _ Hrep2). intros n w3 Hc3 Hrep3.
  exists (w_clock w1), "", None. split; [lia|]. by split.
Qed.

Lemma dequeue_served timeout : wp false (run_op fuel (Dequeue timeout)) (served q (Dequeue timeout) w) w.
Proof.
  cbn [run_op]. apply wp_bind. unfold dequeue_job. apply wp_bind, wp_redis; [done|]. intros w1 Hadv1.
  destruct names as (Hrp & _). pose proof (advance_clock _ _ Hadv1) as Hc1. destruct Hrep as [Hr Hp Hf Hd].
  rewrite (exec_BRPOPLPUSH _ _ _ _ _ _ _ Hrp Hr Hp). unfold served. cbn [serve_op].
  destruct (q_ready q) as [|j rest] eqn:Eready.
  - cbn. exists (w_clock w), "", None. cbn [w_clock with_redis]. split; [lia|]. split; [done|].
    rep_solve. by rewrite Eready.
  - rewrite fmap_cons, reverse_cons, (proj2 (unsnoc_Some _ _ _)) by reflexivity.
    pose proof (ok_ready _ Hq) as Hwf. rewrite Eready in Hwf. apply Forall_cons in Hwf as [Hj Hrest].
    cbv beta iota. rewrite from_json_to_json by done. apply wp_ok_bind, wp_bind.
    set (q1 := Queue rest (j :: q_processing q) (q_delayed q) (q_failed q)).
    apply wp_bind, wp_bind, (wp_now_rep q1).
    { unfold q1. rep_solve. }
    intros w2 Hc2 Hrep2. cbn [w_clock with_redis] in Hc2. cbn [wp mbind prog_bind bind mret prog_ret].
    fold (started (w_clock w2) j). destruct (String.eqb_spec (to_json (started (w_clock w2) j)) (to_json j)) as [E|E]; cbn [negb].
    + exists (w_clock w2), "", None. split; [lia|]. split; [done|]. destruct Hrep2 as [Hr2 Hp2 Hf2 Hd2].
      constructor; [done| |done|done]. cbn [q_processing fst snd fmap list_fmap]. rewrite E. exact Hp2.
    + apply wp_bind. eapply (wp_finish_job j q1); [done|by constructor; [|apply ok_processing]|done|].
      intros w3 Hc3 Hrep3. unfold finish, q1 in Hrep3. cbn [q_ready q_processing q_delayed q_failed remove_first] in Hrep3.
      rewrite decide_True in Hrep3 by done.
      apply wp_bind, (wp_push_processing _ _ _ _ Hrep3). intros n w4 Hc4 Hrep4.
      exists (w_clock w2), "", None. split; [lia|]. by split.
Qed.

Lemma promote_served limit : wp false (run_op fuel (Promote limit)) (served q (Promote limit) w) w.
Proof.
  cbn [run_op]. apply wp_bind. unfold promote_delayed_jobs. apply wp_bind, (wp_now_rep q); [done|].
  intros w1 Hc1 Hrep1. apply wp_bind, wp_redis; [done|]. intros w2 Hadv2. pose proof (advance_clock _ _ Hadv2).
  destruct (rep_delayed _ _ Hrep1) as (z & Hz & Hperm). rewrite (exec_ZRANGEBYSCORE _ _ _ _ _ _ Hz).
  pose proof (NoDup_zrange 0 (w_clock w1) z) as Hnd'. rewrite (zrange_due _ _ _ Hperm) in *.
  apply (promote_loop_served _ _ q); [by apply ok_delayed|by eapply NoDup_fmap_1| |done|].
  - intros j Hj. apply elem_of_due in Hj as [t Hj]. apply list_elem_of_fmap. by exists (j, t).
  - intros w3 Hc3 Hrep3. cbn [w_clock with_redis] in Hc3. exists (w_clock w1), "", None. split; [lia|].
    cbn [serve_op fst snd]. assert ((λ n, n - 0) <$> limit = limit) as E.
    { destruct limit; cbn; [by rewrite Z.sub_0_r|done]. }
    rewrite E in *. by split.
Qed.

Lemma reclaim_served timeout : wp false (run_op fuel (Reclaim timeout)) (served q (Reclaim timeout) w) w.
Proof.
  cbn [run_op]. apply wp_bind. unfold reclaim_stale_processing_jobs. apply wp_bind, (wp_now_rep q); [done|].
  intros w1 Hc1 Hrep1. apply wp_bind, wp_redis; [done|]. intros w2 Hadv2. pose proof (advance_clock _ _ Hadv2).
  rewrite (exec_LRANGE _ _ _ _ _ _ (rep_processing _ _ Hrep1)), lrange_all.
  apply (reclaim_loop_served _ _ _ [] q); [done|by apply ok_processing|by apply ok_started|done|done|].
  intros w3 Hc3 Hrep3. cbn [w_clock with_redis] in Hc3. exists (w_clock w1), "", None. split; [lia|]. by split.
Qed.

Lemma requeue_served limit : (length (q_failed q) < fuel)%nat →
  wp false (run_op fuel (RequeueFailed limit)) (served q (RequeueFailed limit) w) w.
Proof.
  intros Hfuel. cbn [run_op]. apply wp_bind. unfold requeue_failed_jobs.
  apply (requeue_loop_served _ _ q); [done|by apply ok_failed|done|]. intros w1 Hc1 Hrep1.
  exists (w_clock w), "", None. split; [lia|]. cbn [serve_op fst snd].
  assert ((λ n, n - 0) <$> limit = limit) as E.
  { destruct limit; cbn; [by rewrite Z.sub_0_r|done]. }
  rewrite E in *. by split.
Qed.

Lemma of_raw_jobs_texts jobs : Forall job_wf jobs → of_raw_jobs (to_json <$> jobs) = Ok jobs.
Proof.
  induction 1 as [|j jobs Hj _ IH]; [done|]. cbn [fmap list_fmap of_raw_jobs].
  by rewrite from_json_to_json, IH.
Qed.

Lemma list_served n : 0 < n → wp false (run_op fuel (ListFailed n)) (served q (ListFailed n) w) w.
Proof.
  intros Hn. cbn [run_op]. apply wp_bind. unfold list_failed_jobs. apply wp_bind, wp_redis; [done|].
  intros w1 Hadv1. pose proof (advance_clock _ _ Hadv1).
  rewrite (exec_LRANGE _ _ _ _ _ _ (rep_failed _ _ Hrep)), lrange_first by done.
  rewrite <- fmap_reverse, <- fmap_take, of_raw_jobs_texts.
  - exists (w_clock w), "", None. cbn [w_clock with_redis]. split; [lia|]. split; [done|].
    exact Hrep.
  - apply Forall_take, Forall_reverse. by apply ok_failed.
Qed.

Lemma op_served o : op_ok o → (length (q_failed q) < fuel)%nat → wp false (run_op fuel o) (served q o w) w.
Proof.
  destruct o; cbn [op_ok]; intros Hok Hfuel.
  - apply enqueue_served.
  - apply dequeue_served.
  - by apply ack_served.
  - destruct Hok as [Hj [n Hn]]. by eapply retry_served.
  - destruct Hok as [Hj He]. by apply fail_served.
  - apply promote_served.
  - apply reclaim_served.
  - by apply requeue_served.
  - by apply list_served.
Qed.
End operations.

(** *** What an operation leaves is a queue again *)

Lemma Forall_at_most {A} (P : A → Prop) limit l : Forall P l → Forall P (at_most limit l).
Proof. destruct limit; [apply Forall_take|done]. Qed.

Lemma Forall_filter {A} (P p : A → Prop) `{∀ e, Decision (p e)} (l : list A) :
  Forall P l → Forall P (filter p l).
Proof. rewrite !Forall_forall. intros Hl x [_ Hx]%list_elem_of_filter. auto. Qed.

Lemma Forall_filter_fst {A B} (P : A → Prop) (p : A * B → Prop) `{∀ e, Decision (p e)} (d : list (A * B)) :
  Forall P d.*1 → Forall P (filter p d).*1.
Proof. rewrite !Forall_fmap. by apply Forall_filter. Qed.

Lemma due_wf now d : Forall job_wf d.*1 → Forall job_wf (due now d).
Proof.
  rewrite !Forall_forall. intros Hd j [t Hj]%elem_of_due. apply Hd, list_elem_of_fmap. by exists (j, t).
Qed.

Lemma serve_ok t i rid o q : queue_ok q → op_ok o → in_calendar t → queue_ok (snd (serve_op s t i rid o q)).
Proof.
  intros Hq Hok Ht. pose proof Hq as [Hr Hp Hd Hf Hs].
  assert (∀ j, queue_ok (finish j q)) as Hfin by (intros j; constructor; try done; by apply Forall_remove_first).
  destruct o as [ty p|timeout|j|j e|j e|limit|timeout|limit|n]; cbn [serve_op snd op_ok] in *.
  - constructor; try done. apply Forall_app. split; [done|]. constructor; [|done].
    unfold job_wf, new_job. cbn. split_and!; try done. by destruct rid.
  - destruct (q_ready q) as [|j rest]; [done|]. apply Forall_cons in Hr as [Hj Hr].
    constructor; try done; constructor; try done; [by apply wf_started|]. right. by exists t.
  - apply Hfin.
  - destruct Hok as [Hj _]. destruct (Hfin j). constructor; try done. cbn. constructor; [by apply wf_retried|].
    by apply Forall_filter_fst.
  - destruct Hok as [Hj _]. destruct (Hfin j). constructor; try done. cbn. apply Forall_app. split; [done|].
    constructor; [by apply wf_given_up|done].
  - constructor; try done; cbn.
    + apply Forall_app. split; [done|]. by apply Forall_at_most, due_wf.
    + by apply Forall_filter_fst.
  - constructor; try done; cbn; [|by apply Forall_filter..].
    apply Forall_app. split; [done|]. apply Forall_fmap. apply Forall_filter.
    eapply Forall_impl; [exact Hp|]. intros j. apply wf_unstarted.
  - constructor; try done; cbn; [|by apply Forall_drop]. apply Forall_app. split; [done|]. by apply Forall_at_most.
  - done.
Qed.

(** ** Runs of operations *)

Fixpoint run_ops (fuel : nat) (os : list queue_op) : prog (option (list outcome)) :=
  match os with
  | [] => Ret (Some [])
  | o :: os' =>
      r ← run_op fuel o;
      match r with
      | None => Ret None
      | Some out => rs ← run_ops fuel os'; Ret (option_map (cons out) rs)
      end
  end.

(** The specification, one operation after the other at times that do not go back. *)
Inductive serves (t1 : Z) : Z → list queue_op → queue → list outcome → queue → Prop :=
| serves_nil t0 q : serves t1 t0 [] q [] q
| serves_cons t0 t i rid o os q outs q' :
    t0 <= t <= t1 → serves t1 t os (snd (serve_op s t i rid o q)) outs q' →
    serves t1 t0 (o :: os) q (fst (serve_op s t i rid o q) :: outs) q'.

Lemma serves_from t1 t0 t0' os q outs q' : t0' <= t0 → serves t1 t0 os q outs q' → serves t1 t0' os q outs q'.
Proof. intros Ht H1. destruct H1; [constructor|econstructor; [|done]; lia]. Qed.

Lemma failed_length t i rid o q :
  (length (q_failed (snd (serve_op s t i rid o q))) <= S (length (q_failed q)))%nat.
Proof.
  destruct o; cbn; try lia; [destruct (q_ready q); cbn; lia| |].
  - rewrite length_app. cbn. lia.
  - rewrite length_drop. lia.
Qed.

Lemma ops_served fuel os : ∀ q w,
  queue_ok q → represents q (w_redis w) → Forall op_ok os → (length (q_failed q) + length os < fuel)%nat →
  0 <= w_clock w →
  wp false (run_ops fuel os) (λ r w', w_clock w' < 253402300800000000 →
    ∃ outs q', r = Ok (Some outs) ∧ serves (w_clock w') (w_clock w) os q outs q' ∧
      represents q' (w_redis w') ∧ queue_ok q') w.
Proof.
  induction os as [|o os IH]; intros q w Hq Hrep Hos Hfuel Hc.
  - cbn. intros _. exists [], q. split_and!; try done. constructor.
  - apply Forall_cons in Hos as [Ho Hos]. cbn [run_ops length] in *. apply wp_bind.
    eapply wp_mono; [|apply (op_served fuel q w Hq Hrep o Ho); lia].
    intros r w1 (t & i & rid & Ht & -> & Hrep1). cbv beta iota.
    destruct (Z.lt_ge_cases (w_clock w1) 253402300800000000) as [Hin|Hout].
    + assert (queue_ok (snd (serve_op s t i rid o q))) as Hq1 by (apply serve_ok; [done..|unfold in_calendar; lia]).
      pose proof (failed_length t i rid o q). apply wp_bind.
      eapply wp_mono; [|apply wp_and; [apply (IH _ w1 Hq1 Hrep1 Hos); lia|apply (wp_clock false _ w1)]].
      intros r' w2 [Hr' Hle]. cbn beta in Hle. destruct r' as [rs|e].
      * cbn. intros Hw2. destruct (Hr' Hw2) as (outs & q' & [= ->] & Hserves & Hrep2 & Hq2).
        exists (fst (serve_op s t i rid o q) :: outs), q'. split_and!; try done.
        econstructor; [|eapply serves_from; [|exact Hserves]]; lia.
      * intros Hw2. by destruct (Hr' Hw2) as (outs & q' & [=] & _).
    + eapply wp_mono; [|apply wp_clock]. intros r' w2 Hle Hw2. cbn in Hle. lia.
Qed.
End refinement.

(** C8: the job queue refines its specification.  In Redis, a queue is four keys and
    an operation a sequence of commands on texts; to its callers, when operations do
    not overlap and nothing fails, any sequence of operations gives the outcomes of
    [serve_op], one after the other at times between the start and the end, on three
    lists in the order the jobs came and the jobs that wait for their time: a job is
    dequeued once, the oldest first, promoted when it is due, reclaimed when it is
    overdue, requeued in order, and changed only by what its fields record. *)
Theorem queue_refines `{ServicesSpec false W} (s : Settings) (rq pq dq fq : string) (os : list queue_op)
    (fuel : nat) (q : queue) (w : W) :
  NoDup [rq; pq; dq; fq] → represents rq pq dq fq q (w_redis (view w)) → queue_ok q → Forall op_ok os →
  (length (q_failed q) + length os < fuel)%nat →
  0 <= w_clock (view w) → w_clock (view (snd (run (run_ops s rq pq dq fq fuel os) w))) < 253402300800000000 →
  let '(r, w') := run (run_ops s rq pq dq fq fuel os) w in
  ∃ outs q', r = Ok (Some outs) ∧ serves s (w_clock (view w')) (w_clock (view w)) os q outs q' ∧
    represents rq pq dq fq q' (w_redis (view w')) ∧ queue_ok q'.
Proof.
  intros Hnd Hrep Hq Hos Hfuel Hc Hend.
  pose proof (wp_run _ _ _ (ops_served s rq pq dq fq Hnd fuel os q (view w) Hq Hrep Hos Hfuel Hc)) as Hrun.
  destruct (run _ w) as [r w']. by apply Hrun.
Qed.

Definition spec_queue : queue := Queue [demo_text_job] [] [] [].
Definition spec_world : world :=
  with_redis (put_list "q" [to_json demo_text_job] None ∅) (world_at 1700000000000000).
Definition spec_ops : list queue_op :=
  [Enqueue "send" (JObj [("user_id", JInt 1)]); Dequeue 5; Reclaim 0; Dequeue 5; Promote None;
   RequeueFailed None; ListFailed 10].

Lemma queue_refines_witness :
  let p := run_ops (default_settings "k") "q" "p" "d" "f" 20 spec_ops in
  ∃ outs q', fst (run p spec_world) = Ok (Some outs) ∧
    serves (default_settings "k") (w_clock (view (snd (run p spec_world)))) (w_clock (view spec_world))
      spec_ops spec_queue outs q' ∧
    represents "q" "p" "d" "f" q' (w_redis (view (snd (run p spec_world)))) ∧ queue_ok q'.
Proof.
  intros p. pose proof (queue_refines (W:=world) (default_settings "k") "q" "p" "d" "f" spec_ops 20 spec_queue spec_world) as H.
  fold p in H. rewrite (surjective_pairing (run p spec_world)) in H. apply H.
  - apply (bool_decide_unpack _). vm_compute. exact Logic.I.
  - constructor; [by vm_compute..|]. exists ∅. split; by vm_compute.
  - constructor; try done. constructor; [|done]. by apply job_wfb_spec.
  - constructor; [by apply json_wfb_spec|]. repeat constructor.
  - vm_compute. lia.
  - vm_compute. discriminate.
  - vm_compute. reflexivity.
Defined.
