(* ===== verification/Tenants.v ===== *)
(** * Audit log and tenants

    [app/services/audit_log_service.py], [app/services/tenant_service.py],
    [app/services/tenant_seed_service.py], [app/api/dependencies/tenant.py],
    [app/core/tenant_context.py] and [app/schemas/tenant.py]. *)

From Stdlib Require Import ZArith Ascii String Lia.
From stdpp Require Import base tactics option list gmap strings sorting fin_maps.
From S2P Require Import Prelude PyText Json Errors Config Models Services Programs DbFacts.
Local Open Scope string_scope.
Local Open Scope Z_scope.

Definition microseconds_per_day : Z := 86400000000.

(** ** Audit log *)

Definition create_audit_log (tenant_id : Z) (admin_id : option Z) (action : string)
    (target_user_id : option Z) (commit : bool) : prog AuditLog :=
  audit_log ← db (Add TAuditLog (λ key created,
    {| al_id := key; al_tenant_id := tenant_id; al_admin_id := admin_id;
       al_action := action; al_target_user_id := target_user_id;
       al_created_at := created |}));
  if commit then
    _ ← db Commit;
    db (Refresh TAuditLog (al_id audit_log))
  else
    _ ← db Flush;
    Ret audit_log.

(** [if x is not None: query.filter(column == x)] *)
Definition matches {A} `{EqDecision A} (x : option A) (column : A) : bool :=
  match x with Some a => bool_decide (column = a) | None => true end.

(** [ORDER BY created_at DESC, id DESC] *)
Definition newest_first (a b : AuditLog) : bool :=
  (al_created_at b <? al_created_at a) ||
  ((al_created_at a =? al_created_at b) && (al_id b <=? al_id a)).

Definition get_audit_logs (tenant_id skip limit : Z) (action : option string)
    (admin_id target_user_id : option Z) : prog (list AuditLog) :=
  db (Select TAuditLog (Query
    (λ l, (al_tenant_id l =? tenant_id) && matches action (al_action l) &&
          match admin_id with Some _ => bool_decide (al_admin_id l = admin_id) | None => true end &&
          match target_user_id with
          | Some _ => bool_decide (al_target_user_id l = target_user_id) | None => true end)
    newest_first (Z.to_nat skip) (Some (Z.to_nat limit)))).

Definition cleanup_old_audit_logs (s : Settings) : prog Z :=
  now ← now_us;
  let cutoff := now - audit_log_retention_days s * microseconds_per_day in
  deleted_count ← db (BulkDelete TAuditLog (λ l, al_created_at l <? cutoff));
  _ ← db Commit;
  Ret deleted_count.

(** ** Tenant context *)

Definition DEFAULT_TENANT_SLUG : string := "default".
Definition DEFAULT_TENANT_NAME : string := "Default Tenant".

Definition set_tenant_context (tenant_id : option Z) (slug : option string) (p : proc) : proc :=
  {| p_request_id := p_request_id p; p_tenant_id := tenant_id; p_tenant_slug := slug;
     p_in_flight := p_in_flight p; p_shutdown_requested := p_shutdown_requested p;
     p_job_in_progress := p_job_in_progress p;
     p_last_maintenance_attempt_at := p_last_maintenance_attempt_at p;
     p_last_queue_maintenance_at := p_last_queue_maintenance_at p |}.

Definition get_tenant_id : prog (option Z) := read_proc p_tenant_id.
Definition get_tenant_slug : prog (option string) := read_proc p_tenant_slug.
Definition clear_tenant_context : prog unit := set_proc (set_tenant_context None None).

(** ** Tenant service *)

Definition get_tenant_by_slug (slug : string) : prog (option Tenant) :=
  first TTenant (λ t, String.eqb (t_slug t) slug).
Definition get_tenant_by_id (tenant_id : Z) : prog (option Tenant) :=
  first TTenant (λ t, t_id t =? tenant_id).

(** The header [X-Tenant-Slug] of the request, when it has one. *)
Definition resolve_tenant_slug (header : option string) : string :=
  opt_default DEFAULT_TENANT_SLUG header.

Definition get_active_tenant_by_slug (slug : string) : prog Tenant :=
  tenant ← get_tenant_by_slug slug;
  match tenant with
  | Some t => if negb (t_is_active t) then Raise (raised NotFoundError "Tenant not found")
              else Ret t
  | None => Raise (raised NotFoundError "Tenant not found")
  end.

Definition get_required_tenant_id : prog Z :=
  tenant_id ← get_tenant_id;
  match tenant_id with
  | None => Raise (raised BadRequestError "Tenant context is required")
  | Some t => Ret t
  end.

Definition build_tenant_cache_prefix (tenant_id : Z) : string :=
  "tenant:" ++ str_of_int tenant_id.
Definition build_tenant_object_key_prefix (tenant_id : Z) : string :=
  "tenants/" ++ str_of_int tenant_id.

Definition add_tenant (slug name : string) : prog Tenant :=
  db (Add TTenant (λ key _,
    {| t_id := key; t_slug := slug; t_name := name; t_is_active := true |})).

Definition create_tenant (slug name : string) : prog Tenant :=
  existing_tenant ← get_tenant_by_slug slug;
  match existing_tenant with
  | Some _ => Raise (raised BadRequestError "Tenant with this slug already exists")
  | None =>
      tenant ← add_tenant slug name;
      _ ← db Commit;
      db (Refresh TTenant (t_id tenant))
  end.

Definition list_tenants `{SqlText} (skip limit : Z) (include_inactive : bool) :
    prog (list Tenant) :=
  db (Select TTenant (Query
    (λ t, include_inactive || t_is_active t)
    (λ a b, text_le (t_slug a) (t_slug b)) (Z.to_nat skip) (Some (Z.to_nat limit)))).

Definition set_tenant_name (name : string) (t : Tenant) : option Tenant :=
  Some {| t_id := t_id t; t_slug := t_slug t; t_name := name; t_is_active := t_is_active t |}.
Definition set_tenant_is_active (b : bool) (t : Tenant) : option Tenant :=
  Some {| t_id := t_id t; t_slug := t_slug t; t_name := t_name t; t_is_active := b |}.

Definition update_tenant (tenant_id : Z) (name : option string) (is_active : option bool) :
    prog (option Tenant) :=
  tenant ← get_tenant_by_id tenant_id;
  match tenant with
  | None => Ret None
  | Some tenant =>
      _ ← match name with
          | Some n => db (SetRow TTenant (t_id tenant) (set_tenant_name n))
          | None => Ret tt
          end;
      _ ← match is_active with
          | Some b => db (SetRow TTenant (t_id tenant) (set_tenant_is_active b))
          | None => Ret tt
          end;
      _ ← db Commit;
      row ← db (Refresh TTenant (t_id tenant));
      Ret (Some row)
  end.

Definition provision_tenant (slug name : string) (admin_id admin_tenant_id : Z) : prog Tenant :=
  tenant ← create_tenant slug name;
  _ ← create_audit_log admin_tenant_id (Some admin_id) TENANT_CREATED None true;
  Ret tenant.

Definition set_tenant_active_state (tenant_id : Z) (is_active : bool)
    (admin_id admin_tenant_id : Z) : prog (option Tenant) :=
  tenant ← update_tenant tenant_id None (Some is_active);
  match tenant with
  | None => Ret None
  | Some tenant =>
      let action := if is_active then TENANT_ACTIVATED else TENANT_DEACTIVATED in
      _ ← create_audit_log admin_tenant_id (Some admin_id) action None true;
      Ret (Some tenant)
  end.

(** [tenant_seed_service.py] *)
Definition ensure_default_tenant (commit : bool) : prog Tenant :=
  tenant ← get_tenant_by_slug DEFAULT_TENANT_SLUG;
  match tenant with
  | Some t => Ret t
  | None =>
      tenant ← add_tenant DEFAULT_TENANT_SLUG DEFAULT_TENANT_NAME;
      if commit then
        _ ← db Commit;
        db (Refresh TTenant (t_id tenant))
      else
        _ ← db Flush;
        Ret tenant
  end.

(** The dependency [get_request_tenant]. *)
Definition get_request_tenant (header : option string) : prog Tenant :=
  tenant ← get_active_tenant_by_slug (resolve_tenant_slug header);
  _ ← set_proc (set_tenant_context (Some (t_id tenant)) (Some (t_slug tenant)));
  Ret tenant.

(** ** [schemas/tenant.py] *)

Definition slug_char (c : ascii) : bool :=
  let n := code c in ((97 <=? n) && (n <=? 122) || (48 <=? n) && (n <=? 57))%N.

(** [TENANT_SLUG_PATTERN.fullmatch]: non-empty groups of letters and digits
    separated by hyphens. *)
Definition is_slug (s : string) : bool :=
  forallb (λ part, negb (bool_decide (part = [])) && forallb slug_char part)
          (split_chars "-" (chars s)).

(** [TenantCreate]: the length bounds apply to the text as it is sent. *)
Definition validate_slug (value : string) : result exn string :=
  if (slen value <? 2) || (63 <? slen value) then Err (RequestValidationError JNull)
  else
    let normalized := lower (strip value) in
    if is_slug normalized then Ok normalized
    else Err (RequestValidationError
      (JStr "Slug must contain lowercase letters, numbers, and hyphens only")).
