(* ===== verification/Cache.v ===== *)
(** * The Redis cache

    [app/core/cache.py]: JSON values and a version counter, every Redis error
    swallowed.  The keys that match a pattern are found by redis-py's [scan_iter],
    which sends commands of its own: an argument. *)

From Stdlib Require Import ZArith String Lia.
From stdpp Require Import base tactics option list gmap strings.
From S2P Require Import Prelude PyText Json Errors Services Programs.
Local Open Scope string_scope.
Local Open Scope Z_scope.

(** [except RedisError: ...] *)
Definition except_redis {A} (p : prog A) (h : prog A) : prog A :=
  catch p (λ e, if is_redis_error e then h else Raise e).

Definition get_json_cache (key : string) : prog (option json) :=
  except_redis
    (cached_value ← redis (GET key);
     Ret (Some cached_value))
    (Ret None) ≫= λ cached,
  match cached with
  | None | Some None => Ret None
  | Some (Some v) =>
      match loads v with
      | Some JNull => Ret None
      | Some j => Ret (Some j)
      | None => Raise JSONDecodeError
      end
  end.

Definition set_json_cache (key : string) (value : json) (ttl_seconds : Z) : prog unit :=
  except_redis (_ ← redis (SET key (dumps value) false (Some ttl_seconds)); Ret tt) (Ret tt).

Definition get_cache_version (version_key : string) : prog Z :=
  except_redis (v ← redis (GET version_key); Ret (Some v)) (Ret None) ≫= λ cached_version,
  match cached_version with
  | None | Some None => Ret 0
  | Some (Some v) =>
      match int_of_str v with
      | Some n => Ret n
      | None => Raise (ValueError "invalid literal for int()")
      end
  end.

Definition increment_cache_version (version_key : string) : prog (option Z) :=
  except_redis (n ← redis (INCR version_key); Ret (Some n)) (Ret None).

Definition delete_cache_pattern (scan_iter : string → prog (list string)) (pattern : string) : prog Z :=
  found ← except_redis (keys ← scan_iter pattern; Ret (Some keys)) (Ret None);
  match found with
  | None | Some [] => Ret 0
  | Some keys => except_redis (redis (DELS keys)) (Ret 0)
  end.
