(* ===== verification/Cursor.v ===== *)
(** * Base64 and cursors

    [app/core/keyset_pagination.py], with the standard library's URL-safe
    Base64: the encoder, and the decoder as [binascii.a2b_base64] reads a text
    (characters outside the alphabet are skipped, padding ends it). *)

From Stdlib Require Import ZArith NArith Ascii String Lia.
From stdpp Require Import base tactics option list strings sorting.
From S2P Require Import Prelude PyText Json Errors.
Local Open Scope N_scope.

(** ** Base64 *)

(** The character of a value below 64, in the URL-safe alphabet. *)
Definition b64_char (v : N) : ascii :=
  ascii_of_N (if v <? 26 then 65 + v else if v <? 52 then 71 + v
              else if v <? 62 then v - 4 else if v =? 62 then 45 else 95).

(** The value of a character: [urlsafe_b64decode] first replaces [-] by [+] and
    [_] by [/], so both spellings are read. *)
Definition b64_val (c : ascii) : option N :=
  let n := code c in
  if (65 <=? n) && (n <=? 90) then Some (n - 65)
  else if (97 <=? n) && (n <=? 122) then Some (n - 71)
  else if (48 <=? n) && (n <=? 57) then Some (n + 4)
  else if (n =? 45) || (n =? 43) then Some 62
  else if (n =? 95) || (n =? 47) then Some 63
  else None.

Definition pad_char : ascii := "="%char.

(** [base64.urlsafe_b64encode] *)
Fixpoint b64_encode (l : list ascii) : list ascii :=
  match l with
  | a :: b :: c :: l' =>
      let n := code a * 65536 + code b * 256 + code c in
      b64_char (n / 262144) :: b64_char (n / 4096 mod 64) ::
      b64_char (n / 64 mod 64) :: b64_char (n mod 64) :: b64_encode l'
  | [a; b] =>
      let n := code a * 65536 + code b * 256 in
      [b64_char (n / 262144); b64_char (n / 4096 mod 64); b64_char (n / 64 mod 64); pad_char]
  | [a] =>
      let n := code a * 65536 in
      [b64_char (n / 262144); b64_char (n / 4096 mod 64); pad_char; pad_char]
  | [] => []
  end.

(** [binascii.a2b_base64] in its lenient mode: [quad] counts the characters of
    the current group, [left] holds the bits not written yet and [pads] the
    padding seen in the group; the group ends at enough padding, what follows
    is ignored, and a text that ends inside a group is an error. *)
Fixpoint b64_decode_loop (l : list ascii) (quad : N) (left : N) (pads : N) :
    option (list ascii) :=
  match l with
  | [] => if quad =? 0 then Some [] else None
  | c :: l' =>
      if Ascii.eqb c pad_char then
        if (2 <=? quad) && (4 <=? quad + (pads + 1)) then Some []
        else b64_decode_loop l' quad left (if 2 <=? quad then pads + 1 else pads)
      else
        match b64_val c with
        | None => b64_decode_loop l' quad left pads
        | Some v =>
            if quad =? 0 then b64_decode_loop l' 1 v 0
            else if quad =? 1 then
              r ← b64_decode_loop l' 2 (v mod 16) 0;
              Some (ascii_of_N (left * 4 + v / 16) :: r)
            else if quad =? 2 then
              r ← b64_decode_loop l' 3 (v mod 4) 0;
              Some (ascii_of_N (left * 16 + v / 4) :: r)
            else
              r ← b64_decode_loop l' 0 0 0;
              Some (ascii_of_N (left * 64 + v) :: r)
        end
  end.

Definition b64_decode (l : list ascii) : option (list ascii) := b64_decode_loop l 0 0 0.

(** ** Cursors *)

(** The payload is ASCII text once printed, so UTF-8 encoding it is the
    identity. *)
Definition encode_cursor (payload : list (string * json)) : string :=
  text (b64_encode (chars (dumps_compact_sorted (JObj payload)))).

Definition is_ascii (l : list ascii) : bool :=
  forallb (λ c, (0 <? code c) && (code c <? 128)) l.

(** [json.loads] of bytes guesses their encoding.  Without a null byte ASCII is
    read as UTF-8; other bytes are refused here, which the code does too unless
    they spell JSON in another encoding. *)
Definition decode_cursor (cursor : string) : result exn (list (string * json)) :=
  let invalid := Err (ValueError "invalid cursor") in
  match b64_decode (chars cursor) with
  | None => invalid
  | Some raw =>
      if negb (is_ascii raw) then invalid
      else match loads (text raw) with
           | Some (JObj payload) => Ok payload
           | _ => invalid
           end
  end.

(** ** Base64 reads back what it writes *)

Lemma b64_val_char v : v < 64 → b64_val (b64_char v) = Some v ∧ b64_char v ≠ pad_char.
Proof.
  intros Hv. assert (∃ n, v = N.of_nat n ∧ (n < 64)%nat) as (n & -> & Hn)
    by (exists (N.to_nat v); lia).
  do 64 (destruct n as [|n]; [split; [reflexivity|discriminate]|]). lia.
Qed.

Lemma b64_loop_char v l quad left pads : v < 64 →
  b64_decode_loop (b64_char v :: l) quad left pads =
    if quad =? 0 then b64_decode_loop l 1 v 0
    else if quad =? 1 then
      r ← b64_decode_loop l 2 (v mod 16) 0; Some (ascii_of_N (left * 4 + v / 16) :: r)
    else if quad =? 2 then
      r ← b64_decode_loop l 3 (v mod 4) 0; Some (ascii_of_N (left * 16 + v / 4) :: r)
    else r ← b64_decode_loop l 0 0 0; Some (ascii_of_N (left * 64 + v) :: r).
Proof.
  intros Hv. destruct (b64_val_char v Hv) as [E Hne]. cbn [b64_decode_loop].
  destruct (Ascii.eqb_spec (b64_char v) pad_char); [done|]. by rewrite E.
Qed.

Lemma code_bound c : code c < 256.
Proof. apply N_ascii_bounded. Qed.

Lemma ascii_of_code n c : n = code c → ascii_of_N n = c.
Proof. intros ->. apply ascii_N_embedding. Qed.

#[local] Ltac Zify.zify_post_hook ::= Z.to_euclidean_division_equations.

(** Three bytes make four characters. *)
Lemma b64_decode_group l left : b64_decode_loop (b64_encode l) 0 left 0 = Some l.
Proof.
  revert left. induction l as [l IH] using (induction_ltof1 _ (@length ascii)).
  unfold ltof in IH. intros left. destruct l as [|a [|b [|c l]]]; [done|..];
    pose proof (code_bound a); try pose proof (code_bound b); try pose proof (code_bound c);
    cbn [b64_encode].
  - set (n := code a * 65536). rewrite !b64_loop_char by (subst n; lia).
    assert (∀ x, b64_decode_loop [pad_char; pad_char] 2 x 0 = Some []) as Hp by done.
    cbn [N.eqb Pos.eqb]. rewrite Hp. cbn [mbind option_bind].
    do 2 f_equal. apply ascii_of_code. subst n. lia.
  - set (n := code a * 65536 + code b * 256).
    rewrite !b64_loop_char by (subst n; lia).
    assert (∀ x, b64_decode_loop [pad_char] 3 x 0 = Some []) as Hp by done.
    cbn [N.eqb Pos.eqb]. rewrite Hp. cbn [mbind option_bind].
    do 2 f_equal; [|f_equal]; apply ascii_of_code; subst n; lia.
  - set (n := code a * 65536 + code b * 256 + code c).
    rewrite !b64_loop_char by (subst n; lia). cbn [N.eqb Pos.eqb].
    rewrite IH by (cbn; lia). cbn [mbind option_bind].
    do 2 f_equal; [|f_equal; [|f_equal]]; apply ascii_of_code; subst n; lia.
Qed.

Lemma b64_decode_encode l : b64_decode (b64_encode l) = Some l.
Proof. apply b64_decode_group. Qed.

(** ** JSON text is printable ASCII *)

Definition printable (c : ascii) : bool := (0 <? code c) && (code c <? 128).

Lemma print_uint_printable d : forallb printable (print_uint d) = true.
Proof. induction d; cbn; auto. Qed.

Lemma escape_char_printable c : forallb printable (escape_char c) = true.
Proof. destruct c as [[] [] [] [] [] [] [] []]; vm_compute; reflexivity. Qed.

Lemma print_str_printable s : forallb printable (print_str s) = true.
Proof.
  unfold print_str. cbn [forallb]. apply andb_true_iff. split; [reflexivity|].
  rewrite forallb_app. apply andb_true_iff. split; [|reflexivity].
  induction (chars s) as [|c l IH]; [done|]. cbn [mbind list_bind].
  by rewrite forallb_app, escape_char_printable.
Qed.

Lemma intersperse_printable sep ls : forallb printable (item_sep sep) = true →
  Forall (λ l, forallb printable l = true) ls → forallb printable (intersperse sep ls) = true.
Proof.
  intros Hsep. induction 1 as [|l ls Hl Hls IH]; [done|]. cbn [intersperse].
  destruct ls; [done|]. by rewrite !forallb_app, Hl, Hsep.
Qed.

Lemma print_printable sep v :
  forallb printable (item_sep sep) = true → forallb printable (key_sep sep) = true →
  json_wf v → forallb printable (print sep v) = true.
Proof.
  intros Hi Hk. induction v as [|[]|z|s|s|l IH|kvs IH] using json_nested_ind; intros Hwf; try done.
  - cbn. unfold print_int. destruct (Z.to_int z); cbn; apply print_uint_printable.
  - apply print_str_printable.
  - rewrite json_wf_list in Hwf. cbn [print forallb]. apply andb_true_iff. split; [done|].
    rewrite forallb_app. apply andb_true_iff. split; [|done].
    apply intersperse_printable; [done|]. apply Forall_fmap.
    by apply (Forall_apply json_wf).
  - rewrite json_wf_obj in Hwf. destruct Hwf as [_ Hwf]. cbn [print forallb].
    apply andb_true_iff. split; [done|].
    rewrite forallb_app. apply andb_true_iff. split; [|done].
    apply intersperse_printable; [done|]. apply Forall_fmap.
    eapply Forall_impl; [exact (Forall_apply _ _ _ IH Hwf)|]. intros [k w] Hw.
    change (forallb printable (print_str k ++ key_sep sep ++ print sep w) = true).
    cbn in Hw. by rewrite !forallb_app, print_str_printable, Hk, Hw.
Qed.

(** ** Sorting the keys *)

Lemma sort_keys_wf v : json_wf v → json_wf (sort_keys v).
Proof.
  induction v as [| | | | |l IH|kvs IH] using json_nested_ind; try done; cbn [sort_keys].
  - rewrite !json_wf_list, Forall_fmap. intros Hwf.
    by apply (Forall_apply json_wf).
  - rewrite !json_wf_obj. intros [Hnd Hwf].
    rewrite (merge_sort_Permutation key_le). rewrite Forall_fmap. split.
    + assert ((map (λ '(k, v), (k, sort_keys v)) kvs).*1 = kvs.*1) as ->; [|done].
      clear. induction kvs as [|[k v] kvs IH]; [done|]. cbn. by f_equal.
    + eapply Forall_impl; [exact (Forall_apply _ _ _ IH Hwf)|]. by intros [k w].
Qed.

(** The members of a payload in the order in which they are printed. *)
Definition sorted_payload (payload : list (string * json)) : list (string * json) :=
  match sort_keys (JObj payload) with JObj kvs => kvs | _ => [] end.

(** Decoding a cursor gives the payload it was made of, sorted. *)
Lemma decode_encode_cursor payload : json_wf (JObj payload) →
  decode_cursor (encode_cursor payload) = Ok (sorted_payload payload).
Proof.
  intros Hwf. apply sort_keys_wf in Hwf. unfold decode_cursor, encode_cursor, dumps_compact_sorted.
  rewrite !chars_text, b64_decode_encode.
  assert (is_ascii (print compact_separators (sort_keys (JObj payload))) = true) as ->
    by by apply print_printable.
  cbn [negb]. unfold loads. rewrite chars_text, loads_print; [done| |done].
  apply compact_separators_ok.
Qed.
