(* ===== verification/Users.v ===== *)
(** * Users

    [app/services/user_service.py], [app/schemas/user.py] and
    [app/api/routes/users.py]: the paginated and cached list of the users of a
    tenant, and the changes of a user, each committed together with its audit
    log entry.

    [UserRead.model_validate] gives back the row here; that it accepts every row
    the program stores, whose emails were validated, is shown in [TypedRoutes].
    The current user is the one the dependency of the route returns (see [Auth]). *)

From Stdlib Require Import ZArith Ascii String Lia.
From stdpp Require Import base tactics option list gmap strings sorting fin_maps.
From S2P Require Import Prelude PyText Json Errors Config Models Permissions Services.
From S2P Require Import Programs DbFacts Tenants Cache Cursor.
Set Warnings "-level-tolerance".
Local Open Scope string_scope.
Local Open Scope Z_scope.

Definition USERS_LIST_CACHE_NAMESPACE : string := "users:list:v1".
Definition USERS_LIST_CACHE_VERSION_SUFFIX : string := "users:list:version".

(** [UserSearchMode.contains.value] *)
Definition search_mode_contains : string := "contains".

Definition build_users_list_cache_version_key (tenant_id : Z) : string :=
  build_tenant_cache_prefix tenant_id ++ ":" ++ USERS_LIST_CACHE_VERSION_SUFFIX.

Definition backslash : ascii := "\"%char.

Definition _escape_like_pattern (value : string) : string :=
  replace_char "_" (String backslash "_")
    (replace_char "%" (String backslash "%")
      (replace_char backslash (String backslash (String backslash "")) value)).

Definition email_pattern (search search_mode : string) : string :=
  if String.eqb search_mode search_mode_contains
  then "%" ++ _escape_like_pattern search ++ "%"
  else _escape_like_pattern search ++ "%".

(** ** Sorting *)

(** The value of a sortable column. *)
Inductive cval : Type := CInt (z : Z) | CText (s : string) | CBool (b : bool).

#[export] Instance cval_eq_dec : EqDecision cval.
Proof. solve_decision. Defined.

(** [allowed_sort_fields.get(sort_by, User.id)] *)
Definition sort_value (sort_by : string) (u : User) : cval :=
  if String.eqb sort_by "email" then CText (u_email u)
  else if String.eqb sort_by "role" then CText (u_role u)
  else if String.eqb sort_by "is_active" then CBool (u_is_active u)
  else CInt (u_id u).

Definition json_of_cval (v : cval) : json :=
  match v with CInt z => JInt z | CText s => JStr s | CBool b => JBool b end.

(** The value of a cursor as a value of the column; the database refuses to
    compare values of other types. *)
Definition cval_of_json (sort_by : string) (v : json) : option cval :=
  if String.eqb sort_by "email" || String.eqb sort_by "role" then
    match v with JStr s => Some (CText s) | _ => None end
  else if String.eqb sort_by "is_active" then
    match v with JBool b => Some (CBool b) | _ => None end
  else match v with JInt z => Some (CInt z) | _ => None end.

Record list_params := {
  lp_limit : Z;
  lp_sort_by : string;
  lp_sort_order : string;
  lp_role : option string;
  lp_is_active : option bool;
  lp_search : option string;
  lp_search_mode : string;
  lp_cursor : option string;
  lp_skip : option Z;
}.

(** The rows of a page, or the items of a cached one; the next cursor. *)
Record UserListResult := {
  r_items : list User + list json;
  r_next_cursor : json;
}.

Definition opt_json {A} (f : A → json) (o : option A) : json :=
  match o with Some a => f a | None => JNull end.

Section users.
Context `{Crypto} `{SqlText} (s : Settings).

Definition cval_lt (a b : cval) : bool :=
  match a, b with
  | CInt x, CInt y => x <? y
  | CText x, CText y => text_le x y && negb (String.eqb x y)
  | CBool x, CBool y => negb x && y
  | _, _ => false
  end.

(** [ORDER BY sort_column, id], ascending or descending. *)
Definition before (sort_by sort_order : string) (a b : User) : bool :=
  let va := sort_value sort_by a in
  let vb := sort_value sort_by b in
  if String.eqb sort_order "desc"
  then cval_lt vb va || (bool_decide (va = vb) &&
         (if String.eqb sort_order "asc" then u_id a <=? u_id b else u_id b <=? u_id a))
  else cval_lt va vb || (bool_decide (va = vb) &&
         (if String.eqb sort_order "asc" then u_id a <=? u_id b else u_id b <=? u_id a)).

(** [_apply_keyset_filter] *)
Definition _apply_keyset_filter (sort_by sort_order : string) (cursor_id : Z)
    (cursor_sort_value : cval) (u : User) : bool :=
  let v := sort_value sort_by u in
  if String.eqb sort_order "desc"
  then cval_lt v cursor_sort_value ||
       (bool_decide (v = cursor_sort_value) && (u_id u <? cursor_id))
  else cval_lt cursor_sort_value v ||
       (bool_decide (v = cursor_sort_value) && (cursor_id <? u_id u)).

(** The filters of the query, before the cursor. *)
Definition list_filter (tenant_id : Z) (p : list_params) (u : User) : bool :=
  (u_tenant_id u =? tenant_id) &&
  match lp_role p with Some r => String.eqb (u_role u) r | None => true end &&
  match lp_is_active p with
  | None => u_is_active u
  | Some b => Bool.eqb (u_is_active u) b
  end &&
  match lp_search p with
  | Some q => ilike (u_email u) (email_pattern q (lp_search_mode p))
  | None => true
  end.

Definition _serialize_user (u : User) : json :=
  JObj [("id", JInt (u_id u)); ("email", JStr (u_email u));
        ("is_active", JBool (u_is_active u)); ("role", JStr (u_role u))].

(** [getattr(user, name)] *)
Definition getattr_user (u : User) (name : string) : result exn json :=
  if String.eqb name "id" then Ok (JInt (u_id u))
  else if String.eqb name "tenant_id" then Ok (JInt (u_tenant_id u))
  else if String.eqb name "email" then Ok (JStr (u_email u))
  else if String.eqb name "hashed_password" then Ok (JStr (u_hashed_password u))
  else if String.eqb name "is_active" then Ok (JBool (u_is_active u))
  else if String.eqb name "role" then Ok (JStr (u_role u))
  else if String.eqb name "token_version" then Ok (JInt (u_token_version u))
  else Err (AttributeError name).

Definition cursor_payload (p : list_params) (last_user : User) (sort_value : json) :
    list (string * json) :=
  [("id", JInt (u_id last_user)); ("sort_by", JStr (lp_sort_by p));
   ("sort_order", JStr (lp_sort_order p)); ("sort_value", sort_value);
   ("role", opt_json JStr (lp_role p)); ("is_active", opt_json JBool (lp_is_active p));
   ("search", opt_json JStr (lp_search p)); ("search_mode", JStr (lp_search_mode p))].

Definition _build_next_cursor (users : list User) (p : list_params) : result exn json :=
  if Z.of_nat (length users) <? lp_limit p then Ok JNull
  else match last users with
       | None => Err (TypeError "list index out of range")
       | Some last_user =>
           match getattr_user last_user (lp_sort_by p) with
           | Err e => Err e
           | Ok v => Ok (JStr (encode_cursor (cursor_payload p last_user v)))
           end
       end.

(** [cursor_payload.get(key) != expected] *)
Definition differs (payload : list (string * json)) (key : string) (expected : json) : bool :=
  negb (json_eqb (opt_default JNull (dict_get key payload)) expected).

Definition _validate_cursor_filters (payload : list (string * json)) (p : list_params) :
    result exn (Z * json) :=
  if differs payload "sort_by" (JStr (lp_sort_by p)) then
    Err (ValueError "cursor sort_by mismatch")
  else if differs payload "sort_order" (JStr (lp_sort_order p)) then
    Err (ValueError "cursor sort_order mismatch")
  else if differs payload "role" (opt_json JStr (lp_role p)) then
    Err (ValueError "cursor role mismatch")
  else if differs payload "is_active" (opt_json JBool (lp_is_active p)) then
    Err (ValueError "cursor is_active mismatch")
  else if differs payload "search" (opt_json JStr (lp_search p)) then
    Err (ValueError "cursor search mismatch")
  else if differs payload "search_mode" (JStr (lp_search_mode p)) then
    Err (ValueError "cursor search_mode mismatch")
  else
    match dict_get "id" payload, opt_default JNull (dict_get "sort_value" payload) with
    | None, _ => Err (ValueError "invalid cursor payload")
    | Some _, JNull => Err (ValueError "invalid cursor payload")
    | Some (JInt i), v => Ok (i, v)
    | Some (JBool b), v => Ok (if b then 1 else 0, v)
    | Some _, _ => Err (ValueError "invalid cursor payload")
    end.

Definition cache_params (p : list_params) (skip : option Z) : json :=
  JObj [("limit", JInt (lp_limit p)); ("sort_by", JStr (lp_sort_by p));
        ("sort_order", JStr (lp_sort_order p)); ("role", opt_json JStr (lp_role p));
        ("is_active", opt_json JBool (lp_is_active p)); ("search", opt_json JStr (lp_search p));
        ("search_mode", JStr (lp_search_mode p)); ("cursor", opt_json JStr (lp_cursor p));
        ("skip", opt_json JInt skip)].

Definition build_users_list_cache_key (tenant_id : Z) (p : list_params) (skip : option Z) :
    prog string :=
  let cache_hash := sha256_hex (dumps_sorted (cache_params p skip)) in
  cache_version ← get_cache_version (build_users_list_cache_version_key tenant_id);
  Ret (build_tenant_cache_prefix tenant_id ++ ":" ++ USERS_LIST_CACHE_NAMESPACE ++ ":v" ++
       str_of_int cache_version ++ ":" ++ cache_hash).

Definition use_offset (p : list_params) : bool :=
  match lp_skip p with Some k => 0 <? k | None => false end.

(** [UserListResult(items=cached["items"], next_cursor=cached.get("next_cursor"))] *)
Definition of_cached (cached : json) : result exn UserListResult :=
  match cached with
  | JObj kvs =>
      match dict_get "items" kvs with
      | Some (JList l) => Ok {| r_items := inr l;
                                r_next_cursor := opt_default JNull (dict_get "next_cursor" kvs) |}
      | Some _ => Err (TypeError "items")
      | None => Err (KeyError "items")
      end
  | _ => Err (TypeError "indices must be integers")
  end.

(** The condition a cursor adds to the query. *)
Definition cursor_filter (p : list_params) : result exn (User → bool) :=
  match lp_cursor p with
  | None => Ok (λ _, true)
  | Some c =>
      match decode_cursor c with
      | Err e => Err e
      | Ok payload =>
          match _validate_cursor_filters payload p with
          | Err e => Err e
          | Ok (cursor_id, v) =>
              match cval_of_json (lp_sort_by p) v with
              | None => Err (OperationalError "operator does not exist")
              | Some cv => Ok (_apply_keyset_filter (lp_sort_by p) (lp_sort_order p) cursor_id cv)
              end
          end
      end
  end.

Definition page_query (tenant_id : Z) (p : list_params) (extra : User → bool) (skip : nat) :
    query User :=
  Query (λ u, list_filter tenant_id p u && extra u)
        (before (lp_sort_by p) (lp_sort_order p)) skip (Some (Z.to_nat (lp_limit p))).

(** The page as it is without the cache. *)
Definition query_users (tenant_id : Z) (p : list_params) : prog (list User * json) :=
  if use_offset p then
    users ← db (Select TUser (page_query tenant_id p (λ _, true)
                                (Z.to_nat (opt_default 0 (lp_skip p)))));
    Ret (users, JNull)
  else
    extra ← of_result (cursor_filter p);
    users ← db (Select TUser (page_query tenant_id p extra 0));
    next_cursor ← of_result (_build_next_cursor users p);
    Ret (users, next_cursor).

Definition cached_page (users : list User) (next_cursor : json) : json :=
  JObj [("items", JList (_serialize_user <$> users)); ("next_cursor", next_cursor)].

Definition get_users (tenant_id : Z) (p : list_params) : prog UserListResult :=
  cache_key ← build_users_list_cache_key tenant_id p (if use_offset p then lp_skip p else None);
  cached_users ← (if users_cache_enabled s then get_json_cache cache_key else Ret None);
  match cached_users with
  | Some cached => of_result (of_cached cached)
  | None =>
      page ← query_users tenant_id p;
      let '(users, next_cursor) := page in
      _ ← (if users_cache_enabled s
           then set_json_cache cache_key (cached_page users next_cursor) (users_cache_ttl_seconds s)
           else Ret tt);
      Ret {| r_items := inl users; r_next_cursor := next_cursor |}
  end.

Definition invalidate_users_list_cache (tenant_id : Z) : prog unit :=
  _ ← increment_cache_version (build_users_list_cache_version_key tenant_id);
  Ret tt.

Definition get_user_by_id (user_id tenant_id : Z) : prog (option User) :=
  first TUser (λ u, (u_id u =? user_id) && (u_tenant_id u =? tenant_id)).

(** ** Changes *)

Definition set_token_version (v : Z) (u : User) : User :=
  {| u_id := u_id u; u_tenant_id := u_tenant_id u; u_email := u_email u;
     u_hashed_password := u_hashed_password u; u_is_active := u_is_active u;
     u_role := u_role u; u_token_version := v |}.
Definition set_is_active (b : bool) (u : User) : User :=
  {| u_id := u_id u; u_tenant_id := u_tenant_id u; u_email := u_email u;
     u_hashed_password := u_hashed_password u; u_is_active := b;
     u_role := u_role u; u_token_version := u_token_version u |}.
Definition set_email (e : string) (u : User) : User :=
  {| u_id := u_id u; u_tenant_id := u_tenant_id u; u_email := e;
     u_hashed_password := u_hashed_password u; u_is_active := u_is_active u;
     u_role := u_role u; u_token_version := u_token_version u |}.
Definition set_role (r : string) (u : User) : User :=
  {| u_id := u_id u; u_tenant_id := u_tenant_id u; u_email := u_email u;
     u_hashed_password := u_hashed_password u; u_is_active := u_is_active u;
     u_role := r; u_token_version := u_token_version u |}.

(** The new value of [token_version] is computed from the row as it was loaded. *)
Definition increment_user_token_version (user : User) : prog User :=
  _ ← db (SetRow TUser (u_id user) (λ r, Some (set_token_version (u_token_version user + 1) r)));
  _ ← db Commit;
  user ← db (Refresh TUser (u_id user));
  _ ← invalidate_users_list_cache (u_tenant_id user);
  Ret user.

(** [UserAdminUpdate] as it is sent: a field that is not set, set to null, or set
  to a value.  [UserSelfUpdate] is an update that sets at most the email. *)
Record UserUpdate := {
  up_email : option (option string);
  up_is_active : option (option bool);
  up_role : option (option string);
  }.

Definition self_update (u : UserUpdate) : UserUpdate :=
  {| up_email := up_email u; up_is_active := None; up_role := None |}.

(** [setattr] of one field; null violates NOT NULL when it is flushed. *)
Definition set_field {A} (f : A → User → User) (v : option (option A)) (u : User) : option User :=
  match v with
  | None => Some u
  | Some None => None
  | Some (Some a) => Some (f a u)
  end.

Definition should_invalidate_tokens (user : User) (update : UserUpdate) : bool :=
  match up_role update with
  | Some r => negb (bool_decide (r = Some (u_role user)))
  | None => false
  end.

Definition apply_update (user : User) (update : UserUpdate) (r : User) : option User :=
  r ← set_field set_email (up_email update) r;
  r ← set_field set_is_active (up_is_active update) r;
  r ← set_field set_role (up_role update) r;
  Some (if should_invalidate_tokens user update
        then set_token_version (u_token_version user + 1) r else r).

Definition update_user (user : User) (update : UserUpdate) (commit : bool) : prog User :=
  _ ← db (SetRow TUser (u_id user) (apply_update user update));
  if commit then
    _ ← db Commit;
    user ← db (Refresh TUser (u_id user));
    _ ← invalidate_users_list_cache (u_tenant_id user);
    Ret user
  else
    _ ← db Flush;
    of_result (result_of_option IntegrityError (apply_update user update user)).

Definition delete_user (user : User) (commit : bool) : prog unit :=
  _ ← db (DeleteRow TUser (u_id user));
  if commit then
    _ ← db Commit;
    invalidate_users_list_cache (u_tenant_id user)
  else db Flush.

Definition deactivated (user r : User) : User :=
  set_token_version (u_token_version user + 1) (set_is_active false r).

Definition deactivate_user (user_id tenant_id : Z) (commit : bool) : prog (option User) :=
  user ← get_user_by_id user_id tenant_id;
  match user with
  | None => Ret None
  | Some user =>
      _ ← db (SetRow TUser (u_id user) (λ r, Some (deactivated user r)));
      if commit then
        _ ← db Commit;
        user ← db (Refresh TUser (u_id user));
        _ ← invalidate_users_list_cache tenant_id;
        Ret (Some user)
      else
        _ ← db Flush;
        Ret (Some (deactivated user user))
  end.

Definition activate_user (user_id tenant_id : Z) (commit : bool) : prog (option User) :=
  user ← get_user_by_id user_id tenant_id;
  match user with
  | None => Ret None
  | Some user =>
      _ ← db (SetRow TUser (u_id user) (λ r, Some (set_is_active true r)));
      if commit then
        _ ← db Commit;
        user ← db (Refresh TUser (u_id user));
        _ ← invalidate_users_list_cache tenant_id;
        Ret (Some user)
      else
        _ ← db Flush;
        Ret (Some (set_is_active true user))
  end.

(** ** [routes/users.py] *)

Definition user_not_found : exn := HTTPException 404 "User not found" [].
Definition insufficient_permissions : exn := HTTPException 403 "Insufficient permissions" [].

Definition commit_user_mutation_with_audit (tenant_id admin_id : Z) (action : string)
    (target_user_id : Z) : prog unit :=
  _ ← create_audit_log tenant_id (Some admin_id) action (Some target_user_id) false;
  _ ← db Commit;
  invalidate_users_list_cache tenant_id.

(** The objects that are sent: rows are validated to [UserRead], and so are the
    items of a cached page. *)
Definition user_list_items (result : UserListResult) : list json :=
  match r_items result with
  | inl users => _serialize_user <$> users
  | inr items => items
  end.

Record UserListPage := { ulp_items : list json; ulp_next_cursor : json }.

(** The parameters of the route as those of [get_users]. *)
Definition route_params (page size : Z) (p : list_params) : list_params :=
  let skip := match lp_cursor p with
              | None => if 1 <? page then Some ((page - 1) * size) else None
              | Some _ => None
              end in
  {| lp_limit := size; lp_sort_by := lp_sort_by p; lp_sort_order := lp_sort_order p;
     lp_role := lp_role p; lp_is_active := lp_is_active p; lp_search := lp_search p;
     lp_search_mode := lp_search_mode p; lp_cursor := lp_cursor p; lp_skip := skip |}.

Definition cursor_and_page (page : Z) (p : list_params) : bool :=
  match lp_cursor p with Some _ => negb (page =? 1) | None => false end.

Definition cursor_with_page : exn := HTTPException 422 "cursor cannot be combined with page > 1" [].

(** [except ValueError] of the route. *)
Definition unprocessable (e : exn) : exn :=
  if is_value_error e then HTTPException 422 (exn_str e) [] else e.

Definition list_users (page size : Z) (p : list_params) (current_user : User) :
    prog UserListPage :=
  if cursor_and_page page p then Raise cursor_with_page
  else
    result ← catch (get_users (u_tenant_id current_user) (route_params page size p))
      (λ e, Raise (unprocessable e));
    Ret {| ulp_items := user_list_items result; ulp_next_cursor := r_next_cursor result |}.

Definition get_user (user_id : Z) (current_user : User) : prog User :=
  user ← get_user_by_id user_id (u_tenant_id current_user);
  match user with
  | None => Raise user_not_found
  | Some user => if negb (can_read_user current_user user)
                 then Raise insufficient_permissions else Ret user
  end.

Definition patch_user (user_id : Z) (user_update : UserUpdate) (current_user : User) : prog User :=
  user ← get_user_by_id user_id (u_tenant_id current_user);
  match user with
  | None => Raise user_not_found
  | Some user =>
      if negb (can_update_user current_user user) then Raise insufficient_permissions
      else if user_has_permission current_user USERS_UPDATE then
        updated_user ← update_user user user_update false;
        _ ← commit_user_mutation_with_audit (u_tenant_id current_user) (u_id current_user)
              USER_UPDATED user_id;
        db (Refresh TUser (u_id updated_user))
      else update_user user (self_update user_update) true
  end.

Definition deactivate_user_endpoint (user_id : Z) (current_user : User) : prog User :=
  user ← deactivate_user user_id (u_tenant_id current_user) false;
  match user with
  | None => Raise user_not_found
  | Some user =>
      _ ← commit_user_mutation_with_audit (u_tenant_id current_user) (u_id current_user)
            USER_DEACTIVATED user_id;
      db (Refresh TUser (u_id user))
  end.

Definition activate_user_endpoint (user_id : Z) (current_user : User) : prog User :=
  user ← activate_user user_id (u_tenant_id current_user) false;
  match user with
  | None => Raise user_not_found
  | Some user =>
      _ ← commit_user_mutation_with_audit (u_tenant_id current_user) (u_id current_user)
            USER_ACTIVATED user_id;
      db (Refresh TUser (u_id user))
  end.

Definition remove_user (user_id : Z) (current_user : User) : prog unit :=
  user ← get_user_by_id user_id (u_tenant_id current_user);
  match user with
  | None => Raise user_not_found
  | Some user =>
      _ ← delete_user user false;
      commit_user_mutation_with_audit (u_tenant_id current_user) (u_id current_user)
        USER_DELETED user_id
  end.
End users.
