(* ===== verification/UserMutations.v ===== *)
(** * Changes of a user and their audit log

    An administrator's change of a user ([patch_user], [activate_user_endpoint],
    [deactivate_user_endpoint], [remove_user]) and its audit log entry are
    committed together, whatever fails on the way. *)

From Stdlib Require Import ZArith String Lia.
From stdpp Require Import base tactics option list gmap strings sorting fin_maps.
From S2P Require Import Prelude PyText Json Errors Config Models Permissions Services.
From S2P Require Import Programs DbFacts Reference Tenants Cache Cursor Users.
Local Open Scope string_scope.
Local Open Scope Z_scope.

(** The four requests of an administrator, with the audit action and the write
    each stands for. *)
Inductive admin_change `{Crypto} (me : User) (user_id : Z) :
    prog unit → string → (User → write) → Prop :=
| change_patch upd :
    user_has_permission me USERS_UPDATE = true →
    admin_change me user_id (ignore (patch_user user_id upd me)) USER_UPDATED
      (λ user, set_row TUser user_id (apply_update user upd))
| change_deactivate :
    admin_change me user_id (ignore (deactivate_user_endpoint user_id me)) USER_DEACTIVATED
      (λ user, set_row TUser user_id (λ r, Some (deactivated user r)))
| change_activate :
    admin_change me user_id (ignore (activate_user_endpoint user_id me)) USER_ACTIVATED
      (λ _, set_row TUser user_id (λ r, Some (set_is_active true r)))
| change_remove :
    admin_change me user_id (remove_user user_id me) USER_DELETED
      (λ _, drop_row TUser user_id).

Definition audit_entry (me : User) (user_id : Z) (action : string) (key created : Z) : AuditLog :=
  {| al_id := key; al_tenant_id := u_tenant_id me; al_admin_id := Some (u_id me);
     al_action := action; al_target_user_id := Some user_id; al_created_at := created |}.

(** The change of a user of the administrator's tenant and a new audit entry. *)
Definition changed_and_audited (me : User) (user_id : Z) (action : string)
    (wr : User → write) (d0 d : tables) : Prop :=
  ∃ user d1 key created,
    users d0 !! user_id = Some user ∧ u_tenant_id user = u_tenant_id me ∧
    wr user d0 = Some d1 ∧ audit_logs d1 !! key = None ∧
    d = set_table TAuditLog (<[key := audit_entry me user_id action key created]> (audit_logs d1)) d1 ∧
    constraints d.

Section audited.
Context `{Crypto} (faults : bool) (me : User) (user_id : Z) (action : string).
Context (wr : User → write) (d0 : tables) (Hkeyed : keyed d0).

Definition J (d : tables) : Prop :=
  d = d0 ∨ changed_and_audited me user_id action wr d0 d.
Local Abbreviation seen p Q := (wpi faults (stored (λ d _ _, J d)) p (on_ok Q)).
Local Abbreviation done_in w := (changed_and_audited me user_id action wr d0 (w_db w)).

Lemma J_start w : w_db w = d0 → stored (λ d _ _, J d) w.
Proof. by left. Qed.
#[local] Hint Resolve J_start : core.

(** The second half of every endpoint. *)
Lemma commit_with_audit user w :
  users d0 !! user_id = Some user → u_tenant_id user = u_tenant_id me →
  w_db w = d0 → all_writes (w_session w) = [wr user] →
  seen (commit_user_mutation_with_audit (u_tenant_id me) (u_id me) action user_id)
    (λ _ w', done_in w') w.
Proof.
  intros Hu Ht Hd Hs. unfold commit_user_mutation_with_audit, create_audit_log.
  do 2 apply wpi_bind_ok. apply wpi_add; [auto|]. intros key created w1 Hfresh (Hd1 & _ & _ & Hs1) _.
  apply wpi_bind_ok, wpi_flush; [apply J_start; congruence|]. intros d w2 _ Hd2 _ _ Hs2.
  apply wpi_ret; [apply J_start; congruence|].
  assert (all_writes (w_session w2) =
    [wr user; insert_row TAuditLog key (audit_entry me user_id action key created)]) as Hw2.
  { rewrite Hs2. unfold all_writes in *. rewrite Hs1. cbn. rewrite app_nil_r, app_assoc, Hs. done. }
  apply wpi_bind_ok, wpi_commit; [apply J_start; congruence|]. intros d' Hflush.
  assert (changed_and_audited me user_id action wr d0 d') as Hdone.
  { unfold flush_result in Hflush. rewrite Hw2, Hd2, Hd1, Hd in Hflush. rewrite Hs, Hd in Hfresh.
    cbn in Hflush, Hfresh. destruct (wr user d0) as [d1|] eqn:Ew; [|done]. cbn in Hflush.
    case_decide; [|done]. injection Hflush as <-.
    exists user, d1, key, created. specialize (Hfresh d1 eq_refl). by split_and!. }
  intros w3 Hd3 _ _ _. assert (stored (λ d _ _, J d) w3) by (unfold stored; rewrite Hd3; by right).
  split; [done|]. apply wpi_quiet; [|done|intros a w4 Hd4 _ _; by rewrite Hd4, Hd3].
  unfold invalidate_users_list_cache, increment_cache_version, except_redis.
  apply keeps_bind; [|done].
  apply keeps_catch; [|intros e; by destruct (is_redis_error e)].
  apply keeps_bind; [by apply keeps_call|done].
Qed.

(** The user the endpoint loads. *)
Lemma load_user (Q : option User → world → Prop) w :
  w_db w = d0 → w_session w = empty_session →
  (∀ w1, w_db w1 = d0 → w_session w1 = empty_session → Q None w1) →
  (∀ user w1, users d0 !! user_id = Some user → u_id user = user_id →
     u_tenant_id user = u_tenant_id me → w_db w1 = d0 → w_session w1 = empty_session →
     Q (Some user) w1) →
  seen (get_user_by_id user_id (u_tenant_id me)) Q w.
Proof.
  intros Hd Hs Hnone Hsome. apply (wpi_first _ _ _ _ _ _ d0); [auto|by rewrite Hs, Hd|].
  intros w1 o Hadv Ho. pose proof (advance_db _ _ Hadv) as Hd1.
  pose proof (advance_session _ _ Hadv) as Hs1. rewrite Hd in Hd1. rewrite Hs in Hs1.
  destruct o as [user|]; [|by apply Hnone]. destruct Ho as [[k Hk] Hp].
  apply andb_prop in Hp as [Hi Ht]. apply Z.eqb_eq in Hi, Ht.
  destruct Hkeyed as (_ & Hu & _). pose proof (Hu _ _ Hk) as E. cbn in E, Hk.
  apply Hsome; [congruence|done..].
Qed.

(** Reading the row again, or dropping the result, does not matter. *)
Lemma commit_and_refresh user k w :
  users d0 !! user_id = Some user → u_tenant_id user = u_tenant_id me →
  w_db w = d0 → all_writes (w_session w) = [wr user] →
  seen (commit_user_mutation_with_audit (u_tenant_id me) (u_id me) action user_id ≫=
        λ _, db (Refresh TUser k)) (λ _ w', done_in w') w.
Proof.
  intros Hu Ht Hd Hs. apply wpi_bind_ok. eapply wpi_mono_ok; [|by eapply commit_with_audit].
  intros ? w1 HJ Hdone. apply wpi_quiet; [by apply keeps_call|done|].
  intros b w' -> _ _. exact Hdone.
Qed.

Lemma seen_ignore {A} (p : prog A) w :
  seen p (λ _ w', done_in w') w → seen (ignore p) (λ _ w', done_in w') w.
Proof. intros Hp. apply wpi_bind_ok. eapply wpi_mono_ok; [|exact Hp]. done. Qed.

(** The endpoints that load the user, change the row and flush. *)
Lemma load_change_commit {A} (load : prog (option User)) (f : User → prog A) w :
  seen load (λ o w1, match o with
    | None => w_db w1 = d0
    | Some user => ∃ u0, users d0 !! user_id = Some u0 ∧ u_tenant_id u0 = u_tenant_id me ∧
        w_db w1 = d0 ∧ all_writes (w_session w1) = [wr u0]
    end) w →
  (∀ user u0 w1, users d0 !! user_id = Some u0 → u_tenant_id u0 = u_tenant_id me →
     w_db w1 = d0 → all_writes (w_session w1) = [wr u0] →
     seen (f user) (λ _ w', done_in w') w1) →
  seen (load ≫= λ o, match o with None => Raise user_not_found | Some user => f user end)
    (λ _ w', done_in w') w.
Proof.
  intros Hload Hf. apply wpi_bind_ok. eapply wpi_mono_ok; [|exact Hload].
  intros [user|] w1 _; [|by intros Hd1; apply wpi_raise, J_start].
  intros (u0 & Hu & Ht & Hd1 & Hs1). by eapply Hf.
Qed.
End audited.

#[export] Hint Resolve J_start : app.

Section endpoints.
Context `{Crypto} (faults : bool) (me : User) (user_id : Z) (d0 : tables).
Context (Hkeyed : keyed d0).

Lemma one_write (wr : write) w1 w2 :
  w_session w1 = empty_session → pushed wr w1 w2 →
  w_db w2 = w_db w1 ∧ all_writes (w_session w2) = [wr].
Proof. intros Hs (Hd & _ & _ & Hs2). by rewrite Hs2, Hs. Qed.

(** [activate_user] and [deactivate_user]: a row change, flushed. *)
Lemma load_set_flush action (wr : User → User → User) w :
  let wr' := λ user, set_row TUser user_id (λ r, Some (wr user r)) in
  w_db w = d0 → w_session w = empty_session →
  wpi faults (stored (λ d _ _, J me user_id action wr' d0 d))
    (user ← get_user_by_id user_id (u_tenant_id me);
     match user with
     | None => Ret None
     | Some user => _ ← db (SetRow TUser (u_id user) (λ r, Some (wr user r)));
                    _ ← db Flush;
                    Ret (Some (wr user user))
     end)
    (on_ok (λ o w1, match o with
       | None => w_db w1 = d0
       | Some user => ∃ u0, users d0 !! user_id = Some u0 ∧ u_tenant_id u0 = u_tenant_id me ∧
           w_db w1 = d0 ∧ all_writes (w_session w1) = [wr' u0]
       end)) w.
Proof.
  intros wr' Hd Hs. apply wpi_bind_ok, load_user; [done..| |].
  - intros w1 Hd1 _. by apply wpi_ret; [apply J_start|].
  - intros user w1 Hu Hid Ht Hd1 Hs1. rewrite Hid.
    apply wpi_bind_ok, wpi_set_row; [by apply J_start|].
    intros w2 [Hd2 Hw2]%one_write; [|done].
    apply wpi_bind_ok, wpi_flush; [apply J_start; congruence|]. intros d w3 _ Hd3 _ _ Hs3.
    apply wpi_ret; [apply J_start; congruence|].
    exists user. split_and!; [done..|congruence|]. by rewrite Hs3, Hw2.
Qed.

(** Every change is flushed once, then committed with its audit entry. *)
Lemma change_seen p action wr w :
  admin_change me user_id p action wr → w_db w = d0 → w_session w = empty_session →
  wpi faults (stored (λ d _ _, J me user_id action wr d0 d)) p
    (on_ok (λ _ w', changed_and_audited me user_id action wr d0 (w_db w'))) w.
Proof.
  intros Hch Hd Hs. destruct Hch as [upd Hperm| | |].
  - apply seen_ignore. unfold patch_user. apply wpi_bind_ok, load_user; [done..| |].
    + intros w1 Hd1 _. by apply wpi_raise, J_start.
    + intros user w1 Hu Hid Ht Hd1 Hs1. case_match; [by apply wpi_raise, J_start|].
      rewrite Hperm. apply wpi_bind_ok. unfold update_user. rewrite Hid.
      apply wpi_bind_ok, wpi_set_row; [by apply J_start|].
      intros w2 [Hd2 Hw2]%one_write; [|done].
      apply wpi_bind_ok, wpi_flush; [apply J_start; congruence|]. intros d w3 _ Hd3 _ _ Hs3.
      apply wpi_of_result; [apply J_start; congruence|].
      destruct (apply_update user upd user) as [u'|] eqn:Eu; [|done]. cbn [on_ok].
      eapply (commit_and_refresh _ _ _ _ (λ user, set_row TUser user_id (apply_update user upd)));
        [done..|congruence|]. by rewrite Hs3, Hw2.
  - apply seen_ignore, load_change_commit; [by apply load_set_flush|].
    intros. by eapply commit_and_refresh.
  - apply seen_ignore, load_change_commit; [by apply (load_set_flush _ (λ _, set_is_active true))|].
    intros. by eapply commit_and_refresh.
  - unfold remove_user, delete_user. apply wpi_bind_ok, load_user; [done..| |].
    + intros w1 Hd1 _. by apply wpi_raise, J_start.
    + intros user w1 Hu Hid Ht Hd1 Hs1. rewrite Hid. apply wpi_bind_ok.
      apply wpi_bind_ok, wpi_delete_row; [by apply J_start|].
      intros w2 [Hd2 Hw2]%one_write; [|done].
      apply wpi_flush; [apply J_start; congruence|]. intros d w3 _ Hd3 _ _ Hs3.
      eapply (commit_with_audit _ _ _ _ (λ _, drop_row TUser user_id)); [done..|congruence|].
      by rewrite Hs3, Hw2.
Qed.
End endpoints.

(** C17: an administrator's change of a user and its audit log entry are stored
    together or not at all.  Whatever command of Redis or the database fails, and
    wherever the process stops, the committed tables are, at every moment, the
    ones before the request or those with the change of a user of the
    administrator's own tenant and with a new entry that names the administrator,
    the action and the user; and a request that succeeds has made the change. *)
Theorem admin_change_audited `{ServicesSpec faults W} (me : User) (user_id : Z)
    (p : prog unit) (action : string) (wr : User → write) (w : W) :
  let d0 := w_db (view w) in
  admin_change me user_id p action wr → keyed d0 → w_session (view w) = empty_session →
  Forall (λ w', w_db (view w') = d0 ∨
                changed_and_audited me user_id action wr d0 (w_db (view w')))
    (trace (in_session p) w) ∧
  (fst (run (in_session p) w) = Ok tt →
   changed_and_audited me user_id action wr d0 (w_db (view (snd (run (in_session p) w))))).
Proof.
  intros d0 Hch Hk Hs.
  destruct (wpi_trace (stored (λ d _ _, J me user_id action wr d0 d)) (in_session p)
    (on_ok (λ _ w', changed_and_audited me user_id action wr d0 (w_db w'))) w) as [Hall Hend].
  - apply wpi_in_session. eapply wpi_mono_ok; [|by apply change_seen].
    intros [] w' _ Hdone w'' -> _ _. exact Hdone.
  - split; [exact Hall|]. intros Hr. by rewrite Hr in Hend.
Qed.

(** The administrator of the default tenant deactivates a user. *)
Definition an_admin : User :=
  {| u_id := 1; u_tenant_id := 1; u_email := "a@x.org"; u_hashed_password := "";
     u_is_active := true; u_role := "admin"; u_token_version := 0 |}.
Definition a_user : User :=
  {| u_id := 2; u_tenant_id := 1; u_email := "u@x.org"; u_hashed_password := "";
     u_is_active := true; u_role := "user"; u_token_version := 3 |}.
Definition a_tenant : Tenant :=
  {| t_id := 1; t_slug := "default"; t_name := "D"; t_is_active := true |}.
Definition two_users : world :=
  with_db (set_table TUser {[1 := an_admin; 2 := a_user]}
    (set_table TTenant {[1 := a_tenant]} empty_tables)) empty_session (world_at 1000).

Lemma admin_change_audited_witness :
  let w := snd (run (in_session (ignore (deactivate_user_endpoint 2 an_admin))) two_users) in
  changed_and_audited an_admin 2 USER_DEACTIVATED
    (λ user, set_row TUser 2 (λ r, Some (deactivated user r))) (w_db two_users) (w_db w) ∧
  users (w_db w) !! 2 = Some (deactivated a_user a_user).
Proof.
  split.
  - refine (proj2 (admin_change_audited (faults:=false) (W:=world) an_admin 2
      (ignore (deactivate_user_endpoint 2 an_admin)) USER_DEACTIVATED _ two_users _ _ _) _).
    + apply change_deactivate.
    + apply (bool_decide_unpack _). vm_compute. exact I.
    + reflexivity.
    + vm_compute. reflexivity.
  - vm_compute. reflexivity.
Defined.
