(* ===== verification/CacheSafety.v ===== *)
(** * The cached list of users

    The listing of [get_users] is cached under a key with the version of the
    tenant's lists, and every change of a user counts the version up after its
    commit.  Between requests the cache only holds pages of the tables as they
    are ([cache_honest]): so the endpoint answers as the database would.  Last, the
    deletion of the keys of a pattern. *)

From Stdlib Require Import ZArith Ascii String Lia.
From stdpp Require Import base tactics option list gmap strings sorting fin_maps.
From S2P Require Import Prelude PyText Json Errors Config Models Permissions Services.
From S2P Require Import Programs DbFacts Reference RedisFacts Tenants Cache Cursor Users UserMutations.
Local Open Scope string_scope.
Local Open Scope list_scope.
Local Open Scope Z_scope.

(** ** What the endpoint answers *)

(** The items of the answer, [UserRead] objects as they are sent, and the cursor. *)
Abbreviation user_page := (list json * json)%type.

Section answers.
Context `{Crypto} `{SqlText}.

Definition page_skip (p : list_params) : option Z := if use_offset p then lp_skip p else None.

(** What the database alone answers: a page of the rows [d] has. *)
Definition query_answer (t : Z) (p : list_params) (d : tables) (r : result exn user_page) : Prop :=
  if use_offset p then
    ∃ us, select_spec (page_query t p (λ _, true) (Z.to_nat (opt_default 0 (lp_skip p)))) (rows TUser d) us ∧
          r = Ok (_serialize_user <$> us, JNull)
  else
    match cursor_filter p with
    | Err e => r = Err e
    | Ok extra =>
        ∃ us, select_spec (page_query t p extra 0) (rows TUser d) us ∧
              r = match _build_next_cursor us p with
                  | Ok next => Ok (_serialize_user <$> us, next)
                  | Err e => Err e
                  end
    end.

Definition page_json (pg : user_page) : json :=
  JObj [("items", JList pg.1); ("next_cursor", pg.2)].

(** The key of a page under a version. *)
Definition listing_key (t : Z) (p : list_params) (version : Z) : string :=
  (build_tenant_cache_prefix t ++ ":" ++ USERS_LIST_CACHE_NAMESPACE ++ ":v" ++
   str_of_int version ++ ":" ++ sha256_hex (dumps_sorted (cache_params p (page_skip p))))%string.

(** ** The invariant *)

Definition at_version (st : rstate) (t n : Z) : Prop :=
  st !! build_users_list_cache_version_key t = Some (REntry (RStr (str_of_int n)) None) ∨
  n = 0 ∧ st !! build_users_list_cache_version_key t = None.

(** No entry is of a version to come, and those of the present one hold what the
    database answers. *)
Definition tenant_honest (bound : Z) (d : tables) (st : rstate) (t : Z) : Prop :=
  ∃ n, 0 <= n <= bound ∧ at_version st t n ∧
    ∀ p m e, n <= m → st !! listing_key t p m = Some e →
      m = n ∧ ∃ pg ex, e = REntry (RStr (dumps (page_json pg))) ex ∧ query_answer t p d (Ok pg).

Definition cache_honest (bound : Z) (w : world) : Prop :=
  ∀ t, tenant_honest bound (w_db w) (w_redis w) t.

(** ** Keys *)

Lemma str_of_int_colon z : ":"%char ∉ chars (str_of_int z).
Proof.
  rewrite chars_str_of_int. intros Hin.
  assert (∀ d, ":"%char ∉ print_uint d) as Hu.
  { intros d Hd. pose proof (print_uint_digits d) as Hdig.
    rewrite forallb_forall in Hdig. apply list_elem_of_In in Hd. by specialize (Hdig _ Hd). }
  unfold print_int in Hin. repeat case_match; try (by eapply Hu).
  apply elem_of_cons in Hin as [?|Hin]; [done|]. by eapply Hu.
Qed.

(** A text up to its first colon. *)
Lemma split_at_colon (a b x y : list ascii) :
  ":"%char ∉ a → ":"%char ∉ b → a ++ ":"%char :: x = b ++ ":"%char :: y → a = b ∧ x = y.
Proof.
  revert b. induction a as [|c a IH]; intros [|c' b] Ha Hb E; cbn in E.
  - by injection E.
  - injection E as <- _. destruct Hb. by left.
  - injection E as -> _. destruct Ha. by left.
  - injection E as -> E. apply not_elem_of_cons in Ha as [_ Ha], Hb as [_ Hb].
    by destruct (IH b Ha Hb E) as [-> ->].
Qed.

(** The parts of a key come back from it. *)
Lemma listing_key_chars t p v :
  chars (listing_key t p v) =
  chars "tenant" ++ ":"%char :: chars (str_of_int t) ++ ":"%char ::
  chars "users" ++ ":"%char :: chars "list" ++ ":"%char :: chars "v1" ++ ":"%char ::
  ("v"%char :: chars (str_of_int v)) ++ ":"%char ::
  chars (sha256_hex (dumps_sorted (cache_params p (page_skip p)))).
Proof.
  unfold listing_key, build_tenant_cache_prefix, USERS_LIST_CACHE_NAMESPACE.
  rewrite !chars_app. cbn -[str_of_int dumps_sorted cache_params]. done.
Qed.

Lemma version_key_chars t :
  chars (build_users_list_cache_version_key t) =
  chars "tenant" ++ ":"%char :: chars (str_of_int t) ++ ":"%char ::
  chars "users" ++ ":"%char :: chars "list" ++ ":"%char :: chars "version".
Proof.
  unfold build_users_list_cache_version_key, build_tenant_cache_prefix, USERS_LIST_CACHE_VERSION_SUFFIX.
  rewrite !chars_app. cbn -[str_of_int]. done.
Qed.

Ltac next_part H :=
  apply split_at_colon in H as [?Hpart H];
  [|by first [apply str_of_int_colon
             |apply not_elem_of_cons; split; [done|apply str_of_int_colon]
             |apply (bool_decide_unpack _); vm_compute]..].

Lemma version_key_inj t t' :
  build_users_list_cache_version_key t = build_users_list_cache_version_key t' → t = t'.
Proof.
  intros E%(f_equal chars). rewrite !version_key_chars in E. next_part E. next_part E.
  by apply str_of_int_inj, chars_inj.
Qed.

Lemma version_key_listing_key t t' p v :
  build_users_list_cache_version_key t ≠ listing_key t' p v.
Proof.
  intros E%(f_equal chars). rewrite version_key_chars, listing_key_chars in E.
  do 4 next_part E. done.
Qed.

(** The parameters a page depends on. *)
Definition normal (p : list_params) : list_params :=
  {| lp_limit := lp_limit p; lp_sort_by := lp_sort_by p; lp_sort_order := lp_sort_order p;
     lp_role := lp_role p; lp_is_active := lp_is_active p; lp_search := lp_search p;
     lp_search_mode := lp_search_mode p; lp_cursor := lp_cursor p; lp_skip := page_skip p |}.

Lemma query_answer_normal p t d r : query_answer t p d r ↔ query_answer t (normal p) d r.
Proof.
  assert (use_offset (normal p) = use_offset p) as Hu.
  { unfold use_offset, normal, page_skip, use_offset. destruct p as [????????[k|]]; cbn; [|done].
    destruct (0 <? k) eqn:E; [by rewrite E|done]. }
  unfold query_answer. rewrite Hu. destruct (use_offset p) eqn:E; [|done].
  unfold normal, page_skip. by rewrite E.
Qed.

Lemma opt_json_inj {A} (f : A → json) (a b : option A) :
  (∀ x y, f x = f y → x = y) → (∀ x, f x ≠ JNull) → opt_json f a = opt_json f b → a = b.
Proof.
  intros Hf Hn. destruct a as [a|], b as [b|]; cbn; intros E; [f_equal; auto|by destruct (Hn a)|
    by destruct (Hn b)|done].
Qed.

Lemma cache_params_wf p k : json_wf (cache_params p k).
Proof.
  apply json_wfb_spec.
  destruct p as [lim sb so [r|] [b|] [q|] m [c|] sk], k as [k|]; vm_compute; reflexivity.
Qed.

Lemma sort_cache_params p k :
  sort_keys (cache_params p k) =
  JObj [("cursor", opt_json JStr (lp_cursor p)); ("is_active", opt_json JBool (lp_is_active p));
        ("limit", JInt (lp_limit p)); ("role", opt_json JStr (lp_role p));
        ("search", opt_json JStr (lp_search p)); ("search_mode", JStr (lp_search_mode p));
        ("skip", opt_json JInt k); ("sort_by", JStr (lp_sort_by p));
        ("sort_order", JStr (lp_sort_order p))].
Proof.
  destruct p as [lim sb so [r|] [b|] [q|] m [c|] sk], k as [k|]; vm_compute; reflexivity.
Qed.

Lemma loads_dumps_sorted v : json_wf v → loads (dumps_sorted v) = Some (sort_keys v).
Proof.
  intros Hwf. unfold dumps_sorted, loads. rewrite chars_text.
  by apply (loads_print _ default_separators_ok), sort_keys_wf.
Qed.

Lemma cache_text_inj p k p' k' :
  dumps_sorted (cache_params p k) = dumps_sorted (cache_params p' k') →
  cache_params p k = cache_params p' k'.
Proof.
  intros E%(f_equal loads). rewrite !loads_dumps_sorted in E by apply cache_params_wf.
  rewrite !sort_cache_params in E. injection E as E1 E2 E3 E4 E5 E6 E7 E8 E9.
  unfold cache_params. by rewrite E1, E2, E3, E4, E5, E6, E7, E8, E9.
Qed.

Lemma listing_key_inj t p v t' p' v' :
  (∀ a b, sha256_hex a = sha256_hex b → a = b) →
  listing_key t p v = listing_key t' p' v' →
  t = t' ∧ v = v' ∧ cache_params p (page_skip p) = cache_params p' (page_skip p').
Proof.
  intros Hsha E%(f_equal chars). rewrite !listing_key_chars in E.
  next_part E. next_part E. next_part E. next_part E. next_part E. next_part E.
  split_and!.
  - by apply str_of_int_inj, chars_inj.
  - injection Hpart4 as Hv. by apply str_of_int_inj, chars_inj.
  - by apply cache_text_inj, Hsha, chars_inj.
Qed.

(** Parameters with the same text ask for the same page. *)
Lemma query_answer_text p p' t d r :
  cache_params p (page_skip p) = cache_params p' (page_skip p') →
  query_answer t p d r → query_answer t p' d r.
Proof.
  intros E Hr. apply (query_answer_normal p'). apply (query_answer_normal p) in Hr.
  assert (normal p = normal p') as <-; [|done].
  unfold normal. injection E as -> -> -> Er Ea Es -> Ec Ek.
  apply opt_json_inj in Er, Ea, Es, Ec, Ek; try (by intros ?? [= ->]); try done. congruence.
Qed.
End answers.

(** ** Listing *)

Section listing.
Context `{Crypto} `{SqlText} (s : Settings).
Hypothesis sha256_inj : ∀ a b, sha256_hex a = sha256_hex b → a = b.

(** What is sent of the result of [get_users] and of [query_users]. *)
Definition sent (r : result exn UserListResult) : result exn user_page :=
  match r with Ok res => Ok (user_list_items res, r_next_cursor res) | Err e => Err e end.
Definition sent_rows (r : result exn (list User * json)) : result exn user_page :=
  match r with Ok (us, next) => Ok (_serialize_user <$> us, next) | Err e => Err e end.

Lemma serialized_wf us : Forall json_wf (_serialize_user <$> us).
Proof.
  apply Forall_fmap, Forall_forall. intros u _. apply json_wfb_spec. destruct u. vm_compute. reflexivity.
Qed.

Lemma page_json_wf items next : Forall json_wf items → json_wf next → json_wf (page_json (items, next)).
Proof.
  intros Hi Hn. apply json_wf_obj. split; [by apply (bool_decide_unpack _); vm_compute|].
  repeat (apply Forall_cons; split; [|]); [by apply json_wf_list|done|apply Forall_nil_2].
Qed.

(** A page can be stored and read back. *)
Lemma answer_wf t p d pg : query_answer t p d (Ok pg) → json_wf (page_json pg).
Proof.
  assert (∀ us n, _build_next_cursor us p = Ok n → json_wf n) as Hn.
  { intros us n. unfold _build_next_cursor. repeat case_match; by intros [= <-]. }
  unfold query_answer. repeat case_match; try done.
  - intros (us & _ & [= ->]). by apply page_json_wf; [apply serialized_wf|].
  - intros (us & _ & Hr). destruct (_build_next_cursor us p) eqn:E; [|done]. injection Hr as ->.
    apply page_json_wf; [apply serialized_wf|by eapply Hn].
Qed.

Lemma cached_page_json us next : cached_page us next = page_json (_serialize_user <$> us, next).
Proof. reflexivity. Qed.

Lemma of_cached_page pg : of_cached (page_json pg) = Ok {| r_items := inr pg.1; r_next_cursor := pg.2 |}.
Proof. destruct pg. reflexivity. Qed.

(** The page as the database answers it. *)
Lemma wp_query t p Q w :
  w_session w = empty_session →
  (∀ r w1, advance w w1 → query_answer t p (w_db w) (sent_rows r) → Q r w1) →
  wp false (query_users t p) Q w.
Proof.
  intros Hs HQ. unfold query_users, query_answer in *.
  assert (∀ q (Q' : result exn (list User) → world → Prop),
    (∀ us w1, advance w w1 → select_spec q (rows TUser (w_db w)) us → Q' (Ok us) w1) →
    wp false (db (Select TUser q)) Q' w) as Hsel.
  { intros q Q' HQ'. apply wp_db. intros w1 r w' Hadv [-> Hc].
    rewrite (advance_db _ _ Hadv), (advance_session _ _ Hadv), Hs in Hc. cbn in Hc.
    destruct Hc as (us & Hus & ->). by apply HQ'. }
  destruct (use_offset p).
  - apply wp_bind, Hsel. intros us w1 Hadv Hus. cbn [wp]. apply HQ; [done|]. by exists us.
  - apply wp_bind, wp_of_result. destruct (cursor_filter p) as [extra|e]; [|by apply HQ].
    apply wp_bind, Hsel. intros us w1 Hadv Hus. apply wp_bind, wp_of_result.
    destruct (_build_next_cursor us p) as [n|e] eqn:E; cbn [wp]; apply HQ; try done;
      exists us; by rewrite E.
Qed.

(** *** Redis *)

Lemma same_redis w w1 : advance w w1 → with_redis (w_redis w) w1 = w1.
Proof. intros Hadv. rewrite <- (advance_redis _ _ Hadv). by destruct w1. Qed.

Lemma wp_read {B} (c : redis_cmd B) Q w :
  (∀ now, (redis_exec now c (w_redis w)).2 = w_redis w) →
  (∀ w1, advance w w1 → Q (redis_exec (w_clock w1) c (w_redis w)).1 w1) →
  wp false (redis c) Q w.
Proof.
  intros Hc HQ. apply wp_redis; [done|]. intros w1 Hadv. specialize (Hc (w_clock w1)).
  specialize (HQ w1 Hadv). destruct (redis_exec _ _ _) as [r st]. cbn in *. subst st.
  by rewrite same_redis.
Qed.

Lemma get_reads now k st : (redis_exec now (GET k) st).2 = st.
Proof. cbn. by destruct (as_str now st k). Qed.

Lemma wp_version t n Q w :
  at_version (w_redis w) t n → (∀ w1, advance w w1 → Q (Ok n) w1) →
  wp false (get_cache_version (build_users_list_cache_version_key t)) Q w.
Proof.
  intros Hn HQ. apply wp_bind, wp_catch, wp_bind, wp_read; [by intros; apply get_reads|].
  intros w1 Hadv. cbn [redis_exec]. unfold as_str, live.
  destruct Hn as [->|[-> ->]]; cbn [re_expires fst snd wp mbind prog_bind bind fmap option_fmap option_map];
    [rewrite int_of_str_of_int|]; cbn [wp]; by apply HQ.
Qed.

(** Reading a key whose entries are pages. *)
Lemma wp_cached key t p Q w :
  (∀ e, w_redis w !! key = Some e →
     ∃ pg ex, e = REntry (RStr (dumps (page_json pg))) ex ∧ query_answer t p (w_db w) (Ok pg)) →
  (∀ w1, advance w w1 → Q (Ok None) w1) →
  (∀ pg w1, advance w w1 → query_answer t p (w_db w) (Ok pg) → Q (Ok (Some (page_json pg))) w1) →
  wp false (get_json_cache key) Q w.
Proof.
  intros Hkey Hnone Hsome. apply wp_bind, wp_catch, wp_bind, wp_read; [by intros; apply get_reads|].
  intros w1 Hadv. cbn [redis_exec]. unfold as_str, live.
  destruct (w_redis w !! key) as [e|] eqn:E; [|cbn; by apply Hnone].
  destruct (Hkey e eq_refl) as (pg & ex & -> & Hpg). cbn [re_expires].
  assert (loads (dumps (page_json pg)) = Some (page_json pg)) as Hl by by eapply loads_dumps, answer_wf.
  destruct ex as [T|]; [destruct (T <=? _); [cbn; by apply Hnone|]|];
    cbn [fst wp mbind prog_bind bind fmap option_fmap option_map]; rewrite Hl; cbn; by apply Hsome.
Qed.

(** Storing a page: the entry is written, or the error is swallowed. *)
Lemma wp_store key value ttl Q w :
  (∀ st w1, advance w w1 →
     st = w_redis w ∨ (∃ ex, st = <[key := REntry (RStr (dumps value)) ex]> (w_redis w)) →
     Q (Ok tt) (with_redis st w1)) →
  wp false (set_json_cache key value ttl) Q w.
Proof.
  intros HQ. apply wp_catch, wp_bind, wp_redis; [done|]. intros w1 Hadv. cbn [redis_exec].
  destruct (ttl <=? 0); cbn [andb wp is_redis_error]; apply HQ; try done; [by left|right; by eexists].
Qed.

(** *** The invariant *)

Lemma honest_same B w w' :
  w_db w' = w_db w → w_redis w' = w_redis w → cache_honest B w → cache_honest B w'.
Proof. unfold cache_honest. by intros -> ->. Qed.

Lemma honest_advance B w w1 : advance w w1 → cache_honest B w → cache_honest B w1.
Proof. intros Hadv. apply honest_same; [by apply advance_db|by apply advance_redis]. Qed.

Lemma at_version_unique st t n m : at_version st t n → at_version st t m → n = m.
Proof.
  intros [E|[-> E]] [E'|[-> E']]; rewrite E in E'; try done. injection E' as E'%str_of_int_inj. done.
Qed.

Lemma at_version_other st t n k e :
  k ≠ build_users_list_cache_version_key t → at_version st t n → at_version (<[k := e]> st) t n.
Proof. intros Hk. unfold at_version. by rewrite lookup_insert_ne. Qed.

(** A page of the tables may be stored under the present version. *)
Lemma honest_store B w t p n pg ex :
  cache_honest B w → at_version (w_redis w) t n → query_answer t p (w_db w) (Ok pg) →
  cache_honest B (with_redis (<[listing_key t p n := REntry (RStr (dumps (page_json pg))) ex]> (w_redis w)) w).
Proof.
  intros Hw Hn Hpg t'. destruct (Hw t') as (n' & Hb & Hn' & Hent). exists n'. split; [done|]. cbn [w_redis w_db with_redis]. split.
  { apply at_version_other; [|done]. intros E. by eapply version_key_listing_key. }
  intros p' m e Hm. destruct (decide (listing_key t p n = listing_key t' p' m)) as [E|Hne].
  - rewrite <- E, lookup_insert_eq. intros [= <-].
    apply listing_key_inj in E as (<- & <- & E); [|done].
    split; [by eapply at_version_unique|]. exists pg, ex. split; [done|]. by eapply query_answer_text.
  - rewrite lookup_insert_ne by done. by apply Hent.
Qed.

(** Without a cached page: ask the database, and keep the answer. *)
Lemma wp_missed B t p n Q w1 w2 :
  cache_honest B w1 → at_version (w_redis w1) t n → w_session w1 = empty_session →
  (∀ r w', cache_honest B w' → w_db w' = w_db w1 → w_session w' = empty_session →
     query_answer t p (w_db w1) (sent r) → Q r w') →
  advance w1 w2 →
  wp false
    ('(users, next_cursor) ← query_users t p;
     _ ← (if users_cache_enabled s
          then set_json_cache (listing_key t p n) (cached_page users next_cursor) (users_cache_ttl_seconds s)
          else Ret tt);
     Ret {| r_items := inl users; r_next_cursor := next_cursor |}) Q w2.
Proof.
  intros Hw1 Hn Hs1 HQ Hadv2. apply wp_bind, wp_query; [by rewrite (advance_session _ _ Hadv2)|].
  intros r w3 Hadv3 Hr. rewrite (advance_db _ _ Hadv2) in Hr.
  assert (advance w1 w3) as Hadv by (by etrans).
  destruct r as [[us next]|e]; [|apply HQ; [by eapply honest_advance|by apply advance_db|
    by rewrite (advance_session _ _ Hadv)|exact Hr]].
  assert (∀ w4, w_db w4 = w_db w1 → w_session w4 = empty_session → cache_honest B w4 →
    wp false (Ret {| r_items := inl us; r_next_cursor := next |}) Q w4) as Hend
    by (intros w4 Hd4 Hs4 Hw4; apply HQ; [exact Hw4|exact Hd4|exact Hs4|exact Hr]).
  apply wp_bind. destruct (users_cache_enabled s).
  - rewrite cached_page_json. apply wp_store. intros st w4 Hadv4 Hst. assert (advance w1 w4) as Hadv' by (by etrans).
    rewrite (advance_redis _ _ Hadv) in Hst.
    apply Hend; [by apply (advance_db _ _ Hadv')|by rewrite <- Hs1, <- (advance_session _ _ Hadv')|].
    eapply honest_advance in Hw1; [|exact Hadv'].
    destruct Hst as [->|[ex ->]]; [by eapply honest_same; [| |exact Hw1]; cbn; [|rewrite (advance_redis _ _ Hadv')]|].
    rewrite <- (advance_redis _ _ Hadv').
    apply (honest_store B w4 t p n (_serialize_user <$> us, next)); [done| |].
    + by rewrite (advance_redis _ _ Hadv').
    + by rewrite (advance_db _ _ Hadv').
  - apply Hend; [by apply advance_db|by rewrite (advance_session _ _ Hadv)|by eapply honest_advance].
Qed.

(** The endpoint answers as the database would, and leaves the cache honest. *)
Lemma wp_get_users B t p Q w :
  cache_honest B w → w_session w = empty_session →
  (∀ r w', cache_honest B w' → w_db w' = w_db w → w_session w' = empty_session →
     query_answer t p (w_db w) (sent r) → Q r w') →
  wp false (get_users s t p) Q w.
Proof.
  intros Hw Hs HQ. destruct (Hw t) as (n & Hb & Hn & Hent). unfold get_users, build_users_list_cache_key.
  apply wp_bind, wp_bind, (wp_version _ n); [done|]. intros w1 Hadv1. cbn [wp mbind prog_bind bind].
  change (wp false (cached_users ← (if users_cache_enabled s then get_json_cache (listing_key t p n) else Ret None);
    match cached_users with
    | Some cached => of_result (of_cached cached)
    | None =>
        '(users, next_cursor) ← query_users t p;
        _ ← (if users_cache_enabled s
             then set_json_cache (listing_key t p n) (cached_page users next_cursor) (users_cache_ttl_seconds s)
             else Ret tt);
        Ret {| r_items := inl users; r_next_cursor := next_cursor |}
    end) Q w1).
  pose proof (honest_advance _ _ _ Hadv1 Hw) as Hw1.
  assert (w_db w1 = w_db w) as Hd1 by by apply advance_db.
  assert (w_session w1 = empty_session) as Hs1 by by rewrite (advance_session _ _ Hadv1).
  rewrite <- (advance_redis _ _ Hadv1) in Hn, Hent. rewrite <- Hd1 in Hent, HQ. clear Hw Hs Hd1.
  pose proof (λ w2, wp_missed B t p n Q w1 w2 Hw1 Hn Hs1 HQ) as Hmiss.
  apply wp_bind. destruct (users_cache_enabled s); [|by apply Hmiss].
  apply (wp_cached _ t p).
  - intros e He. by destruct (Hent p n e ltac:(lia) He) as [_ ?].
  - intros w2 Hadv2. by apply Hmiss.
  - intros pg w2 Hadv2 Hpg. rewrite of_cached_page. apply HQ.
    + by eapply honest_advance.
    + by apply advance_db.
    + by rewrite (advance_session _ _ Hadv2).
    + by destruct pg.
Qed.
End listing.

(** ** Changes *)

Definition users_keyed (d : tables) : Prop := map_Forall (λ k u, u_id u = k) (users d).

(** The users of the other tenants are the same. *)
Definition same_elsewhere (t : Z) (d0 d : tables) : Prop :=
  ∀ k u, u_tenant_id u ≠ t → users d !! k = Some u ↔ users d0 !! k = Some u.

Lemma filter_map_to_list {A} (f : A → bool) (m : gmap Z A) :
  filter (λ r, f r = true) (snd <$> map_to_list m) ≡ₚ
  snd <$> map_to_list (filter (λ kv, f kv.2 = true) m).
Proof.
  induction m as [|k r m Hk IH] using map_ind; [done|].
  rewrite map_to_list_insert by done. cbn [fmap list_fmap snd]. rewrite filter_cons.
  case_decide as Hf.
  - rewrite map_filter_insert_True by done. rewrite map_to_list_insert, IH; [done|].
    by apply map_lookup_filter_None; left.
  - rewrite map_filter_insert_False, delete_id by done. exact IH.
Qed.

(** A page of a tenant does not depend on the users of the others. *)
Lemma select_elsewhere `{SqlText} t t0 d0 d p extra skip us :
  same_elsewhere t0 d0 d → t ≠ t0 →
  select_spec (page_query t p extra skip) (rows TUser d0) us →
  select_spec (page_query t p extra skip) (rows TUser d) us.
Proof.
  intros Hd Ht (l & Hl & Hrest). exists l. split; [|exact Hrest]. rewrite Hl. unfold rows. cbn [get_table].
  rewrite !filter_map_to_list.
  match goal with |- (_ <$> map_to_list ?a) ≡ₚ (_ <$> map_to_list ?b) => assert (a = b) as ->; [|done] end.
  apply map_eq. intros k. apply option_eq. intros u.
  rewrite !map_lookup_filter_Some. cbn [snd].
  split; intros [Hk Hf]; (split; [|exact Hf]); apply (Hd k u); try done;
    cbn [page_query q_where] in Hf; unfold list_filter in Hf; bool_to_prop; congruence.
Qed.

Lemma answer_elsewhere `{Crypto} `{SqlText} t t0 d0 d p r :
  same_elsewhere t0 d0 d → t ≠ t0 → query_answer t p d0 r → query_answer t p d r.
Proof.
  intros Hd Ht. unfold query_answer. repeat case_match; [|  |done];
    intros (us & Hus & Hr); exists us; (split; [by eapply select_elsewhere|exact Hr]).
Qed.

Section changes.
Context `{Crypto} `{SqlText}.
Variables (B t : Z) (d0 : tables) (st0 : rstate).
Hypothesis Hhonest : ∀ t, tenant_honest B d0 st0 t.
Hypothesis Hkeyed : users_keyed d0.

(** The tables after a change of a user of the tenant. *)
Definition good (d : tables) : Prop := users_keyed d ∧ same_elsewhere t d0 d.

(** A write of the request. *)
Definition local (wr : write) : Prop := ∀ d d', good d → wr d = Some d' → good d'.

(** Nothing is committed, and the session only holds such writes. *)
Definition held (w : world) : Prop :=
  w_redis w = st0 ∧ w_db w = d0 ∧ Forall local (all_writes (w_session w)).

Lemma good_start : good d0.
Proof. by split. Qed.

Lemma good_writes wrs d d' : Forall local wrs → good d → run_writes wrs d = Some d' → good d'.
Proof. apply writes_preserve. Qed.

(** ** The writes of the endpoints *)

Lemma local_users (wr : write) :
  (∀ d d', wr d = Some d' → users d' = users d) → local wr.
Proof.
  intros Hwr d d' [Hk Hs] E. apply Hwr in E. unfold good, users_keyed, same_elsewhere in *. by rewrite E.
Qed.

Lemma good_row d user k :
  users d0 !! k = Some user → u_tenant_id user = t → good d →
  ∀ r, users d !! k = Some r → u_tenant_id r = t ∧ u_id r = k.
Proof.
  intros Hu Ht [Hk Hs] r Hr. split; [|by apply (Hk _ _ Hr)].
  destruct (decide (u_tenant_id r = t)) as [|Hne]; [done|]. apply Hs in Hr; [|done]. congruence.
Qed.

Lemma local_set user k (f : User → option User) :
  users d0 !! k = Some user → u_tenant_id user = t →
  (∀ r r', f r = Some r' → u_id r' = u_id r ∧ u_tenant_id r' = u_tenant_id r) →
  local (set_row TUser k f).
Proof.
  intros Hu Ht Hf d d' Hd E. unfold set_row in E. cbn [get_table] in E.
  destruct (users d !! k) as [r|] eqn:Er; [|by injection E as <-].
  destruct (good_row _ _ _ Hu Ht Hd _ Er) as [Hrt Hrk]. cbn in E.
  destruct (f r) as [r'|] eqn:Ef; [|done]. injection E as <-. destruct (Hf _ _ Ef) as [Hi Htt].
  destruct Hd as [Hk Hs]. split.
  - unfold users_keyed. cbn. apply map_Forall_insert_2; [congruence|done].
  - intros k' u Hne. cbn. rewrite <- (Hs k' u Hne). destruct (decide (k = k')) as [<-|].
    + rewrite lookup_insert_eq, Er. split; intros [= <-]; congruence.
    + by rewrite lookup_insert_ne.
Qed.

Lemma local_drop user k :
  users d0 !! k = Some user → u_tenant_id user = t → local (drop_row TUser k).
Proof.
  intros Hu Ht d d' Hd [= <-]. pose proof (good_row _ _ _ Hu Ht Hd) as Hrow. destruct Hd as [Hk Hs].
  split.
  - unfold users_keyed. cbn. by apply map_Forall_delete.
  - intros k' u Hne. cbn. rewrite <- (Hs k' u Hne). destruct (decide (k = k')) as [<-|].
    + rewrite lookup_delete_eq. split; [done|]. intros Hr. by destruct (Hrow _ Hr) as [? _].
    + by rewrite lookup_delete_ne.
Qed.

Lemma local_audit key l : local (insert_row TAuditLog key l).
Proof. apply local_users. by intros d d' [= <-]. Qed.

(** ** Commands *)

Definition admissible {A} (c : db_cmd A) : Prop :=
  match c with
  | Flush => True
  | SetRow t key f => local (set_row t key f)
  | DeleteRow t key => local (drop_row t key)
  | Add t mk => ∀ key created, local (insert_row t key (mk key created))
  | _ => False
  end.

Lemma held_advance w w1 : advance w w1 → held w → held w1.
Proof.
  intros Hadv. unfold held. by rewrite (advance_redis _ _ Hadv), (advance_db _ _ Hadv),
    (advance_session _ _ Hadv).
Qed.

Lemma held_push wr w : local wr → held w → held (push wr w).
Proof.
  intros Hl (Hr & Hd & Hs). split_and!; [done..|]. cbn. unfold all_writes in *. cbn.
  rewrite app_assoc. apply Forall_app. split; [done|]. by apply Forall_singleton.
Qed.

Lemma wp_held {A} (c : db_cmd A) Q w :
  admissible c → held w → (∀ r w', held w' → Q r w') → wp false (db c) Q w.
Proof.
  intros Hc Hw HQ. apply wp_db. intros w1 r w' Hadv Hs. apply HQ.
  eapply held_advance in Hw; [|exact Hadv]. destruct c; cbn in Hc, Hs; try done.
  - destruct Hs as (key & created & _ & _ & _ & ->). by apply held_push.
  - destruct Hs as [_ ->]. by apply held_push.
  - destruct Hs as [_ ->]. by apply held_push.
  - destruct Hw as (Hr & Hd & Hw). destruct (flush_result w1); destruct Hs as [_ ->].
    + split_and!; [done..|]. cbn. unfold all_writes at 1. cbn. by rewrite app_nil_r.
    + split_and!; [done..|]. apply Forall_nil_2.
Qed.

(** The user the endpoint loads. *)
Lemma wp_load user_id Q w :
  held w → w_session w = empty_session →
  (∀ w1, held w1 → Q (Ok None) w1) →
  (∀ user w1, users d0 !! u_id user = Some user → u_tenant_id user = t → held w1 →
     w_session w1 = empty_session → Q (Ok (Some user)) w1) →
  wp false (get_user_by_id user_id t) Q w.
Proof.
  intros Hw Hs Hnone Hsome. pose proof Hw as (_ & Hd & _).
  apply (wp_first _ _ _ _ d0); [by rewrite Hs, Hd|].
  intros w1 o Hadv Ho. assert (held w1) as Hw1 by by eapply held_advance.
  destruct o as [user|]; [|by apply Hnone]. destruct Ho as [[k Hk] Hp].
  cbn in Hk, Hp. bool_to_prop. apply Hsome; [|done..|by rewrite (advance_session _ _ Hadv)].
  pose proof (Hkeyed _ _ Hk) as Ek. cbn in Ek. by rewrite Ek.
Qed.

(** ** What is left at the end *)

Definition settled (w : world) : Prop := cache_honest (B + 1) w ∧ users_keyed (w_db w).

Lemma held_settled w : held w → settled w.
Proof.
  intros (Hr & Hd & _). split; [|by rewrite Hd]. intros t'. rewrite Hr, Hd.
  destruct (Hhonest t') as (n & Hb & Hn). exists n. split; [lia|done].
Qed.

(** Committed, but not yet invalidated. *)
Definition committed (w : world) : Prop := w_redis w = st0 ∧ good (w_db w).

(** Counting the version up makes the cache honest again. *)
Hypothesis Hbound : B + 1 < 2 ^ 63.

Lemma committed_settled n w :
  0 <= n <= B → at_version st0 t n →
  (∀ p m e, n <= m → st0 !! listing_key t p m = Some e → m = n) → good (w_db w) →
  w_redis w = <[build_users_list_cache_version_key t := REntry (RStr (str_of_int (n + 1))) None]> st0 →
  settled w.
Proof.
  intros Hb Hn Hent [Hk Hs] Hr. split; [|exact Hk]. intros t'. rewrite Hr.
  destruct (decide (t = t')) as [<-|Hne].
  - exists (n + 1). split; [lia|]. split; [left; by rewrite lookup_insert_eq|].
    intros p m e Hm. rewrite lookup_insert_ne by apply version_key_listing_key.
    intros He. apply Hent in He; lia.
  - destruct (Hhonest t') as (n' & Hb' & Hn' & Hent'). exists n'. split; [lia|]. split.
    { apply at_version_other; [by intros E%version_key_inj|done]. }
    intros p m e Hm. rewrite lookup_insert_ne by apply version_key_listing_key. intros He.
    destruct (Hent' p m e Hm He) as (-> & pg & ex & -> & Hpg). split; [done|].
    exists pg, ex. split; [done|]. by eapply answer_elsewhere.
Qed.

Lemma incr_version now n : 0 <= n <= B → at_version st0 t n →
  redis_exec now (INCR (build_users_list_cache_version_key t)) st0 =
  (Ok (n + 1), <[build_users_list_cache_version_key t := REntry (RStr (str_of_int (n + 1))) None]> st0).
Proof.
  intros Hb Hn. unfold redis_exec, as_str, live. destruct Hn as [->|[-> ->]]; [|reflexivity].
  cbn [re_expires]. rewrite int_of_str_of_int, String.eqb_refl.
  rewrite (proj2 (Z.leb_le (- 2 ^ 63) n)) by lia. rewrite (proj2 (Z.ltb_lt (n + 1) (2 ^ 63))) by lia.
  reflexivity.
Qed.

Lemma wp_invalidate Q w :
  committed w → (∀ w', settled w' → Q (Ok tt) w') → wp false (invalidate_users_list_cache t) Q w.
Proof.
  intros [Hr Hd] HQ. destruct (Hhonest t) as (n & Hb & Hn & Hent).
  unfold invalidate_users_list_cache, increment_cache_version.
  apply wp_bind, wp_catch, wp_bind, wp_redis; [done|]. intros w1 Hadv. rewrite Hr, (incr_version _ n) by done.
  cbn [wp]. apply HQ. apply (committed_settled n); [done|done| | |reflexivity].
  - intros p m e Hm He. by destruct (Hent p m e Hm He).
  - change (good (w_db w1)). by rewrite (advance_db _ _ Hadv).
Qed.

Lemma settled_same w w' : w_db w' = w_db w → w_redis w' = w_redis w → settled w → settled w'.
Proof. intros Hd Hr [Hw Hk]. split; [by eapply honest_same|by rewrite Hd]. Qed.

Lemma settled_advance w w1 : advance w w1 → settled w → settled w1.
Proof. intros Hadv. apply settled_same; [by apply advance_db|by apply advance_redis]. Qed.

Lemma wp_refresh_settled k w :
  settled w → wp false (db (Refresh TUser k)) (λ _, settled) w.
Proof. intros Hw. apply wp_db. intros w1 r w' Hadv [-> _]. by eapply settled_advance. Qed.

(** A commit of the writes of the request. *)
Lemma wp_commit_held Q w :
  held w →
  (∀ w', held w' → Q (Err IntegrityError) w') →
  (∀ d w', run_writes (all_writes (w_session w)) d0 = Some d → committed w' → w_db w' = d →
     w_session w' = empty_session → Q (Ok tt) w') →
  wp false (db Commit) Q w.
Proof.
  intros Hw Herr Hok. apply wp_db. intros w1 r w' Hadv Hs.
  pose proof (held_advance _ _ Hadv Hw) as (Hr1 & Hd1 & _). destruct Hw as (Hr & Hd & Hws).
  cbn in Hs. rewrite (flush_result_advance _ _ Hadv) in Hs. unfold flush_result in Hs.
  rewrite Hd in Hs. destruct (run_writes _ d0) as [d|] eqn:E; cbn in Hs; [case_decide|]; destruct Hs as [-> ->].
  - apply (Hok d); [reflexivity| |reflexivity|reflexivity]. split; [exact Hr1|]. cbn.
    eapply good_writes; [exact Hws|exact good_start|exact E].
  - apply Herr. split_and!; [done..|apply Forall_nil_2].
  - apply Herr. split_and!; [done..|apply Forall_nil_2].
Qed.

(** The second half of the endpoints. *)
Lemma wp_commit_with_audit admin_id action user_id Q w :
  held w → (∀ r w', settled w' → Q r w') →
  wp false (commit_user_mutation_with_audit t admin_id action user_id) Q w.
Proof.
  intros Hw HQ. unfold commit_user_mutation_with_audit, create_audit_log.
  do 2 apply wp_bind. apply wp_held; [intros key created; apply local_audit|done|]. intros [l|e] w1 Hw1;
    [|by apply HQ, held_settled].
  apply wp_bind, wp_held; [done..|]. intros [[]|e] w2 Hw2; [|by apply HQ, held_settled].
  cbn [wp]. apply wp_bind, wp_commit_held; [done|by intros; apply HQ, held_settled|].
  intros d w3 _ Hc _ _. apply wp_invalidate; [done|]. intros w4. apply HQ.
Qed.

Definition ends {A} : result exn A → world → Prop := λ _ w, settled w.

Lemma wp_commit_and_refresh admin_id action user_id k w :
  held w →
  wp false (_ ← commit_user_mutation_with_audit t admin_id action user_id; db (Refresh TUser k)) ends w.
Proof.
  intros Hw. apply wp_bind, wp_commit_with_audit; [done|]. intros [[]|e] w1 Hw1; [|exact Hw1].
  by apply wp_refresh_settled.
Qed.

(** *** The endpoints *)

Lemma apply_update_row user upd r r' :
  apply_update user upd r = Some r' → u_id r' = u_id r ∧ u_tenant_id r' = u_tenant_id r.
Proof.
  unfold apply_update, set_field. destruct upd as [[[]|] [[]|] [[]|]]; cbn; try done;
    repeat case_match; intros [= <-]; done.
Qed.

Section endpoints.
Variables (me : User) (user_id : Z) (w : world).
Hypothesis Htenant : u_tenant_id me = t.
Hypothesis Hheld : held w.
Hypothesis Hsession : w_session w = empty_session.

(** A user changing the own row. *)
Lemma wp_update_self user upd w1 :
  users d0 !! u_id user = Some user → u_tenant_id user = t → held w1 → w_session w1 = empty_session →
  wp false (update_user user upd true) ends w1.
Proof.
  intros Hu Ht Hw1 Hs1. unfold update_user. apply wp_bind, wp_db. intros w2 r w' Hadv [-> ->].
  set (wr := set_row TUser (u_id user) (apply_update user upd)).
  assert (held (push wr w2)) as Hw2.
  { apply held_push; [|by eapply held_advance].
    apply (local_set user); [done..|]. intros r r'. apply apply_update_row. }
  apply wp_bind, wp_commit_held; [exact Hw2|intros w3; apply held_settled|].
  intros d w3 Hrun Hc Hd3 Hs3. unfold all_writes in Hrun. cbn in Hrun.
  rewrite (advance_session _ _ Hadv), Hs1 in Hrun. cbn in Hrun. unfold wr, set_row in Hrun. cbn in Hrun.
  rewrite Hu in Hrun. cbn in Hrun. destruct (apply_update user upd user) as [user'|] eqn:E; [|done].
  injection Hrun as Hrun. apply apply_update_row in E as [_ Ht'].
  apply wp_bind, (wp_refresh _ _ _ _ d user'); [by rewrite Hs3, Hd3| |].
  { rewrite <- Hrun. cbn. by rewrite lookup_insert_eq. }
  intros w4 Hadv4. apply wp_bind. rewrite Ht', Ht. apply wp_invalidate; [|by intros].
  destruct Hc as [Hr Hg]. split; [by rewrite (advance_redis _ _ Hadv4)|by rewrite (advance_db _ _ Hadv4)].
Qed.

Lemma wp_patch upd : wp false (patch_user user_id upd me) ends w.
Proof.
  unfold patch_user. rewrite Htenant. apply wp_bind, wp_load; [done..| |].
  - intros w1 Hw1. by apply held_settled.
  - intros user w1 Hu Ht Hw1 Hs1. case_match; [by apply held_settled|].
    case_match; [|by apply wp_update_self].
    apply wp_bind. unfold update_user. apply wp_bind, wp_held; [|done|].
    { apply (local_set user); [done..|]. intros r r'. apply apply_update_row. }
    intros [[]|e] w2 Hw2; [|by apply held_settled].
    apply wp_bind, wp_held; [done..|]. intros [[]|e] w3 Hw3; [|by apply held_settled].
    apply wp_of_result. destruct (result_of_option _ _); [|by apply held_settled].
    by apply wp_commit_and_refresh.
Qed.

Lemma wp_remove_user : wp false (remove_user user_id me) ends w.
Proof.
  unfold remove_user, delete_user. rewrite Htenant. apply wp_bind, wp_load; [done..| |].
  - intros w1 Hw1. by apply held_settled.
  - intros user w1 Hu Ht Hw1 Hs1. apply wp_bind, wp_bind, wp_held; [by eapply local_drop|done|].
    intros [[]|e] w2 Hw2; [|by apply held_settled]. apply wp_held; [done..|].
    intros [[]|e] w3 Hw3; [|by apply held_settled].
    apply wp_commit_with_audit; [done|]. by intros.
Qed.

(** [activate_user] and [deactivate_user] with what their endpoints do next. *)
Lemma wp_set_and_commit action (f : User → User → User) :
  (∀ user r, u_id (f user r) = u_id r ∧ u_tenant_id (f user r) = u_tenant_id r) →
  wp false
    (user ← (user ← get_user_by_id user_id t;
             match user with
             | None => Ret None
             | Some user => _ ← db (SetRow TUser (u_id user) (λ r, Some (f user r)));
                            _ ← db Flush;
                            Ret (Some (f user user))
             end);
     match user with
     | None => Raise user_not_found
     | Some user =>
         _ ← commit_user_mutation_with_audit t (u_id me) action user_id;
         db (Refresh TUser (u_id user))
     end) ends w.
Proof.
  intros Hf. apply wp_bind, wp_bind, wp_load; [done..| |].
  - intros w1 Hw1. by apply held_settled.
  - intros user w1 Hu Ht Hw1 Hs1.
    apply wp_bind, wp_held; [|done|].
    { apply (local_set user); [done..|]. intros r r' [= <-]. apply Hf. }
    intros [[]|e] w2 Hw2; [|by apply held_settled].
    apply wp_bind, wp_held; [done..|]. intros [[]|e] w3 Hw3; [|by apply held_settled].
    by apply wp_commit_and_refresh.
Qed.

Lemma wp_deactivate : wp false (deactivate_user_endpoint user_id me) ends w.
Proof. unfold deactivate_user_endpoint. rewrite Htenant. by apply (wp_set_and_commit _ deactivated). Qed.

Lemma wp_activate : wp false (activate_user_endpoint user_id me) ends w.
Proof.
  unfold activate_user_endpoint. rewrite Htenant. by apply (wp_set_and_commit _ (λ _, set_is_active true)).
Qed.
End endpoints.
End changes.

(** ** Requests, one after the other *)

Inductive users_request : Type :=
| ListUsers (me : User) (page size : Z) (p : list_params)
| PatchUser (me : User) (user_id : Z) (upd : UserUpdate)
| DeactivateUser (me : User) (user_id : Z)
| ActivateUser (me : User) (user_id : Z)
| RemoveUser (me : User) (user_id : Z).

Section requests.
Context `{Crypto} `{SqlText} (s : Settings).

(** The endpoint, in a session of its own; the page of a listing. *)
Definition handle (rq : users_request) : prog (option UserListPage) :=
  in_session match rq with
  | ListUsers me page size p => pg ← list_users s page size p me; Ret (Some pg)
  | PatchUser me user_id upd => _ ← patch_user user_id upd me; Ret None
  | DeactivateUser me user_id => _ ← deactivate_user_endpoint user_id me; Ret None
  | ActivateUser me user_id => _ ← activate_user_endpoint user_id me; Ret None
  | RemoveUser me user_id => _ ← remove_user user_id me; Ret None
  end.

(** Each request with the tables it found and its answer. *)
Fixpoint history `{Services W} (rqs : list users_request) (w : W) :
    list (tables * users_request * result exn (option UserListPage)) :=
  match rqs with
  | [] => []
  | rq :: rqs => (w_db (view w), rq, fst (run (handle rq) w)) :: history rqs (snd (run (handle rq) w))
  end.

(** What a listing answers, from the tables alone. *)
Definition list_answer (me : User) (page size : Z) (p : list_params) (d : tables)
    (r : result exn (option UserListPage)) : Prop :=
  if cursor_and_page page p then r = Err cursor_with_page
  else ∃ a, query_answer (u_tenant_id me) (route_params page size p) d a ∧
       r = match a with
           | Ok (items, next) => Ok (Some {| ulp_items := items; ulp_next_cursor := next |})
           | Err e => Err (unprocessable e)
           end.

Definition answered (d : tables) (rq : users_request) (r : result exn (option UserListPage)) : Prop :=
  match rq with ListUsers me page size p => list_answer me page size p d r | _ => True end.

Definition ready (bound : Z) (w : world) : Prop :=
  cache_honest bound w ∧ users_keyed (w_db w) ∧ w_session w = empty_session.

Lemma honest_weaken B B' w : B <= B' → cache_honest B w → cache_honest B' w.
Proof. intros HB Hw t. destruct (Hw t) as (n & Hb & Hn). exists n. split; [lia|done]. Qed.

Lemma wp_list_users B me page size p w :
  (∀ a b, sha256_hex a = sha256_hex b → a = b) → ready B w →
  wp false (pg ← list_users s page size p me; Ret (Some pg))
    (λ r w', list_answer me page size p (w_db w) r ∧ settled B w') w.
Proof.
  intros Hsha (Hw & Hk & Hs). unfold list_users, list_answer. apply wp_bind.
  assert (∀ w', cache_honest B w' → w_db w' = w_db w → settled B w') as Hset.
  { intros w' Hw' Hd. split; [|by rewrite Hd]. eapply honest_weaken; [|exact Hw']. lia. }
  destruct (cursor_and_page page p); [split; [done|by apply Hset]|].
  apply wp_bind, wp_catch, (wp_get_users s Hsha B); [done..|]. intros r w' Hw' Hd' _ Hr.
  destruct r as [res|e]; cbn [wp mbind prog_bind bind]; (split; [|by apply Hset]);
    (eexists; split; [exact Hr|reflexivity]).
Qed.

Lemma wp_close_settled {A} B (p : prog A) (P : result exn A → Prop) w :
  wp false p (λ r w', P r ∧ settled B w') w →
  wp false (in_session p) (λ r w', P r ∧ ready (B + 1) w') w.
Proof.
  intros Hp. apply wp_finally. eapply wp_mono; [|exact Hp]. intros r w' [HP Hset].
  apply wp_db. intros w1 r' w2 Hadv [-> ->]. split; [done|].
  eapply settled_advance in Hset; [|exact Hadv].
  apply (settled_same _ _ (end_session w1)) in Hset as [Hw Hk]; done.
Qed.

Lemma wp_changed {A} B (p : prog A) w :
  wp false p (ends B) w →
  wp false (_ ← p; Ret (@None UserListPage)) (λ r w', True ∧ settled B w') w.
Proof. intros Hp. apply wp_bind. eapply wp_mono; [|exact Hp]. by intros [a|e] w' Hset. Qed.

(** Every request leaves the cache honest, and a listing is answered truly. *)
Lemma wp_handle B rq w :
  (∀ a b, sha256_hex a = sha256_hex b → a = b) → B + 1 < 2 ^ 63 → ready B w →
  wp false (handle rq) (λ r w', answered (w_db w) rq r ∧ ready (B + 1) w') w.
Proof.
  intros Hsha HB Hw. pose proof Hw as (Hc & Hk & Hs). unfold handle. apply wp_close_settled.
  assert (∀ t, held t (w_db w) (w_redis w) w) as Hheld by (intros t; split_and!; [done..|by rewrite Hs]).
  destruct rq as [me page size p|me user_id upd|me user_id|me user_id|me user_id];
    [by apply wp_list_users|apply wp_changed..].
  - by apply (wp_patch B (u_tenant_id me) (w_db w) (w_redis w)).
  - by apply (wp_deactivate B (u_tenant_id me) (w_db w) (w_redis w)).
  - by apply (wp_activate B (u_tenant_id me) (w_db w) (w_redis w)).
  - by apply (wp_remove_user B (u_tenant_id me) (w_db w) (w_redis w)).
Qed.
End requests.


(** An administrator lists the users twice and deactivates one: the second list
    comes from the cache, the third one does not. *)
Definition first_page : list_params :=
  {| lp_limit := 10; lp_sort_by := "id"; lp_sort_order := "asc"; lp_role := None; lp_is_active := None;
     lp_search := None; lp_search_mode := "prefix"; lp_cursor := None; lp_skip := None |}.
Definition some_requests : list users_request :=
  [ListUsers an_admin 1 10 first_page; ListUsers an_admin 1 10 first_page;
   DeactivateUser an_admin 2; ListUsers an_admin 1 10 first_page].
Definition listed (r : result exn (option UserListPage)) : list json :=
  match r with Ok (Some pg) => ulp_items pg | _ => [] end.


(** ** Deleting by a pattern *)

(** The keys that were found are gone, and no other key is touched; whatever Redis
    does, no [RedisError] reaches the caller. *)
Lemma cache_pattern_deleted `{Crypto} scan_iter pattern keys w :
  wp false (scan_iter pattern) (λ r w', r = Ok keys ∧ w_redis w' = w_redis w) w →
  wp false (delete_cache_pattern scan_iter pattern) (λ r w', is_ok r = true ∧
    (∀ k, k ∈ keys → w_redis w' !! k = None) ∧ (∀ k, k ∉ keys → w_redis w' !! k = w_redis w !! k)) w.
Proof.
  intros Hscan. unfold delete_cache_pattern, except_redis. apply wp_bind, wp_catch, wp_bind.
  eapply wp_mono; [|exact Hscan]. intros r w1 [-> Hw1]. cbn [wp].
  destruct keys as [|k0 keys].
  - cbn [wp]. split_and!; [done|by intros k ?%elem_of_nil|by intros; rewrite Hw1].
  - apply wp_catch, wp_redis; [done|]. intros w2 Hadv. rewrite Hw1. cbn [redis_exec].
    pose proof (delete_keys_gone (w_clock w2) (k0 :: keys) (w_redis w)) as Hgone.
    pose proof (delete_keys_ne (w_clock w2) (k0 :: keys) (w_redis w)) as Hne.
    destruct (delete_keys _ _ _) as [n st]. by split_and!.
Qed.

Lemma cache_pattern_no_redis_error `{Crypto} scan_iter pattern w :
  wp true (delete_cache_pattern scan_iter pattern)
    (λ r _, ∀ e, r = Err e → is_redis_error e = false) w.
Proof.
  unfold delete_cache_pattern. apply wp_bind.
  assert (∀ A (p : prog A) (h : A) w, wp true (except_redis p (Ret h))
    (λ r _, ∀ e, r = Err e → is_redis_error e = false) w) as Hexc.
  { intros A p h w1. unfold except_redis. apply wp_catch. eapply wp_mono; [|apply (wp_clock true p w1)].
    intros [a|e] w2 _; [done|]. destruct (is_redis_error e) eqn:E; cbn; [done|]. by intros e' [= <-]. }
  eapply wp_mono; [|apply Hexc]. intros r w1 Hr. destruct r as [[[|k keys]|]|e]; [done|apply Hexc|done|].
  intros e' [= <-]. by apply Hr.
Qed.
