(* ===== verification/Pagination.v ===== *)
(** * Listing users

    Following [next_cursor] from the first page of [get_users] lists every user
    the filters select, once and in order, as long as the table does not
    change; and a search finds the emails that contain the text it is given,
    whatever characters that text has. *)

From Stdlib Require Import ZArith Ascii String Lia.
From stdpp Require Import base tactics option list gmap strings sorting fin_maps.
From S2P Require Import Prelude PyText Json Errors Config Models Permissions Services.
From S2P Require Import Programs DbFacts Reference Tenants Cache Cursor Users.
Local Open Scope string_scope.
Local Open Scope list_scope.
Local Open Scope Z_scope.

Definition set_cursor (c : option string) (p : list_params) : list_params :=
  {| lp_limit := lp_limit p; lp_sort_by := lp_sort_by p; lp_sort_order := lp_sort_order p;
     lp_role := lp_role p; lp_is_active := lp_is_active p; lp_search := lp_search p;
     lp_search_mode := lp_search_mode p; lp_cursor := c; lp_skip := lp_skip p |}.

(** A client that follows the cursors, for at most [fuel] pages. *)
Fixpoint follow `{Crypto} `{SqlText} (fuel : nat) (tenant_id : Z) (p : list_params) :
    prog (list (list User)) :=
  match fuel with
  | O => Ret []
  | S fuel' =>
      page ← query_users tenant_id p;
      match page with
      | (users, JStr c) =>
          rest ← follow fuel' tenant_id (set_cursor (Some c) p);
          Ret (users :: rest)
      | (users, _) => Ret [users]
      end
  end.

(** The sort fields and orders of the route. *)
Definition valid_sort (p : list_params) : Prop :=
  lp_sort_by p ∈ ["id"; "email"; "role"; "is_active"] ∧
  lp_sort_order p ∈ ["asc"; "desc"].

(** The users the filters select, in the order of the pages. *)
Definition listing `{SqlText} (tenant_id : Z) (p : list_params) (d : tables) (l : list User) : Prop :=
  l ≡ₚ filter (λ u, list_filter tenant_id p u = true) (rows TUser d) ∧
  StronglySorted (λ a b, before (lp_sort_by p) (lp_sort_order p) a b = true) l.

(** ** Sorted lists *)

(** Two sorted lists of the same elements are equal, when the order tells the
    elements apart. *)
Lemma sorted_perm_eq {A} (R : A → A → Prop) l1 l2 :
  StronglySorted R l1 → StronglySorted R l2 → l1 ≡ₚ l2 →
  (∀ x y, x ∈ l1 → y ∈ l1 → R x y → R y x → x = y) → l1 = l2.
Proof.
  intros H1. revert l2. induction H1 as [|x l1 H1 IH Hx]; intros l2 H2 Hp Ha.
  - by apply Permutation_nil_l in Hp as ->.
  - destruct l2 as [|y l2]; [by apply Permutation_nil_r in Hp|].
    apply StronglySorted_inv in H2 as [H2 Hy].
    assert (x = y) as <-.
    { assert (y ∈ x :: l1) as Hin1 by (rewrite Hp; left).
      assert (x ∈ y :: l2) as Hin2 by (rewrite <- Hp; left).
      apply elem_of_cons in Hin1 as [->|Hin1]; [done|].
      apply elem_of_cons in Hin2 as [->|Hin2]; [done|].
      rewrite Forall_forall in Hx, Hy. apply Ha; [by left|by right|by apply Hx|by apply Hy]. }
    f_equal. apply IH; [done|by apply Permutation_cons_inv in Hp|].
    intros a b Hin Hin'. apply Ha; by right.
Qed.

Lemma StronglySorted_filter {A} (R : A → A → Prop) (P : A → bool) (l : list A) :
  StronglySorted R l → StronglySorted R (filter (λ x, P x = true) l).
Proof.
  induction 1 as [|x l Hl IH Hx]; [constructor|]. rewrite filter_cons.
  case_decide; [|done]. constructor; [done|].
  rewrite Forall_forall in *. intros y [_ Hy]%list_elem_of_filter. by apply Hx.
Qed.

Lemma filter_none {A} (P : A → bool) (l : list A) :
  (∀ x, x ∈ l → P x = false) → filter (λ x, P x = true) l = [].
Proof.
  induction l as [|x l IH]; intros Hl; [done|].
  rewrite filter_cons_False by (rewrite (Hl x) by (by left); done).
  apply IH. intros y Hy. apply Hl. by right.
Qed.

(** ** The order of the pages *)

Section order.
Context `{SqlTextSpec}.
Context (p : list_params) (Hsort : valid_sort p).

Definition key (u : User) : cval := sort_value (lp_sort_by p) u.
Definition le (a b : User) : bool := before (lp_sort_by p) (lp_sort_order p) a b.

(** Values of the same column. *)
Definition same_kind (a b : cval) : Prop :=
  match a, b with
  | CInt _, CInt _ | CText _, CText _ | CBool _, CBool _ => True
  | _, _ => False
  end.

Lemma same_kind_key a b : same_kind (key a) (key b).
Proof. unfold key, sort_value. by repeat case_match. Qed.

Lemma cval_lt_irrefl a : cval_lt a a = false.
Proof.
  destruct a as [z|t|[]]; cbn; [apply Z.ltb_irrefl| |done..].
  by rewrite String.eqb_refl, andb_false_r.
Qed.

Lemma cval_lt_trans a b c : cval_lt a b = true → cval_lt b c = true → cval_lt a c = true.
Proof.
  destruct a as [x|x|x], b as [y|y|y], c as [z|z|z]; cbn; try done.
  - rewrite !Z.ltb_lt. lia.
  - rewrite !andb_true_iff, !negb_true_iff, !String.eqb_neq.
    intros [Hxy Hne] [Hyz Hne']. split; [by eapply text_le_trans|].
    intros ->. apply Hne'. by apply text_le_antisym.
  - destruct x, y, z; done.
Qed.

Lemma cval_lt_total a b : same_kind a b → cval_lt a b = true ∨ a = b ∨ cval_lt b a = true.
Proof.
  destruct a as [x|x|x], b as [y|y|y]; cbn; try done; intros _.
  - destruct (Z.lt_trichotomy x y) as [?|[->|?]]; [left|by right; left|right; right]; lia.
  - destruct (String.eqb_spec x y) as [->|Hne]; [by right; left|].
    rewrite (proj2 (String.eqb_neq y x)) by done. rewrite !andb_true_r.
    destruct (text_le_total x y); auto.
  - destruct x, y; auto.
Qed.

Lemma order_cases : lp_sort_order p = "asc" ∨ lp_sort_order p = "desc".
Proof. destruct Hsort as [_ Ho]. rewrite !elem_of_cons in Ho. naive_solver set_solver. Qed.

(** [le] as a lexicographic order, for both directions. *)
Lemma le_spec a b :
  le a b = true ↔
  if String.eqb (lp_sort_order p) "desc"
  then cval_lt (key b) (key a) = true ∨ key a = key b ∧ u_id b <= u_id a
  else cval_lt (key a) (key b) = true ∨ key a = key b ∧ u_id a <= u_id b.
Proof.
  unfold le, before. fold (key a) (key b). destruct order_cases as [->| ->]; cbn;
    rewrite orb_true_iff, andb_true_iff, bool_decide_eq_true, Z.leb_le; done.
Qed.

Lemma le_total a b : le a b = true ∨ le b a = true.
Proof.
  rewrite !le_spec. pose proof (cval_lt_total _ _ (same_kind_key a b)) as Ht.
  case_match; (destruct Ht as [?|[E|?]]; [by auto| |by auto]); rewrite E;
    destruct (Z.le_ge_cases (u_id a) (u_id b)); auto.
Qed.

Lemma le_trans a b c : le a b = true → le b c = true → le a c = true.
Proof.
  rewrite !le_spec. case_match; intros [Ha|[Ea Ha]] [Hb|[Eb Hb]].
  all: first
    [ left; by eapply cval_lt_trans
    | left; rewrite Ea; done
    | left; rewrite <- Ea; done
    | left; rewrite Eb; done
    | left; rewrite <- Eb; done
    | right; split; [congruence|lia] ].
Qed.

Lemma le_antisym a b : le a b = true → le b a = true → u_id a = u_id b.
Proof.
  rewrite !le_spec. case_match; intros [Ha|[Ea Ha]] [Hb|[Eb Hb]]; try lia;
    try (pose proof (cval_lt_trans _ _ _ Ha Hb) as Hc; by rewrite cval_lt_irrefl in Hc);
    try (rewrite Ea, cval_lt_irrefl in Hb; done); rewrite Eb, cval_lt_irrefl in Ha; done.
Qed.

(** The condition a cursor adds selects what comes strictly after its row. *)
Lemma keyset_filter_spec x u :
  _apply_keyset_filter (lp_sort_by p) (lp_sort_order p) (u_id x) (key x) u = negb (le u x).
Proof.
  apply eq_true_iff_eq. rewrite negb_true_iff, <- not_true_iff_false, le_spec.
  unfold _apply_keyset_filter. fold (key u). pose proof (cval_lt_total _ _ (same_kind_key u x)) as Ht.
  destruct (String.eqb (lp_sort_order p) "desc");
    rewrite orb_true_iff, andb_true_iff, bool_decide_eq_true, Z.ltb_lt;
    (split; [intros [Hlt|[E Hlt]] [Hlt'|[E' Hle]]|]).
  all: try (pose proof (cval_lt_trans _ _ _ Hlt Hlt') as Hc; by rewrite cval_lt_irrefl in Hc).
  all: try (rewrite E', cval_lt_irrefl in Hlt; done).
  all: try (rewrite E, cval_lt_irrefl in Hlt'; done).
  all: try lia.
  all: intros Hn; destruct Ht as [Ht|[E|Ht]]; auto.
  all: try (exfalso; apply Hn; by left).
  all: right; split; [done|]; apply Z.nle_gt; intros Hle; apply Hn; right; done.
Qed.

(** ** Pages *)

Lemma filter_after pre x suf :
  StronglySorted (λ a b, le a b = true) (pre ++ x :: suf) →
  NoDup (u_id <$> pre ++ x :: suf) →
  filter (λ u, negb (le u x) = true) (pre ++ x :: suf) = suf.
Proof.
  intros Hs Hnd. induction pre as [|y pre IH]; cbn [app] in *.
  - apply StronglySorted_inv in Hs as [Hs Hx]. rewrite Forall_forall in Hx.
    rewrite filter_cons_False by (destruct (le_total x x) as [E|E]; rewrite E; done).
    apply (filter_all (λ u, negb (le u x) = true)), Forall_forall. intros u Hu. apply negb_true_iff.
    destruct (le u x) eqn:E; [|done]. exfalso.
    rewrite fmap_cons in Hnd. apply NoDup_cons in Hnd as [Hn _]. apply Hn.
    rewrite (le_antisym x u (Hx u Hu) E). apply list_elem_of_fmap_2, Hu.
  - apply StronglySorted_inv in Hs as [Hs Hy]. rewrite Forall_forall in Hy.
    rewrite filter_cons_False.
    + apply IH; [done|]. rewrite fmap_cons in Hnd. by apply NoDup_cons in Hnd as [_ Hnd].
    + assert (le y x = true) as -> by (apply Hy, elem_of_app; right; by left). done.
Qed.

Lemma listing_unique_ids tenant_id d l :
  keyed d → listing tenant_id p d l → NoDup (u_id <$> l).
Proof.
  intros (_ & Hk & _) [Hp _]. rewrite Hp.
  assert (NoDup (u_id <$> rows TUser d)) as Hnd.
  { unfold rows. cbn [get_table]. rewrite <- list_fmap_compose.
    erewrite list_fmap_ext; [apply NoDup_fst_map_to_list|].
    intros i [k u] Hi. cbn. apply (Hk k u), elem_of_map_to_list.
    by eapply list_elem_of_lookup_2. }
  clear Hp. induction (rows TUser d) as [|u us IH]; [done|].
  rewrite fmap_cons in Hnd. apply NoDup_cons in Hnd as [Hn Hnd].
  rewrite filter_cons. case_decide; [|auto]. rewrite fmap_cons. apply NoDup_cons.
  split; [|auto]. intros (u' & E & [_ Hu']%list_elem_of_filter)%list_elem_of_fmap.
  apply Hn. rewrite E. by apply list_elem_of_fmap_2.
Qed.

(** What a page query returns. *)
Lemma page_rows tenant_id d l extra res :
  keyed d → listing tenant_id p d l →
  select_spec (page_query tenant_id p extra 0) (rows TUser d) res →
  res = take (Z.to_nat (lp_limit p)) (filter (λ u, extra u = true) l).
Proof.
  intros Hk Hl (l' & Hp & Hs & ->). cbn [page_query q_limit q_offset q_where q_order] in *.
  rewrite drop_0. f_equal.
  pose proof (listing_unique_ids _ _ _ Hk Hl) as Hnd. destruct Hl as [Hpl Hsl].
  assert (∀ P Q (us : list User), filter (λ u, P u && Q u = true) us =
            filter (λ u, Q u = true) (filter (λ u, P u = true) us)) as Hff.
  { intros P Q us. induction us as [|u us IH]; [done|].
    rewrite !filter_cons. destruct (P u) eqn:EP; cbn.
    - rewrite (decide_True (P := true = true)) by done. rewrite filter_cons.
      by rewrite IH.
    - rewrite (decide_False (P := false = true)) by done. by rewrite IH. }
  apply (sorted_perm_eq (λ a b, le a b = true)).
  - apply Sorted_StronglySorted; [intros a b c; apply le_trans|].
    apply Hs. intros a b. apply le_total.
  - by apply (StronglySorted_filter _ extra).
  - rewrite Hp, Hpl. by rewrite Hff.
  - intros x y Hx Hy Hxy Hyx.
    rewrite Hp, Hff, <- Hpl in Hx, Hy.
    apply list_elem_of_filter in Hx as [_ Hx], Hy as [_ Hy].
    pose proof (le_antisym _ _ Hxy Hyx) as E.
    apply list_elem_of_lookup in Hx as [i Hi], Hy as [j Hj].
    assert (i = j) as <-; [|congruence].
    apply (NoDup_lookup _ i j (u_id x) Hnd); rewrite list_lookup_fmap, ?Hi, ?Hj; cbn; congruence.
Qed.
End order.

(** ** The cursor of a page *)

Lemma sort_keys_opt {A} (f : A → json) o :
  (∀ a, sort_keys (f a) = f a) → sort_keys (opt_json f o) = opt_json f o.
Proof. intros Hf. destruct o; cbn; auto. Qed.

Lemma sorted_cursor_payload p u v : sort_keys v = v →
  sorted_payload (cursor_payload p u v) =
    [("id", JInt (u_id u)); ("is_active", opt_json JBool (lp_is_active p));
     ("role", opt_json JStr (lp_role p)); ("search", opt_json JStr (lp_search p));
     ("search_mode", JStr (lp_search_mode p)); ("sort_by", JStr (lp_sort_by p));
     ("sort_order", JStr (lp_sort_order p)); ("sort_value", v)].
Proof.
  intros Hv. transitivity
    [("id", JInt (u_id u)); ("is_active", sort_keys (opt_json JBool (lp_is_active p)));
     ("role", sort_keys (opt_json JStr (lp_role p))); ("search", sort_keys (opt_json JStr (lp_search p)));
     ("search_mode", JStr (lp_search_mode p)); ("sort_by", JStr (lp_sort_by p));
     ("sort_order", JStr (lp_sort_order p)); ("sort_value", sort_keys v)].
  - reflexivity.
  - by rewrite Hv, !sort_keys_opt.
Qed.

Lemma cursor_payload_wf p u v : json_wf v → json_wf (JObj (cursor_payload p u v)).
Proof.
  intros Hv. apply json_wf_obj. split; [apply (bool_decide_unpack _); vm_compute; exact I|].
  assert (∀ A (f : A → json) o, (∀ a, json_wf (f a)) → json_wf (opt_json f o)) as Ho
    by (intros A f [a|] Hf; cbn; auto).
  unfold cursor_payload. repeat (apply Forall_cons; split; [first [exact Hv | by apply Ho | done]|]).
  apply Forall_nil_2.
Qed.

Lemma json_eqb_opt {A} (f : A → json) o :
  (∀ a, json_eqb (f a) (f a) = true) → json_eqb (opt_json f o) (opt_json f o) = true.
Proof. intros Hf. destruct o; cbn; auto. Qed.

(** The filters a cursor was made with are accepted. *)
Lemma validate_own_cursor p c u v : sort_keys v = v → v ≠ JNull →
  _validate_cursor_filters (sorted_payload (cursor_payload p u v)) (set_cursor c p) =
    Ok (u_id u, v).
Proof.
  intros Hv Hne. rewrite sorted_cursor_payload by done.
  unfold _validate_cursor_filters, differs.
  cbn [dict_get String.eqb Ascii.eqb Bool.eqb opt_default set_cursor lp_sort_by lp_sort_order
       lp_role lp_is_active lp_search lp_search_mode].
  rewrite !json_eqb_opt by (intros a; first [apply String.eqb_refl | by destruct a]).
  cbn [json_eqb negb]. rewrite !String.eqb_refl. cbn [negb].
  destruct v; try done.
Qed.

Lemma getattr_sort_value p u : valid_sort p →
  getattr_user u (lp_sort_by p) = Ok (json_of_cval (sort_value (lp_sort_by p) u)) ∧
  cval_of_json (lp_sort_by p) (json_of_cval (sort_value (lp_sort_by p) u)) =
    Some (sort_value (lp_sort_by p) u).
Proof.
  intros [Hs _]. rewrite !elem_of_cons in Hs.
  by destruct Hs as [->|[->|[->|[->|Hs]]]]; [..|apply elem_of_nil in Hs].
Qed.

(** The cursor of a full page stands for its last row. *)
Lemma next_cursor_filter `{SqlText} p c users last_user : valid_sort p →
  last users = Some last_user → lp_limit p <= Z.of_nat (length users) →
  ∃ c', _build_next_cursor users (set_cursor c p) = Ok (JStr c') ∧
    cursor_filter (set_cursor (Some c') p) =
      Ok (_apply_keyset_filter (lp_sort_by p) (lp_sort_order p) (u_id last_user)
            (sort_value (lp_sort_by p) last_user)).
Proof.
  intros Hp Hlast Hlen. destruct (getattr_sort_value p last_user Hp) as [Hg Hc].
  set (v := sort_value (lp_sort_by p) last_user) in *.
  exists (encode_cursor (cursor_payload (set_cursor c p) last_user (json_of_cval v))).
  unfold _build_next_cursor. cbn [set_cursor lp_limit lp_sort_by].
  destruct (Z.ltb_spec (Z.of_nat (length users)) (lp_limit p)); [lia|].
  rewrite Hlast, Hg. split; [done|].
  unfold cursor_filter. cbn [lp_cursor set_cursor].
  rewrite decode_encode_cursor by (apply cursor_payload_wf; by destruct v).
  change (set_cursor (Some ?x) p) with (set_cursor (Some x) (set_cursor c p)).
  rewrite validate_own_cursor by (by destruct v). cbn [set_cursor lp_sort_by lp_sort_order].
  by rewrite Hc.
Qed.

(** ** Following the cursors *)

Section follow.
Context `{Crypto} `{SqlTextSpec}.
Context (tenant_id : Z) (p : list_params) (d : tables) (l : list User).
Context (Hsort : valid_sort p) (Hlim : 0 < lp_limit p) (Hoff : use_offset p = false).
Context (Hk : keyed d) (Hl : listing tenant_id p d l).

Lemma wp_query_users c f Q w :
  w_db w = d → w_session w = empty_session →
  cursor_filter (set_cursor c p) = Ok f →
  (∀ w1, w_db w1 = d → w_session w1 = empty_session →
     let users := take (Z.to_nat (lp_limit p)) (filter (λ u, f u = true) l) in
     ∀ next, _build_next_cursor users (set_cursor c p) = Ok next → Q (Ok (users, next)) w1) →
  (∀ users, users = take (Z.to_nat (lp_limit p)) (filter (λ u, f u = true) l) →
     is_ok (_build_next_cursor users (set_cursor c p)) = true) →
  wp false (query_users tenant_id (set_cursor c p)) Q w.
Proof.
  intros Hd Hs Hf HQ Hok. unfold query_users.
  change (use_offset (set_cursor c p)) with (use_offset p). rewrite Hoff, Hf.
  apply wp_ok_bind, wp_bind, wp_db. intros w1 r w' Hadv [-> Hc].
  rewrite (advance_db _ _ Hadv), (advance_session _ _ Hadv), Hs, Hd in Hc.
  cbn [tx_view run_writes s_flushed empty_session fold_left] in Hc.
  destruct Hc as (res & Hres & ->).
  apply (page_rows p Hsort tenant_id d l f) in Hres; [|done..]. subst res.
  specialize (Hok _ eq_refl).
  destruct (_build_next_cursor _ _) as [next|e] eqn:En; [|done]. cbn.
  apply HQ; [by rewrite (advance_db _ _ Hadv)|by rewrite (advance_session _ _ Hadv)|done].
Qed.

Lemma build_next_ok c users :
  is_ok (_build_next_cursor users (set_cursor c p)) = true.
Proof.
  unfold _build_next_cursor. cbn [set_cursor lp_limit lp_sort_by].
  destruct (Z.ltb_spec (Z.of_nat (length users)) (lp_limit p)); [done|].
  destruct (last users) as [x|] eqn:El.
  - by rewrite (proj1 (getattr_sort_value p x Hsort)).
  - apply last_None in El. subst. cbn in *. lia.
Qed.

Lemma follow_spec fuel c f pre rem w :
  w_db w = d → w_session w = empty_session →
  cursor_filter (set_cursor c p) = Ok f →
  filter (λ u, f u = true) l = rem → l = pre ++ rem → (length rem < fuel)%nat →
  wp false (follow fuel tenant_id (set_cursor c p))
    (λ r w', ∃ pages, r = Ok pages ∧ concat pages = rem ∧
       Forall (λ page, (length page <= Z.to_nat (lp_limit p))%nat) pages ∧ w_db w' = d) w.
Proof.
  revert c f pre rem w. induction fuel as [|fuel IH]; [lia|].
  intros c f pre rem w Hd Hs Hf Hrem Hpre Hfuel. cbn [follow].
  apply wp_bind, (wp_query_users _ f); [done..| |intros; apply build_next_ok].
  intros w1 Hd1 Hs1. rewrite Hrem. intros users next Hnext.
  assert (length users = min (Z.to_nat (lp_limit p)) (length rem)) as Hlen
    by (subst users; apply length_take).
  destruct (decide (length rem < Z.to_nat (lp_limit p))%nat) as [Hshort|Hfull].
  - assert (next = JNull) as ->.
    { unfold _build_next_cursor in Hnext. cbn [set_cursor lp_limit] in Hnext.
      destruct (Z.ltb_spec (Z.of_nat (length users)) (lp_limit p)); [congruence|lia]. }
    cbn. exists [users]. split_and!; [done| |repeat constructor; lia|done].
    cbn. rewrite app_nil_r. subst users. apply take_ge. lia.
  - assert (rem = users ++ drop (Z.to_nat (lp_limit p)) rem) as Hsplit
      by (subst users; by rewrite take_drop).
    destruct (last users) as [x|] eqn:El; [|apply last_None in El; rewrite El in Hlen; cbn in *; lia].
    destruct (next_cursor_filter p c users x Hsort El ltac:(lia)) as (c' & Hc' & Hf').
    rewrite Hc' in Hnext. injection Hnext as <-.
    apply last_Some in El as [users' Hu].
    apply wp_bind.
    set (rest := drop (Z.to_nat (lp_limit p)) rem) in *.
    assert (l = (pre ++ users') ++ x :: rest) as Hl'.
    { rewrite Hpre, Hsplit, Hu. by rewrite <- !app_assoc. }
    eapply wp_mono; [|apply (IH (Some c') _ (pre ++ users) rest w1 Hd1 Hs1 Hf')].
    + intros r w2 (pages & -> & Hc & Hall & Hd2). cbn. exists (users :: pages).
      split_and!; [done| |constructor; [lia|done]|done]. cbn. rewrite Hc. by rewrite <- Hsplit.
    + rewrite (list_filter_iff _ (λ u, negb (le p u x) = true))
        by (intros u; by rewrite <- (keyset_filter_spec p Hsort)).
      pose proof (listing_unique_ids p tenant_id d l Hk Hl) as Hnd. destruct Hl as [_ Hsl].
      rewrite Hl' in Hnd, Hsl |- *. by apply filter_after.
    + by rewrite <- app_assoc, <- Hsplit.
    + subst rest. rewrite length_drop. lia.
Qed.
End follow.

(** C10: keyset pagination.  From the first page on, following [next_cursor] gives
    pages of at most [limit] users whose concatenation is the whole listing:
    every user the filters select, in order, none twice and none left out.  The
    cursors come back as the opaque texts the API hands out; the table is the
    same throughout and no service fails.  One page request per user, and one
    more, is enough. *)
Theorem keyset_pagination_complete `{ServicesSpec false W} `{SqlTextSpec}
    (fuel : nat) (tenant_id : Z) (p : list_params) (l : list User) (w : W) :
  valid_sort p → 0 < lp_limit p → lp_cursor p = None → use_offset p = false →
  keyed (w_db (view w)) → w_session (view w) = empty_session →
  listing tenant_id p (w_db (view w)) l → (length l < fuel)%nat →
  ∃ pages, fst (run (follow fuel tenant_id p) w) = Ok pages ∧ concat pages = l ∧
    Forall (λ page, (length page <= Z.to_nat (lp_limit p))%nat) pages.
Proof.
  intros Hsort Hlim Hc Hoff Hk Hs Hl Hfuel.
  destruct (wp_run (follow fuel tenant_id p)
    (λ r w', ∃ pages, r = Ok pages ∧ concat pages = l ∧
       Forall (λ page, (length page <= Z.to_nat (lp_limit p))%nat) pages ∧
       w_db w' = w_db (view w)) w) as (pages & Hr & Hcat & Hall & _); [|by eauto].
  replace p with (set_cursor None p) by (destruct p; cbn in *; by subst).
  eapply (follow_spec tenant_id p (w_db (view w)) l Hsort Hlim Hoff Hk Hl fuel None _ [] l);
    [done..| |done|done].
  by apply (filter_all (λ _, true = true)), Forall_true.
Qed.

(** A tenant with four users of two roles, and a request for pages of one, by
    role, descending. *)
Definition small_user (i : Z) (role : string) : User :=
  {| u_id := i; u_tenant_id := 1; u_email := "a" ++ str_of_int i ++ "@x.org";
     u_hashed_password := ""; u_is_active := true; u_role := role; u_token_version := 0 |}%string.
Definition small_users : gmap Z User :=
  list_to_map ((λ u, (u_id u, u)) <$>
    [small_user 1 "user"; small_user 2 "admin"; small_user 3 "user"; small_user 4 "user"]).
Definition small_world : world :=
  with_db (set_table TUser small_users
    (set_table TTenant {[1 := {| t_id := 1; t_slug := "default"; t_name := "D"; t_is_active := true |}]}
       empty_tables)) empty_session (world_at 1000).
Definition small_params : list_params :=
  {| lp_limit := 1; lp_sort_by := "role"; lp_sort_order := "desc"; lp_role := None;
     lp_is_active := None; lp_search := Some "a"; lp_search_mode := "contains"%string;
     lp_cursor := None; lp_skip := None |}.
Definition small_listing : list User :=
  [small_user 4 "user"; small_user 3 "user"; small_user 1 "user"; small_user 2 "admin"].

Lemma small_world_keyed : keyed (w_db small_world).
Proof. apply (bool_decide_unpack _). vm_compute. exact I. Qed.

Lemma small_listing_ok : listing 1 small_params (w_db small_world) small_listing.
Proof.
  split; [apply (bool_decide_unpack _); vm_compute; exact I|].
  repeat (constructor; [|repeat (constructor; [vm_compute; reflexivity|]); constructor]).
  constructor.
Qed.

Lemma keyset_pagination_complete_witness :
  ∃ pages, fst (run (follow 5 1 small_params) small_world) = Ok pages ∧
    concat pages = small_listing ∧
    Forall (λ page, (length page <= 1)%nat) pages.
Proof.
  apply (keyset_pagination_complete (W:=world) 5 1 small_params small_listing small_world).
  - split; apply (bool_decide_unpack _); vm_compute; exact I.
  - reflexivity.
  - reflexivity.
  - reflexivity.
  - apply small_world_keyed.
  - reflexivity.
  - apply small_listing_ok.
  - cbn. lia.
Defined.

(** ** Searching *)

Definition escaped (c : ascii) : list ascii :=
  if Ascii.eqb c backslash || Ascii.eqb c "%" || Ascii.eqb c "_" then [backslash; c] else [c].

Lemma chars_escape q : chars (_escape_like_pattern q) = chars q ≫= escaped.
Proof.
  unfold _escape_like_pattern, replace_char. rewrite !chars_text.
  induction (chars q) as [|c l IH]; [done|]. cbn [mbind list_bind].
  rewrite !bind_app, IH. f_equal. unfold escaped.
  destruct (Ascii.eqb_spec c backslash) as [->|Hb]; [done|].
  destruct (Ascii.eqb_spec c "%") as [->|Hp]; [done|].
  destruct (Ascii.eqb_spec c "_") as [->|Hu]; [done|]. cbn.
  apply Ascii.eqb_neq in Hb, Hp, Hu.
  rewrite Hp. cbn. by rewrite Hu.
Qed.

Lemma like_escaped_char fold c r t :
  like fold (escaped c ++ r) t =
    match t with [] => false | d :: t' => Ascii.eqb (fold d) (fold c) && like fold r t' end.
Proof.
  unfold escaped. destruct (Ascii.eqb c backslash) eqn:Hb; [done|].
  destruct (Ascii.eqb c "%") eqn:Hp; [done|].
  destruct (Ascii.eqb c "_") eqn:Hu; [done|]. cbn [orb app like].
  rewrite Hp, Hu. fold backslash. by rewrite Hb.
Qed.

(** An escaped text matches itself, letter case aside. *)
Lemma like_escaped fold q rest t :
  like fold ((q ≫= escaped) ++ rest) t = true ↔
  ∃ t1 t2, t = t1 ++ t2 ∧ fold <$> t1 = fold <$> q ∧ like fold rest t2 = true.
Proof.
  revert t. induction q as [|c q IH]; intros t.
  - cbn [mbind list_bind app]. split.
    + intros Ht. by exists [], t.
    + intros (t1 & t2 & -> & Ht%fmap_nil_inv & Hr). by subst.
  - cbn [mbind list_bind]. rewrite <- app_assoc, like_escaped_char. split.
    + destruct t as [|d t]; [done|]. rewrite andb_true_iff, Ascii.eqb_eq.
      intros [Hd (t1 & t2 & -> & Hq & Hr)%IH]. exists (d :: t1), t2. cbn. by rewrite Hd, Hq.
    + intros (t1 & t2 & -> & Hq & Hr). destruct t1 as [|d t1]; [done|].
      injection Hq as Hd Hq. cbn. rewrite andb_true_iff, Ascii.eqb_eq. split; [done|].
      apply IH. by exists t1, t2.
Qed.

Lemma like_any fold r t :
  like fold ("%"%char :: r) t = true ↔ ∃ t1 t2, t = t1 ++ t2 ∧ like fold r t2 = true.
Proof.
  cbn [like Ascii.eqb Bool.eqb]. induction t as [|c t IH].
  - rewrite orb_false_r. split; [intros Hr; by exists [], []|].
    intros (t1 & t2 & E & Hr). by apply eq_sym, app_nil in E as [-> ->].
  - rewrite orb_true_iff, IH. split.
    + intros [Hr|(t1 & t2 & -> & Hr)]; [by exists [], (c :: t)|by exists (c :: t1), t2].
    + intros ([|d t1] & t2 & E & Hr); cbn in E; [left; by subst|].
      injection E as <- ->. right. by eexists _, _.
Qed.

(** C12: searching.  Whatever text is searched for, percent signs, underscores and
    backslashes included, the mode [contains] finds exactly the emails that
    contain it and any other mode those that start with it, letter case aside. *)
Theorem search_matches_literally `{SqlTextSpec} (email search mode : string) :
  ilike email (email_pattern search mode) = true ↔
  ∃ before found after, chars email = before ++ found ++ after ∧
    fold_case <$> found = fold_case <$> chars search ∧
    (mode = search_mode_contains ∨ before = []).
Proof.
  assert (∀ t, like fold_case ["%"%char] t = true) as Hrest.
  { intros t. apply like_any. exists t, []. by rewrite app_nil_r. }
  rewrite ilike_spec. unfold email_pattern.
  destruct (String.eqb_spec mode search_mode_contains) as [->|Hne].
  - change (chars ("%" ++ ?x)) with ("%"%char :: chars x).
    rewrite chars_app, chars_escape. rewrite like_any. split.
    + intros (t1 & t & E & (t2 & t3 & -> & Hf & _)%like_escaped). eauto 10.
    + intros (t1 & t2 & t3 & E & Hf & _). exists t1, (t2 ++ t3). split; [done|].
      apply like_escaped. eauto.
  - rewrite chars_app, chars_escape. change (chars "%") with ["%"%char]. rewrite like_escaped. split.
    + intros (t2 & t3 & E & Hf & _). exists [], t2, t3. auto.
    + intros (t1 & t2 & t3 & E & Hf & [Hm| ->]); [done|]. exists t2, t3. eauto.
Qed.

(** An underscore only finds an underscore. *)
Lemma search_matches_literally_witness :
  ilike "john_d@x.org" (email_pattern "N_D" "contains") = true ∧
  ¬ (∃ before found after, chars "johnad@x.org" = before ++ found ++ after ∧
       fold_case <$> found = fold_case <$> chars "N_D" ∧
       ("contains" = search_mode_contains ∨ before = [])).
Proof.
  split.
  - apply search_matches_literally.
    exists (chars "joh"), (chars "n_d"), (chars "@x.org"). split; [reflexivity|].
    split; [reflexivity|by left].
  - intros H. apply search_matches_literally in H. vm_compute in H. discriminate H.
Defined.
