(* ===== verification/Auth.v ===== *)
(** * Authentication

    [app/core/security.py], the token revocation of [app/core/redis.py],
    [app/services/auth_service.py], [app/api/dependencies/auth.py] and the
    routes of [app/api/routes/auth.py] that are not about password resets.

    A claim is read as the JSON the token carries.  Its members are texts and
    integers in every token the program makes; [python-jose] lets no other kind
    through for [sub] and [jti]. *)

From Stdlib Require Import ZArith Ascii String Lia.
From stdpp Require Import base tactics option list gmap strings sorting fin_maps.
From S2P Require Import Prelude PyText Json Errors Config Models Permissions Services.
From S2P Require Import Programs DbFacts Ids Tenants Cache Cursor Users.
Local Open Scope string_scope.
Local Open Scope list_scope.
Local Open Scope Z_scope.

(** ** Values of claims *)

(** [payload.get(key)] *)
Definition get (payload : list (string * json)) (key : string) : json :=
  opt_default JNull (dict_get key payload).

(** [if v] *)
Definition json_truthy (v : json) : bool :=
  match v with
  | JNull => false
  | JBool b => b
  | JInt z => negb (z =? 0)
  | JFloat lit => existsb (λ c, let n := code c in (49 <=? n) && (n <=? 57))%N (chars lit)
  | JStr s => truthy s
  | JList l => negb (bool_decide (length l = 0%nat))
  | JObj kvs => negb (bool_decide (length kvs = 0%nat))
  end.

(** [int(v)]; [None] stands for a float, whose value is outside the model, and
    never is in a token of the program. *)
Definition json_int (v : json) : result exn Z :=
  match v with
  | JInt z => Ok z
  | JBool b => Ok (if b then 1 else 0)
  | JStr s => result_of_option (ValueError "invalid literal for int()") (int_of_str s)
  | JFloat _ => Err (ValueError "float claim")
  | JNull | JList _ | JObj _ => Err (TypeError "int() argument")
  end.

(** The text an f-string makes of a [jti]. *)
Definition json_text (v : json) : string :=
  match v with JStr s => s | JInt z => str_of_int z | v => dumps v end.

Section auth.
Context `{Crypto} (s : Settings).

(** ** [security.py] *)

Definition hash_password (password : string) : prog string := call (BcryptHash password).

Definition verify_password (plain_password hashed_password : string) : result exn bool :=
  if bcrypt_refuses plain_password then Err (ValueError "password")
  else Ok (bcrypt_verify plain_password hashed_password).

(** The claims in the order of the code; [exp] in whole seconds, as
  [python-jose] writes a [datetime]. *)
Definition token_claims (subject : string) (tenant_id token_version expire : Z)
    (type jti : string) : list (string * json) :=
  [("sub", JStr subject); ("tenant_id", JInt tenant_id); ("token_version", JInt token_version);
   ("exp", JInt (expire / second)); ("type", JStr type); ("jti", JStr jti)].

Definition create_token (subject : string) (tenant_id token_version lifetime : Z)
    (type : string) : prog string :=
  now ← now_us;
  jti ← uuid7;
  Ret (jwt_encode (token_claims subject tenant_id token_version (now + lifetime) type jti)
                  (secret_key s) (algorithm s)).

(** [expires_delta] is never given. *)
Definition create_access_token (subject : string) (tenant_id token_version : Z) : prog string :=
  create_token subject tenant_id token_version
    (access_token_expire_minutes s * 60 * second) "access".
Definition create_refresh_token (subject : string) (tenant_id token_version : Z) : prog string :=
  create_token subject tenant_id token_version
    (refresh_token_expire_days s * microseconds_per_day) "refresh".

Definition decode_token (token : string) : prog (list (string * json)) :=
  now ← now_us;
  of_result (jwt_decode (now / second) token (secret_key s) (algorithm s)).

(** ** [redis.py] *)

Definition revocation_key (jti : json) : string := "revoked_refresh_token:" ++ json_text jti.

Definition revoke_refresh_token (jti expires_at : json) (require_new : bool) : prog bool :=
  now ← now_us;
  match expires_at with
  | JInt exp =>
      let ttl_seconds := exp - now / second in
      if ttl_seconds <=? 0 then Ret (negb require_new)
      else redis (SET (revocation_key jti) "1" require_new (Some ttl_seconds)) ≫= λ set,
           Ret (if require_new then set else true)
  | _ => Raise (TypeError "unsupported operand type(s) for -")
  end.

Definition is_refresh_token_revoked (jti : json) : prog bool :=
  n ← redis (EXISTS (revocation_key jti));
  Ret (n =? 1).

(** ** [auth_service.py] *)

Definition get_user_by_email (email : string) (tenant_id : Z) : prog (option User) :=
  first TUser (λ u, String.eqb (u_email u) email && (u_tenant_id u =? tenant_id)).

(** The defaults of the columns that are not given. *)
Definition new_user (email hashed_password : string) (tenant_id key : Z) : User :=
  {| u_id := key; u_tenant_id := tenant_id; u_email := email;
     u_hashed_password := hashed_password; u_is_active := true; u_role := "user";
     u_token_version := 0 |}.

Definition create_user (email password : string) (tenant_id : Z) : prog User :=
  existing_user ← get_user_by_email email tenant_id;
  match existing_user with
  | Some _ => Raise (raised BadRequestError "User with this email already exists")
  | None =>
      hashed_password ← hash_password password;
      user ← db (Add TUser (λ key _, new_user email hashed_password tenant_id key));
      _ ← db Commit;
      user ← db (Refresh TUser (u_id user));
      _ ← invalidate_users_list_cache tenant_id;
      Ret user
  end.

Definition invalid_credentials : exn := raised UnauthorizedError "Invalid email or password".

Definition authenticate_user (email password : string) (tenant_id : Z) : prog User :=
  user ← get_user_by_email email tenant_id;
  match user with
  | None => Raise invalid_credentials
  | Some user =>
      verified ← of_result (verify_password password (u_hashed_password user));
      if negb verified then Raise invalid_credentials
      else if negb (u_is_active user) then Raise (raised UnauthorizedError "Inactive user")
      else Ret user
  end.

(** The tokens of a user. *)
Definition token_pair (user : User) : prog (string * string) :=
  access_token ← create_access_token (str_of_int (u_id user)) (u_tenant_id user)
                   (u_token_version user);
  refresh_token ← create_refresh_token (str_of_int (u_id user)) (u_tenant_id user)
                    (u_token_version user);
  Ret (access_token, refresh_token).

Definition login_user (email password : string) (tenant_id : Z) : prog (string * string) :=
  user ← authenticate_user email password tenant_id;
  token_pair user.

Definition invalid_refresh_token : exn := raised UnauthorizedError "Invalid refresh token".
Definition refresh_token_revoked : exn :=
  raised UnauthorizedError "Refresh token has been revoked".

Definition is_jwt_error (e : exn) : bool := match e with JWTError _ => true | _ => false end.

Definition is_null (v : json) : bool := match v with JNull => true | _ => false end.

Definition _decode_refresh_token (refresh_token : string) : prog (list (string * json)) :=
  payload ← catch (decode_token refresh_token)
              (λ e, if is_jwt_error e then Raise invalid_refresh_token else Raise e);
  if negb (json_eqb (get payload "type") (JStr "refresh")) then
    Raise (raised UnauthorizedError "Invalid token type")
  else if negb (json_truthy (get payload "jti")) || negb (json_truthy (get payload "exp")) ||
          is_null (get payload "tenant_id") || is_null (get payload "token_version") then
    Raise invalid_refresh_token
  else
    revoked ← is_refresh_token_revoked (get payload "jti");
    if (revoked : bool) then Raise refresh_token_revoked else Ret payload.

(** [user.tenant], loaded when it is first read. *)
Definition tenant_of (user : User) : prog (option Tenant) :=
  get_tenant_by_id (u_tenant_id user).

Definition assert_active_member (user : User) : prog unit :=
  tenant ← tenant_of user;
  of_result (assert_active_tenant_membership tenant).

Definition except_value_error {A} (r : result exn A) (e : exn) : result exn A :=
  match r with
  | Ok a => Ok a
  | Err e' => Err (if is_value_error e' then e else e')
  end.

Definition _get_active_user_from_refresh_payload (payload : list (string * json)) : prog User :=
  let user_id := get payload "sub" in
  let tenant_id := get payload "tenant_id" in
  if is_null user_id || is_null tenant_id then Raise invalid_refresh_token
  else
    parsed_user_id ← of_result (except_value_error (json_int user_id) invalid_refresh_token);
    parsed_tenant_id ← of_result (except_value_error (json_int tenant_id) invalid_refresh_token);
    user ← get_user_by_id parsed_user_id parsed_tenant_id;
    match user with
    | None => Raise (raised UnauthorizedError "User not found or inactive")
    | Some user =>
        if negb (u_is_active user) then
          Raise (raised UnauthorizedError "User not found or inactive")
        else
          _ ← assert_active_member user;
          if negb (json_eqb (get payload "token_version") (JInt (u_token_version user))) then
            Raise refresh_token_revoked
          else Ret user
    end.

Definition rotate_refresh_token (refresh_token : string) : prog (string * string) :=
  payload ← _decode_refresh_token refresh_token;
  user ← _get_active_user_from_refresh_payload payload;
  fresh ← revoke_refresh_token (get payload "jti") (get payload "exp") true;
  if negb fresh then Raise refresh_token_revoked
  else token_pair user.

Definition logout_user (refresh_token : string) : prog unit :=
  payload ← _decode_refresh_token refresh_token;
  _ ← revoke_refresh_token (get payload "jti") (get payload "exp") false;
  Ret tt.

(** ** [dependencies/auth.py] *)

Definition credentials_exception : exn :=
  HTTPException 401 "Could not validate credentials" [("WWW-Authenticate", "Bearer")].

(** What the access token says: the user, the tenant and the version. *)
Definition access_claims (payload : list (string * json)) : result exn (Z * Z * Z) :=
  if negb (json_eqb (get payload "type") (JStr "access")) ||
     is_null (get payload "sub") || is_null (get payload "tenant_id") ||
     is_null (get payload "token_version") then Err credentials_exception
  else
    match json_int (get payload "sub"), json_int (get payload "tenant_id"),
          json_int (get payload "token_version") with
    | Ok u, Ok t, Ok v => Ok (u, t, v)
    | Err e, _, _ | Ok _, Err e, _ | Ok _, Ok _, Err e => Err e
    end.

(** [credentials] is the bearer token, [header] the header [X-Tenant-Slug]. *)
Definition get_current_user (credentials : string) (header : option string) : prog User :=
  claims ← catch (payload ← decode_token credentials; of_result (access_claims payload))
             (λ e, if is_jwt_error e || is_value_error e then Raise credentials_exception
                   else Raise e);
  let '(parsed_user_id, parsed_tenant_id, parsed_token_version) := claims in
  user ← get_user_by_id parsed_user_id parsed_tenant_id;
  match user with
  | None => Raise credentials_exception
  | Some user =>
      if negb (u_is_active user) then Raise credentials_exception
      else if negb (u_token_version user =? parsed_token_version) then
        Raise credentials_exception
      else
        tenant ← tenant_of user;
        _ ← of_result (assert_active_tenant_membership tenant);
        _ ← match header with
            | Some requested_slug =>
                request_tenant ← get_active_tenant_by_slug requested_slug;
                of_result (assert_request_tenant_matches_user user request_tenant)
            | None => Ret tt
            end;
        _ ← set_proc (λ p, set_tenant_context (Some (u_tenant_id user)) (p_tenant_slug p) p);
        _ ← match tenant with
            | Some t => set_proc (λ p, set_tenant_context (p_tenant_id p) (Some (t_slug t)) p)
            | None => Ret tt
            end;
        Ret user
  end.

Definition _forbidden : exn := HTTPException 403 "Insufficient permissions" [].

Definition require_permission (permissions : list Permission) (current_user : User) :
    result exn User :=
  if negb (user_has_any_permission current_user permissions) then Err _forbidden
  else Ok current_user.

Definition require_role (required_role : string) (current_user : User) : result exn User :=
  if negb (role_includes (u_role current_user) required_role) then Err _forbidden
  else Ok current_user.

(** ** [routes/auth.py]; the rate limits of the routes are those of [RateLimit]. *)

Definition register (email password : string) (header : option string) : prog User :=
  tenant ← get_request_tenant header;
  if negb (registration_enabled s) then Raise (HTTPException 403 "Registration is disabled" [])
  else create_user email password (t_id tenant).

Definition login (email password : string) (header : option string) : prog (string * string) :=
  tenant ← get_request_tenant header;
  login_user email password (t_id tenant).

Definition me (credentials : string) (header : option string) : prog User :=
  get_current_user credentials header.

Definition refresh_token (token : string) : prog (string * string) := rotate_refresh_token token.

Definition logout (token : string) : prog unit := logout_user token.
End auth.
