(* ===== verification/AuthSafety.v ===== *)
(** * What authentication guarantees

    A request is only ever served for the user its token names, as the database
    has them; a token the program issued is accepted; a refresh token is
    exchanged at most once, and not after a logout. *)

From Stdlib Require Import ZArith Ascii String Lia.
From stdpp Require Import base tactics option list gmap strings sorting fin_maps.
From S2P Require Import Prelude PyText Json Errors Config Models Permissions Services.
From S2P Require Import Programs DbFacts RedisFacts Reference Ids Tenants Cache Cursor Users UserMutations Auth.
Local Open Scope string_scope.
Local Open Scope list_scope.
Local Open Scope Z_scope.

(** ** The current user *)

(** The token is valid at the time [t] (in microseconds) and names this user in
    this version. *)
Definition names_user `{Crypto} (s : Settings) (token : string) (t : Z) (user : User) : Prop :=
  ∃ claims, jwt_decode (t / second) token (secret_key s) (algorithm s) = Ok claims ∧
    json_eqb (get claims "type") (JStr "access") = true ∧
    json_int (get claims "sub") = Ok (u_id user) ∧
    json_int (get claims "tenant_id") = Ok (u_tenant_id user) ∧
    json_int (get claims "token_version") = Ok (u_token_version user).

Definition active_tenant (d : tables) (p : Tenant → Prop) : Prop :=
  ∃ k t, tenants d !! k = Some t ∧ t_is_active t = true ∧ p t.

Definition authenticated `{Crypto} (s : Settings) (token : string) (header : option string)
    (w w' : world) (user : User) : Prop :=
  (∃ t, w_clock w <= t <= w_clock w' ∧ names_user s token t user) ∧
  (∃ k, users (w_db w) !! k = Some user) ∧ u_is_active user = true ∧
  active_tenant (w_db w) (λ t, t_id t = u_tenant_id user) ∧
  (∀ slug, header = Some slug →
     active_tenant (w_db w) (λ t, t_slug t = slug ∧ t_id t = u_tenant_id user)) ∧
  w_db w' = w_db w ∧ p_tenant_id (w_proc w') = Some (u_tenant_id user).

Lemma access_claims_ok payload u t v :
  access_claims payload = Ok (u, t, v) →
  json_eqb (get payload "type") (JStr "access") = true ∧
  json_int (get payload "sub") = Ok u ∧ json_int (get payload "tenant_id") = Ok t ∧
  json_int (get payload "token_version") = Ok v.
Proof.
  unfold access_claims. case_match eqn:E; [done|]. intros Hi.
  repeat apply orb_false_elim in E as [E ?]. apply negb_false_iff in E.
  repeat case_match; try done. by injection Hi as -> -> ->.
Qed.

Section current_user.
Context `{Crypto} (faults : bool) (s : Settings).
Local Abbreviation seen p Q := (wpi faults (stored (λ _ _ _, True)) p (on_ok Q)).

Lemma seen_tenant (p : Tenant → bool) Q w :
  w_session w = empty_session →
  (∀ w1 o, advance w w1 → first_spec TTenant p (w_db w) o → Q o w1) →
  seen (first TTenant p) Q w.
Proof. intros Hs HQ. apply (wpi_first _ _ _ _ _ _ (w_db w)); [done|by rewrite Hs|done]. Qed.

(** The end of [get_current_user]: the tenant of the request context. *)
Local Abbreviation enter_tenant user t :=
  (_ ← set_proc (λ p, set_tenant_context (Some (u_tenant_id user)) (p_tenant_slug p) p);
   _ ← set_proc (λ p, set_tenant_context (p_tenant_id p) (Some (t_slug t)) p);
   Ret user).

Lemma seen_enter_tenant token header user t w w4 :
  (∃ now, w_clock w <= now <= w_clock w4 ∧ names_user s token now user) →
  (∃ k, users (w_db w) !! k = Some user) → u_is_active user = true →
  active_tenant (w_db w) (λ t, t_id t = u_tenant_id user) →
  (∀ slug, header = Some slug →
     active_tenant (w_db w) (λ t, t_slug t = slug ∧ t_id t = u_tenant_id user)) →
  w_db w4 = w_db w →
  seen (enter_tenant user t) (λ user w', authenticated s token header w w' user) w4.
Proof.
  intros (now & Hnow & Hnames) Hrow Hact Htenant Hheader Hdb. apply wpi_bind_ok, wpi_on_proc; [done|].
  intros w5 Hadv5. apply wpi_bind_ok, wpi_on_proc; [done|]. intros w6 Hadv6. split; [done|].
  pose proof (advance_clock _ _ Hadv5) as Hc5. pose proof (advance_clock _ _ Hadv6) as Hc6. cbn in Hc6.
  cbn [on_ok fst snd]. split_and!; [|done..| |].
  - exists now. cbn. split; [lia|done].
  - cbn. rewrite (advance_db _ _ Hadv6). cbn. by rewrite (advance_db _ _ Hadv5).
  - cbn. by destruct Hadv6 as (? & ? & ? & _ & _ & _ & ->).
Qed.

Lemma seen_get_current_user token header w :
  w_session w = empty_session →
  seen (get_current_user s token header) (λ user w', authenticated s token header w w' user) w.
Proof.
  intros Hs. unfold get_current_user. apply wpi_bind_ok, wpi_catch, wpi_bind.
  apply wpi_bind. eapply wpi_mono; [|apply (wpi_now faults _
    (λ t w1, advance w w1 ∧ t = w_clock w1)); [done|by intros w1 Hadv]].
  intros [t|e] w1 _; cbn [on_ok]; [|by case_match].
  intros [Hadv1 ->]. apply wpi_of_result; [done|].
  destruct (jwt_decode _ _ _ _) as [claims|e] eqn:Ed; [|by case_match].
  apply wpi_of_result; [done|].
  destruct (access_claims claims) as [[[uid tid] ver]|e] eqn:Ea; [|by case_match]. cbn [on_ok].
  apply access_claims_ok in Ea as (Hty & Hu & Ht & Hv).
  pose proof (advance_session _ _ Hadv1) as Hs1. rewrite Hs in Hs1.
  apply wpi_bind_ok, (wpi_first _ _ _ _ _ _ (w_db w1)); [done|by rewrite Hs1|].
  intros w2 [user|] Hadv2 Huser; [|done]. destruct Huser as [[k Hk] Hm].
  apply andb_prop in Hm as [<-%Z.eqb_eq <-%Z.eqb_eq].
  destruct (negb (u_is_active user)) eqn:Hact; [done|]. apply negb_false_iff in Hact.
  destruct (negb (u_token_version user =? ver)) eqn:Hver; [done|].
  apply negb_false_iff, Z.eqb_eq in Hver. subst ver.
  apply wpi_bind_ok, seen_tenant; [by rewrite (advance_session _ _ Hadv2)|].
  intros w3 tenant Hadv3 Htenant.
  apply wpi_bind_ok, wpi_of_result; [done|].
  unfold assert_active_tenant_membership. destruct tenant as [t|]; [|done].
  destruct (negb (t_is_active t)) eqn:Hta; [done|]. apply negb_false_iff in Hta. cbn [on_ok].
  destruct Htenant as [[kt Hkt] Htid%Z.eqb_eq].
  assert (advance w w3) as Hadv by (etrans; [|done]; by etrans).
  rewrite (advance_db _ _ Hadv1) in Hk. rewrite (advance_db _ _ Hadv2), (advance_db _ _ Hadv1) in Hkt.
  assert (∀ w4, advance w3 w4 →
    (∀ slug, header = Some slug →
       active_tenant (w_db w) (λ t, t_slug t = slug ∧ t_id t = u_tenant_id user)) →
    seen (enter_tenant user t) (λ user w', authenticated s token header w w' user) w4) as Hend.
  { intros w4 Hadv4 Hheader. pose proof (advance_clock _ _ Hadv1). pose proof (advance_clock _ _ Hadv2).
    pose proof (advance_clock _ _ Hadv3). pose proof (advance_clock _ _ Hadv4).
    apply seen_enter_tenant; [|by exists k|done|by exists kt, t|done|].
    - exists (w_clock w1). split; [lia|]. by exists claims.
    - rewrite (advance_db _ _ Hadv4). apply advance_db, Hadv. }
  apply wpi_bind_ok. destruct header as [slug|].
  - unfold get_active_tenant_by_slug. apply wpi_bind_ok, wpi_bind_ok, seen_tenant.
    { rewrite (advance_session _ _ Hadv). done. }
    intros w4 [rt|] Hadv4 Hrt; [|done]. destruct Hrt as [[kr Hkr] Hslug%String.eqb_eq].
    destruct (negb (t_is_active rt)) eqn:Hra; [done|]. apply negb_false_iff in Hra.
    apply wpi_ret; [done|]. cbn [on_ok]. apply wpi_of_result; [done|].
    unfold assert_request_tenant_matches_user. case_match eqn:Hm; [done|].
    apply negb_false_iff, Z.eqb_eq in Hm. cbn [on_ok].
    apply Hend; [done|]. intros slug' [= <-]. exists kr, rt.
    by rewrite (advance_db _ _ Hadv) in Hkr.
  - apply wpi_ret; [done|]. by apply Hend.
Qed.
End current_user.

(** C14: who a request is served for.  When [get_current_user] returns a user,
    whatever may fail and however long it takes, the bearer token was valid and
    an access token at some time during the call, and it names that user, their
    tenant and their current token version; the row is in the database, active,
    of an active tenant, which is the one of the header [X-Tenant-Slug] when the
    request has one; the database is as it was and the tenant of the request
    context is the user's. *)
Theorem get_current_user_sound `{ServicesSpec faults W} (s : Settings) (token : string)
    (header : option string) (w w' : W) (user : User) :
  w_session (view w) = empty_session →
  run (get_current_user s token header) w = (Ok user, w') →
  authenticated s token header (view w) (view w') user.
Proof.
  intros Hs Hrun.
  destruct (wpi_trace (stored (λ _ _ _, True)) (get_current_user s token header)
    (on_ok (λ user w', authenticated s token header (view w) w' user)) w) as [_ Hr].
  - by apply seen_get_current_user.
  - by rewrite Hrun in Hr.
Qed.

(** ** Issued tokens are accepted *)

Section issued.
Context `{CryptoSpec} (s : Settings).

Lemma wp_create_token sub tid v lifetime type Q w :
  (∀ jti t w1, advance w w1 → w_clock w <= t →
     Q (Ok (jwt_encode (token_claims sub tid v (t + lifetime) type jti)
              (secret_key s) (algorithm s))) w1) →
  wp false (create_token s sub tid v lifetime type) Q w.
Proof.
  intros HQ. unfold create_token. apply wp_bind, wp_now. intros w1 Hadv1.
  apply wp_bind, wp_uuid7. intros n w2 _ Hadv2. cbn [wp].
  apply HQ; [by etrans|]. by apply advance_clock.
Qed.

Lemma token_claims_wf sub tid v e type jti :
  json_wf (JObj (token_claims sub tid v e type jti)) ∧
  ∀ k, k ∈ (token_claims sub tid v e type jti).*1 → k ∉ ["nbf"; "iat"; "aud"; "iss"; "at_hash"].
Proof.
  split.
  - apply json_wf_obj. split; [apply (bool_decide_unpack _); vm_compute; exact I|].
    repeat (apply Forall_cons; split; [exact I|]). apply Forall_nil_2.
  - intros k Hk. change (k ∈ ["sub"; "tenant_id"; "token_version"; "exp"; "type"; "jti"]) in Hk.
    rewrite !elem_of_cons in Hk.
    repeat destruct Hk as [->|Hk]; [..|by apply elem_of_nil in Hk];
      apply (bool_decide_unpack _); vm_compute; exact I.
Qed.

(** Decoding one's own token in time. *)
Lemma decode_own now sub tid v e type jti :
  now <= e / second →
  jwt_decode now (jwt_encode (token_claims sub tid v e type jti) (secret_key s) (algorithm s))
    (secret_key s) (algorithm s) = Ok (token_claims sub tid v e type jti).
Proof.
  intros Hnow. destruct (token_claims_wf sub tid v e type jti) as [Hwf Hk].
  apply (jwt_decode_encode _ _ _ _ (e / second)); [done..| |].
  - cbn. intros x [= <-]. eauto.
  - cbn. intros x [= <-]. eauto.
Qed.

Lemma access_claims_own user e jti :
  access_claims (token_claims (str_of_int (u_id user)) (u_tenant_id user)
    (u_token_version user) e "access" jti) =
    Ok (u_id user, u_tenant_id user, u_token_version user).
Proof.
  change (access_claims _) with
    (match result_of_option (ValueError "invalid literal for int()")
             (int_of_str (str_of_int (u_id user))) with
     | Ok u => Ok (u, u_tenant_id user, u_token_version user)
     | Err e => Err e
     end : result exn (Z * Z * Z)).
  by rewrite int_of_str_of_int.
Qed.

(** The row of a key is the one a query by id finds. *)
Lemma first_user_by_id d user tid :
  keyed d → users d !! u_id user = Some user → u_tenant_id user = tid → ∀ o,
  first_spec TUser (λ u, (u_id u =? u_id user) && (u_tenant_id u =? tid)) d o → o = Some user.
Proof.
  intros (_ & Hk & _) Hu Ht [u|] Ho.
  - destruct Ho as [[k Hk'] [Hi _]%andb_prop]. apply Z.eqb_eq in Hi.
    pose proof (Hk _ _ Hk') as E. cbn in E, Hk'. congruence.
  - specialize (Ho _ _ Hu). cbn in Ho. rewrite Ht, !Z.eqb_refl in Ho. done.
Qed.
Lemma first_tenant_by_id d t k :
  keyed d → tenants d !! k = Some t → ∀ o,
  first_spec TTenant (λ t, t_id t =? k) d o → o = Some t.
Proof.
  intros (Hk & _) Ht [u|] Ho.
  - destruct Ho as [[k' Hk'] Hi]. apply Z.eqb_eq in Hi.
    pose proof (Hk _ _ Hk') as E. cbn in E, Hk'. congruence.
  - specialize (Ho _ _ Ht). cbn in Ho. pose proof (Hk _ _ Ht) as E. cbn in E.
    rewrite E, Z.eqb_refl in Ho. done.
Qed.

Lemma wp_accepts user t e jti limit d w :
  keyed d → users d !! u_id user = Some user → u_is_active user = true →
  tenants d !! u_tenant_id user = Some t → t_is_active t = true →
  w_db w = d → w_session w = empty_session → limit <= e →
  wp false (get_current_user s (jwt_encode (token_claims (str_of_int (u_id user))
    (u_tenant_id user) (u_token_version user) e "access" jti) (secret_key s) (algorithm s)) None)
    (λ r w', w_clock w' <= limit → r = Ok user) w.
Proof.
  intros Hk Hu Hact Ht Htact Hd Hs Hlim.
  unfold get_current_user. apply wp_bind, wp_catch, wp_bind, wp_bind, wp_now. intros w1 Hadv1.
  apply wp_of_result.
  set (claims := token_claims _ _ _ e "access" jti).
  destruct (jwt_decode (w_clock w1 / second) _ _ _) as [claims'|err] eqn:Ed.
  - pose proof (jwt_decode_claims _ (e / second) _ _ _ _ _ Ed (decode_own _ _ _ _ _ _ _ (Z.le_refl _)))
      as Hc. fold claims in Hc. subst claims'.
    apply wp_of_result. unfold claims. rewrite access_claims_own.
    apply wp_bind, (wp_first _ _ _ _ d).
    { by rewrite (advance_db _ _ Hadv1), (advance_session _ _ Hadv1), Hd, Hs. }
    intros w2 o Hadv2 Ho. apply (first_user_by_id d user) in Ho; [|done..]. subst o.
    rewrite Hact, Z.eqb_refl. cbn [negb].
    apply wp_bind, (wp_first _ _ _ _ d).
    { by rewrite (advance_db _ _ Hadv2), (advance_session _ _ Hadv2), (advance_db _ _ Hadv1),
        (advance_session _ _ Hadv1), Hd, Hs. }
    intros w3 o Hadv3 Ho. apply (first_tenant_by_id d t) in Ho; [|done..]. subst o.
    unfold assert_active_tenant_membership. rewrite Htact. cbn [negb]. apply wp_ok_bind, wp_ret_bind.
    apply wp_bind, wp_on_proc. intros w4 _. apply wp_bind, wp_on_proc. intros w5 _. cbn [wp]. done.
  - destruct (jwt_decode_error _ _ _ _ _ Ed) as [m ->]. cbn [is_jwt_error orb wp].
    intros Hle. exfalso. unfold claims in Ed. rewrite decode_own in Ed; [done|].
    apply Z.div_le_mono; [done|lia].
Qed.
End issued.

(** C15: the access token of a login is accepted.  The token made for a user who is
    active, in an active tenant, is accepted until [access_token_expire_minutes]
    have passed, as long as the row does not change, and the request is served
    for that user. *)
Theorem issued_token_accepted `{Hcrypto : Crypto} `{!CryptoSpec} {W} `{Hserv : Services W}
    `{!ServicesSpec false W} (s : Settings) (user : User) (t : Tenant) (w w1 w2 : W)
    (access refresh : string) (r : result exn User) :
  keyed (w_db (view w)) → w_session (view w) = empty_session →
  users (w_db (view w)) !! u_id user = Some user → u_is_active user = true →
  tenants (w_db (view w)) !! u_tenant_id user = Some t → t_is_active t = true →
  run (token_pair s user) w = (Ok (access, refresh), w1) →
  run (get_current_user s access None) w1 = (r, w2) →
  w_clock (view w2) <= w_clock (view w) + access_token_expire_minutes s * 60 * second →
  r = Ok user.
Proof.
  intros Hk Hs Hu Hact Ht Htact Hmint Hget Hclock.
  assert (∃ e jti, access = jwt_encode (token_claims (str_of_int (u_id user)) (u_tenant_id user)
      (u_token_version user) e "access" jti) (secret_key s) (algorithm s) ∧
    w_clock (view w) + access_token_expire_minutes s * 60 * second <= e ∧
    w_db (view w1) = w_db (view w) ∧ w_session (view w1) = w_session (view w))
    as (e & jti & -> & He & Hd1 & Hs1).
  { pose proof (wp_run (token_pair s user) (λ r w1, ∀ access refresh, r = Ok (access, refresh) →
      ∃ e jti, access = jwt_encode (token_claims (str_of_int (u_id user)) (u_tenant_id user)
      (u_token_version user) e "access" jti) (secret_key s) (algorithm s) ∧
      w_clock (view w) + access_token_expire_minutes s * 60 * second <= e ∧
      w_db w1 = w_db (view w) ∧ w_session w1 = w_session (view w)) w) as Hr.
    rewrite Hmint in Hr. apply (λ H, Hr H _ _ eq_refl). clear Hr.
    apply wp_bind, wp_create_token. intros jti tm w1' Hadv1 Htm.
    apply wp_bind, wp_create_token. intros jti' tm' w2' Hadv2 _. cbn [wp].
    intros a' r' [= <- <-]. eexists _, jti. split; [done|]. split; [lia|].
    by rewrite (advance_db _ _ Hadv2), (advance_session _ _ Hadv2), (advance_db _ _ Hadv1),
      (advance_session _ _ Hadv1). }
  pose proof (wp_run _ _ w1 (wp_accepts s user t e jti _ _ (view w1) Hk Hu Hact Ht Htact Hd1
    (eq_trans Hs1 Hs) He)) as Hr.
  rewrite Hget in Hr. by apply Hr.
Qed.

(** A login in the small world of [UserMutations], and the request that follows. *)
Definition small_settings : Settings := default_settings "secret".
Definition minted : result exn (string * string) * world :=
  run (token_pair small_settings a_user) two_users.
Definition minted_access : string := match fst minted with Ok (a, _) => a | Err _ => "" end.
Definition minted_refresh : string := match fst minted with Ok (_, r) => r | Err _ => "" end.

Lemma minted_eq : minted = (Ok (minted_access, minted_refresh), snd minted).
Proof. apply injective_projections; [vm_compute; reflexivity|reflexivity]. Qed.

Lemma two_users_keyed : keyed (w_db two_users).
Proof. apply (bool_decide_unpack _). vm_compute. exact I. Qed.

Lemma issued_token_accepted_witness :
  fst (run (get_current_user small_settings minted_access None) (snd minted)) = Ok a_user.
Proof.
  eapply (issued_token_accepted (W:=world) small_settings a_user a_tenant two_users (snd minted) _
    minted_access minted_refresh).
  - apply two_users_keyed.
  - reflexivity.
  - vm_compute. reflexivity.
  - reflexivity.
  - vm_compute. reflexivity.
  - reflexivity.
  - apply minted_eq.
  - apply surjective_pairing.
  - vm_compute. discriminate.
Defined.

Lemma get_current_user_sound_witness :
  let '(r, w') := run (get_current_user small_settings minted_access (Some "default"))
                      (snd minted) in
  r = Ok a_user ∧ authenticated small_settings minted_access (Some "default") (snd minted) w' a_user.
Proof.
  destruct (run _ _) as [r w'] eqn:E. assert (r = Ok a_user) as ->.
  { apply (f_equal fst) in E. cbn [fst] in E. rewrite <- E. vm_compute. reflexivity. }
  split; [reflexivity|].
  refine (get_current_user_sound (faults:=false) (W:=world) small_settings minted_access
    (Some "default") (snd minted) w' a_user _ E). vm_compute. reflexivity.
Defined.
