(* ===== verification/RefreshTokens.v ===== *)
(** * A refresh token is exchanged at most once

    [rotate_refresh_token] guards the exchange with [SET key NX EX ttl].  Here
    any number of exchanges and logouts of one token run at the same time as any
    other code that leaves its revocation key alone, commands fail, processes
    die, and at most one exchange succeeds before the token expires. *)

From Stdlib Require Import ZArith Ascii String Lia.
From stdpp Require Import base tactics option list gmap strings sorting fin_maps.
From S2P Require Import Prelude PyText Json Errors Config Models Permissions Services.
From S2P Require Import Programs DbFacts RedisFacts Tickets Reference Ids Tenants Cache Cursor Users.
From S2P Require Import UserMutations Auth AuthSafety.
Local Open Scope string_scope.
Local Open Scope list_scope.
Local Open Scope Z_scope.

(** ** Exchanges and logouts of a token *)

Section token.
Context `{CryptoSpec} (faults : bool) (s : Settings) (token : string).
Context (c0 : list (string * json)) (exp : Z).
Context (Hc0 : ∀ now c, jwt_decode now token (secret_key s) (algorithm s) = Ok c → c = c0).
Context (Hexp : get c0 "exp" = JInt exp).

Local Abbreviation K := (revocation_key (get c0 "jti")).
Local Abbreviation E := (exp * second).
Local Abbreviation rgK := (rg faults E (held_once K E)).
Local Abbreviation frame := (held_once_frame K E).

(** The time to live reaches the expiry of the token. *)
Lemma set_expiry T now ttl :
  T <= now → exp - T / second <= ttl → E <= now + ttl * second.
Proof.
  intros HT Httl. unfold second in *. pose proof (Z.mul_div_le T 1000000). lia.
Qed.

(** [revoke_refresh_token], in both modes. *)
Lemma rg_revoke require_new T :
  rgK T None (revoke_refresh_token (get c0 "jti") (get c0 "exp") require_new)
    (λ r t tk, require_new = true → r = Ok true → tk = Some 1%nat).
Proof.
  unfold revoke_refresh_token. apply rg_bind, (rg_now _ _ _ K frame). intros t t' HT Ht.
  rewrite Hexp. destruct (Z.leb_spec (exp - t / second) 0) as [|Hpos].
  { cbn. by intros ->. }
  apply rg_bind. eapply rg_mono; [apply Z.le_refl| |
    by apply (rg_set faults K E require_new (exp - t / second) t'); [lia|apply (set_expiry t); lia]].
  intros [b|e] t2 t3 tk Hwin Ht3; [|done]. cbn. intros ->. intros [= ->]. by apply Hwin.
Qed.

(** The commands of the rest of the exchange. *)
Lemma leaves_session R (t : table R) p : keeps (leaves_key K) (first t p).
Proof. apply keeps_bind; [by apply keeps_call|done]. Qed.

Lemma rg_decode T :
  rgK T None (_decode_refresh_token s token)
    (λ r t tk, T <= t ∧ tk = None ∧ ∀ c, r = Ok c → c = c0).
Proof.
  unfold _decode_refresh_token. apply rg_bind, rg_catch, rg_bind, (rg_now _ _ _ K frame).
  intros t t' HT Ht. apply rg_of_result.
  destruct (jwt_decode _ _ _ _) as [c|e] eqn:Ed.
  - apply Hc0 in Ed as ->. repeat case_match; [cbn; split_and!; [lia|done|by intros ? [=]]..|].
    apply rg_bind. unfold is_refresh_token_revoked.
    apply rg_bind, (rg_read _ _ _ K frame); [done|].
    intros [n|e] t2 Ht2; cbn; [|split_and!; [lia|done|by intros ? [=]]].
    case_match; cbn; (split_and!; [lia|done|]); intros ? [=]; congruence.
  - case_match; cbn; (split_and!; [lia|done|by intros ? [=]]).
Qed.
Lemma leaves_active_user payload :
  keeps (leaves_key K) (_get_active_user_from_refresh_payload payload).
Proof.
  unfold _get_active_user_from_refresh_payload. case_match; [done|].
  apply keeps_bind; [apply keeps_of_result|]. intros uid.
  apply keeps_bind; [apply keeps_of_result|]. intros tid.
  apply keeps_bind; [apply leaves_session|]. intros [user|]; [|done].
  case_match; [done|]. apply keeps_bind.
  - apply keeps_bind; [apply leaves_session|]. intros t. apply keeps_of_result.
  - intros _. by case_match.
Qed.

Lemma leaves_token_pair user : keeps (leaves_key K) (token_pair s user).
Proof.
  assert (∀ sub tid v l ty, keeps (leaves_key K) (create_token s sub tid v l ty)) as Ht.
  { intros. apply keeps_bind; [by apply keeps_call|]. intros now.
    apply keeps_bind; [|done]. unfold uuid7.
    do 3 (apply keeps_bind; [by apply keeps_call|]; intros ?). done. }
  unfold token_pair. do 2 (apply keeps_bind; [apply Ht|]; intros ?). done.
Qed.

(** An exchange that tells whether it succeeded. *)
Definition exchange : prog bool := bind (rotate_refresh_token s token) (λ _, Ret true).

(** A successful exchange holds the ticket. *)
Definition fair (r : result exn bool) (t : Z) (tk : option nat) : Prop :=
  r = Ok true → tk = Some 1%nat.

Lemma rg_exchange T : rgK T None exchange fair.
Proof.
  unfold exchange, rotate_refresh_token. apply rg_bind, rg_bind.
  eapply rg_mono; [apply Z.le_refl| |apply rg_decode].
  intros [c|e] t t' b (HT & -> & Hc) Ht; [|by intros [=]]. rewrite (Hc c eq_refl). clear c Hc.
  apply rg_bind, (rg_keeps _ _ _ K frame); [apply leaves_active_user|].
  intros [user|e] t2 Ht2; [|by intros [=]].
  apply rg_bind. eapply rg_mono; [apply Z.le_refl| |apply rg_revoke].
  intros [fresh|e] t3 t4 b Hfresh Ht3; [|by intros [=]].
  destruct fresh; cbn [negb]; [|by intros [=]]. rewrite (Hfresh eq_refl eq_refl).
  apply (rg_keeps _ _ _ K frame); [apply leaves_token_pair|]. intros [x|e] t5 Ht5; by intros _.
Qed.

Definition logging_out : prog bool := bind (logout_user s token) (λ _, Ret false).

Lemma rg_logging_out T : rgK T None logging_out fair.
Proof.
  unfold logging_out, logout_user. apply rg_bind, rg_bind.
  eapply rg_mono; [apply Z.le_refl| |apply rg_decode].
  intros [c|e] t t' b (HT & -> & Hc) Ht; [|by intros [=]]. rewrite (Hc c eq_refl).
  apply rg_bind. eapply rg_mono; [apply Z.le_refl| |apply rg_revoke].
  intros [b'|e] t3 t4 b _ _; by intros [=].
Qed.
End token.

(** What may run at the same time: exchanges and logouts of the token, and any
    code that does not touch its revocation key. *)
Inductive token_user `{Crypto} (s : Settings) (token key : string) : prog bool → Prop :=
| user_exchange : token_user s token key (exchange s token)
| user_logout : token_user s token key (logging_out s token)
| user_other (q : prog unit) :
    keeps (leaves_key key) q → token_user s token key (bind q (λ _, Ret false)).

(** C16: a refresh token is exchanged at most once.  Any number of exchanges and
    logouts of one token run at the same time as other code, any command may
    fail and any process may stop, the clock is any that does not go back: as
    long as the token has not expired, at most one of the exchanges returns a
    new pair of tokens. *)
Theorem refresh_token_single_use `{CryptoSpec} (faults crashes : bool) (s : Settings)
    (token : string) (t0 : Z) (claims : list (string * json)) (exp : Z)
    (w0 w : world) (ps : list (prog bool)) (i j : nat) :
  jwt_decode t0 token (secret_key s) (algorithm s) = Ok claims →
  get claims "exp" = JInt exp →
  star (pool_step faults crashes (token_user s token (revocation_key (get claims "jti"))))
    ([], w0) (ps, w) →
  w_clock w < exp * second →
  ps !! i = Some (Ret true) → ps !! j = Some (Ret true) → i = j.
Proof.
  intros Hd Hexp Hstar Hclock Hi Hj.
  assert (∀ now c, jwt_decode now token (secret_key s) (algorithm s) = Ok c → c = claims) as Hc
    by (intros now c Hc; by apply (jwt_decode_claims _ _ _ _ _ _ _ Hd Hc)).
  set (K := revocation_key (get claims "jti")) in *.
  destruct (pool_tickets faults (exp * second) (held_once K (exp * second)) fair)
    with (crashes := crashes) (may_start := token_user s token K) (w0 := w0) (ps := ps) (w := w)
    as (tk & Hfair & Huniq & _); [done|done|by left| |done|done|].
  - intros p Hp T _. destruct Hp as [| |q Hq]; [by apply rg_exchange|by apply rg_logging_out|].
    apply rg_bind, (rg_keeps _ _ _ K (held_once_frame K (exp * second))); [done|].
    intros [[]|e] t _; by intros [=].
  - eapply Huniq; [by eapply (Hfair _ (Ok true))|by eapply (Hfair _ (Ok true))].
Qed.

(** Two exchanges of the refresh token of a login, command by command in turn:
    one of them returns new tokens, the other one does not. *)
Definition two_exchanges : list (prog bool) * world :=
  schedule (concat (replicate 15 [0; 1]%nat))
    [exchange small_settings minted_refresh; exchange small_settings minted_refresh] (snd minted).

Definition minted_claims : list (string * json) :=
  match jwt_decode 0 minted_refresh "secret" "HS256" with Ok c => c | Err _ => [] end.
Definition minted_exp : Z :=
  match get minted_claims "exp" with JInt e => e | _ => 0 end.

Lemma refresh_token_single_use_witness :
  fst two_exchanges !! 0%nat = Some (Ret true) ∧ fst two_exchanges !! 1%nat ≠ Some (Ret true).
Proof.
  assert (fst two_exchanges !! 0%nat = Some (Ret true)) as H0 by (vm_compute; reflexivity).
  split; [exact H0|]. intros H1. enough (0%nat = 1%nat) as E by discriminate E.
  eapply (refresh_token_single_use false false small_settings minted_refresh 0 minted_claims
    minted_exp (snd minted) (snd two_exchanges) (fst two_exchanges) 0 1).
  - vm_compute. reflexivity.
  - vm_compute. reflexivity.
  - eapply star_trans; [apply (star_start _ _ [exchange small_settings minted_refresh;
      exchange small_settings minted_refresh])|].
    + repeat constructor.
    + rewrite <- surjective_pairing. apply star_schedule.
  - vm_compute. reflexivity.
  - exact H0.
  - exact H1.
Defined.
