(* ===== verification/Http.v ===== *)
(** * Requests

    The parts of a request the program reads, and [app/core/client_ip.py]. *)

From Stdlib Require Import ZArith Ascii String Lia.
From stdpp Require Import base tactics option list strings.
From S2P Require Import Prelude PyText Json Errors Config.
Local Open Scope string_scope.
Local Open Scope Z_scope.

Record request := {
  rq_method : string;
  rq_path : string;
  rq_headers : list (string * string);
  rq_client : option string;            (* [request.client.host] *)
  rq_body : string;
}.

(** [request.headers.get(name)]: names are compared without case, the first
    header of a name counts. *)
Fixpoint header_get (name : string) (l : list (string * string)) : option string :=
  match l with
  | [] => None
  | (k, v) :: l' => if String.eqb (lower k) (lower name) then Some v else header_get name l'
  end.

Definition header (rq : request) (name : string) : option string :=
  header_get name (rq_headers rq).

(** [if text: ...] on an optional text. *)
Definition some_truthy (o : option string) : option string :=
  match o with Some t => if truthy t then Some t else None | None => None end.

Definition get_client_ip (s : Settings) (rq : request) : string :=
  let direct := match rq_client rq with None => "unknown" | Some host => host end in
  if rate_limit_trust_forwarded_headers s then
    match some_truthy (header rq "X-Forwarded-For") with
    | Some forwarded_for => strip (opt_default "" (head (split "," forwarded_for)))
    | None =>
        match some_truthy (header rq "X-Real-IP") with
        | Some real_ip => strip real_ip
        | None => direct
        end
    end
  else direct.
