(* ===== verification/RateLimit.v ===== *)
(** * Rate limits

    [app/api/dependencies/rate_limit.py]: a counter per key and window in Redis.
    Whatever runs at the same time and whatever fails, a window lets at most
    [limit] requests of a key through; a request that Redis cannot count is
    refused. *)

From Stdlib Require Import ZArith Ascii String Lia.
From stdpp Require Import base tactics option list gmap strings.
From S2P Require Import Prelude PyText Json Errors Config Models Services Programs RedisFacts.
From S2P Require Import Tickets Reference Http.
Local Open Scope string_scope.
Local Open Scope list_scope.
Local Open Scope Z_scope.

Definition REDIS_UNAVAILABLE_DETAIL : string := "Service temporarily unavailable".

Definition redis_unavailable : exn := HTTPException 503 REDIS_UNAVAILABLE_DETAIL [].
Definition too_many_requests : exn := HTTPException 429 "Too many requests" [].

Definition enforce_rate_limit_counter (key : string) (limit window_seconds : Z) : prog unit :=
  current_count ← catch
    (current_count ← redis (INCR key);
     if current_count =? 1
     then _ ← redis (EXPIRE key window_seconds); Ret current_count
     else Ret current_count)
    (λ e, if is_redis_error e then Raise redis_unavailable else Raise e);
  if limit <? current_count then Raise too_many_requests else Ret tt.

Section limits.
Context `{Crypto} (s : Settings).

(** The dependency [rate_limit] makes; making it may raise. *)
Definition rate_limit (limit window_seconds : option Z) (key_prefix : string) :
    result exn (request → prog unit) :=
  if match limit with Some l => l <=? 0 | None => false end then
    Err (ValueError "rate limit must be greater than 0")
  else if match window_seconds with Some l => l <=? 0 | None => false end then
    Err (ValueError "rate limit window_seconds must be greater than 0")
  else Ok (λ rq,
    enforce_rate_limit_counter (key_prefix ++ ":" ++ get_client_ip s rq)
      (opt_default (rate_limit_default_limit s) limit)
      (opt_default (rate_limit_default_window_seconds s) window_seconds)).

Definition auth_login_rate_limit :=
  rate_limit (Some (auth_login_rate_limit_limit s))
    (Some (auth_login_rate_limit_window_seconds s)) "rate_limit:auth_login".
Definition auth_register_rate_limit :=
  rate_limit (Some (auth_register_rate_limit_limit s))
    (Some (auth_register_rate_limit_window_seconds s)) "rate_limit:auth_register".
Definition auth_refresh_rate_limit :=
  rate_limit (Some (auth_refresh_rate_limit_limit s))
    (Some (auth_refresh_rate_limit_window_seconds s)) "rate_limit:auth_refresh".
Definition auth_logout_rate_limit :=
  rate_limit (Some (auth_logout_rate_limit_limit s))
    (Some (auth_logout_rate_limit_window_seconds s)) "rate_limit:auth_logout".

(** [email] is the one the route has put into the scope of the request. *)
Definition password_reset_rate_limit (rq : request) (email : option string) : prog unit :=
  let email := lower (opt_default "" email) in
  enforce_rate_limit_counter
    ("rate_limit:password_reset:" ++ get_client_ip s rq ++ ":" ++ sha256_hex email)
    (password_reset_rate_limit_limit s) (password_reset_rate_limit_window_seconds s).

Definition webhook_ingress_rate_limit (rq : request) : prog unit :=
  enforce_rate_limit_counter ("rate_limit:webhook_ingress:" ++ get_client_ip s rq)
    (webhook_ingress_rate_limit_limit s) (webhook_ingress_rate_limit_window_seconds s).

Definition enforce_webhook_provider_rate_limit (provider : string) : prog unit :=
  let normalized_provider := lower (strip provider) in
  if String.eqb normalized_provider "" then Ret tt
  else enforce_rate_limit_counter ("rate_limit:webhook_provider:" ++ normalized_provider)
         (webhook_provider_rate_limit_limit s) (webhook_provider_rate_limit_window_seconds s).
End limits.

(** ** The counter *)

(** [n] requests were counted since the start [t0] of a window of [window]
    seconds, and the counter is there until its end. *)
Definition counted (K : string) (t0 E : Z) (n : nat) (w : world) : Prop :=
  t0 <= w_clock w ∧
  match w_redis w !! K with
  | None => n = 0%nat
  | Some (REntry v ex) =>
      v = RStr (str_of_int (Z.of_nat n)) ∧ (1 <= n)%nat ∧
      match ex with Some x => E <= x | None => True end
  end.

Lemma counted_frame K t0 E n w w' :
  w_redis w' !! K = w_redis w !! K → w_clock w <= w_clock w' →
  counted K t0 E n w → counted K t0 E n w'.
Proof. unfold counted. intros -> Hc [Ht Hn]. split; [lia|done]. Qed.

Section window.
Context `{Crypto} (faults : bool) (K : string) (limit window t0 : Z).
Local Abbreviation E := (t0 + window * second).
Local Abbreviation inv := (counted K t0 E).

Lemma live_counted n w :
  inv n w → w_clock w < E → live (w_clock w) (w_redis w) K = w_redis w !! K.
Proof.
  intros [_ Hn] HE. unfold live. destruct (w_redis w !! K) as [[v [x|]]|]; [|done..].
  destruct Hn as (_ & _ & Hx). cbn. by rewrite (proj2 (Z.leb_gt _ _)) by lia.
Qed.

(** What the two commands do to the counter. *)
Lemma incr_counts n w r st' :
  inv n w → w_clock w < E → redis_exec (w_clock w) (INCR K) (w_redis w) = (r, st') →
  ∃ n', inv n' (with_redis st' w) ∧
    ((∃ e, r = Err e ∧ is_redis_error e = true ∧ n' = n) ∨ r = Ok (Z.of_nat (S n)) ∧ n' = S n).
Proof.
  intros Hi HE Hx. cbn in Hx. unfold as_str in Hx. rewrite (live_counted n) in Hx by done.
  destruct Hi as [Ht Hn]. unfold counted. destruct (w_redis w !! K) as [[v ex]|] eqn:EK.
  - destruct Hn as (-> & Hn & Hex).
    rewrite int_of_str_of_int, String.eqb_refl in Hx. case_match eqn:Hb; injection Hx as <- <-.
    + exists (S n). cbn. rewrite lookup_insert_eq. split; [|right; split; [f_equal; lia|done]].
      split; [done|]. split_and!; [do 2 f_equal; lia|lia|done].
    + exists n. cbn. rewrite EK. split; [done|]. left. eauto.
  - subst n. injection Hx as <- <-. exists 1%nat. cbn. rewrite lookup_insert_eq.
    split; [done|]. right. done.
Qed.

Lemma expire_keeps n w r st' :
  inv n w → w_clock w < E → 0 < window →
  redis_exec (w_clock w) (EXPIRE K window) (w_redis w) = (r, st') → inv n (with_redis st' w).
Proof.
  intros Hi HE Hw Hx. cbn in Hx. rewrite (live_counted n) in Hx by done.
  destruct Hi as [Ht Hn]. unfold counted. split; [done|].
  destruct (w_redis w !! K) as [[v ex]|] eqn:EK.
  - destruct Hn as (-> & Hn & Hex). rewrite (proj2 (Z.leb_gt window 0)) in Hx by lia.
    injection Hx as <- <-. cbn. rewrite lookup_insert_eq. split_and!; [done..|]. unfold second. lia.
  - injection Hx as <- <-. cbn. by rewrite EK.
Qed.

(** ** A request under interference *)

(** Code whose end nobody waits for. *)
Definition background {A} (q : prog unit) : prog A := bind (catch q (λ _, Ret tt)) (λ _, Raise killed).

(** The answers of a request that is not let through, and of one that is killed. *)
Definition refused (e : exn) : Prop := e = too_many_requests ∨ e = redis_unavailable ∨ e = killed.

(** A request that is let through holds a ticket within the limit. *)
Definition granted (tk : option nat) : Prop := ∃ n, tk = Some n ∧ Z.of_nat n <= limit.
Definition within {A} (r : result exn A) (t : Z) (tk : option nat) : Prop :=
  match r with Ok _ => granted tk | Err e => refused e ∨ granted tk end.

Lemma rg_decide T n :
  rg faults E inv T (Some n) (if limit <? Z.of_nat n then Raise too_many_requests else Ret tt)
    (λ r _ tk, match r with Ok _ => granted tk | Err e => refused e end).
Proof. destruct (Z.ltb_spec limit (Z.of_nat n)); cbn; [by left|]. by exists n. Qed.

Lemma expire_inv n w r w' :
  0 < window → w_clock w' < E → svc_spec faults (Redis (EXPIRE K window)) w r w' →
  inv n w → inv n w'.
Proof.
  intros Hw HE (w1 & Hadv & Hcase) Hi.
  assert (inv n w1) as Hi1.
  { eapply counted_frame; [|by apply advance_clock|exact Hi]. by rewrite (advance_redis _ _ Hadv). }
  assert (∀ r' w2, cmd_spec (Redis (EXPIRE K window)) w1 r' w2 → w_clock w2 < E → inv n w2) as Hx.
  { intros r' w2 Hs HE2. cbn [cmd_spec] in Hs.
    destruct (redis_exec _ _ _) as [r0 st0] eqn:Hx. injection Hs as -> ->.
    by eapply expire_keeps. }
  destruct Hcase as [Hs|(_ & e & _ & _ & [->|[r' Hs]])]; [|done|]; by eapply Hx.
Qed.

Lemma expire_error w e w' :
  svc_spec faults (Redis (EXPIRE K window)) w (Err e) w' → is_redis_error e = true.
Proof.
  intros (w1 & _ & [Hs|(_ & e' & [m ->] & [= ->] & _)]); [|done].
  cbn in Hs. by destruct (live _ _ _).
Qed.

(** The counter lets a request through only with a ticket, and refuses it
    otherwise. *)
Lemma rg_counter T :
  0 < window → rg faults E inv T None (enforce_rate_limit_counter K limit window)
    (λ r _ tk, match r with Ok _ => granted tk | Err e => refused e end).
Proof.
  intros Hw. unfold enforce_rate_limit_counter. apply rg_bind, rg_catch, rg_bind.
  apply rg_svc. intros n w r w' HT HE Hi (w1 & Hadv & Hcase).
  pose proof (advance_clock _ _ Hadv) as Hc1.
  assert (inv n w1) as Hi1.
  { eapply counted_frame; [|exact Hc1|exact Hi]. by rewrite (advance_redis _ _ Hadv). }
  assert (∀ r' w2, cmd_spec (Redis (INCR K)) w1 r' w2 → w_clock w2 < E →
    ∃ n', inv n' w2 ∧ ((∃ e, r' = Err e ∧ is_redis_error e = true ∧ n' = n) ∨
                       r' = Ok (Z.of_nat (S n)) ∧ n' = S n)) as Hincr.
  { intros r' w2 Hs HE2. cbn [cmd_spec] in Hs.
    destruct (redis_exec _ _ _) as [r0 st0] eqn:Hx. injection Hs as -> ->.
    by eapply incr_counts. }
  destruct Hcase as [Hs|(_ & e & [m ->] & -> & [->|[r' Hs]])].
  - destruct (Hincr _ _ Hs HE) as (n' & Hi' & [(e & -> & He & ->)|[-> ->]]).
    + exists n, None. split; [done|]. split; [apply tick_refl|]. cbn. rewrite He. right. by left.
    + exists (S n), (Some (S n)). split; [done|].
      split; [split; [lia|right; split; [done|exists (S n); split; [done|lia]]]|].
      cbv beta iota. destruct (Z.of_nat (S n) =? 1).
      * apply rg_bind, rg_call; [intros n2 w2 r w3 _ HE3 Hs2; by apply (expire_inv _ _ r)|].
        intros w2 [b|e] w3 _ He; [apply rg_decide|]. apply expire_error in He. cbn. rewrite He. right. by left.
      * apply rg_decide.
  - exists n, None. split; [done|]. split; [apply tick_refl|]. cbn. right. by left.
  - destruct (Hincr _ _ Hs HE) as (n' & Hi' & Hn').
    exists n', None. split; [done|].
    split; [split; [destruct Hn' as [(? & _ & _ & ->)|[_ ->]]; lia|by left]|]. cbn. right. by left.
Qed.

(** A request that goes on behind the counter, and code that does not ask it. *)
Lemma rg_request {A} T (f : unit → prog A) :
  0 < window → keeps (leaves_key K) (f tt) →
  rg faults E inv T None (bind (enforce_rate_limit_counter K limit window) f) within.
Proof.
  intros Hw Hf. apply rg_bind. eapply rg_mono; [reflexivity| |by apply rg_counter].
  intros [[]|e] t t' tk Hr _; [|by left].
  apply (rg_keeps _ _ _ K (counted_frame K t0 _)); [done|]. intros [a|e] t2 _; [done|by right].
Qed.

Lemma rg_background {A} T (q : prog unit) :
  keeps (leaves_key K) q → rg faults E inv T None (background (A:=A) q) within.
Proof.
  revert T. induction q as [|e|B c k IH]; intros T; cbn; [by left; right; right..|].
  intros [Hc Hk] n w r w' Hw HE Hi Hs. exists n, None.
  split_and!; [by eapply (leaves_key_inv faults inv K (counted_frame K t0 _))|apply tick_refl|by apply IH].
Qed.
End window.

(** Requests that are limited by a key, whatever they do once they are let
    through, and code that leaves its counter alone. *)
Inductive limited `{Crypto} {A} (K : string) (limit window : Z) : prog A → Prop :=
| limited_request (f : unit → prog A) :
    keeps (leaves_key K) (f tt) →
    limited K limit window (bind (enforce_rate_limit_counter K limit window) f)
| limited_other (q : prog unit) : keeps (leaves_key K) q → limited K limit window (background q).

(** A request that was let through and has ended. *)
Definition answered {A} (p : prog A) : Prop :=
  match p with Ret _ => True | Raise e => ¬ refused e | Call _ _ => False end.

(** A window lets at most [limit] requests of a key through.  Any number of
    requests and any other code run at the same time, whatever a request does when
    it is let through; commands fail, carried out or not, processes stop anywhere.
    If the key is not counted when the window starts, the requests that have been
    answered before its end, with a result or an error of their own and not with a
    refusal, are at most [limit]. *)
Theorem rate_limit_bounds_window `{Crypto} {A} (faults crashes : bool) (K : string)
    (limit window : Z) (w0 w : world) (ps : list (prog A)) (passed : list nat) :
  0 < window → 0 <= limit → w_redis w0 !! K = None →
  star (pool_step faults crashes (limited K limit window)) ([], w0) (ps, w) →
  w_clock w < w_clock w0 + window * second →
  NoDup passed → (∀ j, j ∈ passed → ∃ p, ps !! j = Some p ∧ answered p) →
  Z.of_nat (length passed) <= limit.
Proof.
  intros Hw Hlim H0 Hstar HE Hnd Hpassed. set (t0 := w_clock w0) in *.
  destruct (pool_tickets faults (t0 + window * second) (counted K t0 (t0 + window * second))
    (@within limit A)) with (crashes := crashes) (may_start := limited (A:=A) K limit window)
    (w0 := w0) (ps := ps) (w := w) as (tk & Hfair & Huniq & Hpos); [| | | |done|done|].
  - by intros [] t t' b.
  - intros t b. left. by right; right.
  - split; [done|]. by rewrite H0.
  - intros p Hp T _. destruct Hp as [f Hf|q Hq]; [by apply rg_request|by apply rg_background].
  - enough (length passed <= Z.to_nat limit)%nat by lia.
    apply (tickets_bound tk); [done..|]. intros j Hj.
    destruct (Hpassed _ Hj) as (p & Hp & Hans).
    assert (granted limit (tk j)) as (n & Hn & Hle).
    { destruct p as [a|e|]; [|destruct (Hfair j (Err e) _ Hp eq_refl)|]; [|done..].
      exact (Hfair j (Ok a) _ Hp eq_refl). }
    exists n. split; [done|]. pose proof (Hpos _ _ Hn). lia.
Qed.

(** Three requests of one client, one after the other, with a limit of two. *)
Definition three_requests : list (prog unit) * world :=
  schedule (concat (replicate 2 [0; 1; 2]%nat))
    (replicate 3 (bind (enforce_rate_limit_counter "rate_limit:x" 2 60) Ret)) (world_at 1000).

Lemma rate_limit_bounds_window_witness :
  fst three_requests = [Ret tt; Ret tt; Raise too_many_requests] ∧
  Z.of_nat (length [0; 1]%nat) <= 2.
Proof.
  split; [vm_compute; reflexivity|].
  apply (rate_limit_bounds_window false false "rate_limit:x" 2 60 (world_at 1000)
    (snd three_requests) (fst three_requests) [0; 1]%nat).
  - reflexivity.
  - discriminate.
  - reflexivity.
  - eapply star_trans; [apply (star_start _ _ (replicate 3
      (bind (enforce_rate_limit_counter "rate_limit:x" 2 60) Ret)))|].
    + repeat constructor.
    + rewrite <- surjective_pairing. apply star_schedule.
  - vm_compute. reflexivity.
  - apply (bool_decide_unpack _). vm_compute. exact I.
  - intros j Hj. exists (Ret tt). rewrite !elem_of_cons in Hj. destruct Hj as [->|[->|Hj]];
      [vm_compute; done..|by apply elem_of_nil in Hj].
Defined.

(** ** One request *)

Definition verdict (limit count : Z) : result exn unit :=
  if limit <? count then Err too_many_requests else Ok tt.

(** What a request does to the counter: a key that is not counted starts a window
    of its own, any other keeps its end. *)
Definition counted_once (K : string) (limit window : Z) (w w' : world) (r : result exn unit) :=
  ∃ now now', w_clock w <= now <= now' ∧
  match live now (w_redis w) K with
  | None => r = verdict limit 1 ∧
      w_redis w' = <[K := REntry (RStr "1") (Some (now' + window * second))]> (w_redis w)
  | Some e => ∃ n, re_value e = RStr (str_of_int n) ∧ r = verdict limit (n + 1) ∧
      w_redis w' = <[K := REntry (RStr (str_of_int (n + 1))) (re_expires e)]> (w_redis w)
  end.

Lemma wp_once `{Crypto} K limit window w :
  0 < window →
  (∀ now e, live now (w_redis w) K = Some e →
     ∃ n, re_value e = RStr (str_of_int n) ∧ 1 <= n < 2 ^ 62) →
  wp false (enforce_rate_limit_counter K limit window)
    (λ r w', counted_once K limit window w w' r) w.
Proof.
  intros Hw Hn. unfold enforce_rate_limit_counter.
  apply wp_bind, wp_catch, wp_bind, wp_redis; [done|]. intros w1 Hadv1.
  pose proof (advance_clock _ _ Hadv1) as Hc1.
  assert (∀ count w2, wp false (if limit <? count then Raise too_many_requests else Ret tt)
    (λ r w', r = verdict limit count ∧ w' = w2) w2) as Hverdict
    by (intros count w2; unfold verdict; by destruct (limit <? count)).
  cbn [redis_exec]. unfold as_str. destruct (live (w_clock w1) (w_redis w) K) as [[v ex]|] eqn:El.
  - destruct (Hn _ _ El) as (n & Hv & Hrange). cbn in Hv. subst v.
    rewrite int_of_str_of_int, String.eqb_refl.
    rewrite (proj2 (Z.leb_le (- 2 ^ 63) n)), (proj2 (Z.ltb_lt (n + 1) (2 ^ 63))) by lia.
    cbn [andb]. rewrite (proj2 (Z.eqb_neq (n + 1) 1)) by lia. cbn [wp].
    eapply wp_mono; [|apply Hverdict]. intros r w2 [-> ->].
    exists (w_clock w1), (w_clock w1). split; [lia|]. rewrite El. by exists n.
  - cbn [Z.eqb Pos.eqb]. apply wp_bind, wp_redis; [done|]. intros w2 Hadv2.
    pose proof (advance_clock _ _ Hadv2) as Hc2. cbn in Hc2.
    cbn [redis_exec with_redis w_redis]. unfold live. rewrite lookup_insert_eq. cbn [re_expires].
    rewrite (proj2 (Z.leb_gt window 0)) by lia. cbn [wp re_value].
    eapply wp_mono; [|apply Hverdict]. intros r w3 [-> ->].
    exists (w_clock w1), (w_clock w2). split; [lia|]. rewrite El. split; [done|]. cbn.
    by rewrite insert_insert_eq.
Qed.

(** One request, when Redis answers.  It is let through exactly if the count
    with it is within the limit and refused with 429 otherwise; the first one of a
    window starts a counter that ends [window] seconds later, the others only
    count. *)
Theorem rate_limit_request `{ServicesSpec false W} (K : string) (limit window : Z) (w : W) :
  0 < window →
  (∀ now e, live now (w_redis (view w)) K = Some e →
     ∃ n, re_value e = RStr (str_of_int n) ∧ 1 <= n < 2 ^ 62) →
  let '(r, w') := run (enforce_rate_limit_counter K limit window) w in
  counted_once K limit window (view w) (view w') r.
Proof.
  intros Hw Hn. pose proof (wp_run _ _ w (wp_once K limit window (view w) Hw Hn)) as Hr.
  by destruct (run _ _).
Qed.

(** The third request of a window with a limit of two. *)
Definition counted_twice : world :=
  with_redis {["k" := REntry (RStr "2") (Some 5000000)]} (world_at 1000).

Lemma rate_limit_request_witness :
  let '(r, w') := run (enforce_rate_limit_counter "k" 2 60) counted_twice in
  counted_once "k" 2 60 counted_twice w' r ∧ r = Err too_many_requests.
Proof.
  pose proof (rate_limit_request (W:=world) "k" 2 60 counted_twice) as Hr.
  destruct (run _ _) as [r w'] eqn:E. split.
  - apply Hr; [reflexivity|]. intros now e He. exists 2.
    unfold live in He.
    replace (w_redis (view counted_twice) !! "k") with
      (Some (REntry (RStr "2") (Some 5000000))) in He by (vm_compute; reflexivity).
    cbn [re_expires] in He. destruct (5000000 <=? now); [discriminate He|].
    injection He as <-. split; [reflexivity|lia].
  - apply (f_equal fst) in E. cbn [fst] in E. rewrite <- E. vm_compute. reflexivity.
Defined.
