(* ===== verification/QueueSafety.v ===== *)
(** * No job is lost

    Any number of API processes and workers run the operations of [JobQueue] on
    the same Redis keys, one command at a time and in any order.  A job moves
    between the four keys by a removal followed by a push, so between the two it
    is only in the memory of one process: a program that took a job out owes it.
    [safe] says that a program pays its debts before it ends; the invariant is
    that a job is always in a queue or owed by a running program.

    This is under the hypotheses that no process crashes and no command fails;
    [dequeue_crash_loses_job] shows that a crash between the removal and the push
    does lose the job. *)

From Stdlib Require Import ZArith String Lia.
From stdpp Require Import base tactics option list gmap strings sorting fin_maps.
From S2P Require Import Prelude PyText Json Errors Config DateTime Models Services.
From S2P Require Import Programs Reference RedisFacts Ids JobQueue.
Set Warnings "-level-tolerance,-clear-no-such-hyp".
Local Open Scope Z_scope.

Section safety.
Context `{Crypto}.
(** The ready, processing, delayed and failed keys. *)
Context (rq pq dq fq : string).
(** The job that must not be lost, by the text of its id. *)
Context (i : string).

Definition queue_keys : list string := [rq; pq; dq; fq].

Definition list_keys : list string := [rq; pq; fq].

(** The keys hold what the code expects of them. *)
Definition queues_typed (st : rstate) : Prop :=
  (∀ k, k ∈ list_keys → is_Some (rlist st k)) ∧ is_Some (rzset st dq).

(** The job is in one of the four queues. *)
Definition present (st : rstate) : Prop :=
  ∃ raw, job_key raw = Some i ∧
    ((∃ k l, k ∈ list_keys ∧ rlist st k = Some l ∧ raw ∈ l) ∨
     (∃ z, rzset st dq = Some z ∧ is_Some (z !! raw))).

Definition is_ours (raw : string) : bool := bool_decide (job_key raw = Some i).

Definition redis_safe {B} (c : redis_cmd B) :
    (result exn B → bool → Prop) → bool → Prop :=
  match c in redis_cmd B return (result exn B → bool → Prop) → bool → Prop with
  | LPUSH k v => λ rec owed,
      k ∈ list_keys ∧ ∀ n, rec (Ok n) (owed && negb (is_ours v))
  | ZADD k m _ => λ rec owed, k = dq ∧ ∀ n, rec (Ok n) (owed && negb (is_ours m))
  | LREM1 k v => λ rec owed,
      k ∈ list_keys ∧ rec (Ok 0) owed ∧ rec (Ok 1) (owed || is_ours v)
  | ZREM k m => λ rec owed,
      k = dq ∧ rec (Ok 0) owed ∧ rec (Ok 1) (owed || is_ours m)
  | RPOP k => λ rec owed,
      k ∈ list_keys ∧ rec (Ok None) owed ∧
      ∀ v, rec (Ok (Some v)) (owed || is_ours v)
  | BRPOPLPUSH src dst _ => λ rec owed,
      src = rq ∧ dst = pq ∧ ∀ o, rec (Ok o) owed
  | LRANGE k _ _ => λ rec owed, k ∈ list_keys ∧ ∀ l, rec (Ok l) owed
  | ZRANGEBYSCORE k _ _ => λ rec owed, k = dq ∧ ∀ l, rec (Ok l) owed
  | SET k _ _ _ | GET k | EXISTS k | DEL k | INCR k | EXPIRE k _ => λ rec owed,
      k ∉ queue_keys ∧ ∀ r, rec r owed
  | DELS ks => λ rec owed, (∀ k, k ∈ ks → k ∉ queue_keys) ∧ ∀ r, rec r owed
  | PING => λ rec owed, ∀ r, rec r owed
  end.

Definition svc_safe {B} (c : svc B) : (result exn B → bool → Prop) → bool → Prop :=
  match c in svc B return (result exn B → bool → Prop) → bool → Prop with
  | Redis c => redis_safe c
  | _ => λ rec owed, ∀ r, rec r owed
  end.

(** The program never loses the job, if it [owed] it at the start. *)
Fixpoint safe {A} (owed : bool) (p : prog A) : Prop :=
  match p with
  | Call c k => svc_safe c (λ r o, safe o (k r)) owed
  | _ => owed = false
  end.

Lemma svc_safe_mono {B} (c : svc B) (R R' : result exn B → bool → Prop) o :
  (∀ r o, R r o → R' r o) → svc_safe c R o → svc_safe c R' o.
Proof.
  intros HR. destruct c; cbn; [|by eauto..].
  destruct c; cbn; intros; destruct_and?; split_and?; eauto.
Qed.

Lemma safe_bind {A B} (p : prog A) (f : A → prog B) o :
  safe o p → (∀ a, safe false (f a)) → safe o (bind p f).
Proof.
  intros Hp Hf. revert o Hp. induction p as [a|e|C c k IH]; cbn; intros o Hp.
  - rewrite Hp. apply Hf.
  - done.
  - eapply svc_safe_mono; [|exact Hp]. cbn. auto.
Qed.

(** *** A step keeps the job present or owed *)

Lemma list_keys_queue_keys k : k ∈ list_keys → k ∈ queue_keys.
Proof. unfold list_keys, queue_keys. set_solver. Qed.

Lemma rlist_frame st st' k : st' !! k = st !! k → rlist st' k = rlist st k.
Proof. unfold rlist. by intros ->. Qed.
Lemma rzset_frame st st' k : st' !! k = st !! k → rzset st' k = rzset st k.
Proof. unfold rzset. by intros ->. Qed.

Lemma queue_frame st st' :
  (∀ k, k ∈ queue_keys → st' !! k = st !! k) →
  (queues_typed st → queues_typed st') ∧ (present st → present st').
Proof.
  intros Hk. assert (dq ∈ queue_keys) by (unfold queue_keys; set_solver).
  unfold queues_typed, present. rewrite (rzset_frame st st') by auto. split.
  - intros [Hl Hz]. split; [|done]. intros k Hin.
    rewrite (rlist_frame st) by auto using list_keys_queue_keys. auto.
  - intros (raw & Hr & [(k & l & Hin & Hl & Hraw)|Hz]); exists raw; (split; [done|]); [left|by right].
    exists k, l. rewrite (rlist_frame st) by auto using list_keys_queue_keys. done.
Qed.

Context (Hkeys : NoDup queue_keys).

Lemma list_key_ne k : k ∈ list_keys → k ≠ dq.
Proof.
  unfold queue_keys in Hkeys. rewrite !NoDup_cons, !not_elem_of_cons in Hkeys.
  unfold list_keys. set_solver.
Qed.
Lemma ready_ne_processing : rq ≠ pq.
Proof. unfold queue_keys in Hkeys. rewrite !NoDup_cons in Hkeys. set_solver. Qed.

Lemma rlist_put_list_case k l st k' :
  rlist (put_list k l None st) k' = if decide (k = k') then Some l else rlist st k'.
Proof. case_decide; [subst; apply rlist_put_list|by apply rlist_put_list_ne]. Qed.

Section put_list.
Context (st : rstate) (k : string) (l l' : list string).
Context (Hk : k ∈ list_keys).

Lemma typed_put_list : queues_typed st → queues_typed (put_list k l' None st).
Proof.
  intros [Hl Hz]. split.
  - intros k' Hk'. rewrite rlist_put_list_case. case_decide; [by eexists|auto].
  - rewrite rzset_put_list_ne by (by apply list_key_ne). done.
Qed.

Lemma present_put_list : rlist st k = Some l →
  (∀ raw, job_key raw = Some i → raw ∈ l → raw ∈ l') →
  present st → present (put_list k l' None st).
Proof.
  intros Hl Hsub (raw & Hr & [(k' & l0 & Hk' & Hl0 & Hraw)|(z & Hz & Hraw)]);
  exists raw; (split; [done|]).
  - left. exists k'. rewrite rlist_put_list_case. case_decide; [subst|by eauto].
  exists l'. rewrite Hl in Hl0. injection Hl0 as ->. eauto.
  - right. rewrite rzset_put_list_ne by (by apply list_key_ne). eauto.
Qed.

Lemma present_put_list_new raw :
  job_key raw = Some i → raw ∈ l' → present (put_list k l' None st).
Proof.
  intros Hr Hin. exists raw. split; [done|]. left. exists k, l'.
  by rewrite rlist_put_list_case, decide_True.
Qed.
End put_list.

Section put_zset.
Context (st : rstate) (z z' : gmap string Z).

Lemma typed_put_zset : queues_typed st → queues_typed (put_zset dq z' None st).
Proof.
  intros [Hl Hz]. split.
  - intros k' Hk'. rewrite rlist_put_zset_ne by (symmetry; by apply list_key_ne). auto.
  - rewrite rzset_put_zset. by eexists.
Qed.

Lemma present_put_zset : rzset st dq = Some z →
  (∀ raw, job_key raw = Some i → is_Some (z !! raw) → is_Some (z' !! raw)) →
  present st → present (put_zset dq z' None st).
Proof.
  intros Hz Hsub (raw & Hr & [(k' & l0 & Hk' & Hl0 & Hraw)|(z0 & Hz0 & Hraw)]);
  exists raw; (split; [done|]).
  - left. exists k', l0. rewrite rlist_put_zset_ne by (symmetry; by apply list_key_ne). done.
  - right. rewrite rzset_put_zset. exists z'. rewrite Hz in Hz0. injection Hz0 as ->. eauto.
Qed.

Lemma present_put_zset_new raw :
  job_key raw = Some i → is_Some (z' !! raw) → present (put_zset dq z' None st).
Proof.
  intros Hr Hin. exists raw. split; [done|]. right. exists z'. by rewrite rzset_put_zset.
Qed.
End put_zset.

Lemma is_ours_true raw : is_ours raw = true ↔ job_key raw = Some i.
Proof. apply bool_decide_eq_true. Qed.
Lemma is_ours_false raw : is_ours raw = false ↔ job_key raw ≠ Some i.
Proof. apply bool_decide_eq_false. Qed.

(** What one command may change: the queues stay typed, and the job is still
  there or is owed. *)
Definition keeps (o : bool) (st : rstate) (o' : bool) (st' : rstate) : Prop :=
  (queues_typed st → queues_typed st') ∧
  (o = true ∨ present st → o' = true ∨ present st').

Lemma keeps_refl o o' st : (o = true → o' = true) → keeps o st o' st.
Proof. intros Ho. split; naive_solver. Qed.

Lemma keeps_push o st k v : k ∈ list_keys → ∀ l, rlist st k = Some l →
  keeps o st (o && negb (is_ours v)) (put_list k (v :: l) None st).
Proof.
  intros Hk l Hl. split; [by apply typed_put_list|].
  destruct (is_ours v) eqn:Hv.
  - intros _. right. apply (present_put_list_new _ _ _ Hk v); [by apply is_ours_true|by left].
  - intros [->|Hp]; [by left|]. right.
    apply (present_put_list _ _ l); [done..| |done]. by right.
Qed.

Lemma keeps_remove o st k v l l' : k ∈ list_keys → rlist st k = Some l →
  (∀ raw, raw ≠ v → raw ∈ l → raw ∈ l') →
  keeps o st (o || is_ours v) (put_list k l' None st).
Proof.
  intros Hk Hl Hsub. split; [by apply typed_put_list|].
  destruct (is_ours v) eqn:Hv; [rewrite orb_true_r; by left|].
  intros [->|Hp]; [by left|]. right. apply is_ours_false in Hv.
  apply (present_put_list _ _ l); [done..| |done].
  intros raw Hr. apply Hsub. by intros ->.
Qed.

Lemma keeps_zadd o st m s z : rzset st dq = Some z →
  keeps o st (o && negb (is_ours m)) (put_zset dq (<[m := s]> z) None st).
Proof.
  intros Hz. split; [by apply typed_put_zset|]. destruct (is_ours m) eqn:Hm.
  - intros _. right. apply (present_put_zset_new _ _ m); [by apply is_ours_true|].
    by rewrite lookup_insert_eq.
  - intros [->|Hp]; [by left|]. right. apply (present_put_zset _ z); [done| |done].
    intros raw _ Hraw. rewrite lookup_insert_is_Some. destruct (decide (m = raw)); auto.
Qed.

Lemma keeps_zrem o st m z : rzset st dq = Some z →
  keeps o st (o || is_ours m) (put_zset dq (delete m z) None st).
Proof.
  intros Hz. split; [by apply typed_put_zset|].
  destruct (is_ours m) eqn:Hm; [rewrite orb_true_r; by left|].
  intros [->|Hp]; [by left|]. right. apply is_ours_false in Hm.
  apply (present_put_zset _ z); [done| |done].
  intros raw Hr Hraw. rewrite lookup_delete_ne; [done|]. by intros ->.
Qed.

Lemma keeps_move o st l d l' v : rlist st rq = Some l → rlist st pq = Some d →
  l = l' ++ [v] → keeps o st o (put_list pq (v :: d) None (put_list rq l' None st)).
Proof.
  intros Hl Hd ->.
  assert (rq ∈ list_keys) as Hr by (unfold list_keys; set_solver).
  assert (pq ∈ list_keys) as Hp by (unfold list_keys; set_solver).
  assert (rlist (put_list rq l' None st) pq = Some d) as Hd'
    by (rewrite rlist_put_list_ne; [done|apply ready_ne_processing]).
  destruct (keeps_remove o st rq v _ l' Hr Hl) as [Ht1 Hp1].
  { intros raw Hne. rewrite elem_of_app, list_elem_of_singleton. naive_solver. }
  destruct (keeps_push (o || is_ours v) _ pq v Hp d Hd') as [Ht2 Hp2].
  split; [auto|].
  intros Ho. apply Hp1, Hp2 in Ho as [Ho|Ho]; [left|by right].
  by destruct o, (is_ours v).
Qed.

Lemma keeps_frame {B} (c : redis_cmd B) now o st r st' :
  (∀ k, k ∈ cmd_keys c → k ∉ queue_keys) → redis_exec now c st = (r, st') →
  keeps o st o st'.
Proof.
  intros Hk E. assert (∀ k, k ∈ queue_keys → st' !! k = st !! k) as Hf.
  { intros k Hin. change st' with (snd (r, st')). rewrite <- E. apply redis_frame.
    intros Hc. by apply (Hk k). }
  apply queue_frame in Hf as [Ht Hp]. split; naive_solver.
Qed.

Lemma typed_list st k : queues_typed st → k ∈ list_keys → ∃ l, rlist st k = Some l.
Proof. intros [Hl _] Hk. by apply Hl. Qed.

Lemma redis_step {B} (c : redis_cmd B) now o (R : result exn B → bool → Prop) st r st' :
  redis_safe c R o → queues_typed st → redis_exec now c st = (r, st') →
  ∃ o', R r o' ∧ keeps o st o' st'.
Proof.
  intros Hs Ht E. pose proof Ht as [Hlists [z Hz]].
  destruct c as [k v|k v|src dst ?|k|k a b|k m sc|k m|k lo hi| | | | | | | |];
    cbn [redis_safe] in Hs.
  all: try (destruct Hs as [Hk Hs]; exists o; split; [apply Hs|];
    eapply keeps_frame; [|exact E]; first [exact Hk|set_solver]).
  - destruct Hs as [Hk Hs]. destruct (typed_list st k Ht Hk) as [l Hl].
    rewrite (exec_LPUSH _ _ _ l) in E by done. injection E as <- <-.
    eexists. split; [apply Hs|]. by apply keeps_push.
  - destruct Hs as (Hk & Hs0 & Hs1). destruct (typed_list st k Ht Hk) as [l Hl].
    rewrite (exec_LREM1 _ _ _ l) in E by done. case_decide; injection E as <- <-.
    + eexists. split; [apply Hs1|]. apply (keeps_remove _ _ _ _ l); [done..|].
      intros raw Hne. by apply elem_of_remove_first_ne.
    + eexists. split; [apply Hs0|]. by apply keeps_refl.
  - destruct Hs as (-> & -> & Hs).
    destruct (typed_list st rq Ht) as [l Hl]; [unfold list_keys; set_solver|].
    destruct (typed_list st pq Ht) as [d Hd]; [unfold list_keys; set_solver|].
    rewrite (exec_BRPOPLPUSH _ _ _ _ _ l d) in E by (done || apply ready_ne_processing).
    exists o. destruct (unsnoc l) as [[l' v]|] eqn:Eu; injection E as <- <-;
      (split; [apply Hs|]); [|by apply keeps_refl].
    apply unsnoc_Some in Eu. by apply (keeps_move _ _ l).
  - destruct Hs as (Hk & Hs0 & Hs1). destruct (typed_list st k Ht Hk) as [l Hl].
    rewrite (exec_RPOP _ _ _ l) in E by done.
    destruct (unsnoc l) as [[l' v]|] eqn:Eu; injection E as <- <-.
    + eexists. split; [apply Hs1|]. apply (keeps_remove _ _ _ _ l); [done..|].
      apply unsnoc_Some in Eu as ->. intros raw Hne.
      rewrite elem_of_app, list_elem_of_singleton. naive_solver.
    + eexists. split; [apply Hs0|]. by apply keeps_refl.
  - destruct Hs as [Hk Hs]. destruct (typed_list st k Ht Hk) as [l Hl].
    rewrite (exec_LRANGE _ _ _ l) in E by done. injection E as <- <-.
    exists o. split; [apply Hs|]. by apply keeps_refl.
  - destruct Hs as [-> Hs]. rewrite (exec_ZADD _ _ _ z) in E by done.
    injection E as <- <-. eexists. split; [apply Hs|]. by apply keeps_zadd.
  - destruct Hs as (-> & Hs0 & Hs1). rewrite (exec_ZREM _ _ _ z) in E by done.
    case_decide; injection E as <- <-.
    + eexists. split; [apply Hs1|]. by apply keeps_zrem.
    + eexists. split; [apply Hs0|]. by apply keeps_refl.
  - destruct Hs as [-> Hs]. rewrite (exec_ZRANGEBYSCORE _ _ _ z) in E by done.
    injection E as <- <-. exists o. split; [apply Hs|]. by apply keeps_refl.
  - exists o. split; [apply Hs|]. injection E as <- <-. by apply keeps_refl.
Qed.

(** A step of a safe program, whatever service it calls. *)
Lemma svc_step {B} (c : svc B) o (R : result exn B → bool → Prop) w r w' :
  svc_safe c R o → queues_typed (w_redis w) → svc_spec false c w r w' →
  ∃ o', R r o' ∧ keeps o (w_redis w) o' (w_redis w').
Proof.
  intros Hs Ht (w1 & Hadv & [Hc|[? _]]); [|done].
  apply advance_redis in Hadv. rewrite <- Hadv in *.
  destruct (is_redis c) eqn:Ec.
  2: { exists o. rewrite (cmd_redis_frame _ _ _ _ Ec Hc). split; [|by apply keeps_refl].
       destruct c; try done; apply Hs. }
  destruct c; try done.
  cbn in Hc, Hs. destruct (redis_exec _ _ _) as [r0 st0] eqn:E.
  injection Hc as -> ->. by apply (redis_step _ _ _ _ _ _ _ Hs Ht E).
Qed.

(** *** Every operation of the queue is safe *)

Lemma safe_ignore {A} (p : prog A) o : safe o p → safe o (ignore p).
Proof. intros Hp. by apply safe_bind. Qed.

Lemma rq_list : rq ∈ list_keys.
Proof. unfold list_keys. set_solver. Qed.
Lemma pq_list : pq ∈ list_keys.
Proof. unfold list_keys. set_solver. Qed.
Lemma fq_list : fq ∈ list_keys.
Proof. unfold list_keys. set_solver. Qed.

(** Taking a text out and putting another text of the same job in leaves
  nothing owed. *)
Lemma owed_paid raw raw' :
  (job_key raw = Some i → job_key raw' = Some i) →
  is_ours raw && negb (is_ours raw') = false.
Proof.
  intros Hk. destruct (is_ours raw) eqn:Ho; [|done].
  apply is_ours_true, Hk, is_ours_true in Ho. by rewrite Ho.
Qed.

Lemma job_key_same j j' raw :
  from_json raw = Ok j → (job_wf j → job_wf j' ∧ id j' = id j) →
  job_key raw = Some i → job_key (to_json j') = Some i.
Proof.
  intros Hj Hwf Hk. apply job_key_Some in Hk as (j0 & Hj0 & Hwf0 & ->).
  rewrite Hj in Hj0. injection Hj0 as <-. destruct (Hwf Hwf0) as [Hwf' Hid].
  rewrite job_key_to_json by done. by rewrite Hid.
Qed.

Context (s : Settings).

Lemma enqueue_safe t p : safe false (enqueue_job t p rq).
Proof.
  unfold enqueue_job, uuid7. prog_step. cbn. intros [us|?]; [|done]. cbn.
  intros [a|?]; [|done]. cbn. intros [b|?]; [|done]. cbn. intros [rid|?]; [|done]. cbn.
  split; [apply rq_list|done].
Qed.

Lemma set_started_wf j t : job_wf j → job_wf (set_processing_started_at (JStr t) j).
Proof. unfold job_wf, set_processing_started_at. cbn. tauto. Qed.

Lemma dequeue_safe timeout : safe false (dequeue_job rq pq timeout).
Proof.
  unfold dequeue_job. prog_step. cbn. split_and!; [done..|]. intros [raw|]; [|done].
  destruct (from_json raw) as [j|e] eqn:Ej; [|done]. cbn. intros [now|?]; [|done]. cbn.
  case_match; [|done]. cbn. split; [apply pq_list|]. split; cbn.
  - split; [apply pq_list|done].
  - split; [apply pq_list|]. intros _. apply owed_paid.
    apply (job_key_same j); [done|]. intros. split; [by apply set_started_wf|done].
Qed.

Lemma promote_loop_safe limit raws n : safe false (promote_loop rq dq limit raws n).
Proof.
  revert n. induction raws as [|raw raws IH]; intros n; [done|].
  cbn [promote_loop]. case_match; [done|]. prog_step. cbn. split; [done|]. split; [apply IH|].
  split; [apply rq_list|]. intros _.
  rewrite owed_paid by done. apply IH.
Qed.

Lemma promote_safe now limit : safe false (promote_delayed_jobs rq dq now limit).
Proof.
  unfold promote_delayed_jobs. destruct now; prog_step; cbn.
  - split; [done|]. intros l. apply promote_loop_safe.
  - intros [t|?]; [|done]. cbn. split; [done|]. intros l. apply promote_loop_safe.
Qed.

Lemma reclaim_loop_safe vis now raws n : safe false (reclaim_loop rq pq vis now raws n).
Proof.
  revert n. induction raws as [|raw raws IH]; intros n; [done|].
  cbn [reclaim_loop]. destruct (from_json raw) as [j|] eqn:Ej; [|done]. prog_step. 
  destruct (is_stale _ _ _) as [stale|]; [|done]. cbn [bind of_result].
  destruct stale; cbn [negb]; [|apply IH]. cbn. split; [apply pq_list|].
  split; [apply IH|]. split; [apply rq_list|]. intros _.
  rewrite owed_paid; [apply IH|]. apply (job_key_same j); [done|].
  unfold job_wf, without_processing_started_at, set_processing_started_at. cbn. tauto.
Qed.

Lemma reclaim_safe vis now : safe false (reclaim_stale_processing_jobs rq pq vis now).
Proof.
  unfold reclaim_stale_processing_jobs. destruct now; prog_step; cbn.
  - split; [apply pq_list|]. intros l. apply reclaim_loop_safe.
  - intros [t|?]; [|done]. cbn. split; [apply pq_list|]. intros l. apply reclaim_loop_safe.
Qed.

Lemma with_next_attempt_wf j j' : with_next_attempt j = Ok j' → job_wf j →
  job_wf j' ∧ id j' = id j.
Proof.
  unfold with_next_attempt, plus_one, job_wf. destruct (attempts j); intros [= <-]; cbn; tauto.
Qed.

Lemma with_error_wf j m j' : with_error j m = Ok j' → json_wf m → job_wf j →
  job_wf j' ∧ id j' = id j.
Proof.
  unfold with_error, job_wf. destruct (truncate_error m) as [m'|] eqn:Em; [|done].
  intros [= <-] Hm Hj. cbn.
  assert (json_wf m'); [|tauto]. unfold truncate_error in Em.
  destruct m; try done; injection Em as <-; [done|].
  rewrite json_wf_list in *. by apply Forall_take.
Qed.

Lemma key_next_error j n m j' : job_wf j → json_wf m →
  with_next_attempt j = Ok n → with_error n m = Ok j' →
  job_key (to_json j) = Some i → job_key (to_json j') = Some i.
Proof.
  intros Hj Hm Hn He Hk. rewrite job_key_to_json in Hk by done.
  destruct (with_next_attempt_wf _ _ Hn Hj) as [Hwn Hidn].
  destruct (with_error_wf _ _ _ He Hm Hwn) as [Hw' Hid'].
  rewrite job_key_to_json by done. congruence.
Qed.

Lemma retry_safe j e now : job_wf j → safe false (schedule_retry s j e pq dq now).
Proof.
  intros Hj. unfold schedule_retry. destruct (with_next_attempt j) as [n|] eqn:En; [|done].
  prog_step. destruct (with_error n (JStr e)) as [r|] eqn:Er; [|done].
  assert (job_key (to_json j) = Some i → job_key (to_json r) = Some i) as Hk
    by by apply (key_next_error j n (JStr e)).
  destruct now as [t|]; cbn; [|intros [t|?]; [|done]];
    (destruct (as_int (attempts r)) as [a|]; [|done]); cbn;
    (split; [apply pq_list|]); (split; [done|]); (split; [done|]); intros _;
    by apply owed_paid.
Qed.

Lemma move_to_failed_safe j e : job_wf j → safe false (move_job_to_failed_queue j e pq fq).
Proof.
  intros Hj. unfold move_job_to_failed_queue. prog_step. cbn. intros [t|?]; [|done]. cbn.
  set (f := Build_Job _ _ _ _ _ _ _ _).
  assert (job_wf f) as Hf by (unfold job_wf in *; cbn; tauto).
  set (o := match e with Some _ => _ | None => _ end).
  assert (∀ f', o = Ok f' → job_wf f' ∧ id f' = id j) as Ho.
  { subst o. intros f'. destruct e as [e|]; [by intros ?%with_error_wf|].
    assert (json_wf (last_error j)) by (unfold job_wf in Hj; tauto).
    destruct (last_error j); try by intros ?%with_error_wf. by intros [= <-]. }
  destruct o as [f'|]; [|done]. destruct (Ho f' eq_refl) as [Hf' Hid]. cbn.
  split; [apply pq_list|]. split; cbn; (split; [apply fq_list|]); [done|].
  intros _. apply owed_paid. rewrite !job_key_to_json by done. by rewrite Hid.
Qed.

Lemma requeue_loop_safe fuel limit n : safe false (requeue_loop fuel rq fq limit n).
Proof.
  revert n. induction fuel as [|fuel IH]; intros n; [done|].
  cbn [requeue_loop]. case_match; [|done]. prog_step. cbn. split; [apply fq_list|].
  split; [done|]. intros raw. destruct (from_json raw) as [j|e] eqn:Ej; cbn.
  - split; [apply rq_list|]. intros _. rewrite owed_paid; [apply IH|].
    by apply (job_key_same j).
  - apply is_ours_false. unfold job_key. by rewrite Ej.
Qed.

Lemma list_failed_safe limit : safe false (list_failed_jobs fq limit).
Proof.
  unfold list_failed_jobs. prog_step. cbn. split; [apply fq_list|]. intros l.
  by destruct (of_raw_jobs l).
Qed.

Lemma ack_safe j : job_key (to_json j) ≠ Some i → safe false (ack_job j pq).
Proof.
  intros Hj. unfold ack_job. prog_step. cbn. split; [apply pq_list|]. split; [done|].
  by apply is_ours_false in Hj as ->.
Qed.

(** The operations the API processes, the workers and the command line run.
  A job other than [i] may be acknowledged. *)
Inductive queue_operation : prog unit → Prop :=
| op_enqueue t p : queue_operation (ignore (enqueue_job t p rq))
| op_dequeue timeout : queue_operation (ignore (dequeue_job rq pq timeout))
| op_ack j : job_key (to_json j) ≠ Some i → queue_operation (ignore (ack_job j pq))
| op_retry j e now : job_wf j → queue_operation (ignore (schedule_retry s j e pq dq now))
| op_promote now limit : queue_operation (ignore (promote_delayed_jobs rq dq now limit))
| op_reclaim vis now : queue_operation (ignore (reclaim_stale_processing_jobs rq pq vis now))
| op_fail j e : job_wf j → queue_operation (ignore (move_job_to_failed_queue j e pq fq))
| op_list limit : queue_operation (ignore (list_failed_jobs fq limit))
| op_requeue fuel limit : queue_operation (ignore (requeue_failed_jobs fuel rq fq limit)).

Lemma queue_operation_safe p : queue_operation p → safe false p.
Proof.
  destruct 1; apply safe_ignore; auto using enqueue_safe, dequeue_safe, ack_safe,
    retry_safe, promote_safe, reclaim_safe, move_to_failed_safe, list_failed_safe.
  apply requeue_loop_safe.
Qed.

(** Every program of the pool pays what it owes, and the job is in a queue or
  owed by one of them. *)
Definition pool_safe (must : Prop) (w : world) (ps : list (prog unit)) : Prop :=
  queues_typed (w_redis w) ∧
  ∃ debts, Forall2 safe debts ps ∧ (must → true ∈ debts ∨ present (w_redis w)).

Lemma pool_safe_start must p ps w :
  safe false p → pool_safe must w ps → pool_safe must w (ps ++ [p]).
Proof.
  intros Hp (Ht & debts & Hd & Hm). split; [done|]. exists (debts ++ [false]). split.
  - apply Forall2_app; auto.
  - intros [Hin|]%Hm; [left|by right]. apply elem_of_app. by left.
Qed.

Lemma pool_safe_call must j B (c : svc B) k r ps w w' :
  ps !! j = Some (Call c k) → svc_spec false c w r w' →
  pool_safe must w ps → pool_safe must w' (<[j := k r]> ps).
Proof.
  intros Hj Hc (Ht & debts & Hd & Hm).
  destruct (Forall2_lookup_r _ _ _ _ _ Hd Hj) as (o & Ho & Hs).
  destruct (svc_step c o _ w r w' Hs Ht Hc) as (o' & Hr & Hkt & Hkp).
  split; [auto|]. exists (<[j := o']> debts). split; [by apply Forall2_insert|].
  intros Hmust. destruct (Hm Hmust) as [Hin|Hp].
  - apply list_elem_of_lookup in Hin as [j' Hj']. destruct (decide (j = j')) as [<-|Hne].
    + rewrite Ho in Hj'. injection Hj' as ->. destruct (Hkp (or_introl eq_refl)) as [->|]; [|by right].
      left. apply list_elem_of_lookup. exists j. apply list_lookup_insert_eq.
      by apply lookup_lt_Some in Ho.
    + left. apply list_elem_of_lookup. exists j'. by rewrite list_lookup_insert_ne.
  - destruct (Hkp (or_intror Hp)) as [->|]; [left|by right].
    apply list_elem_of_lookup. exists j. apply list_lookup_insert_eq.
    by apply lookup_lt_Some in Ho.
Qed.

Lemma pool_safe_star must ps w ps' w' :
  star (pool_step false false queue_operation) (ps, w) (ps', w') →
  pool_safe must w ps → pool_safe must w' ps'.
Proof.
  intros Hstar.
  apply (pool_invariant false false queue_operation (pool_safe must)) with (s := (ps, w)) (s' := (ps', w'));
    [| |done|done].
  - intros p qs v Hp. by apply pool_safe_start, queue_operation_safe.
  - intros. by eapply pool_safe_call.
Qed.

Lemma finished_debts debts (ps : list (prog unit)) :
  Forall2 safe debts ps → Forall (λ p, finished p = true) ps → true ∉ debts.
Proof.
  intros Hd Hf. induction Hd as [|o p debts ps Ho Hd IH]; [apply not_elem_of_nil|].
  apply Forall_cons in Hf as [Hp Hf]. apply not_elem_of_cons. split; [|auto].
  destruct p; [by rewrite Ho..|done].
Qed.

(** The invariant at a moment when no operation is running. *)
Lemma no_job_lost_aux w0 ps w ps' w' :
  queues_typed (w_redis w0) →
  star (pool_step false false queue_operation) ([], w0) (ps, w) →
  present (w_redis w) →
  star (pool_step false false queue_operation) (ps, w) (ps', w') →
  Forall (λ p, finished p = true) ps' → present (w_redis w').
Proof.
  intros Ht H1 Hp H2 Hf.
  apply (pool_safe_star False) in H1 as (Ht1 & debts & Hd & _).
  2: { split; [done|]. exists []. by split; [constructor|]. }
  apply (pool_safe_star True) in H2 as (Ht2 & debts' & Hd' & Hm).
  2: { split; [done|]. exists debts. split; [done|]. auto. }
  destruct (Hm I) as [Hin|]; [|done]. by apply (finished_debts _ _ Hd') in Hf.
Qed.
End safety.

(** ** The theorem, and what it does not cover *)

(** C7: whatever any number of API processes and workers do at the same time,
    command by command, a job that is in one of the four queues is in one of them
    again once the operations under way are over, unless a worker acknowledged
    it.  No process crashes and no command fails. *)
Theorem no_job_lost `{Crypto} (rq pq dq fq i : string) (s : Settings) w0 ps w ps' w' :
  NoDup (queue_keys rq pq dq fq) →
  queues_typed rq pq dq fq (w_redis w0) →
  star (pool_step false false (queue_operation rq pq dq fq i s)) ([], w0) (ps, w) →
  present rq pq dq fq i (w_redis w) →
  star (pool_step false false (queue_operation rq pq dq fq i s)) (ps, w) (ps', w') →
  Forall (λ p, finished p = true) ps' →
  present rq pq dq fq i (w_redis w').
Proof. intros. by eapply no_job_lost_aux. Qed.

(** A ready queue with one job, dequeued by one worker while another one looks
    for stale jobs. *)
Definition demo_job : Job :=
  {| id := JStr "a"; type := JStr "t"; payload := JObj []; attempts := JInt 0;
     request_id := JNull; last_error := JNull; failed_at := JNull;
     processing_started_at := JNull |}.
Definition demo_world : world :=
  with_redis (put_list "q" [to_json demo_job] None ∅) (world_at 1700000000000000).
Definition demo_pool (s : Settings) : list (prog unit) :=
  [ignore (dequeue_job "q" "p" 5); ignore (reclaim_stale_processing_jobs "q" "p" 300 None)].
Definition demo_id : string := dumps (JStr "a").

Lemma demo_operations s :
  Forall (queue_operation "q" "p" "d" "f" demo_id s) (demo_pool s).
Proof. repeat constructor. Qed.

Lemma demo_present : present "q" "p" "d" "f" demo_id (w_redis demo_world).
Proof.
  exists (to_json demo_job). split; [by vm_compute|]. left.
  exists "q"%string, [to_json demo_job]. split; [by left|]. split; [by vm_compute|by left].
Qed.

Lemma demo_typed : queues_typed "q" "p" "d" "f" (w_redis demo_world).
Proof.
  split; [|by vm_compute; eexists].
  intros k Hk. unfold list_keys in Hk. rewrite !elem_of_cons in Hk.
  destruct Hk as [->|[->|[->|Hk]]]; [vm_compute; by eexists..|by apply not_elem_of_nil in Hk].
Qed.

Definition demo_settings : Settings := default_settings "k".

Lemma no_job_lost_witness :
  present "q" "p" "d" "f" demo_id
    (w_redis (snd (schedule [0; 0; 1; 1; 1; 1; 0; 0]%nat (demo_pool demo_settings) demo_world))).
Proof.
  eapply (no_job_lost "q" "p" "d" "f" demo_id demo_settings demo_world
            (demo_pool demo_settings) demo_world).
  - apply (bool_decide_unpack _). by vm_compute.
  - apply demo_typed.
  - apply star_start, demo_operations.
  - apply demo_present.
  - rewrite <- surjective_pairing. apply star_schedule.
  - vm_compute. repeat constructor.
Defined.

(** The reclaimer can duplicate a job that is just being dequeued.  Between
    the two commands of [dequeue_job] the entry of the processing list has no
    [processing_started_at], so a reclaimer takes it for stale and puts it back
    on the ready list; the worker then pushes its stamped copy.  Both queues hold
    the job, and it is run twice. *)
Theorem reclaim_duplicates_dequeued_job :
  ∃ ps' w' raw stamped,
    star (pool_step false false (queue_operation "q" "p" "d" "f" demo_id demo_settings))
      ([], demo_world) (ps', w') ∧
    Forall (λ p, finished p = true) ps' ∧
    rlist (w_redis demo_world) "q" = Some [raw] ∧ rlist (w_redis demo_world) "p" = Some [] ∧
    rlist (w_redis w') "q" = Some [raw] ∧ rlist (w_redis w') "p" = Some [stamped] ∧
    job_key raw = Some demo_id ∧ job_key stamped = Some demo_id.
Proof.
  set (out := schedule [0; 1; 1; 1; 1; 0; 0; 0]%nat (demo_pool demo_settings) demo_world).
  exists (fst out), (snd out), (to_json demo_job),
    (to_json (set_processing_started_at (JStr (isoformat 1700000000000000)) demo_job)).
  split; [|by split_and!; vm_compute; repeat constructor].
  eapply star_trans; [apply star_start, demo_operations|].
  rewrite <- surjective_pairing. apply star_schedule.
Qed.

(** A job is lost when the worker crashes between the two commands by which
    [dequeue_job] replaces the entry of the processing list. *)
Theorem dequeue_crash_loses_job :
  ∃ ps' w',
    star (pool_step false true (queue_operation "q" "p" "d" "f" demo_id demo_settings))
      ([], demo_world) (ps', w') ∧
    Forall (λ p, finished p = true) ps' ∧
    present "q" "p" "d" "f" demo_id (w_redis demo_world) ∧
    ¬ present "q" "p" "d" "f" demo_id (w_redis w').
Proof.
  set (out := schedule [0; 0; 0]%nat [ignore (dequeue_job "q" "p" 5)] demo_world).
  exists (<[0%nat := Raise killed]> (fst out)), (snd out). split_and!.
  - eapply star_trans; [apply (star_start _ _ [ignore (dequeue_job "q" "p" 5)])|].
    { repeat constructor. }
    eapply star_trans; [apply (star_schedule _ _ [0; 0; 0]%nat)|].
    fold out. rewrite (surjective_pairing out) at 1. apply star_crash.
    vm_compute. by eexists.
  - vm_compute. repeat constructor.
  - apply demo_present.
  - assert (w_redis (snd out) = ∅) as -> by by vm_compute.
    intros (raw & _ & [(k & l & _ & Hl & Hin)|(z & Hz & [sc Hsc])]).
    + cbn in Hl. injection Hl as <-. by apply elem_of_nil in Hin.
    + unfold rzset in Hz. rewrite lookup_empty in Hz. injection Hz as <-.
      by rewrite lookup_empty in Hsc.
Qed.
