(* ===== verification/Email.v ===== *)
(** * Emails

    [app/services/email_templates.py] and [app/services/email_service.py]: the
    text of the password reset email and its delivery.  A [mail] is what is
    handed to the SMTP client; STARTTLS and the login before it fail with the
    same [OSError]s as the sending and are part of that command. *)

From Stdlib Require Import ZArith Ascii String Lia.
From stdpp Require Import base tactics option list strings.
From S2P Require Import Prelude PyText Json Errors Config Models Services Programs Ids.
Local Open Scope string_scope.
Local Open Scope list_scope.
Local Open Scope Z_scope.

(** ** [urlencode] of one parameter *)

(** The bytes of a character in UTF-8. *)
Definition utf8 (c : ascii) : list ascii :=
  if (code c <? 128)%N then [c]
  else [ascii_of_N (192 + code c / 64); ascii_of_N (128 + code c mod 64)].

(** The characters [quote_plus] leaves alone. *)
Definition unreserved (c : ascii) : bool :=
  let n := code c in
  ((97 <=? n) && (n <=? 122) || (65 <=? n) && (n <=? 90) || (48 <=? n) && (n <=? 57) ||
   existsb (Ascii.eqb c) (chars "_.-~"))%N.

Definition percent (b : ascii) : list ascii :=
  "%"%char :: (upper_char <$> hex_digits 2 (Z.of_N (code b))).

Definition quote_plus (s : string) : string :=
  text (chars s ≫= λ c,
    if Ascii.eqb c " " then ["+"%char] else if unreserved c then [c] else utf8 c ≫= percent).

(** ** [email_templates.py] *)

Definition build_password_reset_url (base_url token : string) : string :=
  let separator := if contains "?" base_url then "&" else "?" in
  (base_url ++ separator ++ "token=" ++ quote_plus token)%string.

Definition render_password_reset_subject : string := "Reset your password".

Definition newline : string := text [ascii_of_N 10].

Definition render_password_reset_body (reset_url : string) : string :=
  ("A password reset was requested for your account." ++ newline ++ newline ++
   "Reset your password here: " ++ reset_url ++ newline ++ newline ++
   "If you did not request this change, you can ignore this email.")%string.

(** ** [email_service.py] *)

(** A header of an [EmailMessage] is one line. *)
Definition is_header_value (v : string) : bool :=
  negb (existsb (λ c, Ascii.eqb c (ascii_of_N 10) || Ascii.eqb c (ascii_of_N 13)) (chars v)).

Section email.
Context (s : Settings).

(** [SMTPEmailProvider.send_email] *)
Definition send_email (recipient subject body : string) : prog unit :=
  if negb (truthy (smtp_host s)) then Raise (EmailDeliveryError "SMTP_HOST is not configured")
  else if negb (forallb is_header_value [email_from s; recipient; subject]) then
    Raise (ValueError "Header values may not contain linefeed or carriage return characters")
  else
    catch (call (SendMail {| m_from := email_from s; m_to := recipient; m_subject := subject;
                             m_body := body |}))
      (λ e, if is_os_error e then Raise (EmailDeliveryError "Failed to send email") else Raise e).

(** [EmailService.send_password_reset_email] *)
Definition send_password_reset_email (recipient raw_token : string) : prog unit :=
  let reset_url := build_password_reset_url (password_reset_url s) raw_token in
  send_email recipient render_password_reset_subject (render_password_reset_body reset_url).

(** The email a user gets for a token. *)
Definition reset_mail (recipient raw_token : string) : mail :=
  {| m_from := email_from s; m_to := recipient; m_subject := render_password_reset_subject;
     m_body := render_password_reset_body
                 (build_password_reset_url (password_reset_url s) raw_token) |}.
End email.
