(* ===== verification/PasswordReset.v ===== *)
(** * Password resets

    The reset tokens of [app/core/security.py],
    [app/services/password_reset_service.py], [app/password_reset_cleanup.py] and
    the two routes of [app/api/routes/auth.py]. *)

From Stdlib Require Import ZArith Ascii String Lia.
From stdpp Require Import base tactics option list gmap strings.
From S2P Require Import Prelude PyText Json Errors Config Models Services Programs.
From S2P Require Import Tenants JobQueue Users Auth Http RateLimit Email.
Local Open Scope string_scope.
Local Open Scope list_scope.
Local Open Scope Z_scope.

Definition SEND_PASSWORD_RESET_EMAIL_JOB : string := "send_password_reset_email".
Definition PASSWORD_RESET_JOB_COMPLETED_PREFIX : string := "password_reset_job_completed:".
Definition PASSWORD_RESET_RESPONSE_MESSAGE : string :=
  "If an account exists for this email, password reset instructions were sent.".
Definition INVALID_RESET_TOKEN_MESSAGE : string := "Invalid or expired password reset token".

Section reset.
Context `{Crypto} (s : Settings).

(** ** [security.py] *)

Definition generate_password_reset_token : prog string := call TokenUrlsafe.

Definition hash_password_reset_token (token : string) : string :=
  hmac_sha256_hex (secret_key s) token.

(** ** The request *)

Definition enqueue_password_reset_email_job (user_id : Z) : prog Job :=
  enqueue_job SEND_PASSWORD_RESET_EMAIL_JOB (JObj [("user_id", JInt user_id)])
    (worker_queue_name s).

Definition request_password_reset (email : string) (tenant_id : Z) : prog string :=
  user ← get_user_by_email email tenant_id;
  match user with
  | Some user =>
      if negb (u_is_active user) then Ret PASSWORD_RESET_RESPONSE_MESSAGE
      else
        _ ← enqueue_password_reset_email_job (u_id user);
        _ ← create_audit_log (u_tenant_id user) None PASSWORD_RESET_REQUESTED
              (Some (u_id user)) true;
        Ret PASSWORD_RESET_RESPONSE_MESSAGE
  | None => Ret PASSWORD_RESET_RESPONSE_MESSAGE
  end.

(** ** The job *)

Definition password_reset_job_completed_key (job_id : string) : string :=
  PASSWORD_RESET_JOB_COMPLETED_PREFIX ++ job_id.

Definition is_password_reset_job_completed (job_id : string) : prog bool :=
  n ← redis (EXISTS (password_reset_job_completed_key job_id));
  Ret (n =? 1).

Definition is_password_reset_job_completed_in_db (job_id : string) : prog bool :=
  row ← first TJobCompletion (λ r, String.eqb (jc_job_id r) job_id);
  Ret (bool_decide (is_Some row)).

Definition is_password_reset_job_done (job_id : string) : prog bool :=
  completed ← is_password_reset_job_completed job_id;
  if (completed : bool) then Ret true else is_password_reset_job_completed_in_db job_id.

Definition mark_password_reset_job_completed (job_id : string) : prog unit :=
  _ ← redis (SET (password_reset_job_completed_key job_id) "1" false
               (Some (password_reset_job_completion_ttl_seconds s)));
  Ret tt.

Definition new_reset_token (user_id : Z) (token_hash : string) (expires_at key created : Z) :
    PasswordResetToken :=
  {| pt_id := key; pt_user_id := user_id; pt_token_hash := token_hash;
     pt_expires_at := expires_at; pt_used_at := None; pt_created_at := created |}.

Definition new_job_completion (job_id : string) (key created : Z) : PasswordResetJobCompletion :=
  {| jc_id := key; jc_job_id := job_id; jc_completed_at := created |}.

(** The commit of the job: a violated constraint means that somebody else has
    completed it. *)
Definition commit_reset_job (job_id : option string) : prog unit :=
  committed ← catch (_ ← db Commit; Ret true)
    (λ e, match e with
          | IntegrityError => _ ← db Rollback; Ret false
          | _ => Raise e
          end);
  match job_id with
  | Some job_id => if (committed : bool) then mark_password_reset_job_completed job_id else Ret tt
  | None => Ret tt
  end.

(** The work of the job for an active user. *)
Definition send_reset_token (user : User) (job_id : option string) : prog unit :=
  raw_token ← generate_password_reset_token;
  let token_hash := hash_password_reset_token raw_token in
  now ← now_us;
  let expires_at := now + password_reset_token_expire_minutes s * 60 * second in
  _ ← db (Add TResetToken (new_reset_token (u_id user) token_hash expires_at));
  _ ← db Flush;
  _ ← catch (send_password_reset_email s (u_email user) raw_token)
    (λ e, match e with
          | EmailDeliveryError m => _ ← db Rollback; Raise (EmailDeliveryError m)
          | _ => Raise e
          end);
  _ ← match job_id with
      | Some job_id => _ ← db (Add TJobCompletion (new_job_completion job_id)); Ret tt
      | None => Ret tt
      end;
  commit_reset_job job_id.

Definition create_password_reset_token_and_send_email (user_id : Z) (job_id : option string) :
    prog unit :=
  done ← match job_id with Some job_id => is_password_reset_job_done job_id | None => Ret false end;
  if (done : bool) then
    match job_id with
    | Some job_id =>
        completed ← is_password_reset_job_completed job_id;
        if negb completed then mark_password_reset_job_completed job_id else Ret tt
    | None => Ret tt
    end
  else
    user ← first TUser (λ u, u_id u =? user_id);
    match user with
    | Some user => if negb (u_is_active user) then Ret tt else send_reset_token user job_id
    | None => Ret tt
    end.

(** ** The confirmation *)

Definition raise_invalid_reset_token : exn := raised BadRequestError INVALID_RESET_TOKEN_MESSAGE.

Definition set_hashed_password (h : string) (u : User) : User :=
  {| u_id := u_id u; u_tenant_id := u_tenant_id u; u_email := u_email u; u_hashed_password := h;
     u_is_active := u_is_active u; u_role := u_role u; u_token_version := u_token_version u |}.

(** [update({"used_at": now})] *)
Definition set_used_at (now : Z) (t : PasswordResetToken) : PasswordResetToken :=
  {| pt_id := pt_id t; pt_user_id := pt_user_id t; pt_token_hash := pt_token_hash t;
     pt_expires_at := pt_expires_at t; pt_used_at := Some now; pt_created_at := pt_created_at t |}.

(** The unused tokens of a user. *)
Definition unused_token_of (user_id : Z) (t : PasswordResetToken) : bool :=
  (pt_user_id t =? user_id) && bool_decide (pt_used_at t = None).

(** What is done for an accepted token.  The attributes of the user are loaded
    again after the commit. *)
Definition reset_password (user : User) (new_password : string) (now : Z) : prog string :=
  h ← hash_password new_password;
  _ ← db (SetRow TUser (u_id user) (λ r, Some (set_hashed_password h r)));
  user ← increment_user_token_version user;
  _ ← db (BulkUpdate TResetToken (unused_token_of (u_id user)) (set_used_at now));
  _ ← db Commit;
  user ← db (Refresh TUser (u_id user));
  _ ← create_audit_log (u_tenant_id user) None PASSWORD_RESET_CONFIRMED (Some (u_id user)) true;
  Ret "Password has been reset.".

Definition confirm_password_reset (token new_password : string) : prog string :=
  let token_hash := hash_password_reset_token token in
  reset_token ← first TResetToken (λ t, String.eqb (pt_token_hash t) token_hash);
  match reset_token with
  | None => Raise raise_invalid_reset_token
  | Some t =>
      now ← now_us;
      if bool_decide (is_Some (pt_used_at t)) then Raise raise_invalid_reset_token
      else if pt_expires_at t <? now then Raise raise_invalid_reset_token
      else
        user ← first TUser (λ u, u_id u =? pt_user_id t);
        match user with
        | None => Raise raise_invalid_reset_token
        | Some user =>
            if negb (u_is_active user) then Raise raise_invalid_reset_token
            else reset_password user new_password now
        end
  end.

Definition cleanup_expired_password_reset_tokens : prog Z :=
  now ← now_us;
  deleted_count ← db (BulkDelete TResetToken (λ t, pt_expires_at t <? now));
  _ ← db Commit;
  Ret deleted_count.

(** [password_reset_cleanup.py] *)
Definition password_reset_cleanup_main : prog unit :=
  in_session (_ ← cleanup_expired_password_reset_tokens; Ret tt).

(** ** The routes *)

Definition request_reset_password (rq : request) (email : string) (tenant : Tenant) : prog string :=
  _ ← password_reset_rate_limit s rq (Some email);
  request_password_reset email (t_id tenant).

Definition confirm_reset_password (token new_password : string) : prog string :=
  confirm_password_reset token new_password.
End reset.
