(* ===== verification/PasswordResetSafety.v ===== *)
(** * What the password reset guarantees

    A password is only changed with an unused, unexpired token of the active
    user, and then every token of that user is used; but a crash between the two
    commits leaves the token usable.  An accepted confirmation lets the user log
    in with the new password.  A job that was done sends nothing again. *)

From Stdlib Require Import ZArith Ascii String Lia.
From stdpp Require Import base tactics option list gmap strings sorting fin_maps.
From S2P Require Import Prelude PyText Json Errors Config Models Services Programs.
From S2P Require Import DbFacts RedisFacts Reference Tenants JobQueue Cache Users UserMutations Auth Email PasswordReset.
Local Open Scope string_scope.
Local Open Scope list_scope.
Local Open Scope Z_scope.

(** ** The stages of a confirmation *)

Definition with_password (h : string) (u : User) : User :=
  set_token_version (u_token_version u + 1) (set_hashed_password h u).

Definition use_tokens (user_id now : Z) (m : gmap Z PasswordResetToken) : gmap Z PasswordResetToken :=
  (λ t, if unused_token_of user_id t then set_used_at now t else t) <$> m.

Definition password_changed (user : User) (h : string) (d : tables) : tables :=
  set_table TUser (<[u_id user := with_password h user]> (users d)) d.
Definition tokens_used (user_id now : Z) (d : tables) : tables :=
  set_table TResetToken (use_tokens user_id now (reset_tokens d)) d.
Definition reset_audited (user : User) (key created : Z) (d : tables) : tables :=
  set_table TAuditLog (<[key := {| al_id := key; al_tenant_id := u_tenant_id user;
    al_admin_id := None; al_action := PASSWORD_RESET_CONFIRMED;
    al_target_user_id := Some (u_id user); al_created_at := created |}]> (audit_logs d)) d.

(** The token names a user and may be used at the time [now]. *)
Definition usable `{Crypto} (s : Settings) (token : string) (now : Z) (d : tables)
    (t : PasswordResetToken) (user : User) : Prop :=
  (∃ k, reset_tokens d !! k = Some t) ∧ pt_token_hash t = hash_password_reset_token s token ∧
  pt_used_at t = None ∧ now <= pt_expires_at t ∧
  users d !! u_id user = Some user ∧ u_id user = pt_user_id t ∧ u_is_active user = true.

Section confirm.
Context `{Crypto} (faults : bool) (s : Settings) (token new_password : string).
Context (d0 : tables) (t0 : Z) (Hkeyed : keyed d0).

(** All that was done, up to the audit entry. *)
Definition reset_done (d : tables) : Prop :=
  ∃ t user h now key created, usable s token now d0 t user ∧ t0 <= now ∧
    bcrypt_verify new_password h = true ∧ audit_logs d0 !! key = None ∧
    d = reset_audited user key created (tokens_used (u_id user) now (password_changed user h d0)).

Definition reset_stage (d : tables) : Prop :=
  d = d0 ∨ reset_done d ∨
  ∃ t user h now, usable s token now d0 t user ∧ t0 <= now ∧ bcrypt_verify new_password h = true ∧
    (d = password_changed user h d0 ∨
     d = tokens_used (u_id user) now (password_changed user h d0)).

Local Abbreviation I := (stored (λ d _ _, reset_stage d)).
Local Abbreviation seen p Q := (wpi faults I p (on_ok Q)).

Lemma stage_start w : w_db w = d0 → I w.
Proof. by left. Qed.

(** After the password: the tokens of the user, and the audit entry. *)
Local Abbreviation record_reset u now :=
  (_ ← db (BulkUpdate TResetToken (unused_token_of (u_id u)) (set_used_at now));
   _ ← db Commit;
   user ← db (Refresh TUser (u_id u));
   _ ← create_audit_log (u_tenant_id user) None PASSWORD_RESET_CONFIRMED (Some (u_id user)) true;
   Ret "Password has been reset.").

Lemma seen_reset_recorded t user h now w :
  usable s token now d0 t user → t0 <= now → bcrypt_verify new_password h = true →
  w_db w = password_changed user h d0 → w_session w = empty_session →
  seen (record_reset (with_password h user) now) (λ _ w', reset_done (w_db w')) w.
Proof.
  intros Hu Hnow Hv Hd Hs.
  assert (∀ w' : world, w_db w' = password_changed user h d0 → I w') as Hst1.
  { intros w' E. right; right. exists t, user, h, now. auto. }
  assert (∀ w' : world, w_db w' = tokens_used (u_id user) now (password_changed user h d0) → I w') as Hst2.
  { intros w' E. right; right. exists t, user, h, now. auto. }
  eapply wpi_bind_ok, wpi_bulk_update; [by apply Hst1|by rewrite Hs|].
  intros w7 Hd7 _ _ Hs7.
  eapply wpi_bind_ok, (wpi_commit_writes _ _ _ _ (password_changed user h d0));
    [apply Hst1; congruence|congruence|by rewrite Hs7, Hs|].
  intros d E8 _ w8 Hd8 _ _ Hs8.
  assert (d = tokens_used (u_id user) now (password_changed user h d0)) as -> by by injection E8.
  split; [by apply Hst2|].
  apply wpi_bind_ok, wpi_refresh; [by apply Hst2|]. rewrite Hs8. intros d u2 w9 [= <-] Hu2 Hadv9.
  rewrite Hd8 in Hu2. cbn in Hu2. rewrite lookup_insert_eq in Hu2. injection Hu2 as <-.
  destruct (advance_still _ _ Hadv9) as (Hd9 & _ & _ & Hs9).
  unfold create_audit_log. apply wpi_bind_ok, wpi_bind_ok, wpi_add; [apply Hst2; congruence|].
  intros key created w10 Hfresh (Hd10 & _ & _ & Hs10) _. rewrite Hs9, Hs8 in Hfresh.
  specialize (Hfresh _ eq_refl). rewrite Hd9, Hd8 in Hfresh. cbn in Hfresh.
  eapply wpi_bind_ok, (wpi_commit_writes _ _ _ _ (tokens_used (u_id user) now (password_changed user h d0)));
    [apply Hst2; congruence|congruence|by rewrite Hs10, Hs9, Hs8|].
  intros d E11 _ w11 Hd11 _ _ Hs11.
  assert (reset_done (w_db w11)) as Hdone.
  { exists t, user, h, now, key, created. split_and!; try done. rewrite Hd11. by injection E11. }
  split; [by right; left|]. apply wpi_quiet; [by apply keeps_call|by right; left|].
  intros a w12 Hd12 _ _. rewrite <- Hd12 in Hdone.
  apply wpi_ret; [by right; left|exact Hdone].
Qed.

Lemma seen_reset_password t user now w :
  usable s token now d0 t user → t0 <= now → w_db w = d0 → w_session w = empty_session →
  seen (reset_password user new_password now) (λ _ w', reset_done (w_db w')) w.
Proof.
  intros Hu Hnow Hd Hs. pose proof Hu as (Ht & Hh & _ & _ & Huser & Hid & Hact).
  unfold reset_password. apply wpi_bind_ok, wpi_frame; [done|by apply stage_start|].
  intros w1 r w' Hadv1 Hc. cbn in Hc. destruct Hc as [-> Hr].
  destruct (bcrypt_refuses new_password); [by destruct Hr as [m ->]|]. destruct Hr as (h & -> & Hv).
  cbn [on_ok]. destruct (advance_still _ _ Hadv1) as (Hd1 & _ & _ & Hs1). rewrite Hd in Hd1.
  rewrite Hs in Hs1.
  assert (∀ w' : world, w_db w' = password_changed user h d0 → I w') as Hst1.
  { intros w' E. right; right. exists t, user, h, now. auto. }
  apply wpi_bind_ok, wpi_set_row; [by apply stage_start|]. intros w2 (Hd2 & _ & _ & Hs2).
  unfold increment_user_token_version. apply wpi_bind_ok, wpi_bind_ok, wpi_set_row;
    [apply stage_start; congruence|]. intros w3 (Hd3 & _ & _ & Hs3).
  eapply wpi_bind_ok, (wpi_commit_writes _ _ _ _ d0); [apply stage_start; congruence|congruence|
    by rewrite Hs3, Hs2, Hs1|].
  intros d Hrun _ w4 Hd4 _ _ Hs4.
  assert (d = password_changed user h d0) as ->.
  { cbn in Hrun. unfold set_row in Hrun. cbn [get_table] in Hrun. rewrite Huser in Hrun.
    cbn in Hrun. rewrite lookup_insert_eq in Hrun. cbn in Hrun. injection Hrun as <-.
    unfold password_changed, set_table. cbn. f_equal. by rewrite insert_insert_eq. }
  split; [by apply Hst1|].
  apply wpi_bind_ok, wpi_refresh; [by apply Hst1|]. rewrite Hs4. intros d u1 w5 [= <-] Hu1 Hadv5.
  rewrite Hd4 in Hu1. cbn in Hu1. rewrite lookup_insert_eq in Hu1. injection Hu1 as <-.
  destruct (advance_still _ _ Hadv5) as (Hd5 & _ & _ & Hs5).
  apply wpi_bind_ok, wpi_away; [|apply Hst1; congruence|].
  { unfold invalidate_users_list_cache, increment_cache_version, except_redis.
    apply keeps_bind; [|done]. apply keeps_catch; [|intros e; by destruct (is_redis_error e)].
    apply keeps_bind; [by apply keeps_call|done]. }
  intros _ w6 (Hd6 & _ & _ & Hs6). apply wpi_ret; [apply Hst1; congruence|].
  apply (seen_reset_recorded t user h now); [done..|congruence|by rewrite Hs6, Hs5, Hs4].
Qed.

Lemma seen_confirm_password_reset w :
  w_db w = d0 → w_session w = empty_session → t0 <= w_clock w →
  seen (confirm_password_reset s token new_password) (λ _ w', reset_done (w_db w')) w.
Proof.
  intros Hd Hs Ht0. unfold confirm_password_reset. destruct Hkeyed as (_ & Hku & _).
  apply wpi_bind_ok, (wpi_first _ _ _ _ _ _ d0); [by apply stage_start|by rewrite Hs, Hd|].
  intros w1 [t|] Hadv1 Ht; [|by apply wpi_raise, stage_start; rewrite (advance_db _ _ Hadv1)].
  destruct Ht as [Hk Hh%String.eqb_eq]. destruct (advance_still _ _ Hadv1) as (Hd1 & _ & _ & Hs1).
  pose proof (advance_clock _ _ Hadv1) as Hc1.
  apply wpi_bind_ok, wpi_now; [apply stage_start; congruence|]. intros w2 Hadv2.
  destruct (advance_still _ _ Hadv2) as (Hd2 & _ & _ & Hs2).
  pose proof (advance_clock _ _ Hadv2) as Hc2.
  assert (I w2) as HI2 by (apply stage_start; congruence).
  case_bool_decide as Hused; [done|].
  destruct (Z.ltb_spec (pt_expires_at t) (w_clock w2)) as [|Hexp]; [done|].
  apply wpi_bind_ok, (wpi_first _ _ _ _ _ _ d0); [done|by rewrite Hs2, Hs1, Hs, Hd2, Hd1, Hd|].
  intros w3 o Hadv3 Ho. destruct (advance_still _ _ Hadv3) as (Hd3 & _ & _ & Hs3).
  assert (I w3) as HI3 by (apply stage_start; congruence).
  destruct o as [user|]; [|done]. destruct Ho as [[k Huser] Hid%Z.eqb_eq].
  pose proof (Hku _ _ Huser) as Hkey. cbn in Hkey, Huser. subst k.
  destruct (u_is_active user) eqn:Hact; [cbn [negb]|done].
  eapply seen_reset_password; [|lia|congruence|congruence].
  split_and!; try done. by apply eq_None_not_Some.
Qed.

Lemma seen_confirm_in_session w :
  w_db w = d0 → w_session w = empty_session → t0 <= w_clock w →
  seen (in_session (confirm_password_reset s token new_password)) (λ _ w', reset_done (w_db w')) w.
Proof.
  intros Hd Hs Ht. apply wpi_in_session.
  eapply wpi_mono_ok; [|by apply seen_confirm_password_reset].
  intros m w' _ Hdone w'' -> _ _. exact Hdone.
Qed.
End confirm.

(** C25: a password is only reset with a usable token.  Whatever fails, at every
    moment of [confirm_password_reset] the tables are the ones before, or the
    password of one active user was replaced by a hash of the new one and the
    version of that user's tokens raised, on the strength of an unused token of
    that user with the hash of the given text which had not expired when it was
    looked at; nothing else changes but that user's unused tokens, which become
    used, and one audit entry; and a normal return means all of it was done. *)
Theorem password_reset_needs_token `{ServicesSpec faults W} (s : Settings)
    (token new_password : string) (w : W) :
  let p := in_session (confirm_password_reset s token new_password) in
  let d0 := w_db (view w) in
  let t0 := w_clock (view w) in
  keyed d0 → w_session (view w) = empty_session →
  Forall (λ w', reset_stage s token new_password d0 t0 (w_db (view w'))) (trace p w) ∧
  (∀ m, fst (run p w) = Ok m →
     reset_done s token new_password d0 t0 (w_db (view (snd (run p w))))).
Proof.
  intros p d0 t0 Hk Hs.
  destruct (wpi_trace _ p _ w (seen_confirm_in_session faults s token new_password d0 t0 Hk
    (view w) eq_refl Hs ltac:(lia))) as [Hall Hend].
  split; [exact Hall|]. intros m Hr. by rewrite Hr in Hend.
Qed.

(** A user with a token in the small world. *)
Definition a_reset_token : PasswordResetToken :=
  {| pt_id := 5; pt_user_id := 2;
     pt_token_hash := hash_password_reset_token production_example "tok";
     pt_expires_at := 2000; pt_used_at := None; pt_created_at := 0 |}.
Definition reset_world : world :=
  with_db (set_table TResetToken {[5 := a_reset_token]} (w_db two_users)) empty_session
    (world_at 1000).

Lemma reset_world_keyed : keyed (w_db reset_world).
Proof. apply (bool_decide_unpack _). vm_compute. exact I. Qed.

Lemma password_reset_needs_token_witness :
  let p := in_session (confirm_password_reset production_example "tok" "new-password") in
  reset_done production_example "tok" "new-password" (w_db (view reset_world)) 1000
    (w_db (view (snd (run p reset_world)))).
Proof.
  refine (proj2 (password_reset_needs_token (faults:=false) (W:=world) production_example "tok"
    "new-password" reset_world reset_world_keyed eq_refl) "Password has been reset." _).
  vm_compute. reflexivity.
Defined.

(** ** One use *)

Lemma used_not_usable `{Crypto} s token pw d0 t0 t1 d t user :
  constraints d0 → reset_done s token pw d0 t0 d → ¬ usable s token t1 d t user.
Proof.
  intros Hcon (t' & user' & h & now & key & created & Hu & _ & _ & _ & ->) Hu'.
  destruct Hu as ((k & Hk) & Hh & Hnone & _ & _ & Hid & _).
  destruct Hu' as ((k' & Hk') & Hh' & Hnone' & _).
  cbn in Hk'. unfold use_tokens in Hk'. rewrite lookup_fmap in Hk'.
  destruct (reset_tokens d0 !! k') as [t''|] eqn:Ek; [|done]. cbn in Hk'. injection Hk' as Ht.
  assert (pt_token_hash t'' = pt_token_hash t) as Heq by (rewrite <- Ht; by case_match).
  destruct Hcon as [(_ & _ & _ & _ & Huniq & _) _].
  assert (k' = k) as ->.
  { eapply (proj1 (unique_on_spec _ _) Huniq); [exact Ek|exact Hk|congruence]. }
  assert (t'' = t') as -> by congruence.
  revert Ht. unfold unused_token_of. rewrite Hid, Z.eqb_refl, Hnone. cbn. by intros <-.
Qed.



(** ** A crash in between *)

(** A process that starts again on what is stored. *)
Definition restarted (w : world) : world := with_db (w_db w) empty_session w.

(** The two commits of a confirmation are not one.  There is a moment of a
    confirmation at which the new password is stored and the token is unused: a
    process that stops there leaves a token that sets yet another password. *)
Theorem reset_crash_leaves_token_usable :
  ∃ w', w' ∈ trace (in_session (confirm_password_reset production_example "tok" "new-password"))
              reset_world ∧
    (∃ user, users (w_db w') !! 2 = Some user ∧
       bcrypt_verify "new-password" (u_hashed_password user) = true) ∧
    fst (run (in_session (confirm_password_reset production_example "tok" "other-password"))
           (restarted w')) = Ok "Password has been reset.".
Proof.
  set (tr := trace _ _).
  assert (existsb (λ w',
    match users (w_db w') !! 2 with
    | Some user => bcrypt_verify "new-password" (u_hashed_password user) &&
        match fst (run (in_session
          (confirm_password_reset production_example "tok" "other-password")) (restarted w')) with
        | Ok m => String.eqb m "Password has been reset."
        | Err _ => false
        end
    | None => false
    end) tr = true) as Hex by (vm_compute; reflexivity).
  apply existsb_exists in Hex as (w' & Hin & Hw'). exists w'.
  split; [by apply list_elem_of_In|].
  destruct (users (w_db w') !! 2) as [user|]; [|done]. apply andb_prop in Hw' as [Hv Hr].
  split; [by exists user|]. destruct (fst _) as [m|]; [|done].
  by apply String.eqb_eq in Hr as ->.
Qed.

(** ** An accepted confirmation *)

Lemma wp_invalidate_users_list_cache `{Crypto} tenant_id Q w :
  (∀ w', still w w' → Q (Ok tt) w') → wp false (invalidate_users_list_cache tenant_id) Q w.
Proof.
  intros HQ. unfold invalidate_users_list_cache, increment_cache_version, except_redis.
  apply wp_bind, wp_catch, wp_bind, wp_redis; [done|]. intros w1 Hadv.
  assert (still w (with_redis (snd (redis_exec (w_clock w1)
    (INCR (build_users_list_cache_version_key tenant_id)) (w_redis w))) w1)) as Hst.
  { by destruct (advance_still _ _ Hadv) as (? & ? & ? & ?). }
  pose proof (λ e, redis_exec_error (w_clock w1)
    (INCR (build_users_list_cache_version_key tenant_id)) (w_redis w) e) as He.
  destruct (redis_exec _ _ _) as [r st]. cbn [fst snd] in *.
  destruct r as [n|e]; [by apply HQ|]. rewrite (He e eq_refl). by apply HQ.
Qed.

(** The tables of a confirmation satisfy the constraints. *)
Section stages.
Context (d : tables) (user : User) (h : string) (now : Z).
Context (Huser : users d !! u_id user = Some user) (Hcon : constraints d).

Lemma constraints_password_changed : constraints (password_changed user h d).
Proof. by eapply constraints_set_user. Qed.

Lemma constraints_tokens_used : constraints (tokens_used (u_id user) now (password_changed user h d)).
Proof.
  apply constraints_update_tokens; [..|apply constraints_password_changed];
    intros t; by destruct (unused_token_of _ t).
Qed.

Lemma constraints_reset_audited key created :
  constraints (reset_audited user key created (tokens_used (u_id user) now (password_changed user h d))).
Proof.
  apply constraints_add_audit; [|done|apply constraints_tokens_used].
  destruct Hcon as [_ [F1 _]]. exact (F1 _ _ Huser).
Qed.
End stages.

Section accepted.
Context `{Crypto} (s : Settings) (token new_password : string).
Context (d0 : tables) (Hkeyed : keyed d0) (Hcon : constraints d0).
Context (Hpw : bcrypt_refuses new_password = false).

(** The user's password is a hash of the new one. *)
Definition password_set (user : User) (d : tables) : Prop :=
  ∃ h, bcrypt_verify new_password h = true ∧ users d !! u_id user = Some (with_password h user).

Local Abbreviation record_reset u now :=
  (_ ← db (BulkUpdate TResetToken (unused_token_of (u_id u)) (set_used_at now));
   _ ← db Commit;
   user ← db (Refresh TUser (u_id u));
   _ ← create_audit_log (u_tenant_id user) None PASSWORD_RESET_CONFIRMED (Some (u_id user)) true;
   Ret "Password has been reset.").

Lemma wp_reset_recorded h user now Q w :
  users d0 !! u_id user = Some user →
  w_db w = password_changed user h d0 → w_session w = empty_session →
  (∀ w', users (w_db w') !! u_id user = Some (with_password h user) → w_session w' = empty_session →
     Q (Ok "Password has been reset.") w') →
  wp false (record_reset (with_password h user) now) Q w.
Proof.
  intros Huser Hd Hs HQ.
  assert (get_table TUser (password_changed user h d0) !! u_id user = Some (with_password h user)) as Hrow
    by (cbn; apply lookup_insert_eq).
  eapply wp_bind, (wp_bulk_update _ _ _ _ _ _ (tokens_used (u_id user) now (password_changed user h d0))).
  { by rewrite Hs. }
  { rewrite Hs, Hd. done. }
  { by apply constraints_tokens_used. }
  intros w7 Hd7 Hs7.
  eapply wp_bind, (wp_commit _ _ (password_changed user h d0) _
    (tokens_used (u_id user) now (password_changed user h d0))).
  { congruence. }
  { by rewrite Hs7, Hs. }
  { done. }
  { by apply constraints_tokens_used. }
  intros w8 Hd8 Hs8 _.
  eapply wp_bind, wp_refresh; [by rewrite Hs8, Hd8|exact Hrow|]. intros w9 Hadv9.
  destruct (advance_still _ _ Hadv9) as (Hd9 & _ & _ & Hs9).
  unfold create_audit_log. apply wp_bind, wp_bind, wp_add. intros key created w10 _ (Hd10 & _ & _ & Hs10) _.
  eapply wp_bind, (wp_commit _ _ (tokens_used (u_id user) now (password_changed user h d0)) _
    (reset_audited user key created (tokens_used (u_id user) now (password_changed user h d0)))).
  { congruence. }
  { by rewrite Hs10, Hs9, Hs8. }
  { done. }
  { by apply constraints_reset_audited. }
  intros w11 Hd11 Hs11 _. eapply wp_refresh; [by rewrite Hs11, Hd11|cbn; apply lookup_insert_eq|].
  intros w12 Hadv12. destruct (advance_still _ _ Hadv12) as (Hd12 & _ & _ & Hs12).
  apply HQ; [|congruence]. by rewrite Hd12, Hd11.
Qed.

Lemma wp_reset_password t user now Q w :
  usable s token now d0 t user → w_db w = d0 → w_session w = empty_session →
  (∀ w', password_set user (w_db w') → w_session w' = empty_session →
     Q (Ok "Password has been reset.") w') →
  wp false (reset_password user new_password now) Q w.
Proof.
  intros (_ & _ & _ & _ & Huser & _) Hd Hs HQ. unfold reset_password.
  apply wp_bind. unfold hash_password. apply wp_call. intros r w1 (w1' & Hadv1 & [Hc|[? _]]); [|done].
  cbn in Hc. rewrite Hpw in Hc. destruct Hc as (-> & h & -> & Hv).
  destruct (advance_still _ _ Hadv1) as (Hd1 & _ & _ & Hs1).
  apply wp_bind, wp_set_row. intros w2 (Hd2 & _ & _ & Hs2).
  unfold increment_user_token_version. apply wp_bind, wp_bind, wp_set_row.
  intros w3 (Hd3 & _ & _ & Hs3).
  eapply wp_bind, (wp_commit _ _ d0 _ (password_changed user h d0)).
  { congruence. }
  { by rewrite Hs3, Hs2, Hs1, Hs. }
  { cbn. unfold set_row. cbn [get_table]. rewrite Huser. cbn. rewrite lookup_insert_eq. cbn.
    unfold password_changed. cbn. by rewrite insert_insert_eq. }
  { by apply constraints_password_changed. }
  intros w4 Hd4 Hs4 _.
  assert (get_table TUser (password_changed user h d0) !! u_id user = Some (with_password h user)) as Hrow
    by (cbn; apply lookup_insert_eq).
  eapply wp_bind, wp_refresh; [by rewrite Hs4, Hd4|exact Hrow|]. intros w5 Hadv5.
  destruct (advance_still _ _ Hadv5) as (Hd5 & _ & _ & Hs5).
  apply wp_bind, wp_invalidate_users_list_cache. intros w6 (Hd6 & _ & _ & Hs6). cbn [wp].
  apply (wp_reset_recorded h user now); [done|congruence|by rewrite Hs6, Hs5, Hs4|].
  intros w12 Hd12 Hs12. apply HQ; [|done]. exists h. by rewrite Hd12.
Qed.

(** The row with the hash is the one, and so is the user. *)
Lemma first_reset_token t user now o :
  usable s token now d0 t user →
  first_spec TResetToken (λ t, String.eqb (pt_token_hash t) (hash_password_reset_token s token)) d0 o →
  o = Some t.
Proof.
  intros ((k & Hk) & Hh & _) Ho. destruct o as [t'|].
  - destruct Ho as [[k' Hk'] Hh'%String.eqb_eq]. f_equal. cbn in Hk'.
    destruct Hcon as [(_ & _ & _ & _ & Hu & _) _].
    assert (k' = k) as ->; [|congruence]. eapply (proj1 (unique_on_spec _ _) Hu); [done..|congruence].
  - specialize (Ho k t Hk). cbn in Ho. by rewrite Hh, String.eqb_refl in Ho.
Qed.

Lemma first_user_with_id user id o :
  users d0 !! u_id user = Some user → u_id user = id →
  first_spec TUser (λ u, u_id u =? id) d0 o → o = Some user.
Proof.
  intros Huser Hid Ho. destruct Hkeyed as (_ & Hku & _). destruct o as [u|].
  - destruct Ho as [[k Hk] Hu%Z.eqb_eq]. pose proof (Hku _ _ Hk) as E. cbn in E, Hk. congruence.
  - specialize (Ho _ _ Huser). cbn in Ho. by rewrite Hid, Z.eqb_refl in Ho.
Qed.

Lemma wp_confirm_password_reset t user w :
  usable s token (w_clock w) d0 t user → w_db w = d0 → w_session w = empty_session →
  wp false (confirm_password_reset s token new_password)
    (λ r w', w_clock w' <= pt_expires_at t →
             r = Ok "Password has been reset." ∧ password_set user (w_db w')) w.
Proof.
  intros Hu Hd Hs. pose proof Hu as (_ & _ & Hnone & _ & Huser & Hid & Hact).
  unfold confirm_password_reset.
  eapply wp_bind, wp_first; [by rewrite Hs, Hd|]. intros w1 o Hadv1 Ho.
  rewrite (first_reset_token _ _ _ _ Hu Ho).
  destruct (advance_still _ _ Hadv1) as (Hd1 & _ & _ & Hs1).
  apply wp_bind, wp_now. intros w2 Hadv2. destruct (advance_still _ _ Hadv2) as (Hd2 & _ & _ & Hs2).
  rewrite bool_decide_eq_false_2 by (rewrite Hnone; by intros [? [=]]).
  destruct (Z.ltb_spec (pt_expires_at t) (w_clock w2)) as [Hlt|Hexp]; [cbn [wp]; lia|].
  eapply wp_bind, wp_first; [by rewrite Hs2, Hs1, Hs, Hd2, Hd1, Hd|]. intros w3 o' Hadv3 Ho'.
  rewrite (first_user_with_id _ _ _ Huser Hid Ho'), Hact. cbn [negb].
  destruct (advance_still _ _ Hadv3) as (Hd3 & _ & _ & Hs3).
  eapply (wp_reset_password t user (w_clock w2)); [|congruence|congruence|].
  - destruct Hu as (? & ? & ? & _ & ? & ? & ?). by split_and!.
  - by intros w' Hset _ _.
Qed.
End accepted.

(** A user may log in with a password whose hash is stored. *)
Lemma wp_authenticate `{Crypto} user password d w :
  users d !! u_id user = Some user → constraints d → w_db w = d → w_session w = empty_session →
  bcrypt_refuses password = false → bcrypt_verify password (u_hashed_password user) = true →
  u_is_active user = true →
  wp false (authenticate_user (u_email user) password (u_tenant_id user)) (λ r _, r = Ok user) w.
Proof.
  intros Huser [(_ & Hu & _) _] Hd Hs Hpw Hv Hact. unfold authenticate_user, get_user_by_email.
  eapply wp_bind, wp_first; [by rewrite Hs, Hd|]. intros w1 o _ Ho.
  assert (o = Some user) as ->.
  { destruct o as [u|].
    - destruct Ho as [[k Hk] [He%String.eqb_eq Ht%Z.eqb_eq]%andb_prop]. cbn in Hk. f_equal.
      assert (k = u_id user) as ->; [|congruence].
      eapply (proj1 (unique_on_spec _ _) Hu); [exact Hk|exact Huser|cbn; congruence].
    - specialize (Ho _ _ Huser). cbn in Ho. by rewrite String.eqb_refl, Z.eqb_refl in Ho. }
  unfold verify_password. rewrite Hpw, Hv. cbn. by rewrite Hact.
Qed.

(** C27: a usable token resets the password.  When nothing fails and the token has
    not expired by the end, the confirmation succeeds, and afterwards the user
    logs in with the new password. *)
Theorem password_reset_succeeds `{ServicesSpec false W} (s : Settings)
    (token new_password : string) (w w2 : W) (t : PasswordResetToken) (user : User) :
  let p := in_session (confirm_password_reset s token new_password) in
  let w' := snd (run p w) in
  keyed (w_db (view w)) → constraints (w_db (view w)) → w_session (view w) = empty_session →
  usable s token (w_clock (view w)) (w_db (view w)) t user →
  bcrypt_refuses new_password = false →
  w_clock (view w') <= pt_expires_at t →
  fst (run p w) = Ok "Password has been reset." ∧
  (w_db (view w2) = w_db (view w') → constraints (w_db (view w2)) →
   w_session (view w2) = empty_session →
   ∃ h, fst (run (authenticate_user (u_email user) new_password (u_tenant_id user)) w2)
          = Ok (with_password h user)).
Proof.
  intros p w' Hk Hc Hs Hu Hpw Hexp.
  destruct (wp_run p (λ r w', w_clock w' <= pt_expires_at t →
    r = Ok "Password has been reset." ∧ password_set new_password user (w_db w')) w) as [Hr Hset];
    [|exact Hexp|].
  - apply wp_in_session. eapply wp_mono; [|by eapply wp_confirm_password_reset].
    intros r w1 Hr w1' Hd _ Hclock Hexp'. rewrite Hd. apply Hr. lia.
  - split; [exact Hr|]. intros Hd2 Hc2 Hs2. destruct Hset as (h & Hv & Huser). exists h.
    apply (wp_run (authenticate_user (u_email user) new_password (u_tenant_id user))
      (λ r _, r = Ok (with_password h user)) w2).
    rewrite Hd2 in Hc2. destruct Hu as (_ & _ & _ & _ & _ & _ & Hact).
    by eapply (wp_authenticate (with_password h user)).
Qed.

Lemma password_reset_succeeds_witness :
  let p := in_session (confirm_password_reset production_example "tok" "new-password") in
  let w' := snd (run p reset_world) in
  ∃ h, fst (run (authenticate_user (u_email a_user) "new-password" (u_tenant_id a_user)) w')
         = Ok (with_password h a_user).
Proof.
  refine (proj2 (password_reset_succeeds (W:=world) production_example "tok" "new-password"
    reset_world _ a_reset_token a_user reset_world_keyed _ eq_refl _ eq_refl _) eq_refl _ _).
  - apply (bool_decide_unpack _). vm_compute. exact I.
  - split_and!; [exists 5| | |vm_compute; congruence| | |]; reflexivity.
  - vm_compute. congruence.
  - apply (bool_decide_unpack _). vm_compute. exact I.
  - vm_compute. reflexivity.
Defined.

(** ** The job *)

Section job.
Context `{Crypto} (faults : bool) (s : Settings) (job_id : string).
Context (d0 : tables) (m0 : list mail).
Context (Hdone : ∃ k r, job_completions d0 !! k = Some r ∧ jc_job_id r = job_id).

(** Nothing was stored and nothing was sent. *)
Definition untouched (w : world) : Prop := w_db w = d0 ∧ w_mail w = m0.

Definition harmless (B : Type) (c : svc B) : Prop := is_commit c = false ∧ is_mail c = false.

Lemma harmless_untouched {B} (c : svc B) w r w' :
  harmless B c → svc_spec faults c w r w' → untouched w → untouched w'.
Proof.
  intros [Hc Hm] Hs [Hd Hmail]. split; [rewrite <- Hd; by eapply svc_db_frame|].
  rewrite <- Hmail. by eapply svc_mail_frame.
Qed.

Lemma wpi_harmless {A} (p : prog A) w :
  keeps harmless p → untouched w → wpi faults untouched p (λ _ _, True) w.
Proof. apply wpi_keeps. intros; by eapply harmless_untouched. Qed.

(** A recorded job is seen to be done. *)
Lemma seen_job_done w :
  untouched w → w_session w = empty_session →
  wpi faults untouched (is_password_reset_job_done job_id) (on_ok (λ done _, done = true)) w.
Proof.
  intros Hw Hs. unfold is_password_reset_job_done. apply wpi_bind_ok.
  unfold is_password_reset_job_completed. apply wpi_bind_ok, wpi_call; [done|].
  intros r w1 Hs1. assert (untouched w1) as Hw1 by (eapply harmless_untouched; [|exact Hs1|done]; done).
  split; [done|]. destruct r as [n|]; [|done]. cbn [on_ok]. apply wpi_ret; [done|]. cbn [on_ok].
  destruct (n =? 1); [by apply wpi_ret|].
  assert (w_session w1 = empty_session) as Hses.
  { rewrite <- Hs. by apply (svc_still faults (Redis (EXISTS (password_reset_job_completed_key job_id))) _ _ _ I Hs1). }
  apply wpi_bind_ok, wpi_bind_ok, wpi_call; [done|].
  intros r w2 Hs2. assert (untouched w2) as Hw2 by (eapply harmless_untouched; [|exact Hs2|done]; done).
  split; [done|]. destruct Hs2 as (w3 & Hadv & [[-> Hc]|(_ & e & _ & -> & _)]); [|done].
  rewrite (advance_db _ _ Hadv), (advance_session _ _ Hadv), Hses in Hc. cbn in Hc.
  destruct Hc as (res & Hres%select_one_spec & ->). cbn [on_ok]. apply wpi_ret; [done|]. cbn [on_ok].
  apply wpi_ret; [done|]. cbn. apply bool_decide_eq_true. destruct (head res) as [row|]; [by eexists|].
  destruct Hdone as (k & row & Hk & Hid). destruct Hw1 as [Hd1 _]. rewrite <- Hd1 in Hk.
  specialize (Hres k row Hk). cbn in Hres. by rewrite Hid, String.eqb_refl in Hres.
Qed.

Lemma harmless_completed : keeps harmless (is_password_reset_job_completed job_id).
Proof. apply keeps_bind; [by apply keeps_call|done]. Qed.
Lemma harmless_mark : keeps harmless (mark_password_reset_job_completed s job_id).
Proof. apply keeps_bind; [by apply keeps_call|done]. Qed.

Lemma wpi_done_job user_id w :
  untouched w → w_session w = empty_session →
  wpi faults untouched (create_password_reset_token_and_send_email s user_id (Some job_id))
    (λ _ _, True) w.
Proof.
  intros Hw Hs. unfold create_password_reset_token_and_send_email. apply wpi_bind.
  eapply wpi_mono; [|by apply seen_job_done]. intros [is_done|e] w1 Hw1; [|done]. cbn [on_ok].
  intros ->. apply wpi_harmless; [|done]. apply keeps_bind; [apply harmless_completed|].
  intros b. destruct b; [done|apply harmless_mark].
Qed.
End job.

(** A job that was done sends nothing again.  Once the completion of a job is
    in the database, running it changes neither the tables nor what was sent, at
    any moment and whatever fails. *)
Theorem reset_job_not_repeated `{ServicesSpec faults W} (s : Settings) (user_id : Z)
    (job_id : string) (w : W) :
  let p := in_session (create_password_reset_token_and_send_email s user_id (Some job_id)) in
  (∃ k r, job_completions (w_db (view w)) !! k = Some r ∧ jc_job_id r = job_id) →
  w_session (view w) = empty_session →
  Forall (λ w', w_db (view w') = w_db (view w) ∧ w_mail (view w') = w_mail (view w)) (trace p w).
Proof.
  intros p Hdone Hs. apply (wpi_trace (untouched (w_db (view w)) (w_mail (view w))) p
    (λ _ _, True) w). unfold p, in_session. apply wpi_finally.
  eapply wpi_mono; [|by apply wpi_done_job].
  intros r w' Hw' _. eapply wpi_mono; [|apply wpi_harmless; [|exact Hw']].
  - by intros [].
  - by apply keeps_call.
Qed.

Definition done_world : world :=
  with_db (set_table TJobCompletion {[1 := new_job_completion "j-1" 1 0]} (w_db two_users))
    empty_session (world_at 1000).

Lemma reset_job_not_repeated_witness :
  let p := in_session
    (create_password_reset_token_and_send_email production_example 2 (Some "j-1")) in
  Forall (λ w', w_db (view w') = w_db (view done_world) ∧ w_mail (view w') = w_mail (view done_world))
    (trace p done_world) ∧
  fst (run p done_world) = Ok tt.
Proof.
  split; [|vm_compute; reflexivity].
  refine (reset_job_not_repeated (faults:=false) (W:=world) production_example 2 "j-1" done_world _
    eq_refl).
  exists 1, (new_job_completion "j-1" 1 0). split; reflexivity.
Defined.

Section delivers.
Context `{Crypto} (s : Settings) (job_id : string) (user : User) (d0 : tables).
Context (Hkeyed : keyed d0) (Hcon : constraints d0).
Context (Huser : users d0 !! u_id user = Some user) (Hactive : u_is_active user = true).
Context (Hnew : ∀ k r, job_completions d0 !! k = Some r → jc_job_id r ≠ job_id).
Context (Hhost : truthy (smtp_host s) = true).
Context (Hheaders : forallb is_header_value [email_from s; u_email user] = true).
Context (Httl : 0 < password_reset_job_completion_ttl_seconds s).

(** The hash of the token is one of a token that is stored. *)
Definition token_taken (tok : string) : Prop :=
  ∃ k t, reset_tokens d0 !! k = Some t ∧ pt_token_hash t = hash_password_reset_token s tok.

(** The token of the email is stored, unused and valid from [now] on, and the job
    is recorded. *)
Definition delivered (tok : string) (now : Z) (d : tables) : Prop :=
  ∃ k t j c, reset_tokens d0 !! k = None ∧ pt_user_id t = u_id user ∧ pt_used_at t = None ∧
    pt_token_hash t = hash_password_reset_token s tok ∧
    now + password_reset_token_expire_minutes s * 60 * second <= pt_expires_at t ∧
    job_completions d0 !! j = None ∧ jc_job_id c = job_id ∧
    d = set_table TJobCompletion (<[j := c]> (job_completions d0))
          (set_table TResetToken (<[k := t]> (reset_tokens d0)) d0).

(** What the job has done: it sent one email whose token is stored, or, when the
    token happens to collide, nothing. *)
Definition job_outcome (now : Z) (m0 : list mail) (r : result exn unit) (w : world) : Prop :=
  ∃ tok, slen tok = 43 ∧
    (r = Ok tt ∧ w_mail w = reset_mail s (u_email user) tok :: m0 ∧ delivered tok now (w_db w) ∨
     r = Err IntegrityError ∧ w_mail w = m0 ∧ w_db w = d0 ∧ token_taken tok).

Lemma wp_send_email recipient subject body Q w :
  forallb is_header_value [email_from s; recipient; subject] = true →
  (∀ w1, advance w w1 →
     Q (Ok tt) (with_mail ({| m_from := email_from s; m_to := recipient; m_subject := subject;
                              m_body := body |} :: w_mail w1) w1)) →
  wp false (send_email s recipient subject body) Q w.
Proof.
  intros Hh HQ. unfold send_email. rewrite Hhost, Hh. cbn [negb].
  apply wp_catch, wp_call. intros r w' (w1 & Hadv & [Hs|[? _]]); [|done].
  cbn in Hs. destruct Hs as [-> ->]. by apply HQ.
Qed.

Lemma wp_mark_completed Q w :
  (∀ w1, advance w w1 → ∀ st, Q (Ok tt) (with_redis st w1)) →
  wp false (mark_password_reset_job_completed s job_id) Q w.
Proof.
  intros HQ. unfold mark_password_reset_job_completed. apply wp_bind, wp_redis; [done|].
  intros w1 Hadv. cbn [redis_exec]. rewrite (proj2 (Z.leb_gt _ 0)) by lia. cbn [andb wp]. by apply HQ.
Qed.

(** The commit of the token and the completion. *)
Lemma wp_commit_reset_job wrs d Q w :
  w_db w = d0 → all_writes (w_session w) = wrs → run_writes wrs d0 = Some d → constraints d →
  (∀ w', w_db w' = d → w_mail w' = w_mail w → Q (Ok tt) w') →
  wp false (commit_reset_job s (Some job_id)) Q w.
Proof.
  intros Hd Hs Hrun Hc HQ. unfold commit_reset_job.
  eapply wp_bind, wp_catch, wp_bind, wp_commit; [done..|]. intros w1 Hd1 _ Hm1. cbn [wp].
  apply wp_mark_completed. intros w2 Hadv st.
  apply HQ; cbn; [by rewrite (advance_db _ _ Hadv)|by rewrite (advance_mail _ _ Hadv)].
Qed.

Lemma wp_send_reset_token now w :
  w_db w = d0 → w_session w = empty_session → now <= w_clock w →
  wp false (send_reset_token s user (Some job_id)) (job_outcome now (w_mail w)) w.
Proof.
  intros Hd Hs Hnow. unfold send_reset_token, generate_password_reset_token.
  apply wp_bind, wp_call. intros r w1 (w1' & Hadv1 & [Hc|[? _]]); [|done].
  cbn in Hc. destruct Hc as (-> & tok & -> & Hlen).
  destruct (advance_still _ _ Hadv1) as (Hd1 & _ & _ & Hs1).
  pose proof (advance_clock _ _ Hadv1) as Hc1. pose proof (advance_mail _ _ Hadv1) as Hm1.
  apply wp_bind, wp_now. intros w2 Hadv2. destruct (advance_still _ _ Hadv2) as (Hd2 & _ & _ & Hs2).
  pose proof (advance_clock _ _ Hadv2) as Hc2. pose proof (advance_mail _ _ Hadv2) as Hm2.
  set (hash := hash_password_reset_token s tok). set (exp := w_clock w2 + _).
  apply wp_bind, wp_add. intros k created w3 Hfresh (Hd3 & _ & _ & Hs3) Hm3.
  rewrite Hs2, Hs1, Hs, Hd2, Hd1, Hd in Hfresh. specialize (Hfresh d0 eq_refl). cbn in Hfresh.
  set (t := new_reset_token (u_id user) hash exp k created) in *.
  set (d1 := set_table TResetToken (<[k := t]> (reset_tokens d0)) d0).
  eapply wp_bind, (wp_flush _ _ d0 [insert_row TResetToken k t] d1);
    [congruence|by rewrite Hs3, Hs2, Hs1, Hs|done|].
  intros w4 Hd4 Hm4. case_decide as Hcon1.
  2:{ intros _. exists tok. split; [done|]. right. split_and!; [done|congruence|done|].
      apply dec_stable. intros Hnot. destruct Hcon1. apply constraints_add_token; [done| | |done].
      - by eexists.
      - intros j r' Hj Heq. destruct Hnot. by exists j, r'. }
  intros Hs4. apply wp_bind, wp_catch. unfold send_password_reset_email.
  apply wp_send_email; [by cbn in *; rewrite ?andb_true_r in *|]. intros w5 Hadv5.
  destruct (advance_still _ _ Hadv5) as (Hd5 & _ & _ & Hs5).
  pose proof (advance_mail _ _ Hadv5) as Hm5.
  apply wp_bind, wp_bind, wp_add. cbn. rewrite Hs5, Hd5, Hs4, Hd4. intros j created' w6 Hfresh' Hp6 Hm6.
  specialize (Hfresh' d1 eq_refl). cbn in Hfresh'.
  destruct Hp6 as (Hd6 & _ & _ & Hs6). cbn in Hd6, Hs6.
  eapply (wp_commit_reset_job _ (set_table TJobCompletion
    (<[j := new_job_completion job_id j created']> (job_completions d0)) d1)).
  { congruence. }
  { by rewrite Hs6, Hs5, Hs4. }
  { done. }
  { by apply (constraints_add_completion d1). }
  intros w7 Hd7 Hm7. exists tok. split; [done|]. left. split; [done|]. split.
  - rewrite Hm7, Hm6. cbn in *. unfold reset_mail. congruence.
  - exists k, t, j, (new_job_completion job_id j created'). split_and!; try done.
    unfold t, exp. cbn. lia.
Qed.
End delivers.

(** C28: a job delivers its token.  When nothing fails, the job of an active user
    that was not done yet sends one email, and the token in that email is stored
    for that user, unused and with its full lifetime, together with the completion
    of the job; only when the drawn token has the hash of a stored one nothing is
    sent or stored and the job fails. *)
Theorem reset_job_delivers `{ServicesSpec false W} (s : Settings) (user : User)
    (job_id : string) (w : W) :
  let p := in_session (create_password_reset_token_and_send_email s (u_id user) (Some job_id)) in
  let d0 := w_db (view w) in
  keyed d0 → constraints d0 → w_session (view w) = empty_session →
  users d0 !! u_id user = Some user → u_is_active user = true →
  (∀ k r, job_completions d0 !! k = Some r → jc_job_id r ≠ job_id) →
  w_redis (view w) !! password_reset_job_completed_key job_id = None →
  truthy (smtp_host s) = true →
  forallb is_header_value [email_from s; u_email user] = true →
  0 < password_reset_job_completion_ttl_seconds s →
  job_outcome s job_id user d0 (w_clock (view w)) (w_mail (view w))
    (fst (run p w)) (view (snd (run p w))).
Proof.
  intros p d0 Hk Hc Hs Huser Hact Hnew Hredis Hhost Hheaders Httl. apply wp_run.
  unfold p, in_session. apply wp_finally. unfold create_password_reset_token_and_send_email.
  apply wp_bind. unfold is_password_reset_job_done, is_password_reset_job_completed.
  apply wp_bind, wp_bind, wp_redis; [done|]. intros w1 Hadv1. cbn [redis_exec]. unfold live.
  rewrite Hredis. cbn [decide]. rewrite decide_False by (by intros []). cbn [wp Z.eqb].
  set (w1' := with_redis _ w1).
  assert (still (view w) w1') as (Hd1 & _ & _ & Hs1)
    by (destruct (advance_still _ _ Hadv1) as (? & ? & ? & ?); by split_and!).
  unfold is_password_reset_job_completed_in_db.
  eapply wp_bind, wp_first; [by rewrite Hs1, Hs|]. intros w2 o Hadv2 Ho.
  destruct (advance_still _ _ Hadv2) as (Hd2 & _ & _ & Hs2).
  assert (o = None) as ->.
  { destruct o as [r|]; [|done]. destruct Ho as [[k Hr] Hid%String.eqb_eq].
    rewrite Hd1 in Hr. by destruct (Hnew k r Hr). }
  cbn [wp]. rewrite bool_decide_eq_false_2 by (by intros []).
  eapply wp_bind, wp_first; [by rewrite Hs2, Hs1, Hs|]. intros w3 o Hadv3 Ho'.
  rewrite Hd2, Hd1 in Ho'. rewrite (first_user_with_id _ Hk _ _ _ Huser eq_refl Ho'), Hact. cbn [negb].
  destruct (advance_still _ _ Hadv3) as (Hd3 & _ & _ & Hs3).
  eapply wp_mono; [|apply (wp_send_reset_token s job_id user d0 Hc Huser Hnew Hhost Hheaders Httl
    (w_clock (view w)))].
  - intros r w4 Hout. apply wp_db. intros w5 r' w' Hadv5 [-> ->].
    assert (w_mail w3 = w_mail (view w)) as Hm.
    { rewrite (advance_mail _ _ Hadv3), (advance_mail _ _ Hadv2). cbn. by apply advance_mail. }
    rewrite Hm in Hout. unfold job_outcome in *. cbn.
    by rewrite (advance_mail _ _ Hadv5), (advance_db _ _ Hadv5).
  - by rewrite Hd3, Hd2, Hd1.
  - by rewrite Hs3, Hs2, Hs1.
  - apply advance_clock in Hadv1, Hadv2, Hadv3. cbn in *. lia.
Qed.

Lemma reset_job_delivers_witness :
  let p := in_session
    (create_password_reset_token_and_send_email production_example 2 (Some "j-1")) in
  job_outcome production_example "j-1" a_user (w_db two_users) 1000 []
    (fst (run p two_users)) (view (snd (run p two_users))) ∧
  length (w_mail (snd (run p two_users))) = 1%nat.
Proof.
  split; [|vm_compute; reflexivity].
  refine (reset_job_delivers (W:=world) production_example a_user "j-1" two_users _ _ eq_refl
    eq_refl eq_refl _ eq_refl _ _ _).
  - apply (bool_decide_unpack _). vm_compute. exact I.
  - apply (bool_decide_unpack _). vm_compute. exact I.
  - intros k r Hk. change ((∅ : gmap Z PasswordResetJobCompletion) !! k = Some r) in Hk. by rewrite lookup_empty in Hk.
  - vm_compute. reflexivity.
  - vm_compute. reflexivity.
  - vm_compute. reflexivity.
Defined.
