(* ===== verification/Idempotency.v ===== *)
(** * Idempotent requests

    [app/services/idempotency_service.py] and
    [app/api/dependencies/idempotency.py]: the response of a request is stored
    under a key of the client, and a lock in Redis keeps two requests with the
    same key apart. *)

From Stdlib Require Import ZArith Ascii String Lia.
From stdpp Require Import base tactics option list gmap strings.
From S2P Require Import Prelude PyText Json Errors Config Models Services Programs Http.
Local Open Scope string_scope.
Local Open Scope list_scope.
Local Open Scope Z_scope.

Definition IDEMPOTENCY_LOCK_PREFIX : string := "idempotency:processing:".

(** The header [Idempotency-Key]. *)
Definition get_idempotency_key (idempotency_key : option string) : result exn string :=
  let normalized_key := match some_truthy idempotency_key with Some k => strip k | None => "" end in
  if negb (truthy normalized_key) then
    Err (HTTPException 400 "Idempotency-Key header is required" [])
  else Ok normalized_key.

Section idempotency.
Context `{Crypto} (s : Settings).

Definition build_scope_key (scope idempotency_key : string) : result exn string :=
  let normalized_key := strip idempotency_key in
  if negb (truthy normalized_key) then
    Err (raised BadRequestError "Idempotency-Key header is required")
  else
    let digest := sha256_hex (scope ++ ":" ++ normalized_key) in
    Ok (scope ++ ":" ++ digest)%string.

Definition idempotency_lock_key (scope_key : string) : string := IDEMPOTENCY_LOCK_PREFIX ++ scope_key.

Definition try_acquire_idempotency_lock (scope_key : string) : prog bool :=
  redis (SET (idempotency_lock_key scope_key) "1" true
           (Some (idempotency_processing_lock_ttl_seconds s))).

Definition release_idempotency_lock (scope_key : string) : prog unit :=
  _ ← redis (DEL (idempotency_lock_key scope_key));
  Ret tt.

Definition get_cached_response (scope_key : string) : prog (option IdempotencyRecord) :=
  now ← now_us;
  first TIdempotencyRecord (λ r, String.eqb (ir_scope_key r) scope_key && (now <? ir_expires_at r)).

Definition new_idempotency_record (scope_key : string) (status_code : Z) (response_body : json)
    (expires_at key created : Z) : IdempotencyRecord :=
  {| ir_id := key; ir_scope_key := scope_key; ir_status_code := status_code;
     ir_response_body := dumps response_body; ir_created_at := created;
     ir_expires_at := expires_at |}.

(** [db.commit()] of a new row, [false] when a constraint is violated and the
    transaction was rolled back. *)
Definition try_commit : prog bool :=
  catch (_ ← db Commit; Ret true)
    (λ e, match e with
          | IntegrityError => _ ← db Rollback; Ret false
          | _ => Raise e
          end).

Definition store_response (scope_key : string) (status_code : Z) (response_body : json) :
    prog IdempotencyRecord :=
  now ← now_us;
  let expires_at := now + idempotency_ttl_seconds s * second in
  record ← db (Add TIdempotencyRecord
                 (new_idempotency_record scope_key status_code response_body expires_at));
  committed ← try_commit;
  if (committed : bool) then db (Refresh TIdempotencyRecord (ir_id record))
  else
    existing_record ← get_cached_response scope_key;
    match existing_record with
    | None => Raise IntegrityError
    | Some r => Ret r
    end.

Definition parse_cached_response_body (record : IdempotencyRecord) : result exn json :=
  result_of_option JSONDecodeError (loads (ir_response_body record)).

(** A [JSONResponse]. *)
Definition json_response (status_code : Z) (content : json) : response :=
  {| resp_status := status_code; resp_content := content; resp_headers := [] |}.

Definition cached_json_response (record : IdempotencyRecord) : result exn response :=
  match parse_cached_response_body record with
  | Ok content => Ok (json_response (ir_status_code record) content)
  | Err e => Err e
  end.

Definition begin_idempotent_request (scope_key : string) :
    prog (option IdempotencyRecord * bool) :=
  cached_record ← get_cached_response scope_key;
  match cached_record with
  | Some r => Ret (Some r, false)
  | None =>
      acquired ← try_acquire_idempotency_lock scope_key;
      if negb acquired then
        cached_record ← get_cached_response scope_key;
        match cached_record with
        | Some r => Ret (Some r, false)
        | None => Raise (raised ConflictError "Duplicate request is already in progress")
        end
      else Ret (None, true)
  end.

Definition cleanup_expired_idempotency_records : prog Z :=
  now ← now_us;
  deleted_count ← db (BulkDelete TIdempotencyRecord (λ r, ir_expires_at r <? now));
  _ ← db Commit;
  Ret deleted_count.
End idempotency.
