(* ===== verification/Webhooks.v ===== *)
(** * Inbound webhooks

    [app/core/webhook_security.py], [app/services/webhook_service.py],
    [app/schemas/webhook.py] and [app/api/routes/webhooks.py].

    A raw body is the text of its bytes.  Reading it as JSON is the work of
    [pydantic]: the parameter [parse_json]; the fields the schema wants are
    checked here. *)

From Stdlib Require Import ZArith Ascii String Lia.
From stdpp Require Import base tactics option list gmap strings.
From S2P Require Import Prelude PyText Json Errors Config Models Services Programs.
From S2P Require Import Tenants Http RateLimit Idempotency.
Local Open Scope string_scope.
Local Open Scope list_scope.
Local Open Scope Z_scope.

(** ** [webhook_security.py] *)

(** The longest prefix of characters that satisfy [p], and the rest. *)
Fixpoint span (p : ascii → bool) (l : list ascii) : list ascii * list ascii :=
  match l with
  | c :: l' => if p c then let '(a, b) := span p l' in (c :: a, b) else ([], l)
  | [] => ([], [])
  end.

Definition is_hex_digit (c : ascii) : bool :=
  let n := code (lower_char c) in ((48 <=? n) && (n <=? 57) || (97 <=? n) && (n <=? 102))%N.

(** The value of decimal digits. *)
Definition digits_value (l : list ascii) : Z :=
  fold_left (λ acc c, acc * 10 + digit_val c) l 0.

(** [STRIPE_STYLE_SIGNATURE_PATTERN.fullmatch]: the groups, when it matches. *)
Definition stripe_match (l : list ascii) : option (Z * option (list ascii)) :=
  match l with
  | t :: eq :: l1 =>
      if Ascii.eqb (lower_char t) "t" && Ascii.eqb eq "=" then
        let '(digits, l2) := span is_digit l1 in
        match digits, l2 with
        | [], _ => None
        | _, [] => Some (digits_value digits, None)
        | _, c :: v :: one :: eq' :: l3 =>
            if Ascii.eqb c "," && Ascii.eqb (lower_char v) "v" && Ascii.eqb one "1" &&
               Ascii.eqb eq' "=" && negb (bool_decide (l3 = [])) && forallb is_hex_digit l3
            then Some (digits_value digits, Some l3) else None
        | _, _ => None
        end
      else None
  | _ => None
  end.

Definition is_ascii_text (t : string) : bool := forallb (λ c, (code c <? 128)%N) (chars t).

(** [hmac.compare_digest] of two texts. *)
Definition compare_digest (a b : string) : result exn bool :=
  if is_ascii_text a && is_ascii_text b then Ok (String.eqb a b)
  else Err (TypeError "comparing strings with non-ASCII characters is not supported").

Definition parse_webhook_signature_header (signature : string) :
    result exn (option Z * string) :=
  let normalized_signature := strip signature in
  match stripe_match (chars normalized_signature) with
  | Some (_, None) => Err (WebhookSignatureError "Webhook signature version is required")
  | Some (timestamp, Some parsed) => Ok (Some timestamp, lower (text parsed))
  | None => Ok (None, lower normalized_signature)
  end.

Definition build_timestamped_signing_message (timestamp : Z) (payload : string) : string :=
  (str_of_int timestamp ++ "." ++ payload)%string.

Section webhooks.
Context `{Crypto} (s : Settings) (parse_json : string → option json).

Definition hash_payload (payload : string) : string := sha256_hex payload.

Definition compute_hmac_signature (payload secret : string) : string :=
  hmac_sha256_hex secret payload.

Definition compute_timestamped_hmac_signature (timestamp : Z) (payload secret : string) : string :=
  compute_hmac_signature (build_timestamped_signing_message timestamp payload) secret.

Definition verify_hmac_signature (payload signature secret : string) : result exn unit :=
  if negb (truthy secret) then
    Err (WebhookSignatureError "Webhook signature secret is not configured")
  else
    match compare_digest (compute_hmac_signature payload secret) (lower signature) with
    | Ok true => Ok tt
    | Ok false => Err (WebhookSignatureError "Invalid webhook signature")
    | Err e => Err e
    end.

(** The replay window and the signature at [now], in seconds. *)
Definition check_signature (payload parsed_signature secret : string)
    (tolerance_seconds effective_timestamp now : Z) : result exn Z :=
  let age_seconds := Z.abs (now - effective_timestamp) in
  if tolerance_seconds <? age_seconds then
    Err (WebhookSignatureError "Webhook timestamp is outside the replay window")
  else
    let signing_message := build_timestamped_signing_message effective_timestamp payload in
    match compare_digest (compute_hmac_signature signing_message secret) parsed_signature with
    | Ok true => Ok effective_timestamp
    | Ok false => Err (WebhookSignatureError "Invalid webhook signature")
    | Err e => Err e
    end.

Definition verify_timestamped_hmac_signature (payload signature : string) (timestamp : option Z)
    (secret : string) (tolerance_seconds : Z) (now : option Z) : prog Z :=
  if negb (truthy secret) then
    Raise (WebhookSignatureError "Webhook signature secret is not configured")
  else
    parsed ← of_result (parse_webhook_signature_header signature);
    let '(header_timestamp, parsed_signature) := parsed in
    match (match timestamp with Some t => Some t | None => header_timestamp end) with
    | None => Raise (WebhookSignatureError "Webhook timestamp is required")
    | Some effective_timestamp =>
        current_timestamp ← match now with Some t => Ret t | None => t ← now_us; Ret (t / second) end;
        of_result (check_signature payload parsed_signature secret tolerance_seconds
                     effective_timestamp current_timestamp)
    end.

(** ** [webhook_service.py] *)

Definition enforce_webhook_body_size (raw_body : string) : result exn unit :=
  if webhook_max_body_bytes s <? slen raw_body
  then Err (raised PayloadTooLargeError "Webhook payload too large") else Ok tt.

Definition new_webhook_event (provider event_id payload : string) (key created : Z) : WebhookEvent :=
  {| we_id := key; we_provider := provider; we_event_id := event_id;
     we_payload_hash := hash_payload payload; we_received_at := created |}.

Definition persist_webhook_event (provider event_id payload : string) : prog WebhookEvent :=
  event ← db (Add TWebhookEvent (new_webhook_event provider event_id payload));
  committed ← try_commit;
  if (committed : bool) then db (Refresh TWebhookEvent (we_id event))
  else Raise (raised ConflictError "Webhook event already processed").

Definition cleanup_old_webhook_events : prog Z :=
  now ← now_us;
  let cutoff := now - webhook_event_retention_days s * microseconds_per_day in
  deleted_count ← db (BulkDelete TWebhookEvent (λ e, we_received_at e <? cutoff));
  _ ← db Commit;
  Ret deleted_count.

Definition signature_error (e : exn) : exn :=
  match e with WebhookSignatureError m => raised UnauthorizedError m | _ => e end.

Definition verify_inbound_webhook_signature (payload : string) (signature timestamp : option string)
    (secret : string) (tolerance_seconds : Z) : prog unit :=
  match signature with
  | None => Raise (raised UnauthorizedError "Webhook signature header is required")
  | Some signature =>
      parsed_timestamp ← match timestamp with
        | None => Ret None
        | Some t =>
            match int_of_str (strip t) with
            | Some n => Ret (Some n)
            | None => Raise (raised UnauthorizedError "Webhook timestamp must be a Unix timestamp")
            end
        end;
      catch (_ ← verify_timestamped_hmac_signature payload signature parsed_timestamp secret
                   tolerance_seconds None; Ret tt)
        (λ e, Raise (signature_error e))
  end.

(** ** The schema *)

Record WebhookInboundRequest := { wr_provider : string; wr_event_id : string; wr_event_type : string }.

(** [WebhookInboundRequest.model_validate_json]; its error is a [ValueError]. *)
Definition model_validate_json (raw_body : string) : result exn WebhookInboundRequest :=
  match parse_json raw_body with
  | Some (JObj kvs) =>
      match dict_get "provider" kvs, dict_get "event_id" kvs, dict_get "event_type" kvs,
            dict_get "payload" kvs with
      | Some (JStr p), Some (JStr i), Some (JStr t), Some (JObj _) =>
          Ok {| wr_provider := p; wr_event_id := i; wr_event_type := t |}
      | _, _, _, _ => Err (ValueError "validation errors for WebhookInboundRequest")
      end
  | _ => Err (ValueError "validation errors for WebhookInboundRequest")
  end.

(** ** The route *)

Definition webhook_response_body (status : string) (payload : WebhookInboundRequest) : json :=
  JObj [("status", JStr status); ("provider", JStr (wr_provider payload));
        ("event_id", JStr (wr_event_id payload))].

(** Storing the event: [false] when it is a duplicate. *)
Definition record_event (payload : WebhookInboundRequest) (raw_body : string) : prog bool :=
  catch (_ ← persist_webhook_event (wr_provider payload) (wr_event_id payload) raw_body; Ret true)
    (λ e, match e with DomainError ConflictError _ _ => Ret false | _ => Raise e end).

(** What is done under the lock. *)
Definition process_webhook (scope_key raw_body : string) (signature timestamp : option string) :
    prog response :=
  _ ← verify_inbound_webhook_signature raw_body signature timestamp (webhook_signature_secret s)
        (webhook_signature_tolerance_seconds s);
  payload ← of_result (model_validate_json raw_body);
  _ ← enforce_webhook_provider_rate_limit s (wr_provider payload);
  accepted ← record_event payload raw_body;
  if negb accepted then
    stored_record ← store_response s scope_key 409 (webhook_response_body "duplicate" payload);
    of_result (cached_json_response stored_record)
  else
    stored_record ← store_response s scope_key 200 (webhook_response_body "accepted" payload);
    content ← of_result (parse_cached_response_body stored_record);
    Ret (json_response 200 content).

Definition webhook_scope : string := "webhooks:inbound".

(** The body of the route, after its dependencies. *)
Definition handle_webhook (idempotency_key raw_body : string) (signature timestamp : option string) :
    prog response :=
  _ ← of_result (enforce_webhook_body_size raw_body);
  scope_key ← of_result (build_scope_key webhook_scope idempotency_key);
  begun ← begin_idempotent_request s scope_key;
  match begun with
  | (Some cached_record, _) => of_result (cached_json_response cached_record)
  | (None, lock_acquired) =>
      finally (process_webhook scope_key raw_body signature timestamp)
        (if (lock_acquired : bool) then release_idempotency_lock scope_key else Ret tt)
  end.

Definition inbound_webhook (rq : request) : prog response :=
  in_session
    (idempotency_key ← of_result (get_idempotency_key (header rq "Idempotency-Key"));
     _ ← webhook_ingress_rate_limit s rq;
     handle_webhook idempotency_key (rq_body rq) (header rq "X-Webhook-Signature")
       (header rq "X-Webhook-Timestamp")).
End webhooks.
