(* ===== verification/WebhookSafety.v ===== *)
(** * What the webhook endpoint guarantees

    An event is only stored for a signed body within the replay window, and at
    most once; a request with a key whose response is stored gets that response
    and does nothing else; what happens when the stored response has expired. *)

From Stdlib Require Import ZArith Ascii String Lia.
From stdpp Require Import base tactics option list gmap strings sorting fin_maps.
From S2P Require Import Prelude PyText Json Errors Config Models Services Programs.
From S2P Require Import DbFacts Reference UserMutations Http RateLimit Idempotency Webhooks.
Local Open Scope string_scope.
Local Open Scope list_scope.
Local Open Scope Z_scope.

(** ** Rules *)

Section rules.
Context `{Crypto} (faults : bool) (J : tables → gmap string s3_object → list post → Prop).
Local Abbreviation I := (stored J).
Local Abbreviation seen p Q := (wpi faults (stored J) p (on_ok Q)).

(** A commit whose violated constraint is caught. *)
Lemma wpi_try_commit Q w d0 wrs :
  I w → w_db w = d0 → all_writes (w_session w) = wrs →
  (∀ d, run_writes wrs d0 = Some d → constraints d →
     ∀ w', w_db w' = d → w_s3 w' = w_s3 w → w_posts w' = w_posts w →
       w_session w' = empty_session → I w' ∧ Q true w') →
  ((∀ d, run_writes wrs d0 = Some d → ¬ constraints d) →
   ∀ w', w_db w' = d0 → w_session w' = empty_session → w_clock w <= w_clock w' → I w' →
     Q false w') →
  seen try_commit Q w.
Proof.
  intros HI <- <- Hok Hno. unfold try_commit. apply wpi_catch, wpi_bind, wpi_call; [done|].
  intros r w' (w1 & Hadv & Hcase). pose proof (advance_clock _ _ Hadv) as Hclock.
  destruct (advance_outside _ _ Hadv) as (Hd & Ho & Hp).
  assert (∀ r' w2, cmd_spec (Db Commit) w1 r' w2 →
    (∃ d, r' = Ok tt ∧ run_writes (all_writes (w_session w)) (w_db w) = Some d ∧ constraints d ∧
       w_db w2 = d ∧ w_s3 w2 = w_s3 w ∧ w_posts w2 = w_posts w ∧ w_session w2 = empty_session) ∨
    r' = Err IntegrityError ∧ w2 = end_session w1 ∧
    ∀ d, run_writes (all_writes (w_session w)) (w_db w) = Some d → ¬ constraints d) as Hc.
  { intros r' w2. cbn. rewrite (flush_result_advance _ _ Hadv). unfold flush_result.
    destruct (run_writes _ _) as [d|] eqn:E; cbn; [case_decide|]; intros [-> ->]; [left; by exists d|right..].
    - split_and!; [done..|]. by intros d' [= <-].
    - by split_and!. }
  destruct Hcase as [Hs|(_ & e & [m He] & -> & Hw')].
  - destruct (Hc _ _ Hs) as [(d & -> & Hrun & Hcon & Hd2 & Ho2 & Hp2 & Hs2)|(-> & -> & Hnot)].
    + destruct (Hok d Hrun Hcon w' Hd2 Ho2 Hp2 Hs2) as [HI' HQ']. split; [done|]. by apply wpi_ret.
    + assert (I (end_session w1)) as HI' by (by apply (stable J w)).
      split; [done|]. apply wpi_bind_ok, wpi_frame; [done..|].
      intros w3 r w4 Hadv3 [-> ->]. cbn [on_ok]. apply wpi_ret; [by eapply (stable J), HI'; cbn; apply (advance_outside _ _ Hadv3)|].
      apply Hno; cbn; [done|by rewrite (advance_db _ _ Hadv3)|done|apply advance_clock in Hadv3; cbn in *; lia|].
      eapply (stable J), HI'; cbn; by apply (advance_outside _ _ Hadv3).
  - subst e. assert (I w') as HI'; [|split; [done|by apply wpi_raise]].
    destruct Hw' as [->|[r' Hs]]; [by eapply advance_stable|].
    destruct (Hc _ _ Hs) as [(d & _ & Hrun & Hcon & Hd2 & Ho2 & Hp2 & Hs2)|(_ & -> & _)];
      [by eapply Hok|by apply (stable J w)].
Qed.

(** Looking for a stored response changes nothing. *)
Lemma wpi_get_cached_response scope_key Q w d :
  I w → tx_view (w_db w) (w_session w) = Some d →
  (∀ w1 o now, still w w1 → w_clock w <= now → now <= w_clock w1 →
     first_spec TIdempotencyRecord
       (λ r, String.eqb (ir_scope_key r) scope_key && (now <? ir_expires_at r)) d o → Q o w1) →
  seen (get_cached_response scope_key) Q w.
Proof.
  intros HI Hd HQ. unfold get_cached_response. apply wpi_bind_ok, wpi_now; [done|].
  intros w1 Hadv1. destruct (advance_still _ _ Hadv1) as (Hd1 & Ho1 & Hp1 & Hs1).
  eapply wpi_first; [by eapply advance_stable|by rewrite Hs1, Hd1|].
  intros w2 o Hadv2 Ho. apply (HQ w2 o (w_clock w1)); [|by apply advance_clock..|done].
  eapply still_trans; by apply advance_still.
Qed.
End rules.

(** ** Signatures *)

(** The request is signed: the secret is configured, the signature of its header
    is the HMAC of the timestamp and the body under the secret, and the timestamp
    is within the replay window at [now]. *)
Definition authentic `{Crypto} (s : Settings) (raw_body : string) (signature timestamp : option string)
    (now : Z) : Prop :=
  webhook_signature_secret s ≠ "" ∧
  ∃ sg header_timestamp parsed t,
    signature = Some sg ∧ parse_webhook_signature_header sg = Ok (header_timestamp, parsed) ∧
    match timestamp with
    | Some text => int_of_str (strip text) = Some t
    | None => header_timestamp = Some t
    end ∧
    Z.abs (now / second - t) <= webhook_signature_tolerance_seconds s ∧
    hmac_sha256_hex (webhook_signature_secret s) (str_of_int t ++ "." ++ raw_body) = parsed.

Lemma check_signature_ok `{Crypto} raw_body parsed secret tolerance t now n :
  check_signature raw_body parsed secret tolerance t now = Ok n →
  Z.abs (now - t) <= tolerance ∧ hmac_sha256_hex secret (str_of_int t ++ "." ++ raw_body) = parsed.
Proof.
  unfold check_signature. destruct (Z.ltb_spec tolerance (Z.abs (now - t))) as [|Hle]; [done|].
  unfold compare_digest, compute_hmac_signature, build_timestamped_signing_message.
  destruct (_ && _); [|done]. destruct (String.eqb_spec (hmac_sha256_hex secret
    (str_of_int t ++ "." ++ raw_body)%string) parsed) as [Heq|]; [|done]. by intros _.
Qed.

Section verify.
Context `{Crypto} (faults : bool) (J : tables → gmap string s3_object → list post → Prop).
Context (s : Settings).
Local Abbreviation seen p Q := (wpi faults (stored J) p (on_ok Q)).

Lemma seen_verify_signature raw_body signature timestamp w :
  stored J w →
  seen (verify_inbound_webhook_signature raw_body signature timestamp (webhook_signature_secret s)
          (webhook_signature_tolerance_seconds s))
    (λ _ w', still w w' ∧ ∃ now, w_clock w <= now ∧ now <= w_clock w' ∧ authentic s raw_body signature timestamp now) w.
Proof.
  intros HJ. unfold verify_inbound_webhook_signature. destruct signature as [sg|]; [|by apply wpi_raise].
  apply wpi_bind_ok.
  assert (∀ Q, (∀ t, match timestamp with
                     | Some x => ∃ n, t = Some n ∧ int_of_str (strip x) = Some n
                     | None => t = None
                     end → Q t w) →
    seen (match timestamp with
          | None => Ret None
          | Some x => match int_of_str (strip x) with
                      | Some n => Ret (Some n)
                      | None => Raise (raised UnauthorizedError "Webhook timestamp must be a Unix timestamp")
                      end
          end) Q w) as Hts.
  { intros Q HQ. destruct timestamp as [x|]; [destruct (int_of_str (strip x)) eqn:E|];
      [| by apply wpi_raise|]; (apply wpi_ret; [done|]); apply HQ; eauto. }
  apply Hts. intros t Ht. apply wpi_catch, wpi_bind. unfold verify_timestamped_hmac_signature, truthy.
  destruct (String.eqb_spec (webhook_signature_secret s) "") as [|Hsecret]; cbn [negb]; [done|].
  apply wpi_bind, wpi_of_result; [done|].
  destruct (parse_webhook_signature_header sg) as [[header_timestamp parsed]|e] eqn:Hparse; [|done].
  destruct (match t with Some t0 => Some t0 | None => header_timestamp end) as [n|] eqn:Hn; [|done].
  apply wpi_bind, wpi_bind. eapply wpi_mono; [|apply (wpi_now faults J (λ now w1, advance w w1 ∧ now = w_clock w1)); [done|by intros]].
  intros [now|e] w1 HJ1; [|done]. cbn [on_ok]. intros [Hadv ->].
  apply wpi_ret; [done|]. apply wpi_of_result; [done|].
  destruct (check_signature _ _ _ _ _ _) as [m|e] eqn:Hcheck; [|done].
  apply wpi_ret; [done|]. cbn [on_ok]. split; [by apply advance_still|].
  exists (w_clock w1). split; [by apply advance_clock|]. split; [done|]. split; [done|].
  destruct (check_signature_ok _ _ _ _ _ _ _ Hcheck) as [Hage Hsig].
  exists sg, header_timestamp, parsed, n. split_and!; try done.
  destruct timestamp as [x|]; [destruct Ht as (n' & -> & ->); congruence|by subst t].
Qed.
End verify.

(** ** Constraints *)

Lemma constraints_add_event d k e :
  webhook_events d !! k = None →
  map_Forall (λ _ e', (we_provider e', we_event_id e') ≠ (we_provider e, we_event_id e)) (webhook_events d) →
  constraints d → constraints (set_table TWebhookEvent (<[k := e]> (webhook_events d)) d).
Proof.
  intros Hk He [(H1 & H2 & H3 & H4 & H5 & H6 & H7) HF].
  split; [|done]. unfold unique_constraints; cbn; split_and!; try done. by apply unique_on_new.
Qed.

(** A new event that cannot be stored is a duplicate. *)
Lemma event_conflict d k e :
  webhook_events d !! k = None → constraints d →
  ¬ constraints (set_table TWebhookEvent (<[k := e]> (webhook_events d)) d) →
  ∃ j e', webhook_events d !! j = Some e' ∧
    we_provider e' = we_provider e ∧ we_event_id e' = we_event_id e.
Proof.
  intros Hk Hc Hn.
  destruct (decide (map_Forall (λ _ e', (we_provider e', we_event_id e') ≠
    (we_provider e, we_event_id e)) (webhook_events d))) as [Hall|Hnot].
  - destruct Hn. by apply constraints_add_event.
  - apply map_not_Forall in Hnot as (j & e' & Hj & Heq); [|apply _].
    apply dec_stable in Heq. injection Heq as ? ?. by exists j, e'.
Qed.

(** ** The request *)

Lemma away_enforce_rate_limit_counter `{Crypto} key limit window :
  keeps away (enforce_rate_limit_counter key limit window).
Proof.
  unfold enforce_rate_limit_counter. solve_keeps.
Qed.

Section process.
Context `{Crypto} (faults : bool) (s : Settings) (parse_json : string → option json).
Context (scope_key raw_body : string) (signature timestamp : option string).
Context (d0 : tables) (t0 : Z) (Hcon : constraints d0).

Definition signed : Prop := ∃ now, t0 <= now ∧ authentic s raw_body signature timestamp now.

Definition event_of (payload : WebhookInboundRequest) : Z → Z → WebhookEvent :=
  new_webhook_event (wr_provider payload) (wr_event_id payload) raw_body.

Definition event_added (payload : WebhookInboundRequest) (d : tables) : Prop :=
  ∃ key created, webhook_events d0 !! key = None ∧
    d = set_table TWebhookEvent (<[key := event_of payload key created]> (webhook_events d0)) d0.

Definition known_event (payload : WebhookInboundRequest) : Prop :=
  ∃ k e, webhook_events d0 !! k = Some e ∧
    we_provider e = wr_provider payload ∧ we_event_id e = wr_event_id payload.

(** The response is stored until [idempotency_ttl_seconds] from now, in tables
    that satisfy the constraints. *)
Definition record_added (status : Z) (body : json) (d1 d : tables) : Prop :=
  ∃ key expires created, idempotency_records d1 !! key = None ∧
    t0 + idempotency_ttl_seconds s * second <= expires ∧ constraints d ∧
    d = set_table TIdempotencyRecord
          (<[key := new_idempotency_record scope_key status body expires key created]>
             (idempotency_records d1)) d1.

(** An accepted event with its response, and the answer to a known one. *)
Definition accepted (payload : WebhookInboundRequest) (d : tables) : Prop :=
  ∃ d1, event_added payload d1 ∧ record_added 200 (webhook_response_body "accepted" payload) d1 d.
Definition duplicate (payload : WebhookInboundRequest) (d : tables) : Prop :=
  known_event payload ∧ record_added 409 (webhook_response_body "duplicate" payload) d0 d.

(** What the tables may be at any moment. *)
Definition webhook_stage (d : tables) : Prop :=
  d = d0 ∨ ∃ payload, signed ∧ model_validate_json parse_json raw_body = Ok payload ∧
    (event_added payload d ∨ accepted payload d ∨ duplicate payload d).

(** What an answer of the processing means. *)
Definition processed (resp : response) (d : tables) : Prop :=
  ∃ payload, signed ∧ model_validate_json parse_json raw_body = Ok payload ∧
    (accepted payload d ∧ resp = json_response 200 (webhook_response_body "accepted" payload) ∨
     duplicate payload d ∧ resp = json_response 409 (webhook_response_body "duplicate" payload)).

(** A stored response that has not expired. *)
Definition cached (now : Z) (resp : response) : Prop :=
  ∃ k r, idempotency_records d0 !! k = Some r ∧ ir_scope_key r = scope_key ∧
    now < ir_expires_at r ∧ cached_json_response r = Ok resp.

(** No response is stored for the key, or it has expired. *)
Definition nothing_cached (now : Z) : Prop :=
  ∀ k r, idempotency_records d0 !! k = Some r → ir_scope_key r = scope_key → ir_expires_at r <= now.

Local Abbreviation I := (stored (λ d _ _, webhook_stage d)).
Local Abbreviation seen p Q := (wpi faults I p (on_ok Q)).

Lemma webhook_start w : w_db w = d0 → I w.
Proof. by left. Qed.

Lemma webhook_body_round_trip status payload :
  loads (dumps (webhook_response_body status payload)) = Some (webhook_response_body status payload).
Proof.
  apply loads_dumps, json_wf_obj. split; [apply (bool_decide_unpack _); vm_compute; exact Logic.I|].
  repeat (apply Forall_cons; split; [exact Logic.I|]). apply Forall_nil_2.
Qed.

Lemma same_tables w w' : w_db w' = w_db w → I w → I w'.
Proof. unfold stored. by intros ->. Qed.

(** Storing a response when none is stored. *)
Lemma seen_store_response status body d1 w :
  I w → w_db w = d1 → w_session w = empty_session → t0 <= w_clock w →
  idempotency_records d1 = idempotency_records d0 → nothing_cached (w_clock w) →
  (∀ d, record_added status body d1 d → webhook_stage d) →
  seen (store_response s scope_key status body)
    (λ r w', record_added status body d1 (w_db w') ∧ ir_status_code r = status ∧
             ir_response_body r = dumps body) w.
Proof.
  intros HI Hd Hs Ht0 Hrecords Hnone Hstage. unfold store_response.
  apply wpi_bind_ok, wpi_now; [done|]. intros w1 Hadv1.
  destruct (advance_still _ _ Hadv1) as (Hd1 & _ & _ & Hs1). pose proof (advance_clock _ _ Hadv1) as Hc1.
  apply wpi_bind_ok, wpi_add; [by eapply advance_stable|].
  intros key created w2 Hfresh (Hd2 & Ho2 & Hp2 & Hs2) Hc2. rewrite Hs1, Hs, Hd1, Hd in Hfresh.
  specialize (Hfresh d1 eq_refl). cbn in Hfresh.
  set (row := new_idempotency_record scope_key status body _ key created) in *.
  set (d2 := set_table TIdempotencyRecord (<[key := row]> (idempotency_records d1)) d1).
  assert (constraints d2 → record_added status body d1 d2) as Hadded.
  { exists key, (w_clock w1 + idempotency_ttl_seconds s * second), created. split_and!; [done|lia|done..]. }
  assert (I w2) as HI2 by (apply (same_tables w); [congruence|done]).
  eapply wpi_bind_ok, (wpi_try_commit _ _ _ _ d1); [done|congruence|by rewrite Hs2, Hs1, Hs| |].
  - intros d E Hd2c w3 Hd3 _ _ Hs3. assert (d = d2) as -> by by injection E.
    specialize (Hadded Hd2c). assert (I w3) as HI3 by (unfold stored; rewrite Hd3; by apply Hstage).
    split; [done|]. apply wpi_refresh; [done|]. rewrite Hs3. intros d r w4 [= <-] Hr Hadv4.
    rewrite Hd3 in Hr. cbn in Hr. rewrite lookup_insert_eq in Hr. injection Hr as <-.
    split; [|done]. by rewrite (advance_db _ _ Hadv4), Hd3.
  - intros _ w3 Hd3 Hs3 Hc3 HI3.
    eapply wpi_bind_ok, wpi_get_cached_response; [done|by rewrite Hs3, Hd3|].
    intros w4 o now Hst4 Hnow _ Ho. destruct o as [r|]; [|apply wpi_raise].
    2:{ destruct Hst4 as (Hd4 & _). by apply (same_tables w3). }
    exfalso. destruct Ho as [[k Hk] [Hkey%String.eqb_eq Hexp%Z.ltb_lt]%andb_prop].
    cbn in Hk. rewrite Hrecords in Hk. specialize (Hnone k r Hk Hkey).
    lia.
Qed.

Lemma nothing_cached_later now now' : now <= now' → nothing_cached now → nothing_cached now'.
Proof. intros Hle Hn k r Hk Hr. specialize (Hn k r Hk Hr). lia. Qed.

(** Recording an event: it is added, or it was known. *)
Lemma seen_record_event payload w :
  signed → model_validate_json parse_json raw_body = Ok payload →
  w_db w = d0 → w_session w = empty_session →
  seen (record_event payload raw_body)
    (λ b w', w_session w' = empty_session ∧
             if (b : bool) then event_added payload (w_db w')
             else w_db w' = d0 ∧ known_event payload) w.
Proof.
  intros Hsigned Hvalid Hd Hs. assert (I w) as HI by by apply webhook_start.
  unfold record_event, persist_webhook_event. apply wpi_catch, wpi_bind, wpi_bind.
  eapply wpi_mono; [|apply (wpi_not_domain _ _ (db (Add TWebhookEvent (event_of payload)))
    (λ e w1, ∃ key created, e = event_of payload key created ∧ webhook_events d0 !! key = None ∧
       pushed (insert_row TWebhookEvent key e) w w1)); [apply no_domain_call|]].
  2:{ apply wpi_add; [done|]. intros key created w1 Hfresh Hp _. exists key, created.
      rewrite Hs, Hd in Hfresh. by specialize (Hfresh d0 eq_refl). }
  intros [event|e] w1 HI1; [|by intros He; destruct e].
  intros (key & created & -> & Hfresh & Hd1 & _ & _ & Hs1).
  set (event := event_of payload key created).
  set (d1 := set_table TWebhookEvent (<[key := event]> (webhook_events d0)) d0).
  assert (event_added payload d1) as Hadded by by exists key, created.
  assert (∀ w', w_db w' = d1 → I w') as Hst
    by (intros w' E; right; exists payload; split_and!; [done..|]; left; by rewrite E).
  apply wpi_bind. eapply wpi_mono; [|apply (wpi_not_domain _ _ try_commit
    (λ b w2, w_session w2 = empty_session ∧
       if (b : bool) then w_db w2 = d1 else w_db w2 = d0 ∧ known_event payload))].
  2:{ apply no_domain_catch; [by apply no_domain_bind; [apply no_domain_call|]|].
      intros e He. destruct e; try done. by apply no_domain_bind; [apply no_domain_call|]. }
  2:{ apply (wpi_try_commit _ _ _ _ d0 [insert_row TWebhookEvent key event]); [done|congruence|
        by rewrite Hs1, Hs| |].
      - intros d E _ w2 Hd2 _ _ Hs2. assert (d = d1) as -> by by injection E.
        split; [by apply Hst|done].
      - intros Hnot w2 Hd2 Hs2 _ _. split_and!; [done..|].
        apply (event_conflict d0 key event); [done..|]. by apply Hnot. }
  intros [b|e] w2 HI2; [|by intros He; destruct e]. intros [Hs2 Hb]. destruct b.
  - eapply wpi_mono; [|apply (wpi_not_domain _ _ (db (Refresh TWebhookEvent (we_id event)))
      (λ _ w3, still w2 w3)); [apply no_domain_call|]].
    + intros [row|e] w3 HI3; [|by intros He; destruct e]. intros (Hd3 & _ & _ & Hs3).
      apply wpi_ret; [done|]. cbn [on_ok]. split; [congruence|]. by rewrite Hd3, Hb.
    + apply wpi_refresh; [done|]. intros d r w3 _ _ Hadv. by apply advance_still.
  - split; [done|]. apply wpi_ret; [done|]. by split.
Qed.

(** What is done under the lock. *)
Lemma seen_process_webhook w :
  w_db w = d0 → w_session w = empty_session → t0 <= w_clock w → nothing_cached (w_clock w) →
  seen (process_webhook s parse_json scope_key raw_body signature timestamp)
    (λ resp w', processed resp (w_db w')) w.
Proof.
  intros Hd Hs Ht0 Hnone. assert (I w) as HI by by apply webhook_start. unfold process_webhook.
  apply wpi_bind_ok. eapply wpi_mono_ok; [|by apply seen_verify_signature].
  intros [] w1 HI1 [(Hd1 & _ & _ & Hs1) (now & Hnow & Hnow1 & Hauth)].
  assert (signed) as Hsigned by (exists now; split; [lia|done]).
  apply wpi_bind_ok, wpi_of_result; [done|].
  destruct (model_validate_json parse_json raw_body) as [payload|e] eqn:Hvalid; [cbn [on_ok]|done].
  apply wpi_bind_ok. eapply wpi_mono_ok;
    [|apply wpi_clock, (wpi_away _ _ _ (λ _ w', still w1 w')); [|done|done]].
  2:{ unfold enforce_webhook_provider_rate_limit. case_match; [done|].
      apply away_enforce_rate_limit_counter. }
  intros [] w2 HI2 [(Hd2 & _ & _ & Hs2) Hc2].
  apply wpi_bind_ok. eapply wpi_mono_ok; [|by apply wpi_clock, (seen_record_event payload);
    [..|congruence|congruence]].
  intros b w3 HI3 [[Hs3 Hb] Hc3]. destruct b; cbn [negb].
  - apply wpi_bind_ok. eapply wpi_mono_ok; [|apply (seen_store_response 200 _ (w_db w3)); try done].
    + intros r w4 HI4 (Hrec & Hstatus & Hbody). apply wpi_bind_ok, wpi_of_result; [done|].
      unfold parse_cached_response_body. rewrite Hbody, webhook_body_round_trip. cbn [result_of_option on_ok].
      apply wpi_ret; [done|]. exists payload. split_and!; [done..|]. left. split; [|done]. by exists (w_db w3).
    + lia.
    + by destruct Hb as (key & created & _ & ->).
    + eapply nothing_cached_later, Hnone. lia.
    + intros d Hrec. right. exists payload. split_and!; [done..|]. right; left. by exists (w_db w3).
  - destruct Hb as [Hd3 Hknown].
    apply wpi_bind_ok. eapply wpi_mono_ok; [|apply (seen_store_response 409 _ d0); try done].
    + intros r w4 HI4 (Hrec & Hstatus & Hbody). apply wpi_of_result; [done|].
      unfold cached_json_response, parse_cached_response_body.
      rewrite Hbody, webhook_body_round_trip, Hstatus. cbn [result_of_option on_ok].
      exists payload. split_and!; [done..|]. right. by split_and!.
    + lia.
    + eapply nothing_cached_later, Hnone. lia.
    + intros d Hrec. right. exists payload. split_and!; [done..|]. right; right. by split.
Qed.

(** A stored response, if there is one. *)
Definition found (t : Z) (o : option IdempotencyRecord) (w : world) : Prop :=
  match o with
  | Some r => ∃ k now, idempotency_records d0 !! k = Some r ∧ ir_scope_key r = scope_key ∧
                t <= now ∧ now < ir_expires_at r
  | None => nothing_cached (w_clock w)
  end.

Lemma seen_get_cached w :
  w_db w = d0 → w_session w = empty_session →
  seen (get_cached_response scope_key) (λ o w', still w w' ∧ found (w_clock w) o w') w.
Proof.
  intros Hd Hs. eapply wpi_get_cached_response; [by apply webhook_start|by rewrite Hs, Hd|].
  intros w1 o now Hst Hnow Hnow1 Ho. split; [done|]. destruct o as [r|].
  - destruct Ho as [[k Hk] [Hkey%String.eqb_eq Hexp%Z.ltb_lt]%andb_prop]. by exists k, now.
  - intros k r Hk Hkey. specialize (Ho k r Hk). cbn in Ho. rewrite Hkey, String.eqb_refl in Ho.
    apply Z.ltb_ge in Ho. lia.
Qed.

Lemma seen_begin w :
  w_db w = d0 → w_session w = empty_session →
  seen (begin_idempotent_request s scope_key)
    (λ b w', still w w' ∧ found (w_clock w) (fst b) w') w.
Proof.
  intros Hd Hs. unfold begin_idempotent_request.
  apply wpi_bind_ok. eapply wpi_mono_ok; [|by apply seen_get_cached].
  intros o w1 HI1 [Hst1 Ho]. destruct Hst1 as (Hd1 & Ho1 & Hp1 & Hs1).
  destruct o as [r|]; [by apply wpi_ret|].
  apply wpi_bind_ok. eapply wpi_mono_ok;
    [|apply wpi_clock, (wpi_away _ _ _ (λ _ w', still w1 w')); [by apply keeps_call|done|done]].
  intros b w2 HI2 [(Hd2 & Ho2 & Hp2 & Hs2) Hc2].
  assert (found (w_clock w) None w2) as Hno by by eapply nothing_cached_later.
  assert (still w w2) as Hst2 by (split_and!; congruence).
  destruct b; cbn [negb]; [by apply wpi_ret|].
  apply wpi_bind_ok. eapply wpi_mono_ok; [|apply seen_get_cached; congruence].
  intros [r|] w3 HI3 [Hst3 Hf]; [|by apply wpi_raise].
  apply wpi_ret; [done|]. split; [by eapply still_trans|].
  destruct Hf as (k & now & Hk & Hkey & Hle & Hexp). specialize (Hno k r Hk Hkey). lia.
Qed.

(** What an answer given before [t1] means. *)
Definition answered (t1 : Z) (resp : response) (d : tables) : Prop :=
  (∃ now, t0 <= now ∧ cached now resp) ∧ d = d0 ∨ nothing_cached t1 ∧ processed resp d.

Lemma seen_answer w :
  w_db w = d0 → w_session w = empty_session → t0 <= w_clock w →
  seen (begun ← begin_idempotent_request s scope_key;
        match begun with
        | (Some cached_record, _) => of_result (cached_json_response cached_record)
        | (None, lock_acquired) =>
            finally (process_webhook s parse_json scope_key raw_body signature timestamp)
              (if (lock_acquired : bool) then release_idempotency_lock scope_key else Ret tt)
        end) (λ resp w', answered (w_clock w') resp (w_db w')) w.
Proof.
  intros Hd Hs Ht0. apply wpi_bind_ok. eapply wpi_mono_ok; [|by apply wpi_clock, seen_begin].
  intros [[r|] b] w1 HI1 [[(Hd1 & _ & _ & Hs1) Hf] Hc1]; cbn [fst found] in Hf.
  - apply wpi_of_result; [done|]. destruct (cached_json_response r) as [resp|e] eqn:E; [|done].
    left. split; [|congruence]. destruct Hf as (k & now & Hk & Hkey & Hle & Hexp).
    exists now. split; [lia|]. by exists k, r.
  - apply wpi_finally. eapply wpi_mono; [|apply wpi_clock, seen_process_webhook; [congruence..|lia|done]].
    intros resp w2 HI2 Hp.
    eapply wpi_mono; [|apply wpi_clock, (wpi_away _ _ _ (λ _ w', still w2 w')); [|done|done]].
    2:{ destruct b; [|done]. unfold release_idempotency_lock. solve_keeps. }
    intros [[]|e] w3 HI3; [|done]. intros [(Hd3 & _) Hc3]. destruct resp as [resp|]; [|done].
    destruct Hp as [Hp Hc2]. right. rewrite Hd3. split; [|done].
    eapply nothing_cached_later, Hf. lia.
Qed.
End process.

(** The scope key of a request. *)
Definition request_scope_key `{Crypto} (rq : request) : result exn string :=
  match get_idempotency_key (header rq "Idempotency-Key") with
  | Ok key => build_scope_key webhook_scope key
  | Err e => Err e
  end.

Lemma seen_inbound_webhook `{Crypto} faults (s : Settings) parse_json rq scope_key d0 t0 w :
  constraints d0 → w_session w = empty_session → request_scope_key rq = Ok scope_key →
  w_db w = d0 → t0 <= w_clock w →
  let signature := header rq "X-Webhook-Signature" in
  let timestamp := header rq "X-Webhook-Timestamp" in
  wpi faults (stored (λ d _ _, webhook_stage s parse_json scope_key (rq_body rq) signature timestamp d0 t0 d))
    (inbound_webhook s parse_json rq)
    (on_ok (λ resp w', answered s parse_json scope_key (rq_body rq) signature timestamp d0 t0
              (w_clock w') resp (w_db w'))) w.
Proof.
  intros Hcon Hs Hkey Hd Ht0 signature timestamp.
  set (stage := webhook_stage s parse_json scope_key (rq_body rq) signature timestamp d0 t0).
  assert (∀ w', w_db w' = d0 → stored (λ d _ _, stage d) w') as Hst by by left.
  apply wpi_in_session_clock. unfold request_scope_key in Hkey.
  destruct (get_idempotency_key _) as [key|e]; [|done].
  apply wpi_bind_ok, wpi_of_result; [by apply Hst|]. cbn [on_ok].
  apply wpi_bind_ok. eapply wpi_mono_ok;
    [|apply wpi_clock, (wpi_away _ _ _ (λ _ w', still w w'));
      [apply away_enforce_rate_limit_counter|by apply Hst|done]].
  intros [] w1 HI1 [(Hd1 & _ & _ & Hs1) Hc1]. unfold handle_webhook.
  apply wpi_bind_ok, wpi_of_result; [done|]. destruct (enforce_webhook_body_size _ _); [|done].
  cbn [on_ok]. apply wpi_bind_ok, wpi_of_result; [done|]. rewrite Hkey. cbn [on_ok].
  eapply wpi_mono_ok; [|apply seen_answer; [done|congruence|congruence|lia]].
  intros resp w2 _ Hr w3 -> _ _ Hc3. destruct Hr as [Hr|[Hn Hp]]; [by left|right].
  split; [by eapply nothing_cached_later|done].
Qed.


(** ** A signed request *)

Definition event_body : string :=
  dumps (JObj [("provider", JStr "stripe"); ("event_id", JStr "evt_1");
               ("event_type", JStr "paid"); ("payload", JObj [])]).
Definition event_time : Z := 1700000000.

Definition event_request (secret : string) : request := {|
  rq_method := "POST"; rq_path := "/api/v1/webhooks/inbound"; rq_client := Some "198.51.100.7";
  rq_body := event_body;
  rq_headers := [("idempotency-key", "k-1"); ("x-webhook-timestamp", str_of_int event_time);
                 ("x-webhook-signature",
                  compute_timestamped_hmac_signature event_time event_body secret)];
|}.

Definition signed_event : request := event_request (webhook_signature_secret production_example).
Definition event_scope_key : string := "webhooks:inbound:webhooks:inbound:k-1".
Definition webhook_world : world := world_at (event_time * second).

Lemma webhook_world_constraints : constraints (w_db webhook_world).
Proof. apply (bool_decide_unpack _). vm_compute. exact Logic.I. Qed.


(** ** Replays *)

(** The row with the scope key is the one. *)
Lemma scope_key_unique d k k' r r' :
  constraints d → idempotency_records d !! k = Some r → idempotency_records d !! k' = Some r' →
  ir_scope_key r = ir_scope_key r' → r = r'.
Proof.
  intros [(_ & _ & Hu & _) _] Hk Hk' Heq. rewrite unique_on_spec in Hu.
  specialize (Hu k k' r r' Hk Hk' Heq). congruence.
Qed.

(** The response that was stored. *)
Lemma processed_record `{Crypto} s parse_json scope_key raw sg ts d0 t0 resp d :
  processed s parse_json scope_key raw sg ts d0 t0 resp d →
  ∃ k r, idempotency_records d !! k = Some r ∧ ir_scope_key r = scope_key ∧
    t0 + idempotency_ttl_seconds s * second <= ir_expires_at r ∧ cached_json_response r = Ok resp.
Proof.
  intros (payload & _ & _ & Hcase).
  assert (∃ status name d1, record_added s scope_key t0 status (webhook_response_body name payload) d1 d ∧
    resp = json_response status (webhook_response_body name payload)) as (status & name & d1 & Hrec & ->).
  { destruct Hcase as [[(d1 & _ & Hrec) ->]|[[_ Hrec] ->]]; by eexists _, _, _. }
  destruct Hrec as (key & expires & created & _ & Hexp & _ & ->).
  eexists key, _. cbn. split; [apply lookup_insert_eq|]. split_and!; [done..|].
  unfold cached_json_response, parse_cached_response_body.
  cbn [ir_response_body ir_status_code new_idempotency_record].
  by rewrite webhook_body_round_trip.
Qed.


(** The same request, and one with the same key, another body and no signature,
    a minute later. *)
Definition replayed : request := {|
  rq_method := "POST"; rq_path := "/api/v1/webhooks/inbound"; rq_client := None;
  rq_body := "{}"; rq_headers := [("Idempotency-Key", "k-1")];
|}.
Definition minute_later (w : world) : world :=
  with_clock (w_clock w + 60 * second) (w_monotonic w) (w_proc w) w.


(** ** Expired keys *)

(** A key whose stored response has expired is dead until it is cleaned up.
    Whatever fails, a request with such a key gets no answer: the new response
    cannot be stored next to the expired one. *)
Theorem expired_key_not_answered `{ServicesSpec faults W} (s : Settings)
    (parse_json : string → option json) (rq : request) (scope_key : string) (w : W)
    (k : Z) (r : IdempotencyRecord) :
  let p := inbound_webhook s parse_json rq in
  constraints (w_db (view w)) → w_session (view w) = empty_session →
  request_scope_key rq = Ok scope_key →
  idempotency_records (w_db (view w)) !! k = Some r → ir_scope_key r = scope_key →
  ir_expires_at r <= w_clock (view w) →
  ∃ e, fst (run p w) = Err e.
Proof.
  intros p Hcon Hs Hkey Hk Hr Hexpired.
  destruct (wpi_trace _ p _ w (seen_inbound_webhook faults s parse_json rq scope_key _ _ (view w)
    Hcon Hs Hkey eq_refl (Z.le_refl _))) as [_ Hend].
  destruct (fst (run p w)) as [resp|e]; [exfalso|by exists e]. cbn [on_ok] in Hend.
  destruct Hend as [[(now & Hle & k' & r' & Hk' & Hr' & Hexp & _) _]|[_ (payload & _ & _ & Hcase)]].
  - assert (r' = r) as -> by (eapply scope_key_unique; [done..|congruence]). lia.
  - assert (∀ status body d1 d, record_added s scope_key (w_clock (view w)) status body d1 d →
      idempotency_records d1 = idempotency_records (w_db (view w)) → False) as Hadd.
    { intros status body d1 d (key & expires & created & Hnew & _ & Hc & ->) Heq.
      assert (k ≠ key) as Hne by congruence. destruct Hne.
      destruct Hc as [(_ & _ & Hu & _) _]. rewrite unique_on_spec in Hu.
      eapply (Hu k key r); cbn; [by rewrite lookup_insert_ne by congruence; rewrite Heq|
        apply lookup_insert_eq|done]. }
    destruct Hcase as [[(d1 & (key & created & _ & Hd1) & Hrec) _]|[[_ Hrec] _]];
      (eapply Hadd; [exact Hrec|]); by subst.
Qed.

(** The world after the first request, a day later. *)
Definition expired_world : world :=
  with_db (set_table TIdempotencyRecord
             {[1 := new_idempotency_record event_scope_key 200 JNull (event_time * second) 1 0]}
             empty_tables) empty_session webhook_world.

(** The event is stored, and the client gets a failure it should retry. *)
Lemma expired_key_not_answered_witness :
  let p := inbound_webhook production_example loads signed_event in
  (∃ e, fst (run p expired_world) = Err e) ∧
  fst (run p expired_world) = Err IntegrityError ∧
  (size (webhook_events (w_db (snd (run p expired_world)))) = 1)%nat.
Proof.
  split; [|split; vm_compute; reflexivity].
  refine (expired_key_not_answered (faults:=false) (W:=world) production_example loads signed_event
    event_scope_key expired_world 1
    (new_idempotency_record event_scope_key 200 JNull (event_time * second) 1 0) _ eq_refl _
    eq_refl eq_refl _).
  - apply (bool_decide_unpack _). vm_compute. exact Logic.I.
  - vm_compute. reflexivity.
  - vm_compute. discriminate.
Defined.
