(* ===== verification/Metrics.v ===== *)
(** * Metrics

    [app/core/metrics.py], [app/core/metrics_server.py],
    [app/api/dependencies/metrics_auth.py] and [app/api/routes/metrics.py]: the
    samples the program records and who may read them.  The values of the
    histogram and the text of the exposition are the Prometheus client's; a
    sample is the name of a metric and the values of its labels. *)

From Stdlib Require Import ZArith Ascii String Lia.
From stdpp Require Import base tactics option list gmap strings.
From S2P Require Import Prelude PyText Json Errors Config Models Services Webhooks.
Local Open Scope string_scope.
Local Open Scope list_scope.
Local Open Scope Z_scope.

(** ** [metrics.py] *)

(** *** The collectors *)

Inductive metric_kind := Counter | Histogram | Gauge.

(** A collector: its name, the labels it declares and, in multiprocess mode, how
    the values of the processes are put together. *)
Record collector := Collector {
  c_name : string; c_kind : metric_kind; c_labels : list string; c_multiprocess_mode : option string }.

(** [counter_kwargs] and [gauge_kwargs] *)
Definition counter_mode (multiproc_dir : option string) : option string :=
  match multiproc_dir with Some _ => Some "livesum" | None => None end.
Definition gauge_mode (multiproc_dir : option string) : option string :=
  match multiproc_dir with Some _ => Some "mostrecent" | None => None end.

(** [_multiproc_dir] *)
Definition configured_multiproc_dir (s : Settings) : option string :=
  let dir := strip (prometheus_multiproc_dir s) in if truthy dir then Some dir else None.

Definition app_info_label_values (s : Settings) : list (string * string) :=
  [("service", "fastapi-production-foundation"); ("environment", environment s)] ++
  if truthy (strip (metrics_instance_id s)) then [("instance_id", strip (metrics_instance_id s))] else [].

(** The bounds of the buckets of the histogram, in milliseconds. *)
Definition REQUEST_DURATION_BUCKETS : list Z := [5; 10; 25; 50; 100; 250; 500; 1000; 2500; 5000].

(** The collectors in the order they are made. *)
Definition collectors (s : Settings) : list collector :=
  let counter := counter_mode (configured_multiproc_dir s) in
  let gauge := gauge_mode (configured_multiproc_dir s) in
  [Collector "http_requests_total" Counter ["method"; "path"; "status_code"] counter;
   Collector "http_request_duration_seconds" Histogram ["method"; "path"; "status_code"] counter;
   Collector "worker_jobs_total" Counter ["job_type"; "status"] counter;
   Collector "worker_maintenance_runs_total" Counter ["status"] counter;
   Collector "dependency_checks_total" Counter ["dependency"; "status"] counter;
   Collector "dependency_health_status" Gauge ["dependency"] gauge;
   Collector "app_info" Gauge ((app_info_label_values s).*1) gauge].

(** Making the collectors.  Which of the client's classes take the argument
    [multiprocess_mode] is a matter of the client: [takes_mode]. *)
Section configure.
Context (takes_mode : metric_kind → bool).

Definition new_collector (c : collector) : result exn collector :=
  match c_multiprocess_mode c with
  | Some _ => if takes_mode (c_kind c) then Ok c
              else Err (TypeError "unexpected keyword argument 'multiprocess_mode'")
  | None => Ok c
  end.

Fixpoint new_collectors (l : list collector) : result exn (list collector) :=
  match l with
  | [] => Ok []
  | c :: l' =>
      match new_collector c with
      | Err e => Err e
      | Ok c => match new_collectors l' with Err e => Err e | Ok cs => Ok (c :: cs) end
      end
  end.

(** [configure_metrics]: the collectors of the module, when they have been made. *)
Definition configure_metrics (s : Settings) (configured : option (list collector)) :
    result exn (list collector) :=
  match configured with
  | Some cs => Ok cs
  | None => new_collectors (collectors s)
  end.

Lemma new_collectors_single l :
  Forall (λ c, c_multiprocess_mode c = None) l → new_collectors l = Ok l.
Proof.
  induction 1 as [|c l Hc _ IH]; cbn; [done|]. unfold new_collector. by rewrite Hc, IH.
Qed.

(** Without a multiprocess directory the collectors are made, once. *)
Lemma configure_metrics_once s :
  configured_multiproc_dir s = None →
  configure_metrics s None = Ok (collectors s) ∧
  configure_metrics s (Some (collectors s)) = configure_metrics s None.
Proof.
  intros Hdir. assert (configure_metrics s None = Ok (collectors s)) as E; [|by rewrite E].
  apply new_collectors_single. unfold collectors. rewrite Hdir. cbn [counter_mode gauge_mode]. repeat constructor.
Qed.

(** With one, they cannot be made by a client whose counters do not take the
    argument. *)
Lemma multiproc_counters_raise s dir :
  takes_mode Counter = false → configured_multiproc_dir s = Some dir →
  configure_metrics s None = Err (TypeError "unexpected keyword argument 'multiprocess_mode'").
Proof.
  intros Hc Hdir. unfold configure_metrics, collectors. rewrite Hdir. cbn. unfold new_collector. cbn.
  by rewrite Hc.
Qed.

(** *** The registry *)

(** What [configure_metrics] sets besides the collectors. *)
Inductive registry := DefaultRegistry | MultiprocessRegistry (multiproc_dir : string).
Record metrics_state := {
  ms_registry : registry;
  ms_collectors : option (list collector);
}.
Definition registry_of (s : Settings) : registry :=
  match configured_multiproc_dir s with Some dir => MultiprocessRegistry dir | None => DefaultRegistry end.
(** The registry is chosen before the first collector is made. *)
Definition configure_state (s : Settings) (st : metrics_state) : metrics_state * result exn unit :=
  match ms_collectors st with
  | Some _ => (st, Ok tt)
  | None =>
      match configure_metrics s None with
      | Ok cs => ({| ms_registry := registry_of s; ms_collectors := Some cs |}, Ok tt)
      | Err e => ({| ms_registry := registry_of s; ms_collectors := None |}, Err e)
      end
  end.

(** [render_metrics]: the text is the client's, of the registry of the process. *)
Definition render_metrics (generate_latest : registry → string) (s : Settings) (st : metrics_state) :
    metrics_state * result exn string :=
  match configure_state s st with
  | (st, Ok _) => (st, Ok (generate_latest (ms_registry st)))
  | (st, Err e) => (st, Err e)
  end.

(** [mark_metrics_process_dead]: the directory it tells the client about. *)
Definition mark_metrics_process_dead (st : metrics_state) : option string :=
  match ms_registry st with MultiprocessRegistry dir => Some dir | DefaultRegistry => None end.

(** A process that could configure its metrics renders the registry of its settings,
    and does not configure them again. *)
Lemma render_configured generate_latest s st :
  ms_collectors st = None → configured_multiproc_dir s = None →
  let '(st', r) := render_metrics generate_latest s st in
  r = Ok (generate_latest DefaultRegistry) ∧ ms_collectors st' = Some (collectors s) ∧
  render_metrics generate_latest s st' = (st', r) ∧ mark_metrics_process_dead st' = None.
Proof.
  intros Hst Hdir.
  assert (configure_metrics s None = Ok (collectors s)) as E by (unfold configure_metrics, collectors; by rewrite Hdir).
  unfold render_metrics, configure_state. rewrite Hst, E. cbn [ms_collectors ms_registry].
  unfold registry_of. rewrite Hdir. done.
Qed.
End configure.

(** *** Samples *)

(** The number of labels of a sample of a collector; the value a gauge is set to
    is the last one. *)
Definition sample_arity (c : collector) : nat :=
  length (c_labels c) + match c_kind c with Gauge => 1 | _ => 0 end.

(** A sample one of the collectors takes. *)
Definition sample_ok (s : Settings) (m : sample) : bool :=
  existsb (λ c, String.eqb (c_name c) (sm_name m) && Nat.eqb (sample_arity c) (length (sm_labels m)))
    (collectors s).

(** What a scope holds under [route]: the route may have a path of its own. *)
Record scope := { sc_route : option (option string); sc_path : option string }.

Definition get_route_path (sc : scope) : string :=
  match sc_route sc with
  | None => opt_default "unknown" (sc_path sc)
  | Some (Some path) => path
  | Some None => opt_default "unknown" (sc_path sc)
  end.

Definition observe (name : string) (labels : list string) : prog unit :=
  call (Observe (Sample name labels)).

Definition observe_request (method path : string) (status_code : Z) : prog unit :=
  let labels := [method; path; str_of_int status_code] in
  _ ← observe "http_requests_total" labels;
  observe "http_request_duration_seconds" labels.

Definition observe_worker_job (job_type status : string) : prog unit :=
  observe "worker_jobs_total" [job_type; status].

Definition observe_worker_maintenance (status : string) : prog unit :=
  observe "worker_maintenance_runs_total" [status].

(** The gauge is set to the last label. *)
Definition observe_dependency_check (dependency status : string) : prog unit :=
  _ ← observe "dependency_checks_total" [dependency; status];
  observe "dependency_health_status" [dependency; if String.eqb status "ok" then "1" else "0"].

(** ** Who may read them *)

Definition bearer : string := "Bearer ".

(** [authorization.removeprefix("Bearer ").strip()] of a header that has the
    prefix. *)
Definition provided_token (authorization : option string) : option string :=
  match authorization with
  | Some a => if startswith a bearer then Some (strip (removeprefix bearer a)) else None
  | None => None
  end.

Section access.
Context (s : Settings).

Definition metrics_auth_required : bool := opt_default false (metrics_require_auth s).
Definition expected_token : string := strip (metrics_bearer_token s).

(** The dependency of the API's endpoint. *)
Definition verify_metrics_access (authorization : option string) : result exn unit :=
  if negb metrics_auth_required then Ok tt
  else if String.eqb expected_token "" then
    Err (HTTPException 503 "Metrics authentication is not configured" [])
  else
    match provided_token authorization with
    | None => Err (HTTPException 401 "Missing metrics bearer token" [])
    | Some t =>
        match compare_digest t expected_token with
        | Ok true => Ok tt
        | Ok false => Err (HTTPException 401 "Invalid metrics bearer token" [])
        | Err e => Err e
        end
    end.

(** [MetricsRequestHandler._is_authorized] *)
Definition _is_authorized (authorization : option string) : bool :=
  if negb metrics_auth_required then true
  else if String.eqb expected_token "" then false
  else match provided_token authorization with
       | None => false
       | Some t => String.eqb t expected_token
       end.

(** [MetricsRequestHandler.do_GET]: the status, and the body of a success. *)
Definition do_GET (rendered path : string) (authorization : option string) : Z * option string :=
  if negb (String.eqb path "/metrics") then (404, None)
  else if negb (_is_authorized authorization) then (401, None)
  else (200, Some rendered).

(** The API's endpoint with its dependency. *)
Definition metrics_endpoint (rendered : string) (authorization : option string) :
    result exn string :=
  match verify_metrics_access authorization with Ok _ => Ok rendered | Err e => Err e end.
End access.

(** ** Facts *)

Lemma removeprefix_app p rest : removeprefix p (p ++ rest) = rest.
Proof.
  unfold removeprefix. rewrite startswith_app, chars_app, drop_app_length. apply text_chars.
Qed.

(** The token a header gives. *)
Lemma provided_token_Some authorization t :
  provided_token authorization = Some t →
  ∃ rest, authorization = Some (bearer ++ rest)%string ∧ strip rest = t.
Proof.
  unfold provided_token. destruct authorization as [a|]; [|done].
  destruct (startswith a bearer) eqn:E; [|done]. apply startswith_spec in E as [rest ->].
  rewrite removeprefix_app. intros [= <-]. by exists rest.
Qed.

(** The API's check accepts what the worker's one does, when the token is ASCII. *)
Lemma access_iff s authorization :
  is_ascii_text (expected_token s) = true →
  verify_metrics_access s authorization = Ok tt ↔ _is_authorized s authorization = true.
Proof.
  intros Hascii. unfold verify_metrics_access, _is_authorized, compare_digest.
  destruct (negb (metrics_auth_required s)); [done|].
  destruct (String.eqb (expected_token s) ""); [done|].
  destruct (provided_token authorization) as [t|]; [|done]. rewrite Hascii, andb_true_r.
  destruct (String.eqb_spec t (expected_token s)) as [->|]; [by rewrite Hascii|].
  by destruct (is_ascii_text t).
Qed.

(** The two endpoints accept the same requests.  With an ASCII token in the
    settings, the API's endpoint gives the metrics for a header exactly when the
    worker's one does; each of them refuses every other header; and with
    authentication required, a header is accepted only when it is the prefix
    followed by the token that is set, up to blanks around it. *)
Theorem metrics_endpoints_agree (s : Settings) (rendered : string) (authorization : option string) :
  is_ascii_text (expected_token s) = true →
  (metrics_endpoint s rendered authorization = Ok rendered ↔
   do_GET s rendered "/metrics" authorization = (200, Some rendered)) ∧
  (do_GET s rendered "/metrics" authorization = (200, Some rendered) ∨
   do_GET s rendered "/metrics" authorization = (401, None)) ∧
  (metrics_auth_required s = true → metrics_endpoint s rendered authorization = Ok rendered →
   expected_token s ≠ "" ∧
   ∃ rest, authorization = Some (bearer ++ rest)%string ∧ strip rest = expected_token s).
Proof.
  intros Hascii. pose proof (access_iff s authorization Hascii) as Hiff.
  unfold metrics_endpoint, do_GET. cbn [negb String.eqb Ascii.eqb Bool.eqb]. split_and!.
  - destruct (verify_metrics_access s authorization) as [[]|e], (_is_authorized s authorization);
      naive_solver.
  - destruct (_is_authorized s authorization); auto.
  - intros Hreq Hok. assert (_is_authorized s authorization = true) as Hauth
      by (apply Hiff; by destruct (verify_metrics_access s authorization) as [[]|]).
    unfold _is_authorized in Hauth. rewrite Hreq in Hauth. cbn [negb] in Hauth.
    destruct (String.eqb_spec (expected_token s) "") as [|Hne]; [done|].
    destruct (provided_token authorization) as [t|] eqn:E; [|done].
    apply String.eqb_eq in Hauth as ->. split; [done|]. by apply provided_token_Some.
Qed.

Lemma metrics_endpoints_agree_witness :
  let s := with_defaults None (Some true) production_example in
  is_ascii_text (expected_token s) = true ∧
  metrics_endpoint s "up 1" (Some (bearer ++ " " ++ metrics_bearer_token s)%string) = Ok "up 1" ∧
  metrics_endpoint s "up 1" (Some "Bearer x") ≠ Ok "up 1" ∧
  do_GET s "up 1" "/metrics" (Some (bearer ++ " " ++ metrics_bearer_token s)%string) = (200, Some "up 1").
Proof.
  intros s. assert (is_ascii_text (expected_token s) = true) as Ha by (vm_compute; reflexivity).
  split_and!; [exact Ha|vm_compute; reflexivity|vm_compute; discriminate|].
  apply (proj1 (metrics_endpoints_agree s "up 1" _ Ha)). vm_compute. reflexivity.
Defined.
