(* ===== verification/Logging.v ===== *)
(** * Log records

    [app/core/logging.py] and [app/core/log_helpers.py]: what is kept out of the
    logs, the two layouts of a line, and the handlers [configure_logging] leaves on
    the root logger.  A record is its message and its dictionary of fields, whose
    values are JSON values.  The local time and the text of a value that is not a
    string are arguments. *)

From Stdlib Require Import ZArith Ascii String Lia.
From stdpp Require Import base tactics option list strings.
From S2P Require Import Prelude PyText Json Errors Config DateTime Models Services JobQueue.
Local Open Scope string_scope.
Local Open Scope list_scope.
Local Open Scope Z_scope.

Definition REQUEST_LOG_FIELDS : list string :=
  ["request_id"; "method"; "path"; "status_code"; "process_time"; "job_id"; "job_type"].

Definition SENSITIVE_FIELD_NAMES : list string :=
  ["password"; "new_password"; "old_password"; "token"; "access_token"; "refresh_token";
   "authorization"; "secret"; "secret_key"; "smtp_password"; "s3_secret_access_key"; "api_key";
   "email"; "recipient"].

Definition REDACTED_VALUE : string := "[REDACTED]".

Definition STANDARD_LOG_RECORD_FIELDS : list string :=
  ["args"; "asctime"; "created"; "exc_info"; "exc_text"; "filename"; "funcName"; "levelname";
   "levelno"; "lineno"; "module"; "msecs"; "message"; "msg"; "name"; "pathname"; "process";
   "processName"; "relativeCreated"; "stack_info"; "thread"; "threadName"; "taskName"].

(** ** [EMAIL_PATTERN.search] *)

(** After the first character of the domain: a dot followed by a character that is
    not an at sign, before the next at sign. *)
Fixpoint dot_then (l : list ascii) : bool :=
  match l with
  | c :: (d :: _) as l' =>
      if Ascii.eqb c "@" then false
      else if Ascii.eqb c "." && negb (Ascii.eqb d "@") then true
      else dot_then l'
  | _ => false
  end.

Definition after_at (l : list ascii) : bool :=
  match l with c :: l' => negb (Ascii.eqb c "@") && dot_then l' | [] => false end.

(** [prev]: there is a character before, and it is not an at sign. *)
Fixpoint search_email (prev : bool) (l : list ascii) : bool :=
  match l with
  | [] => false
  | c :: l' =>
      if Ascii.eqb c "@" then (prev && after_at l') || search_email false l'
      else search_email true l'
  end.

Definition has_email (s : string) : bool := search_email false (chars s).

(** ** Redaction *)

Definition is_sensitive (field_name : string) : bool :=
  bool_decide (lower field_name ∈ SENSITIVE_FIELD_NAMES).

Definition redact_sensitive_value (field_name : string) (value : json) : json :=
  if is_sensitive field_name then JStr REDACTED_VALUE
  else match value with
       | JStr t => if has_email t then JStr REDACTED_VALUE else value
       | _ => value
       end.

Record LogRecord := {
  lr_created : Z;                         (* in microseconds *)
  lr_levelname : string;
  lr_name : string;
  lr_message : string;                    (* [record.getMessage()] *)
  lr_dict : list (string * json);         (* [record.__dict__] *)
}.

Definition is_standard (name : string) : bool := bool_decide (name ∈ STANDARD_LOG_RECORD_FIELDS).
Definition is_request_field (name : string) : bool := bool_decide (name ∈ REQUEST_LOG_FIELDS).

Definition with_dict (d : list (string * json)) (r : LogRecord) : LogRecord :=
  {| lr_created := lr_created r; lr_levelname := lr_levelname r; lr_name := lr_name r;
     lr_message := lr_message r; lr_dict := d |}.

(** [SensitiveDataFilter.filter]: the record it leaves. *)
Definition filter_record (r : LogRecord) : LogRecord :=
  with_dict (map (λ '(field_name, v),
    (field_name, if is_standard field_name then v else redact_sensitive_value field_name v))
    (lr_dict r)) r.

(** [value if value is not None else "-"] of [getattr(record, field, None)]. *)
Definition field_or_dash (field : string) (r : LogRecord) : json :=
  match dict_get field (lr_dict r) with None | Some JNull => JStr "-" | Some v => v end.

Definition build_log_payload (r : LogRecord) : list (string * json) :=
  let payload := [("timestamp", JStr (isoformat (lr_created r))); ("level", JStr (lr_levelname r));
                  ("logger", JStr (lr_name r)); ("message", JStr (lr_message r))] in
  let payload := fold_left (λ p field,
    dict_set field (redact_sensitive_value field (field_or_dash field r)) p) REQUEST_LOG_FIELDS payload in
  fold_left (λ p '(field_name, v),
    if is_standard field_name || is_request_field field_name then p
    else dict_set field_name (redact_sensitive_value field_name v) p) (lr_dict r) payload.

(** [if not hasattr(record, field): setattr(record, field, "-")] for each. *)
Definition with_request_fields (r : LogRecord) : LogRecord :=
  with_dict (fold_left (λ d field,
    match dict_get field d with Some _ => d | None => d ++ [(field, JStr "-")] end)
    REQUEST_LOG_FIELDS (lr_dict r)) r.

(** [JsonLogFormatter.format] *)
Definition json_format (r : LogRecord) : string :=
  dumps (JObj (build_log_payload (with_request_fields r))).

(** [RequestLogFormatter.format]: the layout [configure_logging] gives it, and the
    traceback below it when the record has one ([exc_text]).  [asctime] is the local
    time of the record, [py_str] the text of a value that is not a string. *)
Definition text_of (py_str : json → string) (v : json) : string :=
  match v with JStr t => t | _ => py_str v end.

Definition request_line (asctime : Z → string) (py_str : json → string) (r : LogRecord) : string :=
  let field name := text_of py_str (opt_default JNull (dict_get name (lr_dict r))) in
  String.concat ""
    [asctime (lr_created r); " "; lr_levelname r; " "; lr_name r; " ";
     "request_id="; field "request_id"; " method="; field "method"; " path="; field "path"; " ";
     "status="; field "status_code"; " process_time="; field "process_time"; " ";
     "job_id="; field "job_id"; " job_type="; field "job_type"; " ";
     "message="; lr_message r].

Definition line_feed : string := text [ascii_of_N 10].

Definition text_format (asctime : Z → string) (py_str : json → string) (exc_text : option string)
    (r : LogRecord) : string :=
  let line := request_line asctime py_str (with_request_fields r) in
  match exc_text with
  | None => line
  | Some t => if truthy t then (if bool_decide (last (chars line) = Some (ascii_of_N 10)) then line ++ t
                                else line ++ line_feed ++ t)%string
              else line
  end.

(** ** [configure_logging] *)

Inductive formatter := JsonFormatter | TextFormatter.
#[export] Instance formatter_eq_dec : EqDecision formatter.
Proof. solve_decision. Defined.

(** What the two loggers are set to: a handler is its formatter and whether it has
    the [SensitiveDataFilter]. *)
Record log_handler := { h_formatter : formatter; h_filtered : bool }.
Record loggers := {
  root_handlers : list log_handler;
  root_level : string;
  requests_level : string;                (* of [app.requests] *)
}.

(** The names [setLevel] knows. *)
Definition LEVEL_NAMES : list string :=
  ["CRITICAL"; "FATAL"; "ERROR"; "WARN"; "WARNING"; "INFO"; "DEBUG"; "NOTSET"].
Definition check_level (name : string) : result exn string :=
  if bool_decide (name ∈ LEVEL_NAMES) then Ok name else Err (ValueError ("Unknown level: " ++ name)).

(** The handlers are replaced before the level is checked. *)
Definition configure_logging (s : Settings) (l : loggers) : loggers * result exn unit :=
  let formatter := if String.eqb (log_format s) "json" then JsonFormatter else TextFormatter in
  let handler := {| h_formatter := formatter; h_filtered := true |} in
  let l := {| root_handlers := [handler]; root_level := root_level l; requests_level := requests_level l |} in
  match check_level (log_level s) with
  | Err e => (l, Err e)
  | Ok level => ({| root_handlers := [handler]; root_level := level; requests_level := level |}, Ok tt)
  end.

(** What a handler writes: the filter runs before the formatter. *)
Definition emit (asctime : Z → string) (py_str : json → string) (h : log_handler) (exc_text : option string)
    (r : LogRecord) : string :=
  let r := if h_filtered h then filter_record r else r in
  match h_formatter h with
  | JsonFormatter => json_format r
  | TextFormatter => text_format asctime py_str exc_text r
  end.

(** [bool(v)]; a float is taken for true. *)
Definition json_truthy (v : json) : bool :=
  match v with
  | JNull | JBool false | JStr "" | JList [] | JObj [] => false
  | JInt n => negb (n =? 0)
  | _ => true
  end.

(** [job_log_extra]: [job.request_id or get_request_id()]. *)
Definition job_log_extra (job : Job) : prog (list (string * json)) :=
  rid ← (if json_truthy (request_id job) then Ret (request_id job)
         else r ← read_proc p_request_id; Ret (match r with Some t => JStr t | None => JNull end));
  Ret ([("job_id", id job); ("job_type", type job)] ++
       match rid with JNull => [] | v => [("request_id", v)] end).

(** ** What the pattern finds *)

Definition no_at (l : list ascii) : Prop := "@"%char ∉ l.

Lemma dot_then_spec l :
  dot_then l = true ↔
  ∃ y z b, l = y ++ "."%char :: z :: b ∧ no_at y ∧ z ≠ "@"%char.
Proof.
  split.
  - induction l as [|c l IH]; [done|]. destruct l as [|d l]; [done|]. cbn [dot_then].
    destruct (Ascii.eqb_spec c "@") as [->|Hc]; [done|].
    destruct (Ascii.eqb c "." && negb (Ascii.eqb d "@")) eqn:Hcd.
    + apply andb_prop in Hcd as [->%Ascii.eqb_eq Hd%negb_true_iff%Ascii.eqb_neq]. intros _.
      exists [], d, l. split_and!; [done|apply not_elem_of_nil|done].
    + intros (y & z & b & E & Hy & Hz)%IH. exists (c :: y), z, b. rewrite E.
      split_and!; [done|apply not_elem_of_cons; split; [congruence|done]|done].
  - intros (y & z & b & -> & Hy & Hz). induction y as [|c y IH]; cbn [app].
    + cbn [dot_then]. rewrite (proj2 (Ascii.eqb_neq z "@") Hz). done.
    + apply not_elem_of_cons in Hy as [Hc Hy]. specialize (IH Hy).
      destruct (y ++ "."%char :: z :: b) as [|d l] eqn:E; [by destruct y|].
      cbn [dot_then]. rewrite (proj2 (Ascii.eqb_neq c "@")) by congruence.
      by destruct (Ascii.eqb c "." && negb (Ascii.eqb d "@")).
Qed.

Lemma after_at_spec l :
  after_at l = true ↔
  ∃ y z b, l = y ++ "."%char :: z :: b ∧ y ≠ [] ∧ no_at y ∧ z ≠ "@"%char.
Proof.
  destruct l as [|c l]; cbn [after_at].
  { split; [done|]. intros (y & z & b & E & Hy & _). by destruct y. }
  rewrite andb_true_iff, negb_true_iff, Ascii.eqb_neq, dot_then_spec. split.
  - intros [Hc (y & z & b & -> & Hy & Hz)]. exists (c :: y), z, b.
    split_and!; [done..| |done]. apply not_elem_of_cons. split; [congruence|done].
  - intros (y & z & b & E & Hne & Hy & Hz). destruct y as [|c' y]; [done|]. injection E as -> ->.
    apply not_elem_of_cons in Hy as [Hc Hy]. split; [congruence|]. by exists y, z, b.
Qed.

(** An at sign with a character before it that is not one, and a domain after it. *)
Lemma search_email_spec prev l :
  search_email prev l = true ↔
  (∃ d, prev = true ∧ l = "@"%char :: d ∧ after_at d = true) ∨
  (∃ a x d, l = a ++ x :: "@"%char :: d ∧ x ≠ "@"%char ∧ after_at d = true).
Proof.
  revert prev. induction l as [|c l IH]; intros prev; cbn [search_email].
  { split; [done|]. intros [(d & _ & [=] & _)|([|] & x & d & [=] & _)]. }
  destruct (Ascii.eqb_spec c "@") as [->|Hc].
  - rewrite orb_true_iff, andb_true_iff, (IH false). split.
    + intros [[-> Hd]|[(d & [=] & _)|(a & x & d & -> & Hx & Hd)]]; [left; by exists l|].
      right. exists ("@"%char :: a), x, d. by split_and!.
    + intros [(d & -> & [= ->] & Hd)|(a & x & d & E & Hx & Hd)]; [by left|]. right; right.
      destruct a as [|c a]; cbn in E; injection E as E1 E2; [congruence|]. by exists a, x, d.
  - rewrite (IH true). split.
    + intros [(d & _ & -> & Hd)|(a & x & d & -> & Hx & Hd)]; right; [by exists [], c, d|].
      by exists (c :: a), x, d.
    + intros [(d & _ & [= E] & _)|(a & x & d & E & Hx & Hd)]; [done|].
      destruct a as [|c' a]; cbn in E; injection E as -> ->; [left; by exists d|].
      right. by exists a, x, d.
Qed.

(** [[^@]+@[^@]+\.[^@]+] somewhere in the text. *)
Definition mentions_email (s : string) : Prop :=
  ∃ a x y z b, chars s = a ++ x ++ "@"%char :: y ++ "."%char :: z ++ b ∧
    x ≠ [] ∧ y ≠ [] ∧ z ≠ [] ∧ no_at x ∧ no_at y ∧ no_at z.

Lemma has_email_spec s : has_email s = true ↔ mentions_email s.
Proof.
  unfold has_email, mentions_email. rewrite search_email_spec. split.
  - intros [(d & [=] & _)|(a & x & d & E & Hx & Hd)].
    apply after_at_spec in Hd as (y & z & b & -> & Hne & Hy & Hz).
    exists a, [x], y, [z], b. split; [done|]. split_and!; [done..| | |]; unfold no_at;
      [rewrite list_elem_of_singleton; congruence|done|rewrite list_elem_of_singleton; congruence].
  - intros (a & x & y & z & b & E & Hnx & Hny & Hnz & Hx & Hy & Hz). right.
    destruct z as [|z0 z]; [done|]. apply not_elem_of_cons in Hz as [Hz0 _].
    destruct x as [|x1 xs] using rev_ind; [done|]. unfold no_at in Hx.
    rewrite elem_of_app, list_elem_of_singleton in Hx.
    exists (a ++ xs), x1, (y ++ "."%char :: z0 :: (z ++ b)). split; [|split].
    + rewrite E, <- !app_assoc. done.
    + intros ->. apply Hx. by right.
    + apply after_at_spec. exists y, z0, (z ++ b). split_and!; [done..|congruence].
Qed.

(** ** What is kept out *)

(** The value may be shown under the name. *)
Definition shown_ok (name : string) (v : json) : Prop :=
  (lower name ∈ SENSITIVE_FIELD_NAMES → v = JStr REDACTED_VALUE) ∧
  (∀ t, v = JStr t → ¬ mentions_email t).

Lemma no_email t : has_email t = false → ¬ mentions_email t.
Proof. rewrite <- has_email_spec. by intros ->. Qed.

Lemma redacted_no_email : ¬ mentions_email REDACTED_VALUE.
Proof. apply no_email. vm_compute. reflexivity. Qed.

Lemma redact_ok name v : shown_ok name (redact_sensitive_value name v).
Proof.
  unfold shown_ok, redact_sensitive_value, is_sensitive. case_bool_decide as Hs.
  - split; [done|]. intros t [= <-]. apply redacted_no_email.
  - split; [done|]. intros t. destruct v as [| | | |u| |]; try done.
    destruct (has_email u) eqn:E; intros [= <-]; [apply redacted_no_email|by apply no_email].
Qed.

(** A value that may be shown is not changed. *)
Lemma redact_shown name v : shown_ok name v → redact_sensitive_value name v = v.
Proof.
  intros [Hs He]. unfold redact_sensitive_value, is_sensitive. case_bool_decide; [by rewrite Hs|].
  destruct v as [| | | |u| |]; try done. destruct (has_email u) eqn:E; [|done].
  apply has_email_spec in E. by destruct (He u).
Qed.

Lemma elem_of_dict_set k v p name x :
  (name, x) ∈ dict_set k v p → (name, x) = (k, v) ∨ (name, x) ∈ p.
Proof.
  induction p as [|[k' v'] p IH]; cbn.
  - intros [->|H]%elem_of_cons; [by left|by apply elem_of_nil in H].
  - destruct (String.eqb_spec k k') as [->|]; intros [E|Hin]%elem_of_cons.
    + left. by injection E as -> ->.
    + right. by right.
    + right. rewrite E. by left.
    + destruct (IH Hin); [by left|right; by right].
Qed.

(** The fields of a payload, but for the four the formatter starts with. *)
Definition HEAD_FIELDS : list string := ["timestamp"; "level"; "logger"; "message"].
Definition payload_ok (p : list (string * json)) : Prop :=
  ∀ name v, (name, v) ∈ p → name ∉ HEAD_FIELDS → shown_ok name v.

Lemma payload_set_ok k v p :
  payload_ok p → payload_ok (dict_set k (redact_sensitive_value k v) p).
Proof.
  intros Hp name x [[= -> ->]|Hin]%elem_of_dict_set; [by intros _; apply redact_ok|by apply Hp].
Qed.


(** Configuring again leaves one handler, with the filter, and the same levels. *)
Lemma configure_logging_again s l l' l'' :
  configure_logging s l = (l', Ok tt) →
  configure_logging s l' = (l', Ok tt) ∧
  fst (configure_logging s l'') = l' ∧
  (∃ h, root_handlers l' = [h] ∧ h_filtered h = true) ∧ root_level l' = requests_level l'.
Proof.
  unfold configure_logging. destruct (check_level (log_level s)) as [level|e] eqn:E; [|done].
  intros [= <-]. split_and!; try done. by eexists.
Qed.

Lemma dict_get_app name d d' :
  dict_get name (d ++ d') = match dict_get name d with Some v => Some v | None => dict_get name d' end.
Proof.
  induction d as [|[k v] d IH]; [done|]. cbn [dict_get List.app]. by destruct (String.eqb name k).
Qed.

(** Both formatters find every request field in the record, and change none that is
    there. *)
Lemma with_request_fields_spec r name :
  dict_get name (lr_dict (with_request_fields r)) =
  match dict_get name (lr_dict r) with
  | Some v => Some v
  | None => if bool_decide (name ∈ REQUEST_LOG_FIELDS) then Some (JStr "-") else None
  end.
Proof.
  unfold with_request_fields, with_dict. cbn [lr_dict].
  generalize REQUEST_LOG_FIELDS (lr_dict r). intros fs. induction fs as [|f fs IH]; intros d; cbn [fold_left].
  - by destruct (dict_get name d).
  - rewrite IH. destruct (dict_get f d) as [v|] eqn:E.
    + destruct (dict_get name d) eqn:E'; [done|]. rewrite (bool_decide_ext (name ∈ f :: fs) (name ∈ fs)); [done|].
      rewrite elem_of_cons. split; [|by right]. intros [->|]; [by rewrite E in E'|done].
    + rewrite dict_get_app. destruct (dict_get name d) eqn:E'; [done|]. cbn [dict_get].
      destruct (String.eqb_spec name f) as [->|Hn].
      * rewrite bool_decide_true; [done|left].
      * rewrite (bool_decide_ext (name ∈ f :: fs) (name ∈ fs)); [done|].
        rewrite elem_of_cons. split; [by intros [->|]|by right].
Qed.

(** The text layout shows the request fields of a filtered record: none with a text
    that mentions an email address.  A traceback follows as it is in the text layout,
    and is left out of the JSON one. *)
Lemma filtered_fields_shown r name v :
  name ∈ REQUEST_LOG_FIELDS →
  dict_get name (lr_dict (with_request_fields (filter_record r))) = Some v → shown_ok name v.
Proof.
  intros Hin. rewrite with_request_fields_spec.
  assert (is_standard name = false) as Hs.
  { revert name Hin. apply Forall_forall. apply (bool_decide_unpack _). vm_compute. exact Logic.I. }
  unfold filter_record, with_dict. cbn [lr_dict]. induction (lr_dict r) as [|[k x] d IH]; cbn [map dict_get].
  - rewrite bool_decide_true by done. intros [= <-].
    assert (redact_sensitive_value name (JStr "-") = JStr "-") as <-; [|apply redact_ok].
    clear Hs. revert name Hin. apply Forall_forall. apply (bool_decide_unpack _). vm_compute. exact Logic.I.
  - destruct (String.eqb_spec name k) as [<-|]; [|done]. rewrite Hs. intros [= <-]. apply redact_ok.
Qed.

Lemma json_drops_traceback asctime py_str filtered exc_text r :
  let h := {| h_formatter := JsonFormatter; h_filtered := filtered |} in
  emit asctime py_str h exc_text r = emit asctime py_str h None r.
Proof. done. Qed.
