(* ===== verification/Shutdown.v ===== *)
(** * Shutting down

    [app/core/shutdown.py]: the counter of requests in flight, the flags of the
    worker, and the loops that wait for work to end.  The monotonic clock counts
    microseconds; a grace period is the rational number of seconds of the
    settings. *)

From Stdlib Require Import ZArith QArith Ascii String Lia Lqa.
From stdpp Require Import base tactics option list gmap strings.
From S2P Require Import Prelude PyText Json Errors Config Models Services Programs Reference.
Local Open Scope string_scope.
Local Open Scope list_scope.
Local Open Scope Z_scope.

(** ** The variables of the process *)

Definition with_in_flight (n : Z) (p : proc) : proc :=
  {| p_request_id := p_request_id p; p_tenant_id := p_tenant_id p;
     p_tenant_slug := p_tenant_slug p; p_in_flight := n;
     p_shutdown_requested := p_shutdown_requested p; p_job_in_progress := p_job_in_progress p;
     p_last_maintenance_attempt_at := p_last_maintenance_attempt_at p;
     p_last_queue_maintenance_at := p_last_queue_maintenance_at p |}.

Definition with_job_in_progress (b : bool) (p : proc) : proc :=
  {| p_request_id := p_request_id p; p_tenant_id := p_tenant_id p;
     p_tenant_slug := p_tenant_slug p; p_in_flight := p_in_flight p;
     p_shutdown_requested := p_shutdown_requested p; p_job_in_progress := b;
     p_last_maintenance_attempt_at := p_last_maintenance_attempt_at p;
     p_last_queue_maintenance_at := p_last_queue_maintenance_at p |}.

Definition increment_in_flight_requests : prog unit :=
  set_proc (λ p, with_in_flight (p_in_flight p + 1) p).
Definition decrement_in_flight_requests : prog unit :=
  set_proc (λ p, with_in_flight (p_in_flight p - 1) p).
Definition get_in_flight_request_count : prog Z := read_proc p_in_flight.

(** The handler of SIGTERM and SIGINT. *)
Definition request_worker_shutdown : prog unit := set_proc (set_shutdown true).
Definition worker_shutdown_requested : prog bool := read_proc p_shutdown_requested.
Definition mark_worker_job_started : prog unit := set_proc (with_job_in_progress true).
Definition mark_worker_job_finished : prog unit := set_proc (with_job_in_progress false).

(** ** Waiting *)

(** [time.monotonic() + grace_seconds], in microseconds. *)
Definition deadline_after (start : Z) (grace_seconds : Q) : Q :=
  inject_Z start + grace_seconds * inject_Z second.

(** [now < deadline] *)
Definition before (now : Z) (deadline : Q) : bool := negb (Qle_bool deadline (inject_Z now)).

(** [while time.monotonic() < deadline: if idle: return; sleep(0.1)]: whether
    what was waited for has come, [None] when [fuel] rounds were not enough. *)
Fixpoint wait_loop (fuel : nat) (idle : prog bool) (deadline : Q) : prog (option bool) :=
  match fuel with
  | O => Ret None
  | S fuel' =>
      now ← call Monotonic;
      if before now deadline then
        b ← idle;
        if (b : bool) then Ret (Some true)
        else _ ← call (Sleep 100000); wait_loop fuel' idle deadline
      else Ret (Some false)
  end.

Definition no_request_in_flight : prog bool :=
  n ← get_in_flight_request_count; Ret (n =? 0).

Definition wait_for_in_flight_requests (fuel : nat) (grace_seconds : Q) : prog (option bool) :=
  if Qle_bool grace_seconds 0 then Ret (Some false)
  else
    start ← call Monotonic;
    wait_loop fuel no_request_in_flight (deadline_after start grace_seconds).

Definition job_not_in_progress : prog bool := b ← read_proc p_job_in_progress; Ret (negb b).

Definition wait_for_worker_job_completion (fuel : nat) (grace_seconds : Q) : prog (option bool) :=
  idle ← job_not_in_progress;
  if (idle : bool) then Ret (Some true)
  else
    start ← call Monotonic;
    wait_loop fuel job_not_in_progress (deadline_after start grace_seconds).

(** ** Facts *)

(** Rounds that are enough for a grace period: one every tenth of a second. *)
Definition enough_rounds (fuel : nat) (grace_seconds : Q) : Prop :=
  (grace_seconds * 10 <= inject_Z (Z.of_nat fuel - 1))%Q.

Section waiting.
Context `{Crypto} (faults : bool).

Lemma wp_monotonic Q w :
  (∀ w1, advance w w1 → Q (Ok (w_monotonic w1)) w1) → wp faults (call Monotonic) Q w.
Proof.
  intros HQ. apply wp_call. intros r w' (w1 & Hadv & [[-> ->]|(_ & e & [] & _)]). by apply HQ.
Qed.

Lemma wp_sleep us Q w :
  (∀ w1, advance w w1 →
     Q (Ok tt) (with_clock (w_clock w1 + Z.max 0 us) (w_monotonic w1 + Z.max 0 us) (w_proc w1) w1)) →
  wp faults (call (Sleep us)) Q w.
Proof.
  intros HQ. apply wp_call. intros r w' (w1 & Hadv & [[-> ->]|(_ & e & [] & _)]). by apply HQ.
Qed.

Lemma before_false now deadline : before now deadline = false ↔ (deadline <= inject_Z now)%Q.
Proof. unfold before. rewrite negb_false_iff. apply Qle_bool_iff. Qed.

(** The loop over a condition that is read from the process. *)
Section loop.
Context (idle : prog bool) (busy : proc → bool).
Context (Hidle : ∀ Q w, (∀ w1, advance w w1 → Q (Ok (negb (busy (w_proc w1)))) w1) → wp faults idle Q w).

(** What the end of a wait tells: the work has ended, or the deadline passed. *)
Definition waited (deadline : Q) (r : result exn (option bool)) (w : world) : Prop :=
  r = Ok (Some true) ∧ busy (w_proc w) = false ∨
  r = Ok (Some false) ∧ (deadline <= inject_Z (w_monotonic w))%Q.

Lemma wp_wait_loop fuel deadline w :
  (deadline <= inject_Z (w_monotonic w + (Z.of_nat fuel - 1) * 100000))%Q →
  fuel ≠ O →
  wp faults (wait_loop fuel idle deadline) (waited deadline) w.
Proof.
  revert w. induction fuel as [|fuel IH]; intros w Hd Hf; [done|]. cbn [wait_loop].
  apply wp_bind, wp_monotonic. intros w1 Hadv1. pose proof (advance_monotonic _ _ Hadv1) as Hm1.
  destruct (before (w_monotonic w1) deadline) eqn:Hb.
  2:{ right. split; [done|]. by apply before_false. }
  apply wp_bind, Hidle. intros w2 Hadv2. destruct (busy (w_proc w2)) eqn:E; cbn [negb]; [|by left].
  apply wp_bind, wp_sleep. intros w3 Hadv3. pose proof (advance_monotonic _ _ Hadv2) as Hm2.
  pose proof (advance_monotonic _ _ Hadv3) as Hm3. destruct fuel as [|fuel'].
  - exfalso. unfold before in Hb. apply negb_true_iff in Hb.
    enough (Qle_bool deadline (inject_Z (w_monotonic w1)) = true) by congruence.
    apply Qle_bool_iff. eapply Qle_trans; [exact Hd|]. rewrite <- Zle_Qle. lia.
  - apply IH; [|done]. eapply Qle_trans; [exact Hd|]. rewrite <- Zle_Qle. cbn. lia.
Qed.
End loop.

Lemma wp_read_proc {B} (f : proc → B) Q w :
  (∀ w1, advance w w1 → Q (Ok (f (w_proc w1))) w1) → wp faults (read_proc f) Q w.
Proof.
  intros HQ. apply wp_on_proc. intros w1 Hadv. specialize (HQ w1 Hadv).
  by destruct w1.
Qed.

Lemma wait_deadline fuel grace start now :
  enough_rounds fuel grace → start <= now →
  (deadline_after start grace <= inject_Z (now + (Z.of_nat fuel - 1) * 100000))%Q.
Proof.
  unfold enough_rounds, deadline_after, second. intros Hg Hs. rewrite inject_Z_plus, inject_Z_mult.
  assert (inject_Z start <= inject_Z now)%Q as Hs' by by rewrite <- Zle_Qle.
  change (inject_Z 1000000) with (1000000 # 1)%Q. change (inject_Z 100000) with (100000 # 1)%Q. lra.
Qed.

Lemma enough_rounds_pos fuel grace : Qle_bool grace 0 = false → enough_rounds fuel grace → fuel ≠ O.
Proof.
  unfold enough_rounds. intros Hg Hf ->. assert (grace <= 0)%Q as Hle.
  { change (inject_Z (Z.of_nat 0 - 1)) with (-1 # 1)%Q in Hf. lra. }
  apply Qle_bool_iff in Hle. congruence.
Qed.

Lemma wp_job_not_in_progress Q w :
  (∀ w1, advance w w1 → Q (Ok (negb (p_job_in_progress (w_proc w1)))) w1) →
  wp faults job_not_in_progress Q w.
Proof. intros HQ. by apply wp_bind, wp_read_proc. Qed.

Definition has_requests (p : proc) : bool := negb (p_in_flight p =? 0).

Lemma wp_no_request_in_flight Q w :
  (∀ w1, advance w w1 → Q (Ok (negb (has_requests (w_proc w1)))) w1) →
  wp faults no_request_in_flight Q w.
Proof.
  intros HQ. apply wp_bind, wp_read_proc. intros w1 Hadv. specialize (HQ w1 Hadv).
  unfold has_requests in HQ. by rewrite negb_involutive in HQ.
Qed.
End waiting.


Definition busy_process : world := with_proc (with_in_flight 1 no_proc) (world_at 1000).

