(* ===== verification/Middleware.v ===== *)
(** * The middleware of the API

    [app/core/middleware.py], [app/core/security_headers.py],
    [app/core/runtime.py] and the stack [app/main.py] builds.  A route is a
    program that returns a response or raises; CORS and the check of the host
    are Starlette's and may change what passes through them: [outer].  The
    duration of a request is the text Python prints for the difference of two
    clock readings, the parameter [seconds_text]. *)

From Stdlib Require Import ZArith Ascii String Lia.
From stdpp Require Import base tactics option list gmap strings.
From S2P Require Import Prelude PyText Json Errors Config Models Services Programs Reference.
From S2P Require Import Ids Http Tenants Webhooks Idempotency RateLimit Metrics Shutdown.
Local Open Scope string_scope.
Local Open Scope list_scope.
Local Open Scope Z_scope.

(** ** [security_headers.py] *)

(** [headers.setdefault(name, value)]: names are compared without case. *)
Definition setdefault (name value : string) (headers : list (string * string)) :
    list (string * string) :=
  match header_get name headers with
  | Some _ => headers
  | None => headers ++ [(lower name, value)]
  end.

Definition SECURITY_HEADERS : list (string * string) :=
  [("X-Content-Type-Options", "nosniff"); ("X-Frame-Options", "DENY");
   ("Referrer-Policy", "no-referrer");
   ("Permissions-Policy", "geolocation=(), microphone=(), camera=()")].

Definition set_defaults (defaults headers : list (string * string)) : list (string * string) :=
  fold_left (λ h '(name, value), setdefault name value h) defaults headers.

Definition hsts_header (hsts_max_age_seconds : Z) : string * string :=
  ("Strict-Transport-Security",
   "max-age=" ++ str_of_int hsts_max_age_seconds ++ "; includeSubDomains")%string.

Definition with_headers (f : list (string * string) → list (string * string)) (r : response) : response :=
  {| resp_status := resp_status r; resp_content := resp_content r;
     resp_headers := f (resp_headers r) |}.

(** The headers [dispatch] makes sure of. *)
Definition required_headers (hsts_enabled : bool) (hsts_max_age_seconds : Z) : list (string * string) :=
  SECURITY_HEADERS ++ if hsts_enabled then [hsts_header hsts_max_age_seconds] else [].

(** [SecurityHeadersMiddleware.dispatch] *)
Definition dispatch (hsts_enabled : bool) (hsts_max_age_seconds : Z) (call_next : prog response) :
    prog response :=
  response ← call_next;
  Ret (with_headers (set_defaults (required_headers hsts_enabled hsts_max_age_seconds)) response).

(** ** [middleware.py] *)

Definition with_request_id (rid : option string) (p : proc) : proc :=
  {| p_request_id := rid; p_tenant_id := p_tenant_id p;
     p_tenant_slug := p_tenant_slug p; p_in_flight := p_in_flight p;
     p_shutdown_requested := p_shutdown_requested p; p_job_in_progress := p_job_in_progress p;
     p_last_maintenance_attempt_at := p_last_maintenance_attempt_at p;
     p_last_queue_maintenance_at := p_last_queue_maintenance_at p |}.

Section middleware.
Context (seconds_text : Z → string).

(** What [send_wrapper] adds to the start of the response. *)
Definition send_wrapper (request_id : string) (start_time : Z) (r : response) : prog response :=
  now ← call Monotonic;
  Ret (with_headers (λ h, h ++ [("x-request-id", request_id);
                                ("x-process-time", seconds_text (now - start_time))]) r).

(** What is done between the two changes of the process: [route] is the route
    the router has found, if any. *)
Definition request_body (app : prog response) (rq : request) (route : option (option string))
    (request_id : string) (start_time : Z) : prog response :=
  started ← app;
  response ← send_wrapper request_id start_time started;
  _ ← call Monotonic;
  _ ← (if String.eqb (rq_path rq) "/metrics" then Ret tt
       else observe_request (rq_method rq)
              (get_route_path {| sc_route := route; sc_path := Some (rq_path rq) |})
              (resp_status response));
  Ret response.

(** What is done before the [try] and in its [finally]: the start time, the id of
    the request and the token that restores the context variable. *)
Definition enter_request (rq : request) : prog (Z * string * option string) :=
  start_time ← call Monotonic;
  request_id ← match some_truthy (header rq "X-Request-ID") with
               | Some r => Ret r
               | None => uuid7
               end;
  token ← on_proc (λ p, (p_request_id p, with_request_id (Some request_id) p));
  _ ← clear_tenant_context;
  _ ← increment_in_flight_requests;
  Ret (start_time, request_id, token).

Definition leave_request (token : option string) : prog unit :=
  _ ← decrement_in_flight_requests;
  set_proc (with_request_id token).

(** [RequestContextMiddleware.__call__] *)
Definition request_context (app : prog response) (rq : request) (route : option (option string)) :
    prog response :=
  entered ← enter_request rq;
  let '(start_time, request_id, token) := entered in
  finally (request_body app rq route request_id start_time) (leave_request token).

(** Starlette's [ExceptionMiddleware] with the handlers of [main.py], and its
    [ServerErrorMiddleware] around everything. *)
Definition exception_middleware (route : prog response) : prog response :=
  catch route (λ e, if is_unhandled e then Raise e else Ret (respond e)).
Definition server_error_middleware (app : prog response) : prog response :=
  catch app (λ e, Ret (respond e)).

(** [configure_runtime_middleware], without the two of Starlette. *)
Definition configure_runtime_middleware (s : Settings) (app : prog response) : prog response :=
  if security_headers_enabled s
  then dispatch (hsts_enabled s) (hsts_max_age_seconds s) app else app.

(** The whole stack around a route. *)
Definition application (s : Settings) (outer : prog response → prog response) (route : prog response)
    (rq : request) (path : option (option string)) : prog response :=
  server_error_middleware
    (outer (configure_runtime_middleware s
      (request_context (exception_middleware route) rq path))).
End middleware.

(** ** The headers *)

Lemma header_get_app name h1 h2 :
  header_get name (h1 ++ h2) =
    match header_get name h1 with Some v => Some v | None => header_get name h2 end.
Proof.
  induction h1 as [|[k v] h1 IH]; [done|]. cbn. by destruct (String.eqb _ _).
Qed.

Lemma header_get_setdefault name name' value h :
  header_get name (setdefault name' value h) =
    match header_get name h with
    | Some v => Some v
    | None => if String.eqb (lower name') (lower name) then Some value else None
    end.
Proof.
  unfold setdefault. destruct (header_get name' h) as [v'|] eqn:E'.
  - destruct (header_get name h) as [v|] eqn:E; [done|].
    destruct (String.eqb_spec (lower name') (lower name)) as [Heq|]; [|done].
    enough (header_get name h = header_get name' h) by congruence.
    clear E E'. induction h as [|[k v] h IH]; [done|]. cbn [header_get]. rewrite Heq.
    by destruct (String.eqb (lower k) (lower name)).
  - rewrite header_get_app. destruct (header_get name h); [done|]. cbn.
    by rewrite lower_idemp.
Qed.

(** Setting defaults: a header that is there stays, the others get the first
    default with their name. *)
Lemma header_get_set_defaults name defaults h :
  header_get name (set_defaults defaults h) =
    match header_get name h with Some v => Some v | None => header_get name defaults end.
Proof.
  revert h. induction defaults as [|[k v] l IH]; intros h; cbn; [by destruct (header_get name h)|].
  change (set_defaults ((k, v) :: l) h) with (set_defaults l (setdefault k v h)).
  rewrite IH, header_get_setdefault. destruct (header_get name h); [done|].
  cbn [header_get]. by destruct (String.eqb _ _).
Qed.

Lemma set_defaults_present defaults h :
  (∀ name, name ∈ defaults.*1 → is_Some (header_get name h)) → set_defaults defaults h = h.
Proof.
  intros Hall. induction defaults as [|[k v] l IH]; [done|].
  change (set_defaults ((k, v) :: l) h) with (set_defaults l (setdefault k v h)). unfold setdefault.
  destruct (Hall k) as [v' ->]; [by left|]. apply IH. intros name Hn. apply Hall. by right.
Qed.

Lemma required_headers_named hsts max_age name :
  name ∈ (required_headers hsts max_age).*1 → is_Some (header_get name (required_headers hsts max_age)).
Proof.
  intros Hin. assert (Forall (λ n, is_Some (header_get n (required_headers hsts max_age)))
    (required_headers hsts max_age).*1) as Hall
    by (destruct hsts; repeat (apply Forall_cons; split; [by apply mk_is_Some with (1 := eq_refl)|]); apply Forall_nil_2).
  rewrite Forall_forall in Hall. by apply Hall.
Qed.

(** Every response that passes the middleware has the security headers.  A
    header the route has set keeps its value; each of the four headers, and the
    transport header when it is enabled, is there; no other header is added; the
    status and the content stay as they are; doing it again changes nothing. *)
Theorem security_headers_set (hsts : bool) (max_age : Z) (r : response) :
  let r' := with_headers (set_defaults (required_headers hsts max_age)) r in
  resp_status r' = resp_status r ∧ resp_content r' = resp_content r ∧
  (∀ name, header_get name (resp_headers r') =
     match header_get name (resp_headers r) with
     | Some v => Some v
     | None => header_get name (required_headers hsts max_age)
     end) ∧
  (∀ name, name ∈ (required_headers hsts max_age).*1 → is_Some (header_get name (resp_headers r'))) ∧
  with_headers (set_defaults (required_headers hsts max_age)) r' = r'.
Proof.
  intros r'. split_and!; [done..| | |].
  - intros name. apply header_get_set_defaults.
  - intros name Hin. cbn [resp_headers r' with_headers]. rewrite header_get_set_defaults.
    destruct (header_get name (resp_headers r)); [done|]. by apply required_headers_named.
  - unfold r' at 1. unfold with_headers at 1. cbn [resp_status resp_content resp_headers r' with_headers].
    rewrite set_defaults_present; [done|]. intros name Hin. rewrite header_get_set_defaults.
    destruct (header_get name (resp_headers r)); [done|]. by apply required_headers_named.
Qed.

(** ** The request context *)

(** A command that leaves the request id and the count of requests alone. *)
Definition leaves_context (B : Type) (c : svc B) : Prop :=
  match c with
  | OnProc f => ∀ p, p_in_flight (snd (f p)) = p_in_flight p ∧ p_request_id (snd (f p)) = p_request_id p
  | _ => True
  end.

Definition same_context (w w' : world) : Prop :=
  p_in_flight (w_proc w') = p_in_flight (w_proc w) ∧
  p_request_id (w_proc w') = p_request_id (w_proc w).

#[export] Instance same_context_trans : Transitive same_context.
Proof. intros w1 w2 w3 [? ?] [? ?]. split; congruence. Qed.

Lemma advance_context w w1 : advance w w1 → same_context w w1.
Proof. by intros (t & m & b & _ & _ & _ & ->). Qed.

(** Only a command on the process changes the variables of the process. *)
Lemma cmd_context `{Crypto} {B} (c : svc B) w r w' :
  leaves_context B c → cmd_spec c w r w' → same_context w w'.
Proof.
  destruct c; cbn [leaves_context cmd_spec]; intros Hc; try (by intros [_ ->]); try by intros [-> _].
  - destruct (redis_exec _ _ _). by intros [= -> ->].
  - intros Hs. assert (w_proc w' = w_proc w) as E; [|by split; rewrite E].
    destruct c; cbn in Hs; unfold bulk_spec in Hs; repeat case_match; naive_solver.
  - destruct (s3_exec _ _). by intros [= -> ->].
  - by intros (reply & _ & ->).
  - specialize (Hc (w_proc w)). destruct (f _). by intros [_ ->].
Qed.

Lemma svc_context `{Crypto} faults {B} (c : svc B) w r w' :
  leaves_context B c → svc_spec faults c w r w' → same_context w w'.
Proof.
  intros Hc (w1 & Hadv & Hcase). etrans; [by apply advance_context|].
  destruct Hcase as [Hs|(_ & e & _ & _ & [->|[r' Hs]])]; [|done|]; by eapply cmd_context.
Qed.

Lemma wp_context `{Crypto} faults {A} (p : prog A) w0 w :
  keeps leaves_context p → same_context w0 w → wp faults p (λ _ w', same_context w0 w') w.
Proof.
  revert w. induction p as [| |B c k IH]; intros w; cbn; [done..|].
  intros [Hc Hk] Hw r w' Hs. apply IH; [done|]. etrans; [done|]. by eapply svc_context.
Qed.

(** ** Every request is answered *)

(** Nothing but the process, the clocks and the metrics has changed. *)
Definition same_data (w w' : world) : Prop :=
  w_redis w' = w_redis w ∧ w_db w' = w_db w ∧ w_session w' = w_session w ∧ w_s3 w' = w_s3 w ∧
  w_mail w' = w_mail w ∧ w_posts w' = w_posts w.

#[export] Instance same_data_trans : Transitive same_data.
Proof. intros w1 w2 w3 (? & ? & ? & ? & ? & ?) (? & ? & ? & ? & ? & ?). split_and!; congruence. Qed.

Lemma advance_data w w1 : advance w w1 → same_data w w1.
Proof. by intros (t & m & b & _ & _ & _ & ->). Qed.

Section stack.
Context `{Crypto} (faults : bool) (seconds_text : Z → string).

Lemma wp_observe name labels Q w :
  (∀ w1, advance w w1 → Q (Ok tt) (with_metrics (Sample name labels :: w_metrics w1) w1)) →
  wp faults (observe name labels) Q w.
Proof.
  intros HQ. apply wp_call. intros r w' (w1 & Hadv & [[-> ->]|(_ & e & [] & _)]). by apply HQ.
Qed.

Lemma wp_rand_bits k Q w :
  (∀ n w1, advance w w1 → Q (Ok n) w1) → wp faults (call (RandBits k)) Q w.
Proof.
  intros HQ. apply wp_call. intros r w' (w1 & Hadv & [(-> & n & -> & _)|(_ & e & [] & _)]). by apply HQ.
Qed.

(** The id of a request: the one of its header, or a new one. *)
Definition request_id_of (rq : request) (request_id : string) : Prop :=
  match some_truthy (header rq "X-Request-ID") with
  | Some r => request_id = r
  | None => True
  end.

(** The world the route starts in. *)
Definition entered (rq : request) (w : world) (request_id : string) (token : option string)
    (w1 : world) : Prop :=
  request_id_of rq request_id ∧ token = p_request_id (w_proc w) ∧ same_data w w1 ∧
  p_request_id (w_proc w1) = Some request_id ∧ p_tenant_id (w_proc w1) = None ∧
  p_in_flight (w_proc w1) = p_in_flight (w_proc w) + 1.

Lemma wp_enter rq w :
  wp faults (enter_request rq)
    (λ r w1, ∃ st rid token, r = Ok (st, rid, token) ∧ entered rq w rid token w1) w.
Proof.
  unfold enter_request. apply wp_bind, wp_monotonic. intros w1 Hadv1.
  assert (∀ rid w2, request_id_of rq rid → same_data w w2 → same_context w w2 →
    wp faults (token ← on_proc (λ p, (p_request_id p, with_request_id (Some rid) p));
               _ ← clear_tenant_context; _ ← increment_in_flight_requests;
               Ret (w_monotonic w1, rid, token))
      (λ r w1, ∃ st rid token, r = Ok (st, rid, token) ∧ entered rq w rid token w1) w2) as Hrest.
  { intros rid w2 Hrid Hd [Hf Ht]. apply wp_bind, wp_on_proc. intros w3 Hadv3.
    apply wp_bind, wp_on_proc. intros w4 Hadv4. apply wp_bind, wp_on_proc. intros w5 Hadv5.
    destruct (advance_context _ _ Hadv3) as [Hf3 Ht3], (advance_context _ _ Hadv4) as [Hf4 Ht4],
      (advance_context _ _ Hadv5) as [Hf5 Ht5].
    apply advance_data in Hadv3, Hadv4. pose proof (advance_data _ _ Hadv5) as Hdata5.
    eexists _, rid, _. split; [done|]. split_and!; [done|congruence| |cbn in *; congruence| |cbn in *; lia].
    - etrans; [exact Hd|]. etrans; [exact Hadv3|]. etrans; [exact Hadv4|]. exact Hdata5.
    - destruct Hadv5 as (t & m & b & _ & _ & _ & ->). done. }
  destruct (advance_context _ _ Hadv1). pose proof (advance_data _ _ Hadv1) as Hd1.
  unfold request_id_of in *. destruct (some_truthy _) as [rid|]; apply wp_bind; [by apply Hrest|].
  unfold uuid7. apply wp_bind, wp_now. intros w2 Hadv2. apply wp_bind, wp_rand_bits. intros a w3 Hadv3.
  apply wp_bind, wp_rand_bits. intros b w4 Hadv4. apply Hrest; [done| |].
  - etrans; [exact Hd1|]. etrans; [by apply advance_data|]. etrans; by apply advance_data.
  - etrans; [by apply advance_context|]. etrans; [by apply advance_context|].
    etrans; by apply advance_context.
Qed.

Lemma wp_leave token Q w :
  (∀ w', p_request_id (w_proc w') = token → p_in_flight (w_proc w') = p_in_flight (w_proc w) - 1 →
     Q (Ok tt) w') →
  wp faults (leave_request token) Q w.
Proof.
  intros HQ. unfold leave_request. apply wp_bind, wp_on_proc. intros w1 Hadv1.
  apply wp_on_proc. intros w2 Hadv2.
  destruct (advance_context _ _ Hadv1) as [Hf1 _], (advance_context _ _ Hadv2) as [Hf2 _].
  apply HQ; cbn in *; [done|lia].
Qed.

(** What is added to the response of a route. *)
Definition tagged (request_id : string) (r resp : response) : Prop :=
  ∃ t, resp = with_headers (λ h, h ++ [("x-request-id", request_id); ("x-process-time", t)]) r.

Lemma wp_finish rq path rid start r w :
  wp faults
    (response ← send_wrapper seconds_text rid start r;
     _ ← call Monotonic;
     _ ← (if String.eqb (rq_path rq) "/metrics" then Ret tt
          else observe_request (rq_method rq)
                 (get_route_path {| sc_route := path; sc_path := Some (rq_path rq) |})
                 (resp_status response));
     Ret response) (λ res w', same_context w w' ∧ ∃ resp, res = Ok resp ∧ tagged rid r resp) w.
Proof.
  unfold send_wrapper. apply wp_bind, wp_bind, wp_monotonic. intros w1 Hadv1.
  set (resp := with_headers _ _). assert (tagged rid r resp) as Htag by by eexists.
  cbn [wp]. apply wp_bind, wp_monotonic. intros w2 Hadv2.
  assert (same_context w w2) as Hc2 by (etrans; by apply advance_context).
  destruct (String.eqb _ _); cbn [bind mbind prog_bind wp]; [by split; [|eexists]|].
  apply wp_bind. unfold observe_request. apply wp_bind, wp_observe. intros w3 Hadv3.
  apply wp_observe. intros w4 Hadv4. cbn [wp]. split; [|by eexists].
  etrans; [exact Hc2|]. etrans; [by apply advance_context|].
  apply advance_context in Hadv4. exact Hadv4.
Qed.
End stack.

Lemma run_leave `{ServicesSpec faults W} (w0 : world) (w : W) :
  p_in_flight (w_proc (view w)) = p_in_flight (w_proc w0) + 1 →
  let q := leave_request (p_request_id (w_proc w0)) in
  fst (run q w) = Ok tt ∧ same_context w0 (view (snd (run q w))).
Proof.
  intros Hf q. apply (wp_run (faults:=faults) q (λ r w', r = Ok tt ∧ same_context w0 w')).
  apply wp_leave. intros w' Hi Hf'. split; [done|]. split; [lia|done].
Qed.

(** A request and its route: the route runs once, in the context of the request,
    and the context is what it was when the request has ended. *)
Lemma run_request_context `{ServicesSpec faults W} seconds_text app rq path w :
  keeps leaves_context app →
  let p := request_context seconds_text app rq path in
  ∃ rid w1, entered rq (view w) rid (p_request_id (w_proc (view w))) (view w1) ∧
    same_context (view w) (view (snd (run p w))) ∧
    match fst (run app w1) with
    | Ok r => ∃ resp, fst (run p w) = Ok resp ∧ tagged rid r resp
    | Err e => fst (run p w) = Err e
    end.
Proof.
  intros Happ p. destruct (wp_run _ _ w (wp_enter faults rq (view w))) as (st & rid & tok & Hr & Hin).
  unfold p, request_context, mbind, prog_bind. rewrite run_bind. destruct (run (enter_request rq) w) as [r w1].
  cbn [fst snd] in *. subst r. pose proof Hin as (_ & -> & _ & Hid & _ & Hfl).
  exists rid, w1. split; [exact Hin|]. rewrite run_finally. unfold request_body, mbind, prog_bind. rewrite run_bind.
  pose proof (wp_run _ _ w1 (wp_context faults app (view w1) (view w1) Happ (conj eq_refl eq_refl))) as [Hfl2 _].
  destruct (run app w1) as [[r|e] w2]; cbn [fst snd] in *.
  - pose proof (wp_run _ _ w2 (wp_finish faults seconds_text rq path rid st r (view w2))) as Hfin.
    unfold mbind, prog_bind in Hfin. destruct Hfin as ([Hfl3 _] & resp & Hresp & Htag).
    match goal with |- context [run ?q w2] => destruct (run q w2) as [res w3] end.
    cbn [fst snd] in *. subst res.
    destruct (run_leave (view w) w3) as [Hok Hsame]; [lia|].
    destruct (run (leave_request _) w3) as [res w4]. cbn [fst snd] in *. subst res. cbn [fst snd].
    split; [done|]. by exists resp.
  - destruct (run_leave (view w) w2) as [Hok Hsame]; [lia|].
    destruct (run (leave_request _) w2) as [res w4]. cbn [fst snd] in *. by subst res.
Qed.

(** The response of the stack for a response of the route. *)
Definition delivered_as (s : Settings) (request_id : string) (r resp : response) : Prop :=
  resp_status resp = resp_status r ∧ resp_content resp = resp_content r ∧
  (header_get "x-request-id" (resp_headers r) = None →
   header_get "x-request-id" (resp_headers resp) = Some request_id) ∧
  (∀ name v, header_get name (resp_headers r) = Some v → header_get name (resp_headers resp) = Some v).

Lemma tagged_delivered s rid r resp : tagged rid r resp → delivered_as s rid r resp.
Proof.
  intros [t ->]. split_and!; [done..| |]; cbn [resp_headers with_headers]; intros; rewrite header_get_app.
  - match goal with E : header_get _ _ = None |- _ => rewrite E end. reflexivity.
  - match goal with E : header_get _ _ = Some _ |- _ => by rewrite E end.
Qed.

Lemma defaults_delivered s rid hsts age r resp :
  delivered_as s rid r resp →
  delivered_as s rid r (with_headers (set_defaults (required_headers hsts age)) resp).
Proof.
  intros (Hs & Hc & Hid & Hh). split_and!; [done..| |]; cbn [resp_headers with_headers];
    intros; rewrite header_get_set_defaults; [by rewrite Hid|by erewrite Hh].
Qed.


(** A webhook request of a client that sends an id of its own. *)
Definition identified : request := {|
  rq_method := "POST"; rq_path := "/api/v1/webhooks/inbound"; rq_client := None;
  rq_body := "{}"; rq_headers := [("X-Request-ID", "r-1")];
|}.

(** The endpoint of the webhooks, part by part. *)
Section webhook.
Context `{Crypto} (s : Settings) (parse_json : string → option json).
Local Abbreviation leaves := (keeps leaves_context).

Lemma counter_leaves key limit window : leaves (enforce_rate_limit_counter key limit window).
Proof. unfold enforce_rate_limit_counter. solve_keeps. Qed.
Lemma cached_leaves scope_key : leaves (get_cached_response scope_key).
Proof. unfold get_cached_response, first. solve_keeps. Qed.
Lemma commit_leaves : leaves try_commit.
Proof. unfold try_commit. solve_keeps. Qed.
Lemma begin_leaves scope_key : leaves (begin_idempotent_request s scope_key).
Proof.
  unfold begin_idempotent_request. pose proof cached_leaves. unfold try_acquire_idempotency_lock. by solve_keeps.
Qed.
Lemma store_leaves scope_key status body : leaves (store_response s scope_key status body).
Proof.
  unfold store_response. pose proof commit_leaves. pose proof cached_leaves. by solve_keeps.
Qed.
Lemma record_leaves payload raw : leaves (record_event payload raw).
Proof.
  unfold record_event, persist_webhook_event. pose proof commit_leaves. by solve_keeps.
Qed.
Lemma verify_leaves payload sg ts secret tolerance :
  leaves (verify_inbound_webhook_signature payload sg ts secret tolerance).
Proof.
  unfold verify_inbound_webhook_signature, verify_timestamped_hmac_signature. solve_keeps.
Qed.

Lemma webhook_leaves_context rq : leaves (inbound_webhook s parse_json rq).
Proof.
  unfold inbound_webhook, in_session, handle_webhook, process_webhook.
  apply keeps_finally; [|by apply keeps_call]. apply keeps_bind; [apply keeps_of_result|intros key].
  apply keeps_bind; [apply counter_leaves|intros _]. apply keeps_bind; [apply keeps_of_result|intros _].
  apply keeps_bind; [apply keeps_of_result|intros scope_key].
  apply keeps_bind; [apply begin_leaves|intros [[r|] b]]; [apply keeps_of_result|].
  apply keeps_finally; [|unfold release_idempotency_lock; solve_keeps].
  apply keeps_bind; [apply verify_leaves|intros _]. apply keeps_bind; [apply keeps_of_result|intros payload].
  apply keeps_bind; [unfold enforce_webhook_provider_rate_limit; case_match; [done|apply counter_leaves]|intros _].
  apply keeps_bind; [apply record_leaves|intros accepted].
  pose proof store_leaves. by solve_keeps.
Qed.
End webhook.

