(* ===== verification/Storage.v ===== *)
(** * File uploads

    [app/core/upload_metadata.py], [app/core/malware_scan.py],
    [app/services/malware_scanner.py], [app/core/file_validation.py],
    [app/services/storage_service.py], [app/services/upload_verification_service.py]
    and [app/api/routes/files.py].

    A body is the text of its bytes.  The URLs S3 signs are made locally by
    [boto3]; that function is the parameter [presign].  A scanner's reply of
    status 400 or more is the [HTTPError] [urllib] makes of it. *)

From Stdlib Require Import ZArith Ascii String Lia.
From stdpp Require Import base tactics option list gmap strings.
From S2P Require Import Prelude PyText Json Errors Config Models Permissions Services Programs.
From S2P Require Import Ids Tenants JobQueue Auth.
Local Open Scope string_scope.
Local Open Scope list_scope.
Local Open Scope Z_scope.

(** ** [upload_metadata.py] *)

Definition MAX_UPLOAD_FILENAME_LENGTH : Z := 255.

Definition bad_request (message : string) : exn := raised BadRequestError message.

(** The forbidden parts of a filename: NUL, slash, backslash, two dots. *)
Definition forbidden_in_filename : list string :=
  [text [ascii_of_N 0]; "/"; text ["\"%char]; ".."].

Definition validate_upload_filename (filename : string) : result exn string :=
  let normalized_filename := strip filename in
  if negb (truthy normalized_filename) then Err (bad_request "Filename is required")
  else if MAX_UPLOAD_FILENAME_LENGTH <? slen normalized_filename then
    Err (bad_request "Filename is too long")
  else if existsb (λ forbidden, contains forbidden normalized_filename) forbidden_in_filename then
    Err (bad_request "Invalid filename")
  else Ok normalized_filename.

(** The characters of either half of [CONTENT_TYPE_PATTERN]. *)
Definition content_type_char (c : ascii) : bool :=
  let n := code c in
  ((97 <=? n) && (n <=? 122) || (65 <=? n) && (n <=? 90) || (48 <=? n) && (n <=? 57) ||
   existsb (Ascii.eqb c) (chars "!#$&-^_.+"))%N.

(** [CONTENT_TYPE_PATTERN.fullmatch(s)] *)
Definition is_content_type (s : string) : bool :=
  match split_chars "/" (chars s) with
  | [a; b] => negb (bool_decide (a = [])) && forallb content_type_char a &&
              negb (bool_decide (b = [])) && forallb content_type_char b
  | _ => false
  end.

Definition validate_content_type_format (content_type : string) : result exn string :=
  let normalized_content_type := lower (strip content_type) in
  if negb (is_content_type normalized_content_type) then
    Err (bad_request "Invalid content type format")
  else Ok normalized_content_type.

(** ** [malware_scan.py] and [malware_scanner.py] *)

Record MalwareScanResult := { clean : bool; detail : string }.

Definition ensure_malware_scan_is_clean (scan_result : MalwareScanResult) : result exn unit :=
  if clean scan_result then Ok tt else Err (bad_request "File failed malware scanning").

(** [DisabledMalwareScanner.scan] *)
Definition disabled_scan : MalwareScanResult := {| clean := true; detail := "malware_scan_disabled" |}.

(** [InfectedFilenameMalwareScanner.scan] *)
Definition infected_filename_scan (filename : string) : MalwareScanResult :=
  if contains ".infected." (lower filename)
  then {| clean := false; detail := "infected_filename_detected" |}
  else {| clean := true; detail := "malware_scan_passed" |}.

Definition scanner_unavailable : MalwareScanResult :=
  {| clean := false; detail := "malware_scanner_unavailable" |}.

(** What [HttpMalwareScanner.scan] makes of a reply. *)
Definition scan_reply (reply : http_reply) : result exn MalwareScanResult :=
  if 400 <=? h_status reply then Ok scanner_unavailable
  else
    match loads (h_body reply) with
    | None => Ok scanner_unavailable
    | Some payload =>
        if negb (h_status reply =? 200) then
          Ok {| clean := false;
                detail := "malware_scanner_status_" ++ str_of_int (h_status reply) |}%string
        else
          match payload with
          | JObj kvs =>
              match dict_get "clean" kvs with
              | Some (JBool true) => Ok {| clean := true; detail := "malware_scan_passed" |}
              | _ => Ok {| clean := false; detail := "malware_detected" |}
              end
          | _ => Err (AttributeError "get")
          end
    end.

Definition is_url_error (e : exn) : bool := match e with URLError _ => true | _ => false end.

(** [HttpMalwareScanner.scan] *)
Definition http_scan (url body filename : string) : prog MalwareScanResult :=
  reply ← catch (r ← call (HttpPost url filename body); Ret (Some r))
            (λ e, if is_url_error e then Ret None else Raise e);
  match reply with
  | None => Ret scanner_unavailable
  | Some r => of_result (scan_reply r)
  end.

Section storage.
Context `{Crypto} (s : Settings).
(** [generate_presigned_url]: the client method, the key, the content type. *)
Context (presign : string → string → option string → result exn string).

(** [get_malware_scanner().scan(body, filename)] *)
Definition run_malware_scan (body filename : string) : prog MalwareScanResult :=
  if negb (upload_malware_scan_enabled s) then Ret disabled_scan
  else
    let scanner_url := strip (upload_malware_scanner_url s) in
    if truthy scanner_url then http_scan scanner_url body filename
    else Ret (infected_filename_scan filename).

(** ** [file_validation.py] *)

Definition bytes (l : list N) : string := text (ascii_of_N <$> l).

Definition CONTENT_SIGNATURES : list (string * list string) :=
  [("application/pdf", ["%PDF"]);
   ("image/png", [bytes [137; 80; 78; 71; 13; 10; 26; 10]%N]);
   ("image/jpeg", [bytes [255; 216; 255]%N])].

Definition sniff_content_type (body : string) : option string :=
  fst <$> List.find (λ '(_, signatures), existsb (startswith body) signatures) CONTENT_SIGNATURES.

Definition allowed_content_types : list string :=
  (λ v, lower (strip v)) <$>
    filter (λ v, truthy (strip v) = true) (split "," (upload_allowed_content_types s)).

Definition validate_declared_content_type (content_type : option string) : result exn string :=
  match content_type with
  | None => Err (bad_request "Unsupported file type")
  | Some t =>
      match validate_content_type_format t with
      | Err e => Err e
      | Ok normalized_content_type =>
          if bool_decide (normalized_content_type ∈ allowed_content_types)
          then Ok normalized_content_type
          else Err (bad_request "Unsupported file type")
      end
  end.

Definition validate_content_sniff (declared_content_type body : string) : result exn unit :=
  if bool_decide (sniff_content_type body = Some declared_content_type) then Ok tt
  else Err (bad_request "File content does not match declared content type").

(** ** [S3StorageProvider] *)

Record StoredObjectMetadata := { m_size_bytes : Z; m_content_type : string }.
Record PresignedUrl := { url : string; expires_in_seconds : Z }.

Definition is_client_error (e : exn) : bool := match e with ClientError _ => true | _ => false end.

(** [except ClientError as exc: raise e], and the same for the two classes. *)
Definition except_client_error {A} (p : prog A) (e : exn) : prog A :=
  catch p (λ e', if is_client_error e' then Raise e else Raise e').
Definition except_boto_errors {A} (p : prog A) (e : exn) : prog A :=
  catch p (λ e', if is_boto_error e' then Raise e else Raise e').

(** The content type of an object without its parameters. *)
Definition base_content_type (t : string) : string :=
  lower (strip (opt_default "" (head (split ";" (if truthy t then t
                                                 else "application/octet-stream"))))).

(** The provider's other calls; [put_object] stores what the multipart upload does,
    in one request. *)
Definition provider_upload_file (object_key body content_type : string) : prog unit :=
  s3 (UploadFileobj object_key body content_type).
Definition upload_fileobj (object_key fileobj content_type : string) : prog unit :=
  s3 (UploadFileobj object_key fileobj content_type).
Definition delete_object (object_key : string) : prog unit := s3 (DeleteObject object_key).
Definition object_exists (object_key : string) : prog bool :=
  catch (_ ← s3 (HeadObject object_key); Ret true)
    (λ e, if is_client_error e then Ret false else Raise e).

Definition get_object_metadata (object_key : string) : prog StoredObjectMetadata :=
  response ← except_client_error (s3 (HeadObject object_key))
               (bad_request "Uploaded object was not found in storage");
  Ret {| m_size_bytes := fst response; m_content_type := base_content_type (snd response) |}.

Definition file_too_large : exn := raised PayloadTooLargeError "File too large".

(** [response["Body"].read(max_bytes + 1)] of the whole object. *)
Definition download_object_body (object_key : string) (max_bytes : Z) : prog string :=
  content ← except_client_error (s3 (GetObject object_key))
              (bad_request "Uploaded object could not be verified");
  let body := sprefix (Z.to_nat (max_bytes + 1)) content in
  if max_bytes <? slen body then Raise file_too_large else Ret body.

Definition presigned (r : result exn string) : prog PresignedUrl :=
  u ← of_result r;
  Ret {| url := u; expires_in_seconds := upload_presigned_url_expire_seconds s |}.

Definition generate_presigned_download_url (object_key : string) : prog PresignedUrl :=
  presigned (presign "get_object" object_key None).
Definition generate_presigned_upload_url (object_key content_type : string) : prog PresignedUrl :=
  presigned (presign "put_object" object_key (Some content_type)).

Definition verify_bucket_access : prog unit :=
  except_boto_errors (s3 HeadBucket)
    (raised ServiceUnavailableError "Object storage bucket is not reachable").

(** ** Reading a body *)

(** The file of an upload: its name, its declared type, its bytes. *)
Record UploadFile := {
  uf_filename : option string;
  uf_content_type : option string;
  uf_body : string;
}.

(** The loop of [spool_upload_stream_limited] on the bytes that are left; [fuel]
    bounds the chunks and [None] is running out of it. *)
Fixpoint spool_loop (fuel : nat) (left : list ascii) (total_size : Z) (spool : list ascii) :
    option (result exn (list ascii * Z)) :=
  match fuel with
  | O => None
  | S fuel' =>
      let chunk := take (Z.to_nat (upload_stream_chunk_size_bytes s)) left in
      match chunk with
      | [] => Some (Ok (spool, total_size))
      | _ =>
          let total_size := total_size + Z.of_nat (length chunk) in
          if upload_max_size_bytes s <? total_size then Some (Err file_too_large)
          else spool_loop fuel' (drop (Z.to_nat (upload_stream_chunk_size_bytes s)) left)
                 total_size (spool ++ chunk)
      end
  end.

(** One round per byte and one more is enough: see [spool_upload_spec]. *)
Definition spool_upload_stream_limited (file : UploadFile) : result exn (string * Z) :=
  match spool_loop (S (length (chars (uf_body file)))) (chars (uf_body file)) 0 [] with
  | Some (Ok (spool, total_size)) => Ok (text spool, total_size)
  | Some (Err e) => Err e
  | None => Err (TypeError "out of fuel")
  end.

Definition read_upload_body_limited (file : UploadFile) : result exn string :=
  match spool_upload_stream_limited file with Ok (spool, _) => Ok spool | Err e => Err e end.

Definition validate_file_size (size_bytes : Z) : result exn unit :=
  if upload_max_size_bytes s <? size_bytes then Err file_too_large else Ok tt.

(** ** Object keys *)

Definition uuid7_hex : prog string := u ← uuid7; Ret (replace_char "-" "" u).

Definition object_key_prefix (tenant_id owner_id : Z) : string :=
  (build_tenant_object_key_prefix tenant_id ++ "/uploads/" ++ str_of_int owner_id ++ "/")%string.

Definition build_object_key (tenant_id owner_id : Z) (filename : string) : prog string :=
  let safe_filename := replace_char "\" "_" (replace_char "/" "_" filename) in
  u ← uuid7_hex;
  Ret (object_key_prefix tenant_id owner_id ++ u ++ "-" ++ safe_filename)%string.

Definition ensure_object_key_belongs_to_owner (object_key : string) (owner : User) :
    result exn unit :=
  if negb (startswith object_key (object_key_prefix (u_tenant_id owner) (u_id owner)))
  then Err (bad_request "Invalid object key for current user") else Ok tt.

(** ** Verification of a stored object *)

Definition assert_stored_metadata_matches (metadata : StoredObjectMetadata)
    (declared_content_type : string) (declared_size_bytes : Z) : result exn unit :=
  if negb (m_size_bytes metadata =? declared_size_bytes) then
    Err (bad_request "Uploaded object size does not match declared size")
  else if negb (String.eqb (m_content_type metadata) declared_content_type) then
    Err (bad_request "Uploaded object content type does not match declared content type")
  else Ok tt.

Definition verify_stored_object_metadata (object_key declared_content_type : string)
    (declared_size_bytes : Z) : prog StoredObjectMetadata :=
  metadata ← get_object_metadata object_key;
  _ ← of_result (assert_stored_metadata_matches metadata declared_content_type declared_size_bytes);
  Ret metadata.

Definition verify_stored_object_content (object_key declared_content_type : string)
    (declared_size_bytes : Z) (filename : string) : prog unit :=
  metadata ← get_object_metadata object_key;
  _ ← of_result (assert_stored_metadata_matches metadata declared_content_type declared_size_bytes);
  body ← download_object_body object_key (m_size_bytes metadata);
  if negb (slen body =? m_size_bytes metadata) then
    Raise (bad_request "Uploaded object size could not be verified")
  else
    _ ← of_result (validate_content_sniff declared_content_type body);
    scan ← run_malware_scan body filename;
    of_result (ensure_malware_scan_is_clean scan).

(** The two wrappers kept for callers outside the application. *)
Definition scan_uploaded_file (body filename : string) : prog MalwareScanResult :=
  run_malware_scan body filename.
Definition verify_stored_object (object_key declared_content_type : string)
    (declared_size_bytes : Z) (filename : string) : prog unit :=
  verify_stored_object_content object_key declared_content_type declared_size_bytes filename.

(** ** Access *)

Definition get_uploaded_file (file_id tenant_id : Z) : prog (option UploadedFile) :=
  first TUploadedFile (λ f, (f_id f =? file_id) && (f_tenant_id f =? tenant_id)).

Definition can_access_uploaded_file (current_user : User) (uploaded_file : UploadedFile) : bool :=
  if negb (u_tenant_id current_user =? f_tenant_id uploaded_file) then false
  else if user_has_permission current_user FILES_DOWNLOAD then true
  else (f_owner_id uploaded_file =? u_id current_user) &&
       user_has_permission current_user FILES_DOWNLOAD_SELF.

Definition can_delete_uploaded_file (current_user : User) (uploaded_file : UploadedFile) : bool :=
  if negb (u_tenant_id current_user =? f_tenant_id uploaded_file) then false
  else if user_has_permission current_user FILES_DELETE then true
  else (f_owner_id uploaded_file =? u_id current_user) &&
       user_has_permission current_user FILES_DELETE_SELF.

Definition ensure_upload_is_downloadable (uploaded_file : UploadedFile) : result exn unit :=
  if String.eqb (f_verification_status uploaded_file) status_pending then
    Err (raised ConflictError "File verification is still in progress")
  else if negb (String.eqb (f_verification_status uploaded_file) status_verified) then
    Err (raised NotFoundError "File not found")
  else Ok tt.

(** ** [StorageService] *)

Definition new_uploaded_file (owner : User) (object_key filename content_type : string)
    (size_bytes : Z) (verification_status : string) (key created : Z) : UploadedFile :=
  {| f_id := key; f_tenant_id := u_tenant_id owner; f_owner_id := u_id owner;
     f_object_key := object_key; f_filename := filename; f_content_type := content_type;
     f_size_bytes := size_bytes; f_verification_status := verification_status;
     f_created_at := created |}.

(** [db.add(uploaded_file); db.commit(); db.refresh(uploaded_file)] *)
Definition store_file (mk : Z → Z → UploadedFile) : prog UploadedFile :=
  uploaded_file ← db (Add TUploadedFile mk);
  _ ← db Commit;
  db (Refresh TUploadedFile (f_id uploaded_file)).

(** [value or default] on an optional text. *)
Definition text_or (o : option string) (default : string) : string :=
  match o with Some t => if truthy t then t else default | None => default end.

Definition upload (owner : User) (file : UploadFile) : prog UploadedFile :=
  filename ← of_result (validate_upload_filename (text_or (uf_filename file) "upload"));
  content_type ← of_result (validate_declared_content_type
    (Some (text_or (uf_content_type file) "application/octet-stream")));
  spooled ← of_result (spool_upload_stream_limited file);
  let '(spool, size_bytes) := spooled in
  _ ← of_result (validate_file_size size_bytes);
  _ ← of_result (validate_content_sniff content_type (sprefix 512 spool));
  scan ← run_malware_scan spool filename;
  _ ← of_result (ensure_malware_scan_is_clean scan);
  object_key ← build_object_key (u_tenant_id owner) (u_id owner) filename;
  _ ← except_boto_errors (upload_fileobj object_key spool content_type)
        (raised ServiceUnavailableError "Object storage upload failed");
  store_file (new_uploaded_file owner object_key filename content_type size_bytes status_verified).

Definition create_presigned_upload (owner : User) (filename content_type : string) :
    prog (string * PresignedUrl) :=
  safe_filename ← of_result (validate_upload_filename filename);
  normalized_content_type ← of_result (validate_declared_content_type (Some content_type));
  _ ← verify_bucket_access;
  object_key ← build_object_key (u_tenant_id owner) (u_id owner) safe_filename;
  presigned_url ← generate_presigned_upload_url object_key normalized_content_type;
  Ret (object_key, presigned_url).

Definition VERIFY_PRESIGNED_UPLOAD_JOB : string := "verify_presigned_upload".

Definition enqueue_verify_presigned_upload_job (uploaded_file_id : Z) : prog Job :=
  enqueue_job VERIFY_PRESIGNED_UPLOAD_JOB (JObj [("uploaded_file_id", JInt uploaded_file_id)])
    (worker_queue_name s).

Definition complete_presigned_upload (owner : User) (object_key filename content_type : string)
    (size_bytes : Z) : prog UploadedFile :=
  safe_filename ← of_result (validate_upload_filename filename);
  normalized_content_type ← of_result (validate_declared_content_type (Some content_type));
  _ ← of_result (validate_file_size size_bytes);
  _ ← of_result (ensure_object_key_belongs_to_owner object_key owner);
  _ ← verify_stored_object_metadata object_key normalized_content_type size_bytes;
  uploaded_file ← store_file (new_uploaded_file owner object_key safe_filename
                                normalized_content_type size_bytes status_pending);
  _ ← enqueue_verify_presigned_upload_job (f_id uploaded_file);
  Ret uploaded_file.

Definition insufficient_file_permissions : exn := raised ForbiddenError "Insufficient permissions".

Definition get_presigned_download_url (uploaded_file : UploadedFile) (current_user : User) :
    prog PresignedUrl :=
  if negb (can_access_uploaded_file current_user uploaded_file) then
    Raise insufficient_file_permissions
  else
    _ ← of_result (ensure_upload_is_downloadable uploaded_file);
    except_boto_errors (generate_presigned_download_url (f_object_key uploaded_file))
      (raised ServiceUnavailableError "Object storage download URL generation failed").

Definition delete_uploaded_file (uploaded_file : UploadedFile) (current_user : User) : prog unit :=
  if negb (can_delete_uploaded_file current_user uploaded_file) then
    Raise insufficient_file_permissions
  else
    _ ← except_boto_errors (delete_object (f_object_key uploaded_file))
          (raised ServiceUnavailableError "Object storage delete failed");
    _ ← db (DeleteRow TUploadedFile (f_id uploaded_file));
    db Commit.

(** ** [upload_verification_service.py] *)

Definition set_verification_status (status : string) (f : UploadedFile) : UploadedFile :=
  {| f_id := f_id f; f_tenant_id := f_tenant_id f; f_owner_id := f_owner_id f;
     f_object_key := f_object_key f; f_filename := f_filename f;
     f_content_type := f_content_type f; f_size_bytes := f_size_bytes f;
     f_verification_status := status; f_created_at := f_created_at f |}.

(** [try: p except Exception: log], any exception. *)
Definition suppress (p : prog unit) : prog unit := catch p (λ _, Ret tt).

Definition verify_presigned_upload_in_worker (uploaded_file_id : Z) : prog unit :=
  uploaded_file ← first TUploadedFile (λ f, f_id f =? uploaded_file_id);
  match uploaded_file with
  | None => Ret tt
  | Some f =>
      if negb (String.eqb (f_verification_status f) status_pending) then Ret tt
      else
        verified ← catch
          (_ ← verify_stored_object_content (f_object_key f) (f_content_type f) (f_size_bytes f)
                 (f_filename f);
           Ret true)
          (λ e, if is_domain_error e then Ret false else Raise e);
        if (verified : bool) then
          _ ← db (SetRow TUploadedFile (f_id f)
                (λ r, Some (set_verification_status status_verified r)));
          db Commit
        else
          _ ← suppress (delete_object (f_object_key f));
          _ ← db (DeleteRow TUploadedFile (f_id f));
          db Commit
  end.

(** ** [routes/files.py] *)

Definition file_not_found : exn := HTTPException 404 "File not found" [].

(** [Depends(require_permission(Permission.FILES_UPLOAD))] *)
Definition uploader (current_user : User) : prog User :=
  of_result (require_permission [FILES_UPLOAD] current_user).

Definition upload_file (file : UploadFile) (current_user : User) : prog UploadedFile :=
  owner ← uploader current_user;
  upload owner file.

Definition create_presigned_upload_endpoint (filename content_type : string)
    (current_user : User) : prog (string * PresignedUrl) :=
  owner ← uploader current_user;
  create_presigned_upload owner filename content_type.

Definition complete_presigned_upload_endpoint (object_key filename content_type : string)
    (size_bytes : Z) (current_user : User) : prog UploadedFile :=
  owner ← uploader current_user;
  complete_presigned_upload owner object_key filename content_type size_bytes.

Definition get_download_url (file_id : Z) (current_user : User) : prog PresignedUrl :=
  uploaded_file ← get_uploaded_file file_id (u_tenant_id current_user);
  match uploaded_file with
  | None => Raise file_not_found
  | Some f => get_presigned_download_url f current_user
  end.

Definition delete_file (file_id : Z) (current_user : User) : prog unit :=
  uploaded_file ← get_uploaded_file file_id (u_tenant_id current_user);
  match uploaded_file with
  | None => Raise file_not_found
  | Some f => delete_uploaded_file f current_user
  end.
End storage.
