(* ===== verification/StorageSafety.v ===== *)
(** * What the upload code guarantees

    A pending file becomes downloadable only after the stored object was checked
    and scanned; a direct upload never leaves a row without its object; only
    verified files of one's own tenant are handed out; the keys of two owners
    never mix; the size limit bounds what is read. *)

From Stdlib Require Import ZArith Ascii String Lia.
From stdpp Require Import base tactics option list gmap strings.
From S2P Require Import Prelude PyText Json Errors Config Models Permissions Services Programs.
From S2P Require Import DbFacts Reference Ids Tenants JobQueue UserMutations Storage.
Local Open Scope string_scope.
Local Open Scope list_scope.
Local Open Scope Z_scope.

(** ** Objects and scanners *)

Section outside.
Context `{Crypto} (faults : bool) (J : tables → gmap string s3_object → list post → Prop).

Lemma wpi_s3 {B} (c : s3_cmd B) Q w :
  stored J w →
  (∀ w1, advance w w1 → J (w_db w) (snd (s3_exec c (w_s3 w))) (w_posts w) ∧
     Q (fst (s3_exec c (w_s3 w))) (with_s3 (snd (s3_exec c (w_s3 w))) w1) ∧
     ∀ e, is_boto_error e = true → Q (Err e) w1 ∧ Q (Err e) (with_s3 (snd (s3_exec c (w_s3 w))) w1)) →
  wpi faults (stored J) (s3 c) Q w.
Proof.
  intros HJ HQ. apply wpi_call; [done|]. intros r w' (w1 & Hadv & Hcase).
  destruct (HQ _ Hadv) as (HJ' & HQ' & HE).
  destruct (advance_outside _ _ Hadv) as (Hd & Ho & Hp).
  assert (∀ r' w2, cmd_spec (S3 c) w1 r' w2 →
    r' = fst (s3_exec c (w_s3 w)) ∧ w2 = with_s3 (snd (s3_exec c (w_s3 w))) w1) as Hc.
  { intros r' w2. cbn. rewrite Ho. destruct (s3_exec _ _). by intros [= -> ->]. }
  destruct Hcase as [Hs|(_ & e & [m He] & -> & Hw')].
  - destruct (Hc _ _ Hs) as [-> ->]. split; [|done]. unfold stored. cbn. by rewrite Hd, Hp.
  - destruct (HE e) as [HE1 HE2]; [by destruct He as [->| ->]|].
    destruct Hw' as [->|[r' Hs]]; [split; [by eapply advance_stable|done]|].
    destruct (Hc _ _ Hs) as [_ ->]. split; [|done]. unfold stored. cbn. by rewrite Hd, Hp.
Qed.

(** A command that only reads the store. *)
Lemma wpi_s3_read {B} (c : s3_cmd B) Q w :
  (∀ o, snd (s3_exec c o) = o) → stored J w →
  (∀ w1, advance w w1 → Q (fst (s3_exec c (w_s3 w))) w1 ∧
     ∀ e, is_boto_error e = true → Q (Err e) w1) →
  wpi faults (stored J) (s3 c) Q w.
Proof.
  intros Hc HJ HQ. apply wpi_s3; [done|]. intros w1 Hadv. destruct (HQ _ Hadv) as [HQ' HE].
  assert (with_s3 (snd (s3_exec c (w_s3 w))) w1 = w1) as ->.
  { rewrite Hc. destruct (advance_outside _ _ Hadv) as (_ & <- & _). by destruct w1. }
  rewrite Hc. split_and!; [done..|]. auto.
Qed.

Lemma wpi_post url filename body Q w :
  stored J w →
  (∀ w1 m, advance w w1 → Q (Err (URLError m)) w1) →
  (∀ w1 reply, advance w w1 →
     let w' := with_posts (Post url filename body reply :: w_posts w) w1 in
     stored J w' ∧ Q (Ok reply) w' ∧ ∀ m, Q (Err (URLError m)) w') →
  wpi faults (stored J) (call (HttpPost url filename body)) Q w.
Proof.
  intros HJ HE HQ. apply wpi_call; [done|]. intros r w' (w1 & Hadv & Hcase).
  destruct (advance_outside _ _ Hadv) as (_ & _ & Hp).
  destruct Hcase as [(reply & -> & ->)|(_ & e & [m ->] & -> & [->|[r' (reply & _ & ->)]])].
  - rewrite Hp. by destruct (HQ w1 reply Hadv) as (? & ? & ?).
  - split; [by eapply advance_stable|by apply HE].
  - rewrite Hp. destruct (HQ w1 reply Hadv) as (? & ? & ?). auto.
Qed.
End outside.

(** ** The checks *)

(** What is stored is what was declared. *)
Definition object_ok (content_type : string) (size_bytes : Z) (o : s3_object) : Prop :=
  slen (o_body o) = size_bytes ∧ base_content_type (o_content_type o) = content_type ∧
  sniff_content_type (o_body o) = Some content_type.

(** The scanner that is configured passed the body: none, the one that looks at
    names, or an HTTP scanner that answered that it is clean. *)
Definition scanned (s : Settings) (body filename : string) (posts : list post) : Prop :=
  if negb (upload_malware_scan_enabled s) then True
  else if truthy (strip (upload_malware_scanner_url s)) then
    ∃ reply res, Post (strip (upload_malware_scanner_url s)) filename body reply ∈ posts ∧
      scan_reply reply = Ok res ∧ clean res = true
  else contains ".infected." (lower filename) = false.

Lemma scanned_later s body filename posts new :
  scanned s body filename posts → scanned s body filename (new ++ posts).
Proof.
  unfold scanned. repeat case_match; [done| |done].
  intros (reply & res & Hin & Hres). exists reply, res. split; [|done]. apply elem_of_app. by right.
Qed.

(** Nothing but time and more answered requests. *)
Definition looked (w w' : world) : Prop :=
  w_db w' = w_db w ∧ w_s3 w' = w_s3 w ∧ w_session w' = w_session w ∧
  ∃ new, w_posts w' = new ++ w_posts w.

Lemma looked_advance w w1 : advance w w1 → looked w w1.
Proof.
  intros Hadv. destruct (advance_outside _ _ Hadv) as (? & ? & ?).
  split_and!; [done..|by apply advance_session|by exists []].
Qed.
Lemma looked_trans w1 w2 w3 : looked w1 w2 → looked w2 w3 → looked w1 w3.
Proof.
  unfold looked. intros (Hd & Ho & Hs & n & Hn) (Hd' & Ho' & Hs' & m & Hm).
  split_and!; [congruence..|].
  exists (m ++ n). by rewrite Hm, Hn, app_assoc.
Qed.

Section checks.
Context `{Crypto} (faults : bool) (s : Settings).
Context (J : tables → gmap string s3_object → list post → Prop).
Context (Jposts : ∀ d o ps new, J d o ps → J d o (new ++ ps)).
Local Abbreviation wpJ := (wpi faults (stored J)).

Lemma wpi_run_malware_scan body filename w :
  stored J w →
  wpJ (run_malware_scan s body filename)
    (λ r w', looked w w' ∧ ∀ res, r = Ok res → clean res = true →
               scanned s body filename (w_posts w')) w.
Proof.
  intros HJ. unfold run_malware_scan, scanned.
  assert (looked w w) as Hrefl by (apply looked_advance; reflexivity).
  case_match; [by apply wpi_ret|]. case_match eqn:Hurl.
  - unfold http_scan. apply wpi_bind, wpi_catch, wpi_bind, wpi_post; [done| |].
    + intros w1 m Hadv. cbn. do 2 (split; [by eapply advance_stable|]).
      split; [by apply looked_advance|]. by intros res [= <-].
    + intros w1 reply Hadv w'. destruct (advance_outside _ _ Hadv) as (Hd & Ho & Hp).
      assert (stored J w') as HJ'.
      { unfold stored. cbn. rewrite Hd, Ho. by apply (Jposts _ _ _ [_]). }
      assert (looked w w') as Hl.
      { split_and!; cbn; [done..|by apply advance_session|by eexists [_]]. }
      split_and!; [done| |].
      * cbn. split; [done|]. apply wpi_of_result; [done|]. split; [done|]. intros res Hres Hclean.
        exists reply, res. split; [by left|done].
      * intros m. cbn. do 3 (split; [done|]). by intros res [= <-].
  - apply wpi_ret; [done|]. split; [done|]. intros res [= <-]. unfold infected_filename_scan.
    by case_match.
Qed.

(** [verify_stored_object_content] changes nothing, and passes only what is
    acceptable. *)
Lemma wpi_verify_content key content_type size filename w :
  stored J w →
  wpJ (verify_stored_object_content s key content_type size filename)
    (λ r w', looked w w' ∧ (r = Ok tt →
       ∃ o, w_s3 w !! key = Some o ∧ object_ok content_type size o ∧
            scanned s (o_body o) filename (w_posts w'))) w.
Proof.
  intros HJ. unfold verify_stored_object_content, get_object_metadata.
  apply wpi_bind, wpi_bind, wpi_catch, wpi_s3_read; [done..|]. intros w1 Hadv1.
  pose proof (looked_advance _ _ Hadv1) as Hl1. pose proof (advance_stable J _ _ Hadv1 HJ) as HJ1.
  split; [|by intros e He; case_match; cbn].
  cbn [s3_exec fst]. destruct (w_s3 w !! key) as [o|] eqn:Eo; [|done].
  apply wpi_ret; [done|]. cbn [fst snd m_size_bytes m_content_type].
  apply wpi_bind, wpi_of_result; [done|].
  unfold assert_stored_metadata_matches. cbn [m_size_bytes m_content_type].
  destruct (Z.eqb_spec (slen (o_body o)) size) as [Hsize|]; cbn [negb]; [|done].
  destruct (String.eqb_spec (base_content_type (o_content_type o)) content_type) as [Hct|];
    cbn [negb]; [|done].
  unfold download_object_body. apply wpi_bind, wpi_bind, wpi_catch, wpi_s3_read; [done..|].
  intros w2 Hadv2. assert (looked w w2) as Hl2 by (eapply looked_trans, looked_advance; done).
  pose proof (advance_stable J _ _ Hadv2 HJ1) as HJ2.
  split; [|by intros e He; case_match; cbn].
  cbn [s3_exec fst]. rewrite (advance_s3 _ _ Hadv1), Eo. cbv zeta.
  assert (sprefix (Z.to_nat (slen (o_body o) + 1)) (o_body o) = o_body o) as ->.
  { unfold sprefix, slen. rewrite take_ge by lia. apply text_chars. }
  rewrite Z.ltb_irrefl. apply wpi_ret; [done|]. rewrite Z.eqb_refl. cbn [negb].
  apply wpi_bind, wpi_of_result; [done|]. unfold validate_content_sniff.
  case_bool_decide as Hsniff; [|done].
  apply wpi_bind. eapply wpi_mono; [|by apply wpi_run_malware_scan].
  intros r w3 HJ3 [Hl3 Hscan]. assert (looked w w3) as Hl by by eapply looked_trans.
  destruct r as [res|e]; [|done]. unfold ensure_malware_scan_is_clean.
  destruct (clean res) eqn:Hclean; (apply wpi_of_result; [done|]); [|done].
  split; [done|]. intros _. exists o. split_and!; [done..|]. by apply (Hscan res).
Qed.
End checks.

(** ** The worker's verification *)

(** What became of a pending file: verified, if the object under its key is the
    declared one and the scanner passed it, or removed. *)
Definition decided (s : Settings) (id : Z) (d0 : tables) (d : tables)
    (objects : gmap string s3_object) (posts : list post) : Prop :=
  ∃ f, uploaded_files d0 !! id = Some f ∧ f_verification_status f = status_pending ∧
    ((d = set_table TUploadedFile
            (<[id := set_verification_status status_verified f]> (uploaded_files d0)) d0 ∧
      ∃ o, objects !! f_object_key f = Some o ∧ object_ok (f_content_type f) (f_size_bytes f) o ∧
           scanned s (o_body o) (f_filename f) posts) ∨
     d = set_table TUploadedFile (delete id (uploaded_files d0)) d0).

Section worker.
Context `{Crypto} (faults : bool) (s : Settings) (id : Z) (d0 : tables) (Hkeyed : keyed d0).

Definition undecided_or_decided (d : tables) (o : gmap string s3_object) (ps : list post) : Prop :=
  d = d0 ∨ decided s id d0 d o ps.
Local Abbreviation J := undecided_or_decided.

Lemma undecided_posts d o ps new : J d o ps → J d o (new ++ ps).
Proof.
  intros [->|(f & Hf & Hp & [[-> (ob & Hob & Hok & Hscan)]|Hd])]; [by left| |];
    right; exists f; do 2 (split; [done|]); [left|by right].
  split; [done|]. exists ob. split_and!; [done..|by apply scanned_later].
Qed.

Lemma undecided w : w_db w = d0 → stored J w.
Proof. by left. Qed.

(** The commit of a single write of the session. *)
Lemma seen_commit_one wr (Q : unit → world → Prop) w :
  w_db w = d0 → all_writes (w_session w) = [wr] →
  (∀ d, wr d0 = Some d → ∀ w', w_db w' = d → w_s3 w' = w_s3 w → w_posts w' = w_posts w →
     stored J w' ∧ Q tt w') →
  wpi faults (stored J) (db Commit) (on_ok Q) w.
Proof.
  intros Hd Hs HQ. apply (wpi_commit_writes _ _ _ _ d0 [wr]); [by apply undecided|done..|].
  intros d Hwr _ w' Hd' Ho Hp _. by apply (HQ d).
Qed.

(** The row of a file that failed its verification goes, whatever happens to its
    object. *)
Local Abbreviation all_decided w' :=
  (∀ f, uploaded_files d0 !! id = Some f → f_verification_status f = status_pending →
   decided s id d0 (w_db w') (w_s3 w') (w_posts w')).

Lemma seen_drop_pending f w :
  uploaded_files d0 !! id = Some f → f_verification_status f = status_pending →
  w_db w = d0 → w_session w = empty_session →
  wpi faults (stored J) (_ ← db (DeleteRow TUploadedFile id); db Commit) (on_ok (λ _ w', all_decided w')) w.
Proof.
  intros Hk Hp Hd Hs. apply wpi_bind_ok, wpi_delete_row; [by apply undecided|].
  intros w5 (Hd5 & _ & _ & Hs5). apply (seen_commit_one (drop_row TUploadedFile id)).
  - congruence.
  - by rewrite Hs5, Hs.
  - intros d [= <-] w6 Hd6 _ _. unfold stored, J. rewrite Hd6.
    assert (∀ o ps, decided s id d0 (delete_row TUploadedFile id d0) o ps) as Hdone
      by (intros o ps; exists f; do 2 (split; [done|]); by right).
    split; [by right|]. intros; apply Hdone.
Qed.

Lemma seen_remove_pending f w :
  uploaded_files d0 !! id = Some f → f_verification_status f = status_pending →
  w_db w = d0 → w_session w = empty_session →
  wpi faults (stored J)
    (_ ← suppress (s3 (DeleteObject (f_object_key f)));
     _ ← db (DeleteRow TUploadedFile id);
     db Commit) (on_ok (λ _ w', all_decided w')) w.
Proof.
  intros Hk Hp Hd Hs. apply wpi_bind_ok, wpi_catch, wpi_s3; [by apply undecided|]. intros w3 Hadv3.
  destruct (looked_advance _ _ Hadv3) as (Hd3 & Ho3 & Hs3 & _).
  split; [left; congruence|]. split.
  - apply (seen_drop_pending f); cbn; congruence.
  - intros e He. split; (split; [left; cbn; congruence|]); apply (seen_drop_pending f); cbn; congruence.
Qed.

Lemma seen_verify w :
  w_db w = d0 → w_session w = empty_session →
  wpi faults (stored J) (verify_presigned_upload_in_worker s id)
    (on_ok (λ _ w', all_decided w')) w.
Proof.
  intros Hd Hs. unfold verify_presigned_upload_in_worker.
  apply wpi_bind_ok, (wpi_first _ _ _ _ _ _ d0); [by apply undecided|by rewrite Hs, Hd|].
  intros w1 o Hadv Ho. destruct (looked_advance _ _ Hadv) as (Hd1 & Ho1 & Hs1 & _).
  rewrite Hd in Hd1. rewrite Hs in Hs1. pose proof (undecided w1 Hd1) as HJ1.
  destruct Hkeyed as (_ & _ & _ & _ & _ & _ & Hfiles & _).
  destruct o as [f|].
  2:{ apply wpi_ret; [done|]. intros f Hf. specialize (Ho _ _ Hf). cbn in Ho.
      pose proof (Hfiles _ _ Hf) as E. cbn in E. rewrite E, Z.eqb_refl in Ho. done. }
  destruct Ho as [[k Hk] Hid]. apply Z.eqb_eq in Hid.
  pose proof (Hfiles _ _ Hk) as E. cbn in E. assert (k = id) as -> by congruence.
  cbn [get_table] in Hk.
  destruct (String.eqb_spec (f_verification_status f) status_pending) as [Hp|Hp]; cbn [negb].
  2:{ apply wpi_ret; [done|]. intros f' Hf' Hp'. congruence. }
  apply wpi_bind_ok, wpi_catch, wpi_bind.
  eapply wpi_mono; [|apply (wpi_verify_content faults s J undecided_posts); done].
  intros r w2 HJ2 [(Hd2 & Ho2 & Hs2 & _) Hchecked]. rewrite Hd1 in Hd2. rewrite Hs1 in Hs2.
  rewrite Hid.
  destruct r as [[]|e]; cbn [wpi].
  - split; [done|]. cbn [on_ok]. destruct (Hchecked eq_refl) as (o & Hob & Hok & Hscan).
    rewrite Ho1 in Hob.
    apply wpi_bind_ok, wpi_set_row; [by apply undecided|].
    intros w3 (Hd3 & Ho3 & Hp3 & Hs3).
    eapply (seen_commit_one (set_row TUploadedFile id
      (λ r, Some (set_verification_status status_verified r)))).
    + congruence.
    + by rewrite Hs3, Hs2.
    + intros d Hset w4 Hd4 Ho4 Hp4. unfold set_row in Hset. cbn [get_table] in Hset.
      rewrite Hk in Hset. injection Hset as Hset.
      assert (decided s id d0 (w_db w4) (w_s3 w4) (w_posts w4)) as Hdone.
      { exists f. do 2 (split; [done|]). left. split; [by rewrite Hd4, <- Hset|].
        exists o. rewrite Ho4, Ho3, Ho2, Ho1, Hp4, Hp3. done. }
      split; [by right|done].
  - destruct (is_domain_error e); [|done]. apply wpi_ret; [done|]. cbn [on_ok].
    apply (seen_remove_pending f); [done..| |]; congruence.
Qed.
End worker.

(** C21: a pending upload is only ever made downloadable after it was checked.
    Whatever fails, at every moment of [verify_presigned_upload_in_worker] the
    tables are the ones before, or the pending row is verified and the object
    under its key has the declared size, the declared type and the bytes of that
    type, and the configured scanner passed exactly these bytes, or the row is
    gone; and a run that ends normally has decided. *)
Theorem upload_verified_only_if_checked `{ServicesSpec faults W} (s : Settings) (id : Z) (w : W) :
  let p := in_session (verify_presigned_upload_in_worker s id) in
  let d0 := w_db (view w) in
  keyed d0 → w_session (view w) = empty_session →
  Forall (λ w', let v := view w' in
            w_db v = d0 ∨ decided s id d0 (w_db v) (w_s3 v) (w_posts v)) (trace p w) ∧
  (fst (run p w) = Ok tt → ∀ f, uploaded_files d0 !! id = Some f →
     f_verification_status f = status_pending →
     let v := view (snd (run p w)) in decided s id d0 (w_db v) (w_s3 v) (w_posts v)).
Proof.
  intros p d0 Hk Hs.
  destruct (wpi_trace (stored (undecided_or_decided s id d0)) p
    (on_ok (λ _ w', (∀ f, uploaded_files d0 !! id = Some f →
       f_verification_status f = status_pending →
       decided s id d0 (w_db w') (w_s3 w') (w_posts w')))) w) as [Hall Hend].
  - apply wpi_in_session. eapply wpi_mono_ok; [|by apply seen_verify].
    intros [] w' _ Hdone w'' -> -> ->. exact Hdone.
  - split; [exact Hall|]. intros Hr. by rewrite Hr in Hend.
Qed.

(** A pending file in the small world, its object, and a scanner behind a URL. *)
Definition pending_file : UploadedFile :=
  {| f_id := 7; f_tenant_id := 1; f_owner_id := 2; f_object_key := "tenants/1/uploads/2/a-x.pdf";
     f_filename := "x.pdf"; f_content_type := "application/pdf"; f_size_bytes := 8;
     f_verification_status := status_pending; f_created_at := 0 |}.
Definition pending_world : world :=
  with_s3 {["tenants/1/uploads/2/a-x.pdf" := S3Object "%PDF-1.4" "Application/PDF; x=1"]}
    (with_db (set_table TUploadedFile {[7 := pending_file]} (w_db two_users)) empty_session
       (world_at 1000)).

Lemma upload_verified_only_if_checked_witness :
  let w' := snd (run (in_session (verify_presigned_upload_in_worker production_example 7))
                     pending_world) in
  decided production_example 7 (w_db pending_world) (w_db w') (w_s3 w') (w_posts w') ∧
  f_verification_status <$> uploaded_files (w_db w') !! 7 = Some status_verified ∧
  length (w_posts w') = 1%nat.
Proof.
  split; [|split; vm_compute; reflexivity].
  refine (proj2 (upload_verified_only_if_checked (faults:=false) (W:=world) production_example 7
    pending_world _ _) _ pending_file _ _).
  - apply (bool_decide_unpack _). vm_compute. exact I.
  - reflexivity.
  - vm_compute. reflexivity.
  - vm_compute. reflexivity.
  - reflexivity.
Defined.

(** ** Downloads *)

(** C22: a download URL is only made for a file of the tenant of the user that is
    verified and that the user may read: an administrator any of the tenant, a
    user one's own. *)
Theorem download_only_verified `{ServicesSpec faults W} (s : Settings) presign
    (file_id : Z) (me : User) (w : W) (u : PresignedUrl) :
  w_session (view w) = empty_session →
  fst (run (get_download_url s presign file_id me) w) = Ok u →
  ∃ k f, uploaded_files (w_db (view w)) !! k = Some f ∧ f_id f = file_id ∧
    f_tenant_id f = u_tenant_id me ∧ f_verification_status f = status_verified ∧
    (u_role me = "admin" ∨ u_role me = "platform_admin" ∨
     u_role me = "user" ∧ f_owner_id f = u_id me) ∧
    presign "get_object" (f_object_key f) None = Ok (url u).
Proof.
  intros Hs Hrun. set (Q := λ u (_ : world),
    ∃ k f, uploaded_files (w_db (view w)) !! k = Some f ∧ f_id f = file_id ∧
      f_tenant_id f = u_tenant_id me ∧ f_verification_status f = status_verified ∧
      (u_role me = "admin" ∨ u_role me = "platform_admin" ∨
       u_role me = "user" ∧ f_owner_id f = u_id me) ∧
      presign "get_object" (f_object_key f) None = Ok (url u)).
  destruct (wpi_trace (stored (λ _ _ _, True)) (get_download_url s presign file_id me) (on_ok Q) w)
    as [_ Hr]; [|by rewrite Hrun in Hr].
  unfold get_download_url. apply wpi_bind_ok, (wpi_first _ _ _ _ _ _ (w_db (view w)));
    [done|by rewrite Hs|].
  intros w1 [f|] Hadv Hf; [|done]. destruct Hf as [[k Hk] [Hid Ht]%andb_prop].
  apply Z.eqb_eq in Hid, Ht. unfold get_presigned_download_url.
  destruct (can_access_uploaded_file me f) eqn:Hacc; cbn [negb]; [|done].
  apply wpi_bind_ok, wpi_of_result; [done|]. unfold ensure_upload_is_downloadable.
  destruct (String.eqb (f_verification_status f) status_pending) eqn:E; [done|].
  destruct (String.eqb_spec (f_verification_status f) status_verified) as [Hv|]; cbn [negb on_ok]; [|done].
  apply wpi_catch. unfold generate_presigned_download_url, presigned. apply wpi_bind, wpi_of_result; [done|].
  destruct (presign "get_object" (f_object_key f) None) as [t|e] eqn:Ep; [|by case_match].
  apply wpi_ret; [done|]. cbn [on_ok]. exists k, f. split_and!; [done..| |done].
  unfold can_access_uploaded_file in Hacc. rewrite Ht, Z.eqb_refl in Hacc. cbn [negb] in Hacc.
  destruct (role_cases (u_role me)) as [Hr|[Hr|[Hr|[Hr _]]]]; rewrite ?Hr; auto.
  - right; right. split; [done|].
    case_match eqn:Hperm; [|by apply andb_prop in Hacc as [?%Z.eqb_eq _]].
    apply user_has_permission_spec in Hperm. rewrite Hr in Hperm.
    exfalso. revert Hperm. apply (bool_decide_unpack _). vm_compute. exact I.
  - exfalso. case_match eqn:Hperm.
    + apply user_has_permission_spec in Hperm. by apply (no_role _ _ Hr) in Hperm.
    + apply andb_prop in Hacc as [_ Hself%user_has_permission_spec]. by apply (no_role _ _ Hr) in Hself.
Qed.

Definition plain_url (method key : string) (content_type : option string) : result exn string :=
  Ok ("https://s3/" ++ key)%string.

Definition verified_world : world :=
  with_db (set_table TUploadedFile {[7 := set_verification_status status_verified pending_file]}
             (w_db two_users)) empty_session (world_at 1000).

Lemma download_only_verified_witness :
  ∃ k f, uploaded_files (w_db verified_world) !! k = Some f ∧ f_id f = 7 ∧
    f_tenant_id f = u_tenant_id a_user ∧ f_verification_status f = status_verified ∧
    (u_role a_user = "admin" ∨ u_role a_user = "platform_admin" ∨
     u_role a_user = "user" ∧ f_owner_id f = u_id a_user) ∧
    plain_url "get_object" (f_object_key f) None = Ok "https://s3/tenants/1/uploads/2/a-x.pdf".
Proof.
  refine (download_only_verified (faults:=false) (W:=world) production_example plain_url 7 a_user
    verified_world {| url := "https://s3/tenants/1/uploads/2/a-x.pdf"; expires_in_seconds := 300 |}
    _ _).
  - reflexivity.
  - vm_compute. reflexivity.
Defined.

(** ** Object keys *)

(** A decimal number followed by a slash can be read back. *)
Lemma number_slash_inj (a b : Z) l1 l2 :
  print_int a ++ "/"%char :: l1 = print_int b ++ "/"%char :: l2 → a = b ∧ l1 = l2.
Proof.
  assert (∀ z, "/"%char ∉ print_int z) as Hno.
  { intros z Hin.
    assert (∀ d, "/"%char ∉ print_uint d) as Hd.
    { induction d; cbn [print_uint]; [apply not_elem_of_nil|..];
        (apply not_elem_of_cons; split; [done|exact IHd]). }
    unfold print_int in Hin. destruct (Z.to_int z) as [d|d]; [by apply Hd in Hin|].
    apply elem_of_cons in Hin as [?|Hin]; [done|by apply Hd in Hin]. }
  assert (∀ (c : ascii) p q l1 l2, c ∉ p → c ∉ q → p ++ c :: l1 = q ++ c :: l2 → p = q ∧ l1 = l2) as Hsplit.
  { clear. intros c p. induction p as [|x p IH]; intros [|y q] l1 l2 Hp Hq E; cbn in E.
    - by injection E.
    - injection E as <- _. destruct Hq. by left.
    - injection E as -> _. destruct Hp. by left.
    - injection E as -> E. apply not_elem_of_cons in Hp as [_ Hp], Hq as [_ Hq].
      by destruct (IH _ _ _ Hp Hq E) as [-> ->]. }
  intros E. apply Hsplit in E as [E ->]; [|done..]. split; [|done].
  apply str_of_int_inj, chars_inj. by rewrite !chars_str_of_int.
Qed.

Lemma chars_object_key_prefix t o :
  chars (object_key_prefix t o) =
    chars "tenants/" ++ print_int t ++ "/"%char :: chars "uploads/" ++ print_int o ++ ["/"%char].
Proof.
  unfold object_key_prefix, build_tenant_object_key_prefix.
  rewrite !chars_app, !chars_str_of_int. rewrite <- !app_assoc. done.
Qed.

(** The prefixes of two owners never contain one another. *)
Lemma object_key_prefix_free t o t' o' rest :
  startswith (object_key_prefix t o ++ rest) (object_key_prefix t' o') = true ↔ t' = t ∧ o' = o.
Proof.
  rewrite startswith_spec. split.
  - intros [k E]. apply (f_equal chars) in E. rewrite !chars_app, !chars_object_key_prefix in E.
    rewrite <- !app_assoc in E. apply app_inv_head in E. rewrite <- !app_comm_cons in E.
    apply number_slash_inj in E as [-> E]. rewrite <- !app_assoc in E. apply app_inv_head in E.
    cbn [app] in E. apply number_slash_inj in E as [-> _]. done.
  - intros [-> ->]. by exists rest.
Qed.

(** What [replace_char] leaves. *)
Lemma elem_of_replace_char c d r s :
  d ∈ chars (replace_char c r s) → d ∈ chars r ∨ d ∈ chars s ∧ d ≠ c.
Proof.
  unfold replace_char. rewrite chars_text. intros (x & Hx & Hin)%list_elem_of_bind.
  revert Hx. destruct (Ascii.eqb_spec x c) as [->|Hne]; [by left|].
  intros ->%list_elem_of_singleton. by right.
Qed.

(** The keys of uploads are owned.  A key [build_object_key] makes for one
    owner is accepted for that user of that tenant and refused for anybody else,
    and whatever the filename, it has no slash after the owner's prefix. *)
Theorem object_keys_owned `{ServicesSpec false W} (t o : Z) (filename : string) (w : W) (owner : User) :
  ∃ key, fst (run (build_object_key t o filename) w) = Ok key ∧
    (ensure_object_key_belongs_to_owner key owner = Ok tt ↔
     u_tenant_id owner = t ∧ u_id owner = o) ∧
    ∃ name, key = (object_key_prefix t o ++ name)%string ∧ "/"%char ∉ chars name.
Proof.
  destruct (wp_run (build_object_key t o filename) (λ r _, ∃ key, r = Ok key ∧
    ∃ name, key = (object_key_prefix t o ++ name)%string ∧ "/"%char ∉ chars name) w)
    as (key & Hkey & name & -> & Hname).
  - unfold build_object_key, uuid7_hex. apply wp_bind, wp_bind, wp_uuid7.
    intros n w1 Hn _. cbn [wp]. eexists. split; [done|]. eexists. split; [reflexivity|].
    rewrite !chars_app, !elem_of_app.
    intros [Hin|[Hin|Hin]].
    + apply elem_of_replace_char in Hin as [Hin|[Hin _]]; [by apply elem_of_nil in Hin|].
      by apply uuid_str_no_slash in Hin.
    + by apply list_elem_of_singleton in Hin.
    + apply elem_of_replace_char in Hin as [?%list_elem_of_singleton|[Hin _]]; [done|].
      by apply elem_of_replace_char in Hin as [?%list_elem_of_singleton|[_ ?]].
  - exists (object_key_prefix t o ++ name)%string. split; [done|]. split; [|by exists name].
    unfold ensure_object_key_belongs_to_owner.
    destruct (startswith _ _) eqn:E; cbn [negb].
    + by apply object_key_prefix_free in E.
    + split; [done|]. intros [<- <-]. exfalso. apply not_true_iff_false in E. apply E.
      by apply object_key_prefix_free.
Qed.

Lemma object_keys_owned_witness :
  ∃ key, fst (run (build_object_key 1 2 "../../tenants/2/uploads/1/x.pdf") (world_at 1000)) = Ok key ∧
    (ensure_object_key_belongs_to_owner key a_user = Ok tt ↔
     u_tenant_id a_user = 1 ∧ u_id a_user = 2) ∧
    ∃ name, key = (object_key_prefix 1 2 ++ name)%string ∧ "/"%char ∉ chars name.
Proof. exact (object_keys_owned (W:=world) 1 2 _ (world_at 1000) a_user). Defined.

(** ** Reading a body *)

(** The loop with enough fuel: what is read and the length are everything, or the
    limit is passed. *)
Lemma spool_loop_spec (s : Settings) fuel left total spool :
  0 < upload_stream_chunk_size_bytes s → total <= upload_max_size_bytes s →
  (length left < fuel)%nat →
  spool_loop s fuel left total spool =
    Some (if upload_max_size_bytes s <? total + Z.of_nat (length left) then Err file_too_large
          else Ok (spool ++ left, total + Z.of_nat (length left))).
Proof.
  intros Hchunk. revert left total spool. induction fuel as [|fuel IH]; intros left total spool Ht Hf;
    [lia|]. cbn [spool_loop]. cbv zeta. set (n := Z.to_nat (upload_stream_chunk_size_bytes s)).
  assert (1 <= n)%nat as Hn by lia.
  destruct left as [|c left].
  - rewrite take_nil. cbn [length]. rewrite app_nil_r, Z.add_0_r.
    by destruct (Z.ltb_spec (upload_max_size_bytes s) total); [lia|].
  - assert (Z.of_nat (length (c :: left)) =
      Z.of_nat (length (take n (c :: left))) + Z.of_nat (length (drop n (c :: left)))) as Hlen
      by (rewrite <- Nat2Z.inj_add, <- length_app, take_drop; done).
    destruct (take n (c :: left)) as [|x chunk] eqn:Echunk.
    { apply (f_equal length) in Echunk. rewrite length_take in Echunk. cbn in Echunk. lia. }
    rewrite <- Echunk in *.
    destruct (Z.ltb_spec (upload_max_size_bytes s)
                (total + Z.of_nat (length (take n (c :: left))))) as [Hlt|Hle].
    + by destruct (Z.ltb_spec (upload_max_size_bytes s) (total + Z.of_nat (length (c :: left)))); [|lia].
    + rewrite IH; [|done|]. 2:{ rewrite length_drop. cbn [length] in *. lia. }
      rewrite <- app_assoc, take_drop, <- Z.add_assoc, <- Hlen. done.
Qed.

(** C24: reading an upload in chunks gives the whole body and its length when the
    body is within the limit, and is refused exactly when it is not, whatever the
    size of the chunks. *)
Theorem spool_upload_spec (s : Settings) (file : UploadFile) :
  0 < upload_stream_chunk_size_bytes s → 0 <= upload_max_size_bytes s →
  spool_upload_stream_limited s file =
    if upload_max_size_bytes s <? slen (uf_body file) then Err file_too_large
    else Ok (uf_body file, slen (uf_body file)).
Proof.
  intros Hchunk Hmax. unfold spool_upload_stream_limited.
  rewrite spool_loop_spec by (done || lia). fold (slen (uf_body file)). rewrite Z.add_0_l.
  destruct (upload_max_size_bytes s <? slen (uf_body file)); [done|]. by rewrite app_nil_l, text_chars.
Qed.

Lemma spool_upload_spec_witness :
  upload_max_size_bytes production_example = 5242880 ∧
  spool_upload_stream_limited production_example (Build_UploadFile None None "%PDF-1.4") =
    if upload_max_size_bytes production_example <? 8 then Err file_too_large
    else Ok ("%PDF-1.4", 8).
Proof.
  split; [reflexivity|].
  refine (spool_upload_spec production_example (Build_UploadFile None None "%PDF-1.4") _ _);
    vm_compute; congruence.
Defined.

(** ** Direct uploads *)

(** The first 512 bytes decide the type. *)
Lemma prefix_chars_take p l n : (length p <= n)%nat → prefix_chars p (take n l) = prefix_chars p l.
Proof.
  revert l n. induction p as [|c p IH]; intros l n Hn; [done|]. cbn [length] in Hn.
  destruct n as [|n]; [lia|]. destruct l as [|d l]; [done|]. cbn. rewrite IH by lia. done.
Qed.

Lemma sniff_prefix body n : (8 <= n)%nat → sniff_content_type (sprefix n body) = sniff_content_type body.
Proof.
  intros Hn. unfold sniff_content_type, sprefix, startswith.
  cbn [CONTENT_SIGNATURES List.find existsb]. rewrite !chars_text.
  rewrite !prefix_chars_take; [done|..]; (etrans; [|exact Hn]); vm_compute; lia.
Qed.

(** The row and the object of one direct upload are there. *)
Definition uploaded (s : Settings) (owner : User) (file : UploadFile) (d0 : tables) (f : UploadedFile)
    (d : tables) (objects : gmap string s3_object) (posts : list post) : Prop :=
  (∃ key, uploaded_files d0 !! key = None ∧
     d = set_table TUploadedFile (<[key := f]> (uploaded_files d0)) d0) ∧
  f_verification_status f = status_verified ∧
  f_tenant_id f = u_tenant_id owner ∧ f_owner_id f = u_id owner ∧
  f_size_bytes f = slen (uf_body file) ∧ f_size_bytes f <= upload_max_size_bytes s ∧
  f_content_type f ∈ allowed_content_types s ∧
  sniff_content_type (uf_body file) = Some (f_content_type f) ∧
  objects !! f_object_key f = Some (S3Object (uf_body file) (f_content_type f)) ∧
  scanned s (uf_body file) (f_filename f) posts.

Lemma uploaded_posts s owner file d0 f d o ps new :
  uploaded s owner file d0 f d o ps → uploaded s owner file d0 f d o (new ++ ps).
Proof. intros (? & ? & ? & ? & ? & ? & ? & ? & ? & ?). split_and!; [done..|by apply scanned_later]. Qed.

Section direct.
Context `{Crypto} (faults : bool) (s : Settings) (owner : User) (file : UploadFile) (d0 : tables).
Context (Hchunk : 0 < upload_stream_chunk_size_bytes s) (Hmax : 0 <= upload_max_size_bytes s).

Definition none_or_uploaded (d : tables) (o : gmap string s3_object) (ps : list post) : Prop :=
  d = d0 ∨ ∃ f, uploaded s owner file d0 f d o ps.
Local Abbreviation J := none_or_uploaded.

Lemma none_or_uploaded_posts d o ps new : J d o ps → J d o (new ++ ps).
Proof. intros [->|[f Hf]]; [by left|]. right. exists f. by apply uploaded_posts. Qed.

Lemma away_build_object_key t o filename : keeps away (build_object_key t o filename).
Proof.
  unfold build_object_key, uuid7_hex, uuid7.
  repeat (apply keeps_bind; [|intros ?]); try (by apply keeps_call); done.
Qed.

(** The row is added once the object is there. *)
Lemma seen_store_file mk w :
  w_db w = d0 → w_session w = empty_session →
  (∀ key created, f_id (mk key created) = key) →
  (∀ key created, uploaded_files d0 !! key = None →
     uploaded s owner file d0 (mk key created)
       (set_table TUploadedFile (<[key := mk key created]> (uploaded_files d0)) d0)
       (w_s3 w) (w_posts w)) →
  wpi faults (stored J) (store_file mk)
    (on_ok (λ f w', uploaded s owner file d0 f (w_db w') (w_s3 w') (w_posts w'))) w.
Proof.
  intros Hd Hs Hid Hup. unfold store_file.
  apply wpi_bind_ok, wpi_add; [by left|]. intros key created w1 Hfresh (Hd1 & Ho1 & Hp1 & Hs1) _.
  rewrite Hs, Hd in Hfresh. specialize (Hfresh d0 eq_refl). cbn [get_table] in Hfresh.
  specialize (Hup key created Hfresh).
  assert (∀ w', w_db w' = d0 → J (w_db w') (w_s3 w') (w_posts w')) as Hnone by by left.
  eapply wpi_bind_ok, wpi_commit_writes; [apply Hnone; congruence|by rewrite Hd1|by rewrite Hs1, Hs|].
  intros d [= <-] _ w2 Hd2 Ho2 Hp2 Hs2.
  assert (uploaded s owner file d0 (mk key created) (w_db w2) (w_s3 w2) (w_posts w2)) as Hdone
    by (rewrite Hd2, Ho2, Ho1, Hp2, Hp1; exact Hup).
  assert (stored J w2) as HJ2 by by right; exists (mk key created).
  split; [exact HJ2|]. apply wpi_frame; [done..|]. intros w3 r w' Hadv [-> ->].
  rewrite (advance_db _ _ Hadv), (advance_session _ _ Hadv), Hs2, Hd2, Hid. cbn.
  rewrite lookup_insert_eq. cbn. destruct (advance_outside _ _ Hadv) as (-> & -> & ->). exact Hdone.
Qed.

Lemma seen_upload w :
  w_db w = d0 → w_session w = empty_session →
  wpi faults (stored J) (upload s owner file)
    (on_ok (λ f w', uploaded s owner file d0 f (w_db w') (w_s3 w') (w_posts w'))) w.
Proof.
  intros Hd Hs. assert (stored J w) as HJ by by left. unfold upload.
  apply wpi_bind_ok, wpi_of_result; [done|].
  destruct (validate_upload_filename _) as [filename|]; [cbn [on_ok]|done].
  apply wpi_bind_ok, wpi_of_result; [done|].
  destruct (validate_declared_content_type _ _) as [ct|] eqn:Ect; [cbn [on_ok]|done].
  unfold validate_declared_content_type in Ect.
  destruct (validate_content_type_format _); [|done]. case_bool_decide as Hallowed; [|done].
  injection Ect as ->.
  apply wpi_bind_ok, wpi_of_result; [done|]. rewrite spool_upload_spec by done.
  destruct (Z.ltb_spec (upload_max_size_bytes s) (slen (uf_body file))) as [|Hsize]; [done|cbn [on_ok]].
  apply wpi_bind_ok, wpi_of_result; [done|]. unfold validate_file_size.
  destruct (_ <? _); [done|cbn [on_ok]].
  apply wpi_bind_ok, wpi_of_result; [done|]. unfold validate_content_sniff.
  case_bool_decide as Hsniff; [cbn [on_ok]|done]. rewrite sniff_prefix in Hsniff by lia.
  apply wpi_bind_ok. eapply wpi_mono; [|apply (wpi_run_malware_scan faults s J none_or_uploaded_posts); done].
  intros [scan|] w1 HJ1 [(Hd1 & Ho1 & Hs1 & _) Hscan]; [cbn [on_ok]|done].
  apply wpi_bind_ok, wpi_of_result; [done|]. unfold ensure_malware_scan_is_clean.
  destruct (clean scan) eqn:Hclean; [cbn [on_ok]|done]. specialize (Hscan _ eq_refl Hclean).
  apply wpi_bind_ok, wpi_away; [apply away_build_object_key|done|].
  intros object_key w2 (Hd2 & Ho2 & Hp2 & Hs2).
  assert (w_db w2 = d0) as Hdw2 by congruence. assert (w_session w2 = empty_session) as Hsw2 by congruence.
  apply wpi_bind_ok. unfold except_boto_errors. apply wpi_catch, wpi_s3; [by left|].
  intros w3 Hadv3. destruct (looked_advance _ _ Hadv3) as (Hd3 & Ho3 & Hs3 & _).
  destruct (advance_outside _ _ Hadv3) as (_ & _ & Hp3).
  split; [by left|]. split.
  2:{ intros e He. rewrite He. split; (split; [left; cbn; congruence|done]). }
  cbn [s3_exec fst snd on_ok]. apply seen_store_file; [cbn; congruence..|done|].
  intros key created Hfresh. unfold uploaded. cbn. split; [by exists key|]. split_and!; try done.
  - by rewrite lookup_insert_eq.
  - by rewrite Hp3, Hp2.
Qed.
End direct.

(** C23: a direct upload never leaves a row without its object.  Whatever fails,
    at every moment of [upload] the tables are the ones before, or there is one
    new file, of the user and the user's tenant, verified, whose object holds
    exactly the bytes of the upload, which are within the limit, of an allowed
    type and clean for the configured scanner; and this is so when it returns. *)
Theorem upload_row_has_object `{ServicesSpec faults W} (s : Settings) (owner : User)
    (file : UploadFile) (w : W) :
  let p := in_session (upload s owner file) in
  let d0 := w_db (view w) in
  0 < upload_stream_chunk_size_bytes s → 0 <= upload_max_size_bytes s →
  w_session (view w) = empty_session →
  Forall (λ w', let v := view w' in w_db v = d0 ∨
            ∃ f, uploaded s owner file d0 f (w_db v) (w_s3 v) (w_posts v)) (trace p w) ∧
  (∀ f, fst (run p w) = Ok f →
     let v := view (snd (run p w)) in uploaded s owner file d0 f (w_db v) (w_s3 v) (w_posts v)).
Proof.
  intros p d0 Hchunk Hmax Hs.
  destruct (wpi_trace (stored (none_or_uploaded s owner file d0)) p
    (on_ok (λ f w', uploaded s owner file d0 f (w_db w') (w_s3 w') (w_posts w'))) w) as [Hall Hend].
  - apply wpi_in_session. eapply wpi_mono_ok; [|by apply seen_upload].
    intros f w' _ Hdone w'' -> -> ->. exact Hdone.
  - split; [exact Hall|]. intros f Hr. by rewrite Hr in Hend.
Qed.

Definition small_pdf : UploadFile :=
  {| uf_filename := Some " report.pdf"; uf_content_type := Some "application/pdf";
     uf_body := "%PDF-1.4" |}.

Lemma upload_row_has_object_witness :
  is_ok (fst (run (in_session (upload production_example a_user small_pdf)) two_users)) = true ∧
  ∀ f, fst (run (in_session (upload production_example a_user small_pdf)) two_users) = Ok f →
    let v := view (snd (run (in_session (upload production_example a_user small_pdf)) two_users)) in
    uploaded production_example a_user small_pdf (w_db (view two_users)) f
      (w_db v) (w_s3 v) (w_posts v).
Proof.
  split; [vm_compute; reflexivity|].
  exact (proj2 (upload_row_has_object (faults:=false) (W:=world) production_example a_user
    small_pdf two_users (eq_refl : 0 < upload_stream_chunk_size_bytes production_example)
    (bool_decide_unpack _ (I : bool_decide (0 <= upload_max_size_bytes production_example)))
    eq_refl)).
Defined.
