(* ===== verification/Health.v ===== *)
(** * Health checks

    [app/services/health_service.py], [app/schemas/health.py] and
    [app/api/routes/health.py]. *)

From Stdlib Require Import ZArith Ascii String Lia.
From stdpp Require Import base tactics option list gmap strings.
From S2P Require Import Prelude PyText Json Errors Config Models Services Programs Reference.
From S2P Require Import Http RateLimit Idempotency Metrics Storage.
Local Open Scope string_scope.
Local Open Scope list_scope.
Local Open Scope Z_scope.

(** [HealthState] *)
Definition ok : string := "ok".
Definition unavailable : string := "unavailable".

Record DependencyHealth := { dh_status : string; dh_message : option string }.
Record ReadinessHealth := { rh_status : string; rh_checks : list (string * DependencyHealth) }.

Definition is_ok (d : DependencyHealth) : bool := String.eqb (dh_status d) ok.

(** [model_dump(exclude_none=True)] *)
Definition dump_dependency (d : DependencyHealth) : json :=
  JObj (("status", JStr (dh_status d)) ::
        match dh_message d with Some m => [("message", JStr m)] | None => [] end).
Definition dump_readiness (h : ReadinessHealth) : json :=
  JObj [("status", JStr (rh_status h));
        ("checks", JObj (map (λ '(name, d), (name, dump_dependency d)) (rh_checks h)))].

Section health.
Context `{Crypto} (s : Settings).

(** [try: p except Exception: ...]: a dependency that is there when [p] returns. *)
Definition check (dependency message : string) (p : prog unit) : prog DependencyHealth :=
  available ← catch (_ ← p; Ret true) (λ _, Ret false);
  if (available : bool) then
    _ ← observe_dependency_check dependency ok;
    Ret {| dh_status := ok; dh_message := None |}
  else
    _ ← observe_dependency_check dependency unavailable;
    Ret {| dh_status := unavailable; dh_message := Some message |}.

Definition check_database : prog DependencyHealth :=
  check "database" "database unavailable" (db SelectOne).
Definition check_redis : prog DependencyHealth :=
  check "redis" "redis unavailable" (_ ← redis PING; Ret tt).
Definition check_s3 : prog DependencyHealth :=
  if negb (readiness_check_s3_enabled s) then
    Ret {| dh_status := ok; dh_message := Some "object storage check disabled" |}
  else check "object_storage" "object storage unavailable" verify_bucket_access.

Definition get_readiness : prog ReadinessHealth :=
  database ← check_database;
  redis_check ← check_redis;
  storage ← (if readiness_check_s3_enabled s
             then c ← check_s3; Ret [("object_storage", c)] else Ret []);
  let checks := [("database", database); ("redis", redis_check)] ++ storage in
  if existsb (λ '(_, d), negb (is_ok d)) checks
  then Ret {| rh_status := unavailable; rh_checks := checks |}
  else Ret {| rh_status := ok; rh_checks := checks |}.

(** ** The routes *)

Definition readiness_response (health : ReadinessHealth) : response :=
  json_response (if String.eqb (rh_status health) ok then 200 else 503) (dump_readiness health).

Definition health_status_ok : response := json_response 200 (JObj [("status", JStr ok)]).
Definition health_check : prog response := Ret health_status_ok.
Definition liveness_check : prog response := Ret health_status_ok.

Definition readiness_check : prog response :=
  in_session (health ← get_readiness; Ret (readiness_response health)).

(** The endpoint of one dependency. *)
Definition one_check (name : string) (p : prog DependencyHealth) : prog response :=
  d ← p; Ret (readiness_response {| rh_status := dh_status d; rh_checks := [(name, d)] |}).
Definition db_health_check : prog response := in_session (one_check "database" check_database).
Definition redis_health : prog response := one_check "redis" check_redis.
Definition s3_health : prog response := one_check "object_storage" check_s3.

(** [Depends(rate_limit())] *)
Definition limited_endpoint (rq : request) : prog response :=
  limiter ← of_result (rate_limit s None None "rate_limit");
  _ ← limiter rq;
  Ret (json_response 200 (JObj [("message", JStr ok)])).
End health.

(** ** What the checks tell *)

Section checks.
Context `{Crypto} (faults : bool) (s : Settings).

(** A check always answers; without failures of a command that succeeds it says
    that the dependency is there. *)
Lemma wp_check dependency message p (Q : result exn DependencyHealth → world → Prop) w :
  (faults = false → ∀ w, wp false p (λ r _, r = Ok tt) w) →
  (∀ d w', (faults = false → is_ok d = true) → Q (Ok d) w') →
  wp faults (check dependency message p) Q w.
Proof.
  intros Hp HQ. unfold check. apply wp_bind, wp_catch, wp_bind.
  assert (∀ st Q' w1, (∀ w', Q' (Ok tt) w') → wp faults (observe_dependency_check dependency st) Q' w1) as Hobs.
  { intros st Q' w1 HQ'. unfold observe_dependency_check, observe.
    apply wp_bind, wp_call. intros r w2 (w1' & _ & [[-> ->]|(_ & e & [] & _)]).
    apply wp_call. intros r w3 (w2' & _ & [[-> ->]|(_ & e & [] & _)]). apply HQ'. }
  assert (wp faults p (λ r _, faults = false → r = Ok tt) w) as Hres.
  { destruct faults; [|eapply wp_mono; [|by apply Hp]; auto].
    clear. revert w. induction p; intros w; cbn; [done..|]. auto. }
  eapply wp_mono; [|exact Hres]. intros [[]|e] w1 Hr; cbn [wp mbind prog_bind bind].
  - apply wp_bind, Hobs. intros w2. cbn [wp]. apply HQ. by intros _.
  - apply wp_bind, Hobs. intros w2. cbn [wp]. apply HQ. intros Hf. by specialize (Hr Hf).
Qed.

Lemma wp_database (Q : result exn DependencyHealth → world → Prop) w :
  (∀ d w', (faults = false → is_ok d = true) → Q (Ok d) w') → wp faults check_database Q w.
Proof.
  intros HQ. apply wp_check; [|exact HQ]. intros _ w1. apply wp_call.
  intros r w2 (w1' & _ & [[-> _]|[? _]]); [done|done].
Qed.

Lemma wp_redis_check (Q : result exn DependencyHealth → world → Prop) w :
  (∀ d w', (faults = false → is_ok d = true) → Q (Ok d) w') → wp faults check_redis Q w.
Proof.
  intros HQ. apply wp_check; [|exact HQ]. intros _ w1. apply wp_bind, wp_redis; [done|]. by intros w2 _.
Qed.

Lemma wp_storage (Q : result exn DependencyHealth → world → Prop) w :
  (∀ d w', (faults = false → is_ok d = true) → Q (Ok d) w') → wp faults (check_s3 s) Q w.
Proof.
  intros HQ. unfold check_s3. destruct (negb _); [cbn [wp]; by apply HQ|].
  apply wp_check; [|exact HQ]. intros _ w1. unfold verify_bucket_access, except_boto_errors.
  apply wp_catch, wp_call. intros r w2 (w1' & _ & [Hs|[? _]]); [|done]. cbn in Hs. by injection Hs as -> _.
Qed.

(** What readiness means. *)
Definition readiness_true (h : ReadinessHealth) : Prop :=
  (rh_status h = ok ↔ Forall (λ '(_, d), is_ok d = true) (rh_checks h)) ∧
  (rh_status h = ok ∨ rh_status h = unavailable) ∧
  (rh_checks h).*1 = ["database"; "redis"] ++ if readiness_check_s3_enabled s then ["object_storage"] else [].

Lemma readiness_of_checks checks :
  checks.*1 = ["database"; "redis"] ++ (if readiness_check_s3_enabled s then ["object_storage"] else []) →
  readiness_true
    (if existsb (λ '(_, d), negb (is_ok d)) checks
     then {| rh_status := unavailable; rh_checks := checks |}
     else {| rh_status := ok; rh_checks := checks |}).
Proof.
  intros Hn. destruct (existsb _ checks) eqn:E; (split; [|by split; [auto|]]); cbn; split; try done.
  - intros Hall. apply existsb_exists in E as ([n d] & Hin%list_elem_of_In & Hd).
    rewrite Forall_forall in Hall. specialize (Hall _ Hin). cbn in Hall. by rewrite Hall in Hd.
  - intros _. apply Forall_forall. intros [n d] Hin. destruct (is_ok d) eqn:Hd; [done|].
    enough (existsb (λ '(_, d), negb (is_ok d)) checks = true) by congruence.
    apply existsb_exists. exists (n, d). split; [by apply list_elem_of_In|]. by rewrite Hd.
Qed.

(** The probe always answers, truly; and when nothing fails it says that the
    program is ready. *)
Lemma wp_readiness w :
  wp faults (get_readiness s) (λ r _, ∃ h, r = Ok h ∧ readiness_true h ∧ (faults = false → rh_status h = ok)) w.
Proof.
  unfold get_readiness. apply wp_bind, wp_database. intros d1 w1 H1.
  apply wp_bind, wp_redis_check. intros d2 w2 H2. apply wp_bind.
  assert (∀ st w3, st.*1 = (if readiness_check_s3_enabled s then ["object_storage"] else []) →
    (faults = false → Forall (λ '(_, d), is_ok d = true) st) →
    wp faults (let checks := [("database", d1); ("redis", d2)] ++ st in
      if existsb (λ '(_, d), negb (is_ok d)) checks
      then Ret {| rh_status := unavailable; rh_checks := checks |}
      else Ret {| rh_status := ok; rh_checks := checks |})
    (λ r _, ∃ h, r = Ok h ∧ readiness_true h ∧ (faults = false → rh_status h = ok)) w3) as Hend.
  { intros st w3 Hst Hok. cbv zeta. set (checks := [("database", d1); ("redis", d2)] ++ st).
    assert (checks.*1 = ["database"; "redis"] ++ (if readiness_check_s3_enabled s then ["object_storage"] else [])) as Hn
      by (unfold checks; cbn; by rewrite Hst).
    pose proof (readiness_of_checks checks Hn) as Hr. revert Hr.
    destruct (existsb _ checks) eqn:E; cbn [wp]; intros Hr; eexists; (split; [done|]; split; [exact Hr|]).
    - intros Hf. apply Hr. cbn. repeat (apply Forall_cons; split; [by auto|]). by apply Hok.
    - done. }
  destruct (readiness_check_s3_enabled s) eqn:Es.
  - apply wp_bind, wp_storage. intros d3 w3 H3. cbn [wp]. apply Hend; [done|].
    intros Hf. apply Forall_singleton. by apply H3.
  - cbn [wp]. by apply Hend; [|intros; apply Forall_nil_2].
Qed.
End checks.
