(* ===== verification/Admin.v ===== *)
(** * Administration routes and seeds

    [app/api/routes/admin.py], [app/api/routes/tenants.py],
    [app/seed_dev_data.py] and [app/seed_default_tenant.py].  The integers of a
    query are within the bounds the route declares when the route runs. *)

From Stdlib Require Import ZArith Ascii String Lia.
From stdpp Require Import base tactics option list gmap strings.
From S2P Require Import Prelude PyText Json Errors Config Models Permissions Services Programs DbFacts.
From S2P Require Import Reference Ids Tenants Cache Cursor Users UserMutations Auth.
Local Open Scope string_scope.
Local Open Scope list_scope.
Local Open Scope Z_scope.

Section admin.
Context `{Crypto} `{SqlText} (s : Settings).

(** [Depends(require_permission(permission))] *)
Definition permitted (permission : Permission) (current_user : User) : prog User :=
  of_result (require_permission [permission] current_user).

(** ** [routes/admin.py] *)

Definition admin_panel (current_user : User) : prog json :=
  current_user ← permitted ADMIN_ACCESS current_user;
  Ret (JObj [("message", JStr "Welcome admin"); ("email", JStr (u_email current_user))]).

Definition list_audit_logs (page size : Z) (action : option string)
    (admin_id target_user_id : option Z) (current_user : User) : prog (list AuditLog) :=
  current_user ← permitted AUDIT_LOGS_LIST current_user;
  let skip := (page - 1) * size in
  get_audit_logs (u_tenant_id current_user) skip size action admin_id target_user_id.

(** ** [routes/tenants.py] *)

Definition tenant_not_found : exn := HTTPException 404 "Tenant not found" [].

Definition create_tenant_endpoint (slug name : string) (current_user : User) : prog Tenant :=
  current_user ← permitted TENANTS_PROVISION current_user;
  slug ← of_result (validate_slug slug);
  provision_tenant slug name (u_id current_user) (u_tenant_id current_user).

Definition list_tenant_records (page size : Z) (include_inactive : bool) (current_user : User) :
    prog (list Tenant) :=
  _ ← permitted TENANTS_LIST current_user;
  let skip := (page - 1) * size in
  list_tenants skip size include_inactive.

Definition get_tenant (tenant_id : Z) (current_user : User) : prog Tenant :=
  _ ← permitted TENANTS_LIST current_user;
  tenant ← get_tenant_by_id tenant_id;
  match tenant with None => Raise tenant_not_found | Some t => Ret t end.

(** [TenantUpdate]: a field that is null counts as not sent. *)
Record TenantUpdate := { tu_name : option string; tu_is_active : option bool }.

Definition patch_tenant (tenant_id : Z) (tenant_update : TenantUpdate) (current_user : User) : prog Tenant :=
  current_user ← permitted TENANTS_MANAGE current_user;
  match tu_name tenant_update, tu_is_active tenant_update with
  | None, None => Raise (HTTPException 400 "At least one field must be provided" [])
  | _, _ =>
      tenant ← get_tenant_by_id tenant_id;
      match tenant with
      | None => Raise tenant_not_found
      | Some tenant =>
          tenant ← match tu_name tenant_update with
                   | Some name => update_tenant tenant_id (Some name) None
                   | None => Ret (Some tenant)
                   end;
          tenant ← match tu_is_active tenant_update with
                   | Some is_active =>
                       set_tenant_active_state tenant_id is_active (u_id current_user)
                         (u_tenant_id current_user)
                   | None => Ret tenant
                   end;
          match tenant with None => Raise tenant_not_found | Some t => Ret t end
      end
  end.

(** ** Seeds *)

Definition DEV_PASSWORD : string := "devpassword123".

Record DevUserSeed := { ds_email : string; ds_role : string }.
Definition DEV_USERS : list DevUserSeed :=
  [{| ds_email := "admin@example.local"; ds_role := "platform_admin" |};
   {| ds_email := "user@example.local"; ds_role := "user" |}].

Definition new_dev_user (tenant_id : Z) (hashed_password : string) (d : DevUserSeed) (key : Z) : User :=
  {| u_id := key; u_tenant_id := tenant_id; u_email := ds_email d; u_hashed_password := hashed_password;
     u_is_active := true; u_role := ds_role d; u_token_version := 0 |}.

(** The loop over the users: what was done for each. *)
Fixpoint seed_users (tenant_id : Z) (l : list DevUserSeed) (results : list (string * json)) :
    prog (list (string * json)) :=
  match l with
  | [] => Ret results
  | dev_user :: rest =>
      existing_user ← first TUser (λ u, (u_tenant_id u =? tenant_id) && String.eqb (u_email u) (ds_email dev_user));
      match existing_user with
      | None =>
          h ← hash_password DEV_PASSWORD;
          _ ← db (Add TUser (λ key _, new_dev_user tenant_id h dev_user key));
          seed_users tenant_id rest (dict_set (ds_email dev_user) (JStr "created") results)
      | Some _ => seed_users tenant_id rest (dict_set (ds_email dev_user) (JStr "skipped") results)
      end
  end.

Definition seed_dev_users (commit : bool) : prog (list (string * json)) :=
  tenant ← ensure_default_tenant false;
  results ← seed_users (t_id tenant) DEV_USERS [];
  _ ← (if commit then db Commit else db Flush);
  Ret results.

(** [main]: [None] when it refuses to run. *)
Definition seed_dev_main : prog (option (list (string * json))) :=
  if negb (String.eqb (environment s) "development") then Ret None
  else r ← in_session (seed_dev_users true); Ret (Some r).

Definition seed_default_tenant_main : prog Tenant := in_session (ensure_default_tenant true).
End admin.

(** ** Who becomes a platform administrator *)

Definition promoted : UserUpdate :=
  {| up_email := None; up_is_active := None; up_role := Some (Some "platform_admin") |}.

(** An administrator of one tenant may not provision tenants, but may give itself
    the role that may. *)
Lemma tenant_admin_promotes_itself :
  user_has_permission an_admin TENANTS_PROVISION = false ∧
  ∃ u, users (w_db (snd (run (in_session (ignore (patch_user 1 promoted an_admin))) two_users))) !! 1 = Some u ∧
       user_has_permission u TENANTS_PROVISION = true.
Proof. split; [reflexivity|]. eexists. split; vm_compute; reflexivity. Qed.
