(* ===== verification/Api.v ===== *)
(** * The authenticated routes

    The routes of [app/api/routes] that need a bearer token, with the
    dependencies FastAPI resolves before it calls them: the session, the current
    user, the permission the route requires and the bounds of its parameters.
    [auth.py], [users.py], [admin.py], [tenants.py] and [files.py] are mounted
    under [/api/v1] and, as legacy routes, without it; both are the same
    functions (see [Routing]).  The emails of a body are checked by
    [email-validator], the class [Pydantic] of [Schemas]; what the routes return is
    checked against their response models in [TypedRoutes]. *)

From Stdlib Require Import ZArith Ascii String Lia.
From stdpp Require Import base tactics option list gmap strings.
From S2P Require Import Prelude PyText Json Errors Config Models Permissions Services Programs.
From S2P Require Import Tenants Cache Cursor Users Auth Storage Admin.
Local Open Scope string_scope.
Local Open Scope list_scope.
Local Open Scope Z_scope.

(** ** Parameters *)

Definition UserSortBy : list string := ["id"; "email"; "role"; "is_active"].
Definition SortOrder : list string := ["asc"; "desc"].
Definition UserRole : list string := ["user"; "admin"; "platform_admin"].
Definition UserSearchMode : list string := ["prefix"; "contains"].

Definition AuditAction : list string :=
  [USER_UPDATED; USER_DEACTIVATED; USER_ACTIVATED; USER_DELETED; PASSWORD_RESET_REQUESTED;
   PASSWORD_RESET_CONFIRMED; TENANT_CREATED; TENANT_ACTIVATED; TENANT_DEACTIVATED].

Definition one_of (values : list string) (x : string) : bool := bool_decide (x ∈ values).
Definition one_of_opt (values : list string) (x : option string) : bool :=
  match x with Some x => one_of values x | None => true end.

(** [Query(1, ge=1)] and [Query(10, ge=1, le=100)] *)
Definition page_and_size (page size : Z) : bool := (1 <=? page) && (1 <=? size) && (size <=? 100).
Definition positive_opt (x : option Z) : bool := match x with Some x => 1 <=? x | None => true end.

(** The parameters of [list_users]; the limit and the offset are the route's own. *)
Definition list_users_query (page size : Z) (p : list_params) : bool :=
  page_and_size page size && one_of UserSortBy (lp_sort_by p) && one_of SortOrder (lp_sort_order p) &&
  one_of_opt UserRole (lp_role p) && one_of UserSearchMode (lp_search_mode p).

Definition list_audit_logs_query (page size : Z) (action : option string)
    (admin_id target_user_id : option Z) : bool :=
  page_and_size page size && one_of_opt AuditAction action && positive_opt admin_id &&
  positive_opt target_user_id.

(** [UserAdminUpdate.role], [TenantCreate.name] and [TenantUpdate.name],
    [PresignedUploadCompleteRequest.size_bytes] *)
Definition valid_update (update : UserUpdate) : bool :=
  match up_role update with Some r => one_of_opt UserRole r | None => true end.
Definition valid_tenant_name (name : string) : bool := (1 <=? slen name) && (slen name <=? 255).
Definition valid_tenant_update (update : TenantUpdate) : bool :=
  match tu_name update with Some name => valid_tenant_name name | None => true end.
Definition valid_size (size_bytes : Z) : bool := 0 <? size_bytes.

(** A request whose parameters are refused: 422. *)
Definition validated (ok : bool) : prog unit :=
  if ok then Ret tt else Raise (RequestValidationError JNull).

(** ** Routes *)

Inductive route : Type :=
| GetMe
| GetUsers (page size : Z) (p : list_params)
| GetUser (user_id : Z)
| PatchUser (user_id : Z) (update : UserUpdate)
| DeactivateUser (user_id : Z)
| ActivateUser (user_id : Z)
| DeleteUser (user_id : Z)
| GetAdmin
| GetAuditLogs (page size : Z) (action : option string) (admin_id target_user_id : option Z)
| PostTenant (slug name : string)
| GetTenants (page size : Z) (include_inactive : bool)
| GetTenant (tenant_id : Z)
| PatchTenant (tenant_id : Z) (update : TenantUpdate)
| PostFile (file : UploadFile)
| PostPresignedUpload (filename content_type : string)
| PostPresignedComplete (object_key filename content_type : string) (size_bytes : Z)
| GetDownloadUrl (file_id : Z)
| DeleteFile (file_id : Z).

(** What a route returns; the response models leave out some of the columns. *)
Inductive answer : Type :=
| AUser (user : User)
| AUserPage (page : UserListPage)
| AMessage (body : json)
| AAuditLogs (logs : list AuditLog)
| ATenant (tenant : Tenant)
| ATenants (tenants : list Tenant)
| AFile (file : UploadedFile)
| APresignedUpload (object_key : string) (url : PresignedUrl)
| AUrl (url : PresignedUrl)
| ANothing.

Section api.
Context `{Crypto} `{SqlText} (s : Settings).
Context (presign : string → string → option string → result exn string).

(** A dependency is resolved before the parameters are checked.  The handlers of
    [Admin] and [Storage] contain their permission too; asking twice is asking
    once.

    ** [routes/users.py] with [Depends(require_permission(...))] *)

Definition users_list_route (page size : Z) (p : list_params) (current_user : User) : prog answer :=
  current_user ← permitted USERS_LIST current_user;
  _ ← validated (list_users_query page size p);
  result ← list_users s page size p current_user;
  Ret (AUserPage result).

Definition user_read_route (user_id : Z) (current_user : User) : prog answer :=
  user ← get_user user_id current_user;
  Ret (AUser user).

Definition user_patch_route (user_id : Z) (update : UserUpdate) (current_user : User) : prog answer :=
  _ ← validated (valid_update update);
  user ← patch_user user_id update current_user;
  Ret (AUser user).

Definition user_deactivate_route (user_id : Z) (current_user : User) : prog answer :=
  current_user ← permitted USERS_DEACTIVATE current_user;
  user ← deactivate_user_endpoint user_id current_user;
  Ret (AUser user).

Definition user_activate_route (user_id : Z) (current_user : User) : prog answer :=
  current_user ← permitted USERS_ACTIVATE current_user;
  user ← activate_user_endpoint user_id current_user;
  Ret (AUser user).

Definition user_delete_route (user_id : Z) (current_user : User) : prog answer :=
  current_user ← permitted USERS_DELETE current_user;
  _ ← remove_user user_id current_user;
  Ret ANothing.

(** ** [routes/admin.py] and [routes/tenants.py] *)

Definition audit_logs_route (page size : Z) (action : option string)
    (admin_id target_user_id : option Z) (current_user : User) : prog answer :=
  current_user ← permitted AUDIT_LOGS_LIST current_user;
  _ ← validated (list_audit_logs_query page size action admin_id target_user_id);
  logs ← list_audit_logs page size action admin_id target_user_id current_user;
  Ret (AAuditLogs logs).

Definition tenant_create_route (slug name : string) (current_user : User) : prog answer :=
  current_user ← permitted TENANTS_PROVISION current_user;
  _ ← validated (valid_tenant_name name);
  tenant ← create_tenant_endpoint slug name current_user;
  Ret (ATenant tenant).

Definition tenants_route (page size : Z) (include_inactive : bool) (current_user : User) : prog answer :=
  current_user ← permitted TENANTS_LIST current_user;
  _ ← validated (page_and_size page size);
  tenants ← list_tenant_records page size include_inactive current_user;
  Ret (ATenants tenants).

Definition tenant_patch_route (tenant_id : Z) (update : TenantUpdate) (current_user : User) : prog answer :=
  current_user ← permitted TENANTS_MANAGE current_user;
  _ ← validated (valid_tenant_update update);
  tenant ← patch_tenant tenant_id update current_user;
  Ret (ATenant tenant).

(** ** [routes/files.py] *)

Definition presigned_complete_route (object_key filename content_type : string) (size_bytes : Z)
    (current_user : User) : prog answer :=
  current_user ← uploader current_user;
  _ ← validated (valid_size size_bytes);
  file ← complete_presigned_upload_endpoint s object_key filename content_type size_bytes current_user;
  Ret (AFile file).

(** ** Every route *)

Definition serve_route (r : route) (current_user : User) : prog answer :=
  match r with
  | GetMe => Ret (AUser current_user)
  | GetUsers page size p => users_list_route page size p current_user
  | GetUser user_id => user_read_route user_id current_user
  | PatchUser user_id update => user_patch_route user_id update current_user
  | DeactivateUser user_id => user_deactivate_route user_id current_user
  | ActivateUser user_id => user_activate_route user_id current_user
  | DeleteUser user_id => user_delete_route user_id current_user
  | GetAdmin => body ← admin_panel current_user; Ret (AMessage body)
  | GetAuditLogs page size action admin_id target_user_id =>
      audit_logs_route page size action admin_id target_user_id current_user
  | PostTenant slug name => tenant_create_route slug name current_user
  | GetTenants page size include_inactive => tenants_route page size include_inactive current_user
  | GetTenant tenant_id => tenant ← get_tenant tenant_id current_user; Ret (ATenant tenant)
  | PatchTenant tenant_id update => tenant_patch_route tenant_id update current_user
  | PostFile file => f ← upload_file s file current_user; Ret (AFile f)
  | PostPresignedUpload filename content_type =>
      r ← create_presigned_upload_endpoint s presign filename content_type current_user;
      Ret (APresignedUpload (fst r) (snd r))
  | PostPresignedComplete object_key filename content_type size_bytes =>
      presigned_complete_route object_key filename content_type size_bytes current_user
  | GetDownloadUrl file_id => u ← get_download_url s presign file_id current_user; Ret (AUrl u)
  | DeleteFile file_id => _ ← delete_file file_id current_user; Ret ANothing
  end.

(** [credentials] is the bearer token, [header] the header [X-Tenant-Slug]. *)
Definition handle (credentials : string) (header : option string) (r : route) : prog answer :=
  in_session (current_user ← get_current_user s credentials header;
              serve_route r current_user).
End api.
