(* ===== verification/Isolation.v ===== *)
(** * Tenants are isolated

    Whatever an authenticated request does, and whatever fails on the way, the
    rows of the other tenants are left as they are, and the rows it returns are
    those of its own tenant. *)

From Stdlib Require Import ZArith String Lia.
From stdpp Require Import base tactics option list gmap strings sorting fin_maps.
From S2P Require Import Prelude PyText Json Errors Config Models Permissions Services Programs.
From S2P Require Import DbFacts Reference Ids Tenants Cache Cursor Users UserMutations Auth AuthSafety JobQueue Storage Admin Api.
Local Open Scope string_scope.
Local Open Scope list_scope.
Local Open Scope Z_scope.

(** ** The rows of the other tenants *)

Definition of_another {R} (tenant_of_row : R → Z) (t : Z) (m : gmap Z R) : gmap Z R :=
  filter (λ '(_, r), tenant_of_row r ≠ t) m.

(** What a request in the tenant [t] must leave alone; the tenants themselves
    unless it may manage them.  A reset token belongs to the tenant of its user. *)
Definition others (manages : bool) (t : Z) (d : tables) : tables :=
  {| tenants := if manages then ∅ else tenants d;
     users := of_another u_tenant_id t (users d);
     audit_logs := of_another al_tenant_id t (audit_logs d);
     idempotency_records := idempotency_records d;
     job_completions := job_completions d;
     reset_tokens := filter (λ '(_, r), is_Some (of_another u_tenant_id t (users d) !! pt_user_id r))
                            (reset_tokens d);
     uploaded_files := of_another f_tenant_id t (uploaded_files d);
     webhook_events := webhook_events d |}.

(** A file is in the tenant of its owner. *)
Definition files_in_tenant (d : tables) : Prop :=
  map_Forall (λ _ f, match users d !! f_owner_id f with
                     | Some owner => f_tenant_id f = u_tenant_id owner
                     | None => True
                     end) (uploaded_files d).
#[export] Instance files_in_tenant_dec d : Decision (files_in_tenant d).
Proof. unfold files_in_tenant. apply map_Forall_dec. intros i f. destruct (users d !! _); apply _. Defined.

Lemma of_another_none {R} (f : R → Z) t (m : gmap Z R) k :
  of_another f t m !! k = None ↔ ∀ r, m !! k = Some r → f r = t.
Proof.
  unfold of_another. rewrite map_lookup_filter_None. split.
  - intros [Hk|Hk] r Hr; [congruence|]. destruct (decide (f r = t)) as [|Hne]; [done|]. by destruct (Hk r).
  - intros Hk. right. intros r Hr. specialize (Hk r Hr). tauto.
Qed.

Lemma of_another_insert {R} (f : R → Z) t (m : gmap Z R) k r :
  of_another f t m !! k = None → f r = t → of_another f t (<[k := r]> m) = of_another f t m.
Proof.
  intros Hk Hr. rewrite of_another_none in Hk. apply map_eq. intros i. apply option_eq. intros x.
  unfold of_another. rewrite !map_lookup_filter_Some, lookup_insert_Some. split.
  - intros [[[<- <-]|[_ H]] Hx]; [done|auto].
  - intros [H Hx]. split; [|done]. right. split; [|done]. intros ->. by rewrite (Hk _ H) in Hx.
Qed.

Lemma of_another_delete {R} (f : R → Z) t (m : gmap Z R) k :
  of_another f t m !! k = None → of_another f t (delete k m) = of_another f t m.
Proof.
  intros Hk. rewrite of_another_none in Hk. apply map_eq. intros i. apply option_eq. intros x.
  unfold of_another. rewrite !map_lookup_filter_Some, lookup_delete_Some. split.
  - intros [[_ H] Hx]. auto.
  - intros [H Hx]. split; [|done]. split; [|done]. intros ->. by rewrite (Hk _ H) in Hx.
Qed.

Section tenant.
Context (manages : bool) (t : Z) (F : tables).
(** The files of the others are owned by the others. *)
Hypothesis Howners : map_Forall (λ _ f, is_Some (users F !! f_owner_id f)) (uploaded_files F).

Definition good (d : tables) : Prop := keyed d ∧ files_in_tenant d ∧ others manages t d = F.

(** A write that leaves the others alone, whatever the state it is carried out in. *)
Definition harmless (wr : write) : Prop := ∀ d d', good d → wr d = Some d' → good d'.

(** A row of a user that is not one of the others'. *)
Definition own_user (k : Z) : Prop := users F !! k = None.

Lemma good_user d k u : good d → own_user k → users d !! k = Some u → u_tenant_id u = t.
Proof. intros (_ & _ & HF) Hk Hu. unfold own_user in Hk. rewrite <- HF in Hk. exact (proj1 (of_another_none u_tenant_id t (users d) k) Hk u Hu). Qed.

Lemma good_own_user d k u : good d → users d !! k = Some u → u_tenant_id u = t → own_user k.
Proof. intros (_ & _ & HF) Hu Ht. unfold own_user. rewrite <- HF. apply (of_another_none u_tenant_id t (users d) k). intros u' Hu'. congruence. Qed.

Lemma harmless_set_user k f :
  own_user k → (∀ u u', f u = Some u' → u_id u' = u_id u ∧ u_tenant_id u' = u_tenant_id u) →
  harmless (set_row TUser k f).
Proof.
  intros Hk Hf d d' Hgood. unfold set_row. cbn [get_table].
  destruct (users d !! k) as [u|] eqn:Hu; [|by intros [= <-]].
  destruct (f u) as [u'|] eqn:Eu; [|done]. cbn. intros [= <-]. destruct (Hf _ _ Eu) as [Hi Ht].
  pose proof (good_user d k u Hgood Hk Hu) as Htu. destruct Hgood as ((K1 & K2 & Krest) & Hfiles & HF).
  assert (of_another u_tenant_id t (<[k := u']> (users d)) = of_another u_tenant_id t (users d)) as E.
  { apply of_another_insert; [|congruence]. apply of_another_none. intros r Hr. congruence. }
  split; [|split].
  - split; [exact K1|]. split; [|exact Krest]. cbn. apply map_Forall_insert_2; [|exact K2].
    cbn. rewrite Hi. exact (K2 k u Hu).
  - intros i g Hg. cbn in Hg. specialize (Hfiles i g Hg). cbn in Hfiles |- *.
    destruct (decide (k = f_owner_id g)) as [Hk'|Hne]; [|by rewrite lookup_insert_ne].
    rewrite <- Hk' in *. rewrite lookup_insert_eq. rewrite Hu in Hfiles. congruence.
  - rewrite <- HF. unfold others. cbn. by rewrite E.
Qed.

Lemma harmless_delete_user k : own_user k → harmless (drop_row TUser k).
Proof.
  intros Hk d d' Hgood. unfold drop_row. cbn. intros [= <-].
  pose proof (λ u, good_user d k u Hgood Hk) as Htu. destruct Hgood as ((K1 & K2 & K3 & K4 & K5 & K6 & K7 & K8) & Hfiles & HF).
  assert (of_another u_tenant_id t (delete k (users d)) = of_another u_tenant_id t (users d)) as E.
  { apply of_another_delete, of_another_none. exact Htu. }
  split; [|split].
  - split_and!; cbn; try done.
    + intros i u [_ Hi]%lookup_delete_Some. by apply (K2 i).
    + intros i r [Hi _]%map_lookup_filter_Some. by apply (K6 i).
    + intros i r [Hi _]%map_lookup_filter_Some. by apply (K7 i).
  - intros i g. cbn. intros [Hg Hne]%map_lookup_filter_Some. cbn in Hne.
    rewrite lookup_delete_ne by congruence. by apply (Hfiles i).
  - rewrite <- HF. unfold others. cbn. rewrite E. f_equal.
    + apply map_eq. intros i. apply option_eq. intros r. rewrite !map_lookup_filter_Some.
      split; [tauto|]. intros [Hr Hs]. split_and!; [done| |done]. intros Hrk.
      destruct Hs as [u Hs]. rewrite Hrk in Hs. unfold of_another in Hs. rewrite map_lookup_filter_Some in Hs.
      destruct Hs as [Hu Hne]. by apply Hne, Htu.
    + apply map_eq. intros i. apply option_eq. intros g. unfold of_another. rewrite !map_lookup_filter_Some.
      split; [tauto|]. intros [Hg Hne]. split_and!; [done| |done]. intros Ho.
      assert (uploaded_files F !! i = Some g) as HgF.
      { rewrite <- HF. unfold others, of_another. cbn. by apply map_lookup_filter_Some. }
      destruct (Howners _ _ HgF) as [u Hu]. rewrite Ho in Hu. unfold own_user in Hk. congruence.
Qed.
Lemma harmless_add_audit k l :
  audit_logs F !! k = None → al_id l = k → al_tenant_id l = t → harmless (insert_row TAuditLog k l).
Proof.
  intros Hk Hi Ht d d' ((K1 & K2 & K3 & Krest) & Hfiles & HF). unfold insert_row. intros [= <-].
  split; [|split; [exact Hfiles|]].
  - split; [exact K1|]. split; [exact K2|]. split; [|exact Krest]. cbn. by apply map_Forall_insert_2.
  - rewrite <- HF in Hk |- *. unfold others in *. cbn in *. by rewrite of_another_insert.
Qed.

Lemma harmless_add_file k f :
  uploaded_files F !! k = None → f_id f = k → f_tenant_id f = t → own_user (f_owner_id f) →
  harmless (insert_row TUploadedFile k f).
Proof.
  intros Hk Hi Ht Ho d d' Hgood. pose proof (λ u, good_user d (f_owner_id f) u Hgood Ho) as Hu.
  destruct Hgood as ((K1 & K2 & K3 & K4 & K5 & K6 & K7 & K8) & Hfiles & HF).
  unfold insert_row. intros [= <-]. split; [|split].
  - split_and!; cbn; try done. by apply map_Forall_insert_2.
  - intros i g. cbn. rewrite lookup_insert_Some. intros [[_ <-]|[_ Hg]]; [|by apply (Hfiles i)].
    destruct (users d !! f_owner_id f) as [u|] eqn:Eu; [|done]. rewrite Ht. symmetry. by apply Hu.
  - rewrite <- HF in Hk |- *. unfold others in *. cbn in *. by rewrite of_another_insert.
Qed.

Lemma harmless_delete_file k : uploaded_files F !! k = None → harmless (drop_row TUploadedFile k).
Proof.
  intros Hk d d' ((K1 & K2 & K3 & K4 & K5 & K6 & K7 & K8) & Hfiles & HF).
  unfold drop_row. cbn [delete_row get_table]. intros [= <-]. split; [|split].
  - split_and!; cbn; try done. intros i f [_ Hi]%lookup_delete_Some. by apply (K7 i).
  - intros i g. cbn. intros [_ Hg]%lookup_delete_Some. by apply (Hfiles i).
  - rewrite <- HF in Hk |- *. unfold others in *. cbn in *. by rewrite of_another_delete.
Qed.

Lemma harmless_add_tenant k r :
  manages = true → t_id r = k → harmless (insert_row TTenant k r).
Proof.
  intros Hm Hi d d' ((K1 & Krest) & Hfiles & HF). unfold insert_row. intros [= <-].
  split; [|split; [exact Hfiles|]].
  - split; [|exact Krest]. cbn. by apply map_Forall_insert_2.
  - rewrite <- HF. unfold others. cbn. by rewrite Hm.
Qed.

Lemma harmless_set_tenant k f :
  manages = true → (∀ r r', f r = Some r' → t_id r' = t_id r) → harmless (set_row TTenant k f).
Proof.
  intros Hm Hf d d' Hgood. unfold set_row. cbn [get_table].
  destruct (tenants d !! k) as [r|] eqn:Hr; [|by intros [= <-]].
  destruct (f r) as [r'|] eqn:Er; [|done]. cbn. intros [= <-]. destruct Hgood as ((K1 & Krest) & Hfiles & HF).
  split; [|split; [exact Hfiles|]].
  - split; [|exact Krest]. cbn. apply map_Forall_insert_2; [|exact K1]. cbn. rewrite (Hf _ _ Er). exact (K1 k r Hr).
  - rewrite <- HF. unfold others. cbn. by rewrite Hm.
Qed.

(** ** Sessions *)

Lemma harmless_writes ws d d' : Forall harmless ws → good d → run_writes ws d = Some d' → good d'.
Proof. apply writes_preserve. Qed.

(** The session of a request, all of whose writes are harmless, unless they
    cannot be carried out. *)
Definition open (w : world) : Prop :=
  good (w_db w) ∧ Forall harmless (s_flushed (w_session w)) ∧
  (run_writes (all_writes (w_session w)) (w_db w) = None ∨ Forall harmless (s_pending (w_session w))).

Lemma open_pushed wr w w' :
  open w → pushed wr w w' →
  (∀ d, good d → run_writes (all_writes (w_session w)) (w_db w) = Some d → harmless wr) → open w'.
Proof.
  intros (Hg & Hf & Hp) (Hd & _ & _ & Hs) Hwr. unfold open. rewrite Hd, Hs. cbn [s_flushed s_pending]. split; [done|]. split; [done|].
  assert (all_writes (Session (s_flushed (w_session w)) (s_pending (w_session w) ++ [wr])) =
    all_writes (w_session w) ++ [wr]) as E by (unfold all_writes; cbn; by rewrite app_assoc).
  destruct (run_writes (all_writes (w_session w)) (w_db w)) as [d|] eqn:Ed.
  - right. destruct Hp as [|Hp]; [done|]. apply Forall_app. split; [done|]. apply Forall_singleton.
    apply (Hwr d); [|done]. unfold all_writes in Ed. eapply harmless_writes; [|exact Hg|exact Ed]. by apply Forall_app.
  - left. rewrite E, run_writes_app, Ed. done.
Qed.

(** ** Programs that keep a session open *)

Section programs.
Context `{Crypto} `{SqlText} (faults : bool).
Local Abbreviation I := (stored (λ d _ _, good d)).
Local Abbreviation seen p Q := (wpi faults I p (on_ok Q)).

(** From an open session to an open session, with a result that satisfies [Q]. *)
Definition serves {A} (p : prog A) (Q : A → Prop) : Prop :=
  ∀ w, open w → seen p (λ a w', open w' ∧ Q a) w.

Lemma open_stored w : open w → I w.
Proof. by intros [? _]. Qed.

Lemma serves_ret {A} (a : A) (Q : A → Prop) : Q a → serves (Ret a) Q.
Proof. intros HQ w Hw. apply wpi_ret; [by apply open_stored|done]. Qed.

Lemma serves_raise {A} e (Q : A → Prop) : serves (Raise e) Q.
Proof. intros w Hw. by apply wpi_raise, open_stored. Qed.

Lemma serves_of_result {A} (r : result exn A) (Q : A → Prop) :
  (∀ a, r = Ok a → Q a) → serves (of_result r) Q.
Proof. destruct r as [a|e]; intros HQ; [apply serves_ret; auto|apply serves_raise]. Qed.

Lemma serves_bind {A B} (p : prog A) (f : A → prog B) P Q :
  serves p P → (∀ a, P a → serves (f a) Q) → serves (p ≫= f) Q.
Proof.
  intros Hp Hf w Hw. apply wpi_bind_ok. eapply wpi_mono_ok; [|by apply Hp].
  intros a w' _ [Hw' Ha]. by apply Hf.
Qed.

Lemma serves_mono {A} (p : prog A) (P Q : A → Prop) : (∀ a, P a → Q a) → serves p P → serves p Q.
Proof. intros HPQ Hp w Hw. eapply wpi_mono_ok; [|by apply Hp]. intros a w' _ [? ?]. auto. Qed.

(** A handler that raises another error. *)
Lemma serves_catch {A} (p : prog A) h (Q : A → Prop) :
  serves p Q → (∀ e, ∃ e', h e = Raise e') → serves (catch p h) Q.
Proof.
  intros Hp Hh w Hw. apply wpi_catch. eapply wpi_mono; [|by apply Hp].
  intros [a|e] w' HI; [done|]. intros _. destruct (Hh e) as [e' ->]. by apply wpi_raise.
Qed.

Lemma serves_away {A} (p : prog A) : keeps away p → serves p (λ _, True).
Proof.
  intros Hp w Hw. apply wpi_away; [done|by apply open_stored|]. intros a w' (Hd & _ & _ & Hs).
  split; [|done]. unfold open in *. by rewrite Hd, Hs.
Qed.

(** A command to S3 or an HTTP server. *)
Definition not_db (B : Type) (c : svc B) : Prop := match c with Db _ => False | _ => True end.

Lemma svc_not_db {B} (c : svc B) w r w' :
  not_db B c → svc_spec faults c w r w' → w_db w' = w_db w ∧ w_session w' = w_session w.
Proof.
  intros Hc (w1 & Hadv & Hcase). rewrite <- (advance_db _ _ Hadv), <- (advance_session _ _ Hadv).
  assert (∀ r w', cmd_spec c w1 r w' → w_db w' = w_db w1 ∧ w_session w' = w_session w1) as Hcmd.
  { intros r' w2 Hs. destruct c; cbn [not_db cmd_spec] in *; try done.
    - destruct (redis_exec _ _ _). by injection Hs as -> ->.
    - destruct (s3_exec _ _). by injection Hs as -> ->.
    - by destruct Hs as [_ ->].
    - by destruct Hs as (? & _ & ->).
    - by destruct Hs as [_ ->].
    - by destruct Hs as [_ ->].
    - by destruct Hs as [_ ->].
    - by destruct Hs as [-> _].
    - by destruct Hs as [-> _].
    - by destruct Hs as [-> _].
    - destruct (f _). by destruct Hs as [_ ->].
    - by destruct Hs as [_ ->]. }
  destruct Hcase as [Hs|(_ & e & _ & _ & [->|[r' Hs]])]; [by eapply Hcmd|done|by eapply Hcmd].
Qed.

Lemma serves_not_db {A} (p : prog A) : keeps not_db p → serves p (λ _, True).
Proof.
  intros Hp w Hw. revert w Hw. induction p as [a|e|B c k IH]; intros w Hw; cbn [wpi].
  - split; [by apply open_stored|done].
  - split; [by apply open_stored|done].
  - split; [by apply open_stored|]. destruct Hp as [Hc Hk]. intros r w' Hs. apply IH; [apply Hk|].
    destruct (svc_not_db _ _ _ _ Hc Hs) as [Hd Hse]. unfold open in *. by rewrite Hd, Hse.
Qed.

(** *** Reading *)

(** A row some state of the transaction has. *)
Definition stored_row {R} (tb : table R) (r : R) : Prop := ∃ d k, good d ∧ get_table tb d !! k = Some r.

Lemma open_view w d : open w → tx_view (w_db w) (w_session w) = Some d → good d.
Proof. intros (Hg & Hf & _) Hd. by eapply harmless_writes. Qed.

Lemma open_advance w w1 : open w → advance w w1 → open w1.
Proof. intros Hw Hadv. unfold open in *. by rewrite (advance_db _ _ Hadv), (advance_session _ _ Hadv). Qed.

Lemma serves_select {R} (tb : table R) q :
  serves (db (Select tb q)) (λ res, ∀ r, r ∈ res → q_where q r = true ∧ stored_row tb r).
Proof.
  intros w Hw. apply wpi_frame; [done|by apply open_stored|]. intros w1 r w' Hadv [-> Hc].
  pose proof (open_advance _ _ Hw Hadv) as Hw1. destruct (tx_view _ _) as [d|] eqn:Ed; [|by rewrite Hc].
  destruct Hc as (res & (l & Hp & _ & Hres) & ->). split; [done|]. intros x Hx.
  assert (x ∈ l) as Hl.
  { rewrite Hres in Hx. destruct (q_limit q); [apply subseteq_take in Hx|]; by eapply subseteq_drop. }
  rewrite Hp in Hl. apply list_elem_of_filter in Hl as [Hq Hl]. split; [done|].
  apply elem_of_rows in Hl as [k Hk]. exists d, k. split; [by eapply open_view|done].
Qed.

Lemma serves_first {R} (tb : table R) p :
  serves (first tb p) (λ o, match o with Some r => p r = true ∧ stored_row tb r | None => True end).
Proof.
  unfold first. eapply serves_bind; [apply serves_select|]. intros [|r l] Hl; apply serves_ret; [done|].
  apply Hl. by left.
Qed.

Lemma serves_refresh {R} (tb : table R) key :
  serves (db (Refresh tb key)) (λ r, ∃ d, good d ∧ get_table tb d !! key = Some r).
Proof.
  intros w Hw. apply wpi_frame; [done|by apply open_stored|]. intros w1 r w' Hadv [-> ->].
  pose proof (open_advance _ _ Hw Hadv) as Hw1. destruct (tx_view _ _) as [d|] eqn:Ed; [|done]. cbn.
  destruct (get_table tb d !! key) as [row|] eqn:Er; [|done]. split; [done|]. exists d.
  split; [by eapply open_view|done].
Qed.

(** *** Writing *)

Lemma serves_set_row {R} (tb : table R) key f :
  harmless (set_row tb key f) → serves (db (SetRow tb key f)) (λ _, True).
Proof.
  intros Hwr w Hw. apply wpi_set_row; [by apply open_stored|]. intros w' Hp. split; [|done].
  eapply open_pushed; [exact Hw|exact Hp|done].
Qed.

Lemma serves_delete_row {R} (tb : table R) key :
  harmless (drop_row tb key) → serves (db (DeleteRow tb key)) (λ _, True).
Proof.
  intros Hwr w Hw. apply wpi_delete_row; [by apply open_stored|]. intros w' Hp. split; [|done].
  eapply open_pushed; [exact Hw|exact Hp|done].
Qed.

Lemma serves_add {R} (tb : table R) mk :
  (∀ d key created, good d → get_table tb d !! key = None → harmless (insert_row tb key (mk key created))) →
  serves (db (Add tb mk)) (λ r, ∃ key created, r = mk key created).
Proof.
  intros Hwr w Hw. apply wpi_add; [by apply open_stored|]. intros key created w' Hfresh Hp _.
  split; [|eauto]. eapply open_pushed; [exact Hw|exact Hp|]. intros d Hd Ed. by eapply Hwr, Hfresh.
Qed.

Lemma flushed_good w d :
  open w → flush_result w = Some d → good d ∧ constraints d ∧ Forall harmless (all_writes (w_session w)).
Proof.
  intros (Hg & Hf & Hp) Hflush. unfold flush_result in Hflush.
  destruct (run_writes _ _) as [d1|] eqn:E; [|done]. cbn in Hflush. case_decide; [|done]. injection Hflush as <-.
  destruct Hp as [|Hp]; [done|].
  assert (Forall harmless (all_writes (w_session w))) as Hall by by apply Forall_app.
  split_and!; [by eapply harmless_writes|done|done].
Qed.

Lemma serves_flush : serves (db Flush) (λ _, True).
Proof.
  intros w Hw. apply wpi_flush; [by apply open_stored|]. intros d w' Hflush Hd _ _ Hs. split; [|done].
  destruct (flushed_good _ _ Hw Hflush) as (_ & _ & Hall). unfold open. rewrite Hd, Hs. cbn.
  split_and!; [apply Hw|done|by right].
Qed.

Lemma open_empty w d : good d → w_db w = d → w_session w = empty_session → open w.
Proof. intros Hd E Hs. unfold open. rewrite E, Hs. split_and!; [done|constructor|right; constructor]. Qed.

Lemma serves_commit : serves (db Commit) (λ _, True).
Proof.
  intros w Hw. apply wpi_commit; [by apply open_stored|]. intros d Hflush w' Hd _ _ Hs.
  destruct (flushed_good _ _ Hw Hflush) as (Hg & _). pose proof (open_empty w' d Hg Hd Hs) as Hw'.
  split; [by apply open_stored|done].
Qed.

(** *** The operations of the services *)

Lemma serves_invalidate tenant_id : serves (invalidate_users_list_cache tenant_id) (λ _, True).
Proof.
  apply serves_away. unfold invalidate_users_list_cache, increment_cache_version, except_redis.
  apply keeps_bind; [|done].
  apply keeps_catch; [|intros e; by destruct (is_redis_error e)].
  apply keeps_bind; [by apply keeps_call|done].
Qed.

Lemma serves_audit admin_id action target commit :
  serves (create_audit_log t admin_id action target commit) (λ _, True).
Proof.
  unfold create_audit_log. eapply serves_bind.
  { apply serves_add. intros d key created Hd Hkey. apply harmless_add_audit; [|done..].
    destruct Hd as (_ & _ & <-). apply of_another_none. cbn in Hkey. intros r Hr. congruence. }
  intros l _. destruct commit; (eapply serves_bind; [first [apply serves_commit|apply serves_flush]|intros _ _]).
  - eapply serves_mono; [|apply serves_refresh]. done.
  - by apply serves_ret.
Qed.

(** *** Users *)

Definition own (u : User) : Prop := u_tenant_id u = t ∧ own_user (u_id u).

Lemma stored_own u : stored_row TUser u → u_tenant_id u = t → own u.
Proof.
  intros (d & k & Hd & Hk) Ht. split; [done|]. eapply good_own_user; [exact Hd| |exact Ht].
  destruct Hd as ((_ & Hkeyed & _) & _). rewrite (Hkeyed k u Hk). exact Hk.
Qed.

Lemma serves_get_user_by_id k :
  serves (get_user_by_id k t) (λ o, match o with Some u => own u | None => True end).
Proof.
  unfold get_user_by_id. eapply serves_mono; [|apply serves_first]. intros [u|]; [|done].
  intros [Hp Hu]. apply andb_prop in Hp as [_ Ht]. apply stored_own; [done|by apply Z.eqb_eq].
Qed.

Lemma serves_refresh_user u : own u → serves (db (Refresh TUser (u_id u))) own.
Proof.
  intros [_ Ho]. eapply serves_mono; [|apply serves_refresh]. intros u' (d & Hd & Hu').
  apply stored_own; [by exists d, (u_id u)|]. by eapply good_user.
Qed.

Lemma apply_update_own user upd r r' :
  apply_update user upd r = Some r' → u_id r' = u_id r ∧ u_tenant_id r' = u_tenant_id r.
Proof.
  unfold apply_update, set_field. intros E.
  destruct (up_email upd) as [[e|]|], (up_is_active upd) as [[a|]|], (up_role upd) as [[ro|]|]; cbn in E; try done;
    injection E as <-; by destruct (should_invalidate_tokens user upd).
Qed.

Lemma serves_change user f :
  own user → (∀ u u', f u = Some u' → u_id u' = u_id u ∧ u_tenant_id u' = u_tenant_id u) →
  serves (db (SetRow TUser (u_id user) f)) (λ _, True).
Proof. intros [_ Ho] Hf. by apply serves_set_row, harmless_set_user. Qed.

Lemma serves_commit_audit admin_id action target :
  serves (commit_user_mutation_with_audit t admin_id action target) (λ _, True).
Proof.
  unfold commit_user_mutation_with_audit. eapply serves_bind; [apply serves_audit|intros _ _].
  eapply serves_bind; [apply serves_commit|intros _ _]. apply serves_invalidate.
Qed.

Lemma serves_update_user user upd commit :
  own user → serves (update_user user upd commit) own.
Proof.
  intros Ho. unfold update_user. eapply serves_bind.
  { apply serves_change; [done|]. intros u u'. apply apply_update_own. }
  intros _ _. destruct commit; (eapply serves_bind; [first [apply serves_commit|apply serves_flush]|intros _ _]).
  - eapply serves_bind; [by apply serves_refresh_user|]. intros u Hu.
    eapply serves_bind; [apply serves_invalidate|intros _ _]. by apply serves_ret.
  - apply serves_of_result. intros u. destruct (apply_update user upd user) as [u'|] eqn:E; [|done].
    intros [= <-]. destruct (apply_update_own _ _ _ _ E) as [Hi Ht], Ho as [Ht0 Ho].
    split; [congruence|]. unfold own_user in *. by rewrite Hi.
Qed.

Section endpoints.
Context (s : Settings) (presign : string → string → option string → result exn string).
Context (me : User) (Hme : own me).

Lemma serves_deactivate_user k :
  serves (deactivate_user k t false) (λ o, match o with Some u => own u | None => True end).
Proof.
  unfold deactivate_user. eapply serves_bind; [apply serves_get_user_by_id|]. intros [u|] Hu; [|by apply serves_ret].
  eapply serves_bind; [apply serves_change; [done|]; by intros ? ? [= <-]|intros _ _].
  eapply serves_bind; [apply serves_flush|intros _ _]. by apply serves_ret.
Qed.

Lemma serves_activate_user k :
  serves (activate_user k t false) (λ o, match o with Some u => own u | None => True end).
Proof.
  unfold activate_user. eapply serves_bind; [apply serves_get_user_by_id|]. intros [u|] Hu; [|by apply serves_ret].
  eapply serves_bind; [apply serves_change; [done|]; by intros ? ? [= <-]|intros _ _].
  eapply serves_bind; [apply serves_flush|intros _ _]. by apply serves_ret.
Qed.

Lemma my_tenant : u_tenant_id me = t.
Proof. apply Hme. Qed.

(** The second half of the endpoints that change an activation. *)
Lemma serves_audited (o : option User) action k :
  match o with Some u => own u | None => True end →
  serves (match o with
          | None => Raise user_not_found
          | Some user => _ ← commit_user_mutation_with_audit t (u_id me) action k;
                         db (Refresh TUser (u_id user))
          end) own.
Proof.
  destruct o as [u|]; [|intros _; apply serves_raise]. intros Hu.
  eapply serves_bind; [apply serves_commit_audit|intros _ _]. by apply serves_refresh_user.
Qed.

Lemma serves_get_user k : serves (get_user k me) own.
Proof.
  unfold get_user. rewrite my_tenant. eapply serves_bind; [apply serves_get_user_by_id|].
  intros [u|] Hu; [|apply serves_raise]. destruct (negb _); [apply serves_raise|by apply serves_ret].
Qed.

Lemma serves_patch_user k upd : serves (patch_user k upd me) own.
Proof.
  unfold patch_user. rewrite my_tenant. eapply serves_bind; [apply serves_get_user_by_id|].
  intros [u|] Hu; [|apply serves_raise]. destruct (negb _); [apply serves_raise|].
  destruct (user_has_permission _ _); [|by apply serves_update_user].
  eapply serves_bind; [by apply serves_update_user|]. intros u' Hu'.
  eapply serves_bind; [apply serves_commit_audit|intros _ _]. by apply serves_refresh_user.
Qed.

Lemma serves_deactivate k : serves (deactivate_user_endpoint k me) own.
Proof.
  unfold deactivate_user_endpoint. rewrite my_tenant. eapply serves_bind; [apply serves_deactivate_user|].
  intros o Ho. by apply serves_audited.
Qed.

Lemma serves_activate k : serves (activate_user_endpoint k me) own.
Proof.
  unfold activate_user_endpoint. rewrite my_tenant. eapply serves_bind; [apply serves_activate_user|].
  intros o Ho. by apply serves_audited.
Qed.

Lemma serves_remove_user k : serves (remove_user k me) (λ _, True).
Proof.
  unfold remove_user, delete_user. rewrite my_tenant. eapply serves_bind; [apply serves_get_user_by_id|].
  intros [u|] Hu; [|apply serves_raise]. eapply serves_bind.
  { eapply serves_bind; [apply serves_delete_row, harmless_delete_user, Hu|intros _ _; apply serves_flush]. }
  intros _ _. apply serves_commit_audit.
Qed.

(** A page of the list that was not cached. *)
Definition item_of_own (item : json) : Prop :=
  ∃ u, own u ∧ item = _serialize_user u.

Lemma serves_query_users p :
  serves (query_users t p) (λ page, ∀ u, u ∈ page.1 → stored_row TUser u ∧ u_tenant_id u = t).
Proof.
  unfold query_users. assert (∀ extra skip (res : list User),
    (∀ r, r ∈ res → q_where (page_query t p extra skip) r = true ∧ stored_row TUser r) →
    ∀ u, u ∈ res → stored_row TUser u ∧ u_tenant_id u = t) as Hres.
  { intros extra skip res Hr u Hu. destruct (Hr u Hu) as [Hq Hs]. split; [done|]. cbn in Hq.
    unfold list_filter in Hq. rewrite !andb_true_iff in Hq. apply Z.eqb_eq. tauto. }
  destruct (use_offset p).
  - eapply serves_bind; [apply serves_select|]. intros res Hr. apply serves_ret. intros u Hu. exact (Hres _ _ _ Hr u Hu).
  - eapply serves_bind with (P := λ _, True); [by apply serves_of_result|]. intros extra _.
    eapply serves_bind; [apply serves_select|]. intros res Hr.
    eapply serves_bind with (P := λ _, True); [by apply serves_of_result|]. intros next _. apply serves_ret. intros u Hu. exact (Hres _ _ _ Hr u Hu).
Qed.

Lemma keeps_except_redis {A} P (p h : prog A) :
  Programs.keeps P p → Programs.keeps P h → Programs.keeps P (except_redis p h).
Proof. intros Hp Hh. apply keeps_catch; [done|]. intros e. by destruct (is_redis_error e). Qed.

Lemma away_cache_key p skip : keeps away (build_users_list_cache_key t p skip).
Proof.
  unfold build_users_list_cache_key, get_cache_version. apply keeps_bind; [|done].
  apply keeps_bind; [|intros [[v|]|]; [by destruct (int_of_str v)|done..]].
  apply keeps_except_redis; [|done]. apply keeps_bind; [by apply keeps_call|done].
Qed.

Lemma away_get_json_cache key : keeps away (get_json_cache key).
Proof.
  unfold get_json_cache. apply keeps_bind; [|intros [[v|]|]; [by destruct (loads v) as [[]|]|done..]].
  apply keeps_except_redis; [|done]. apply keeps_bind; [by apply keeps_call|done].
Qed.

Lemma away_set_json_cache key v ttl : keeps away (set_json_cache key v ttl).
Proof. unfold set_json_cache. apply keeps_except_redis; [|done]. apply keeps_bind; [by apply keeps_call|done]. Qed.

Lemma serves_list_users page size p :
  serves (list_users s page size p me)
    (λ page, users_cache_enabled s = false → Forall item_of_own (ulp_items page)).
Proof.
  unfold list_users. destruct (cursor_and_page page p); [apply serves_raise|]. rewrite my_tenant.
  eapply serves_bind with (P := λ r, users_cache_enabled s = false → Forall item_of_own (user_list_items r)).
  - apply serves_catch; [|eauto]. unfold get_users.
    eapply serves_bind; [apply serves_away, away_cache_key|]. intros key _.
    eapply serves_bind with (P := λ o, users_cache_enabled s = false → o = None).
    { destruct (users_cache_enabled s); [|by apply serves_ret].
      eapply serves_mono; [|apply serves_away, away_get_json_cache]. done. }
    intros [cached|] Hcached.
    { apply serves_of_result. intros r _ Hoff. by specialize (Hcached Hoff). }
    eapply serves_bind; [apply serves_query_users|]. intros [us next] Hus. cbn in Hus.
    eapply serves_bind.
    { destruct (users_cache_enabled s); [apply serves_away, away_set_json_cache|].
      by apply (serves_ret tt (λ _, True)). }
    intros _ _. apply serves_ret. intros _. cbn. apply Forall_fmap, Forall_forall. intros u Hu.
    destruct (Hus u Hu). exists u. split; [by apply stored_own|done].
  - intros r Hr. by apply serves_ret.
Qed.

(** *** Files *)

Lemma not_db_build_object_key a b f : keeps not_db (build_object_key a b f).
Proof. unfold build_object_key, uuid7_hex, uuid7, now_us. solve_keeps. Qed.

Lemma not_db_scan body filename : keeps not_db (run_malware_scan s body filename).
Proof. unfold run_malware_scan, http_scan. solve_keeps. Qed.

Lemma not_db_except_boto {A} (p : prog A) e : keeps not_db p → keeps not_db (except_boto_errors p e).
Proof. intros Hp. apply keeps_catch; [done|]. intros e'. by destruct (is_boto_error e'). Qed.

Lemma not_db_except_client {A} (p : prog A) e : keeps not_db p → keeps not_db (except_client_error p e).
Proof. intros Hp. apply keeps_catch; [done|]. intros e'. by destruct (is_client_error e'). Qed.

Definition own_file (k : Z) : Prop := uploaded_files F !! k = None.

Lemma stored_own_file f : stored_row TUploadedFile f → f_tenant_id f = t → own_file (f_id f).
Proof.
  intros (d & k & ((_ & _ & _ & _ & _ & _ & Hkeyed & _) & _ & HF) & Hk) Ht. cbn in Hk.
  unfold own_file. rewrite <- HF. apply (of_another_none f_tenant_id t (uploaded_files d)).
  rewrite (Hkeyed k f Hk). intros f' Hf'. congruence.
Qed.

Lemma serves_get_uploaded_file k :
  serves (get_uploaded_file k t) (λ o, match o with Some f => own_file (f_id f) | None => True end).
Proof.
  unfold get_uploaded_file. eapply serves_mono; [|apply serves_first]. intros [f|]; [|done].
  intros [Hp Hf]. apply andb_prop in Hp as [_ Ht]. apply stored_own_file; [done|by apply Z.eqb_eq].
Qed.

(** The new file of the user. *)
Lemma harmless_new_file key filename content_type size status object_key created d :
  good d → uploaded_files d !! key = None →
  harmless (insert_row TUploadedFile key
    (new_uploaded_file me object_key filename content_type size status key created)).
Proof.
  intros Hd Hkey. apply harmless_add_file; [|done|apply my_tenant|apply Hme].
  destruct Hd as (_ & _ & <-). apply of_another_none. intros r Hr. congruence.
Qed.

Lemma serves_store_file object_key filename content_type size status :
  serves (store_file (new_uploaded_file me object_key filename content_type size status))
    (λ f, f_tenant_id f = t).
Proof.
  intros w Hw. unfold store_file. apply wpi_bind_ok, wpi_add; [by apply open_stored|].
  intros key created w1 Hfresh Hp _.
  assert (open w1) as Hw1.
  { eapply open_pushed; [exact Hw|exact Hp|]. intros d Hd Ed. eapply harmless_new_file; [exact Hd|by apply Hfresh]. }
  apply wpi_bind_ok, wpi_commit; [by apply open_stored|]. intros d Hflush w2 Hd2 _ _ Hs2.
  destruct (flushed_good _ _ Hw1 Hflush) as (Hg & _). pose proof (open_empty w2 d Hg Hd2 Hs2) as Hw2.
  split; [by apply open_stored|].
  assert (∃ f, uploaded_files d !! key = Some f ∧ f_tenant_id f = t) as (f & Hf & Ht).
  { unfold flush_result in Hflush.
    destruct (run_writes (all_writes (w_session w1)) (w_db w1)) as [d1|] eqn:E; [|discriminate Hflush].
    cbn in Hflush. case_decide; [|done]. injection Hflush as <-. destruct Hp as (Hd1 & _ & _ & Hs1). rewrite Hs1, Hd1 in E.
    unfold all_writes in E. cbn [s_flushed s_pending] in E. rewrite app_assoc, run_writes_app in E.
    match type of E with context [run_writes ?ws ?d] => destruct (run_writes ws d) as [d0|]; [|discriminate E] end.
    cbn in E. injection E as <-. cbn.
    rewrite lookup_insert_eq. eexists. split; [done|apply my_tenant]. }
  apply wpi_frame; [done|by apply open_stored|]. intros w3 r w' Hadv [-> ->].
  pose proof (open_advance _ _ Hw2 Hadv) as Hw3. rewrite (advance_db _ _ Hadv), (advance_session _ _ Hadv), Hs2, Hd2.
  cbn. rewrite Hf. done.
Qed.

Lemma uploader_is_me : serves (uploader me) (λ u, u = me).
Proof.
  unfold uploader. apply serves_of_result. unfold require_permission. destruct (negb _); [done|]. by intros ? [= <-].
Qed.

Lemma serves_upload file : serves (upload s me file) (λ f, f_tenant_id f = t).
Proof.
  unfold upload. do 2 (eapply serves_bind with (P := λ _, True); [by apply serves_of_result|intros ? _]).
  eapply serves_bind with (P := λ _, True); [by apply serves_of_result|intros [spool size] _].
  do 2 (eapply serves_bind with (P := λ _, True); [by apply serves_of_result|intros ? _]).
  eapply serves_bind; [apply serves_not_db, not_db_scan|intros ? _].
  eapply serves_bind with (P := λ _, True); [by apply serves_of_result|intros ? _].
  eapply serves_bind; [apply serves_not_db, not_db_build_object_key|intros ? _].
  eapply serves_bind; [apply serves_not_db, not_db_except_boto; by apply keeps_call|intros ? _].
  apply serves_store_file.
Qed.

Lemma serves_complete object_key filename content_type size :
  serves (complete_presigned_upload s me object_key filename content_type size) (λ f, f_tenant_id f = t).
Proof.
  unfold complete_presigned_upload.
  do 4 (eapply serves_bind with (P := λ _, True); [by apply serves_of_result|intros ? _]).
  eapply serves_bind.
  { apply serves_not_db. unfold verify_stored_object_metadata, get_object_metadata.
    apply keeps_bind; [|intros ?; apply keeps_bind; [apply keeps_of_result|done]].
    apply keeps_bind; [apply not_db_except_client; by apply keeps_call|done]. }
  intros ? _. eapply serves_bind; [apply serves_store_file|]. intros f Hf.
  eapply serves_bind; [|intros ? _; by apply serves_ret]. apply serves_not_db.
  unfold enqueue_verify_presigned_upload_job, enqueue_job, uuid7, now_us, read_proc, on_proc. solve_keeps.
Qed.

Lemma serves_presigned_upload filename content_type :
  serves (create_presigned_upload s presign me filename content_type) (λ _, True).
Proof.
  apply serves_not_db. unfold create_presigned_upload, verify_bucket_access, generate_presigned_upload_url, presigned.
  do 2 (apply keeps_bind; [apply keeps_of_result|intros ?]).
  apply keeps_bind; [apply not_db_except_boto; by apply keeps_call|intros ?].
  apply keeps_bind; [apply not_db_build_object_key|intros ?].
  apply keeps_bind; [|done]. apply keeps_bind; [apply keeps_of_result|done].
Qed.

Lemma serves_download_url k : serves (get_download_url s presign k me) (λ _, True).
Proof.
  unfold get_download_url. rewrite my_tenant. eapply serves_bind; [apply serves_get_uploaded_file|].
  intros [f|] _; [|apply serves_raise]. unfold get_presigned_download_url. destruct (negb _); [apply serves_raise|].
  eapply serves_bind with (P := λ _, True); [by apply serves_of_result|intros ? _].
  apply serves_not_db, not_db_except_boto. unfold generate_presigned_download_url, presigned.
  apply keeps_bind; [apply keeps_of_result|done].
Qed.

Lemma serves_delete_file k : serves (delete_file k me) (λ _, True).
Proof.
  unfold delete_file. rewrite my_tenant. eapply serves_bind; [apply serves_get_uploaded_file|].
  intros [f|] Hf; [|apply serves_raise]. unfold delete_uploaded_file. destruct (negb _); [apply serves_raise|].
  eapply serves_bind; [apply serves_not_db, not_db_except_boto; by apply keeps_call|intros ? _].
  eapply serves_bind; [by apply serves_delete_row, harmless_delete_file|intros ? _]. apply serves_commit.
Qed.

(** *** Tenants *)

Lemma serves_permitted p :
  serves (permitted p me) (λ u, u = me ∧ user_has_permission me p = true).
Proof.
  unfold permitted. apply serves_of_result. unfold require_permission, user_has_any_permission. cbn.
  rewrite orb_false_r. change (bool_decide (p ∈ get_permissions_for_role (u_role me))) with (user_has_permission me p).
  destruct (user_has_permission me p); [|done]. by intros ? [= <-].
Qed.

Section manager.
Hypothesis Hmanages : manages = true.

Lemma set_tenant_keeps f r r' : (∃ n, f = set_tenant_name n) ∨ (∃ b, f = set_tenant_is_active b) →
  f r = Some r' → t_id r' = t_id r.
Proof. intros [[n ->]|[b ->]]; by intros [= <-]. Qed.

Lemma serves_add_tenant slug name : serves (add_tenant slug name) (λ _, True).
Proof.
  unfold add_tenant. eapply serves_mono; [|apply serves_add]; [done|].
  intros d key created _ _. by apply harmless_add_tenant.
Qed.

Lemma serves_true {A} (p : prog A) P : serves p P → serves p (λ _, True).
Proof. by apply serves_mono. Qed.

Lemma serves_create_tenant slug name : serves (create_tenant slug name) (λ _, True).
Proof.
  unfold create_tenant, get_tenant_by_slug. eapply serves_bind; [apply serves_first|].
  intros [r|] _; [apply serves_raise|]. eapply serves_bind; [apply serves_add_tenant|intros ? _].
  eapply serves_bind; [apply serves_commit|intros ? _]. eapply serves_true, serves_refresh.
Qed.

Lemma serves_update_tenant k name is_active : serves (update_tenant k name is_active) (λ _, True).
Proof.
  unfold update_tenant, get_tenant_by_id. eapply serves_bind; [apply serves_first|].
  intros [r|] _; [|by apply serves_ret].
  eapply serves_bind with (P := λ _, True).
  { destruct name; [|by apply serves_ret]. apply serves_set_row, harmless_set_tenant; [done|].
    intros ? ?. apply set_tenant_keeps. eauto. }
  intros _ _. eapply serves_bind with (P := λ _, True).
  { destruct is_active; [|by apply serves_ret]. apply serves_set_row, harmless_set_tenant; [done|].
    intros ? ?. apply set_tenant_keeps. eauto. }
  intros _ _. eapply serves_bind; [apply serves_commit|intros ? _].
  eapply serves_bind; [eapply serves_true, serves_refresh|intros ? _]. by apply serves_ret.
Qed.

Lemma serves_provision slug name : serves (provision_tenant slug name (u_id me) t) (λ _, True).
Proof.
  unfold provision_tenant. eapply serves_bind; [apply serves_create_tenant|intros ? _].
  eapply serves_bind; [apply serves_audit|intros ? _]. by apply serves_ret.
Qed.

Lemma serves_active_state k b : serves (set_tenant_active_state k b (u_id me) t) (λ _, True).
Proof.
  unfold set_tenant_active_state. eapply serves_bind; [apply serves_update_tenant|].
  intros [r|] _; [|by apply serves_ret]. eapply serves_bind; [apply serves_audit|intros ? _]. by apply serves_ret.
Qed.
End manager.

(** *** Every route *)

Definition manages_tenants : Prop := u_role me = "platform_admin" → manages = true.

Lemma tenants_permission p :
  manages_tenants → startswith (value p) "tenants." = true → user_has_permission me p = true → manages = true.
Proof.
  intros Hm Hp Hhas. apply Hm. apply user_has_permission_spec in Hhas.
  destruct (role_cases (u_role me)) as [E|[E|[E|[E _]]]]; [..|by apply no_role in Hhas]; rewrite E in *; [..|done];
    exfalso; revert Hhas; apply (bool_decide_unpack _); destruct p; try discriminate Hp; vm_compute; exact Logic.I.
Qed.

Definition listed (page : UserListPage) : Prop := users_cache_enabled s = false → Forall item_of_own (ulp_items page).

Definition allowed (a : answer) : Prop :=
  match a with
  | AUser u => u_tenant_id u = t
  | AUserPage page => listed page
  | AAuditLogs logs => Forall (λ l, al_tenant_id l = t) logs
  | ATenant _ | ATenants _ => manages = true
  | AFile f => f_tenant_id f = t
  | AMessage _ | APresignedUpload _ _ | AUrl _ | ANothing => True
  end.

Lemma serves_validated b : serves (validated b) (λ _, True).
Proof. destruct b; [by apply serves_ret|apply serves_raise]. Qed.

Lemma serves_answer {A} (p : prog A) (f : A → answer) P :
  serves p P → (∀ a, P a → allowed (f a)) → serves (a ← p; Ret (f a)) allowed.
Proof. intros Hp Hf. eapply serves_bind; [exact Hp|]. intros a Ha. apply serves_ret, Hf, Ha. Qed.

(** A route that requires a permission, with valid parameters. *)
Lemma serves_guarded {A} p (k : User → prog A) Q :
  (user_has_permission me p = true → serves (k me) Q) → serves (current_user ← permitted p me; k current_user) Q.
Proof. intros Hk. eapply serves_bind; [apply serves_permitted|]. intros u [-> Hp]. auto. Qed.

Lemma serves_checked {A} b (p : prog A) Q : serves p Q → serves (_ ← validated b; p) Q.
Proof. intros Hp. eapply serves_bind; [apply serves_validated|]. by intros _ _. Qed.

Lemma serves_audit_logs page size action admin_id target :
  serves (list_audit_logs page size action admin_id target me) (Forall (λ l, al_tenant_id l = t)).
Proof.
  unfold list_audit_logs. apply serves_guarded. intros _. unfold get_audit_logs. rewrite my_tenant.
  eapply serves_mono; [|apply serves_select]. intros res Hres. apply Forall_forall. intros l Hl.
  destruct (Hres l Hl) as [Hq _]. cbn in Hq. rewrite !andb_true_iff in Hq. apply Z.eqb_eq. tauto.
Qed.

Lemma serves_patch_tenant k upd : manages = true → serves (patch_tenant k upd me) (λ _, True).
Proof.
  intros Hm. unfold patch_tenant. apply serves_guarded. intros _. rewrite my_tenant.
  assert (serves (tenant ← get_tenant_by_id k;
    match tenant with
    | None => Raise tenant_not_found
    | Some tenant =>
        tenant ← match tu_name upd with Some name => update_tenant k (Some name) None | None => Ret (Some tenant) end;
        tenant ← match tu_is_active upd with
                 | Some is_active => set_tenant_active_state k is_active (u_id me) t | None => Ret tenant end;
        match tenant with None => Raise tenant_not_found | Some t => Ret t end
    end) (λ _, True)) as Hrest.
  { eapply serves_bind; [apply serves_first|]. intros [r|] _; [|apply serves_raise].
    eapply serves_bind with (P := λ _, True).
    { destruct (tu_name upd); [by apply serves_update_tenant|by apply serves_ret]. }
    intros o _. eapply serves_bind with (P := λ _, True).
    { destruct (tu_is_active upd); [by apply serves_active_state|by apply serves_ret]. }
    intros [r'|] _; [by apply serves_ret|apply serves_raise]. }
  destruct (tu_name upd), (tu_is_active upd); [exact Hrest..|apply serves_raise].
Qed.

Lemma serves_every_route r : manages_tenants → serves (serve_route s presign r me) allowed.
Proof.
  intros Hm. destruct r; cbn [serve_route].
  - apply serves_ret. exact my_tenant.
  - unfold users_list_route. apply serves_guarded. intros _. apply serves_checked.
    eapply serves_answer; [apply serves_list_users|]. done.
  - eapply serves_answer; [apply serves_get_user|]. by intros u [? _].
  - unfold user_patch_route. apply serves_checked. eapply serves_answer; [apply serves_patch_user|]. by intros u [? _].
  - unfold user_deactivate_route. apply serves_guarded. intros _.
    eapply serves_answer; [apply serves_deactivate|]. by intros u [? _].
  - unfold user_activate_route. apply serves_guarded. intros _.
    eapply serves_answer; [apply serves_activate|]. by intros u [? _].
  - unfold user_delete_route. apply serves_guarded. intros _.
    eapply (serves_answer _ (λ _, ANothing)); [apply serves_remove_user|]. done.
  - eapply serves_answer; [|done]. unfold admin_panel. apply serves_guarded. intros _. by apply (serves_ret _ (λ _, True)).
  - unfold audit_logs_route. apply serves_guarded. intros _. apply serves_checked.
    eapply serves_answer; [apply serves_audit_logs|]. done.
  - unfold tenant_create_route. apply serves_guarded. intros Hp%tenants_permission; [|done..]. apply serves_checked.
    eapply serves_answer with (P := λ _, True); [|done]. unfold create_tenant_endpoint. apply serves_guarded. intros _.
    eapply serves_bind with (P := λ _, True); [by apply serves_of_result|intros ? _].
    rewrite my_tenant. by apply serves_provision.
  - unfold tenants_route. apply serves_guarded. intros Hp%tenants_permission; [|done..]. apply serves_checked.
    eapply serves_answer with (P := λ _, True); [|done]. unfold list_tenant_records. apply serves_guarded. intros _.
    eapply serves_true, serves_select.
  - eapply serves_answer with (P := λ _, manages = true); [|done]. unfold get_tenant. apply serves_guarded.
    intros Hp%tenants_permission; [|done..]. eapply serves_bind; [apply serves_first|].
    intros [r|] _; [by apply serves_ret|apply serves_raise].
  - unfold tenant_patch_route. apply serves_guarded. intros Hp%tenants_permission; [|done..]. apply serves_checked.
    eapply serves_answer with (P := λ _, True); [by apply serves_patch_tenant|done].
  - eapply serves_answer with (P := λ f, f_tenant_id f = t); [|done]. unfold upload_file.
    eapply serves_bind; [apply uploader_is_me|]. intros u ->. apply serves_upload.
  - eapply (serves_answer _ (λ r, APresignedUpload (fst r) (snd r))) with (P := λ _, True); [|done].
    unfold create_presigned_upload_endpoint. eapply serves_bind; [apply uploader_is_me|]. intros u ->.
    apply serves_presigned_upload.
  - unfold presigned_complete_route. eapply serves_bind; [apply uploader_is_me|]. intros u ->. apply serves_checked.
    eapply serves_answer with (P := λ f, f_tenant_id f = t); [|done]. unfold complete_presigned_upload_endpoint.
    eapply serves_bind; [apply uploader_is_me|]. intros u ->. apply serves_complete.
  - eapply serves_answer; [apply serves_download_url|]. done.
  - eapply (serves_answer _ (λ _, ANothing)); [apply serves_delete_file|]. done.
Qed.
End endpoints.

(** The user of the request is one of the database. *)
Lemma serves_current_user s credentials header :
  serves (get_current_user s credentials header) (stored_row TUser).
Proof.
  unfold get_current_user. eapply serves_bind with (P := λ _, True).
  { apply serves_catch; [|intros e; destruct (is_jwt_error e || is_value_error e); eauto].
    apply serves_away. unfold decode_token, now_us. solve_keeps. }
  intros [[uid tid] version] _. eapply serves_bind; [apply serves_first|]. intros [u|] Hu; [|apply serves_raise].
  destruct Hu as [_ Hu]. destruct (negb (u_is_active u)); [apply serves_raise|].
  destruct (negb (u_token_version u =? version)); [apply serves_raise|].
  eapply serves_bind; [apply serves_first|]. intros tenant _.
  eapply serves_bind with (P := λ _, True); [by apply serves_of_result|intros _ _].
  eapply serves_bind with (P := λ _, True).
  { destruct header as [slug|]; [|by apply serves_ret]. eapply serves_bind with (P := λ _, True).
    - unfold get_active_tenant_by_slug. eapply serves_bind; [apply serves_first|].
      intros [r|] _; [|apply serves_raise]. destruct (negb _); [apply serves_raise|by apply serves_ret].
    - intros r _. by apply serves_of_result. }
  intros _ _. eapply serves_bind; [apply serves_away; by apply keeps_call|intros _ _].
  eapply serves_bind with (P := λ _, True).
  { destruct tenant; [|by apply serves_ret]. apply serves_away. by apply keeps_call. }
  intros _ _. by apply serves_ret.
Qed.
End programs.
End tenant.

(** ** Runs *)

Section traces.
Context `{Services W}.

Lemma trace_bind {A B} (P : W → Prop) (p : prog A) (f : A → prog B) w :
  Forall P (trace p w) → (∀ a w', run p w = (Ok a, w') → Forall P (trace (f a) w')) →
  Forall P (trace (bind p f) w).
Proof.
  revert w. induction p as [a|e|B' c k IH]; intros w; cbn [trace bind run].
  - intros _ Hf. by apply Hf.
  - done.
  - destruct (serve c w) as [r w1]. intros [Hw Hk]%Forall_cons Hf. constructor; [done|]. by apply IH.
Qed.

Lemma trace_last {A} (P : W → Prop) (p : prog A) w : Forall P (trace p w) → P (snd (run p w)).
Proof.
  revert w. induction p as [a|e|B' c k IH]; intros w; cbn [trace run].
  - by intros [? _]%Forall_cons.
  - by intros [? _]%Forall_cons.
  - destruct (serve c w) as [r w1]. intros [_ Hk]%Forall_cons. by apply IH.
Qed.

Lemma trace_finally {A} (P : W → Prop) (p : prog A) (q : prog unit) w :
  Forall P (trace p w) → (∀ w', P w' → Forall P (trace q w')) → Forall P (trace (finally p q) w).
Proof.
  intros Hp Hq. revert w Hp. induction p as [a|e|B' c k IH]; intros w; cbn [trace finally].
  - intros [Hw _]%Forall_cons. apply trace_bind; [by apply Hq|]. intros [] w' Hr.
    constructor; [|done]. pose proof (trace_last P q w (Hq w Hw)) as Hl. by rewrite Hr in Hl.
  - intros [Hw _]%Forall_cons. apply trace_bind; [by apply Hq|]. intros [] w' Hr.
    constructor; [|done]. pose proof (trace_last P q w (Hq w Hw)) as Hl. by rewrite Hr in Hl.
  - destruct (serve c w) as [r w1]. intros [Hw Hk]%Forall_cons. constructor; [done|]. by apply IH.
Qed.
End traces.

Lemma trace_close `{ServicesSpec faults W} (P : tables → Prop) w :
  P (w_db (view w)) → Forall (λ w', P (w_db (view w'))) (trace (db Close) w).
Proof.
  intros HP. destruct (wpi_trace (stored (λ d _ _, P d)) (db Close) (λ _ _, True) w) as [Hall _]; [|exact Hall].
  apply wpi_call; [exact HP|]. intros r w' Hs. split; [|done].
  unfold stored. by rewrite (svc_db_frame faults (Db Close) _ _ _ eq_refl Hs).
Qed.

(** Only a run that ends normally has a result. *)
Lemma run_in_session_ok `{Services W} {A} (p : prog A) w a :
  fst (run (in_session p) w) = Ok a → fst (run p w) = Ok a.
Proof.
  unfold in_session. rewrite run_finally. destruct (run p w) as [r w1].
  by destruct (run (db Close) w1) as [[[]|e] w2].
Qed.

Lemma no_commit_current_user `{Crypto} s credentials header :
  no_commit (get_current_user s credentials header).
Proof.
  unfold no_commit, get_current_user, decode_token, now_us, get_user_by_id, tenant_of, get_tenant_by_id,
    get_active_tenant_by_slug, get_tenant_by_slug, first, set_proc, on_proc. solve_keeps.
Qed.

(** The files of the other tenants are owned by users of theirs. *)
Lemma others_owners m t d :
  constraints d → files_in_tenant d →
  map_Forall (λ _ f, is_Some (users (others m t d) !! f_owner_id f)) (uploaded_files (others m t d)).
Proof.
  intros [_ (_ & _ & _ & _ & _ & Hfk)] Hfiles i f Hf. cbn in Hf |- *. unfold of_another in *.
  apply map_lookup_filter_Some in Hf as [Hf Hne]. destruct (Hfk i f Hf) as [u Hu]. cbn in Hu.
  specialize (Hfiles i f Hf). cbn in Hfiles. rewrite Hu in Hfiles. exists u. apply map_lookup_filter_Some.
  split; [done|]. congruence.
Qed.

Definition manager (me : User) : bool := bool_decide (u_role me = "platform_admin").

(** What holds of a request of the user [me] from the tables [d0] on. *)
Definition isolated (me : User) (d0 d : tables) : Prop :=
  keyed d ∧ files_in_tenant d ∧
  others (manager me) (u_tenant_id me) d = others (manager me) (u_tenant_id me) d0.


(** Two tenants; the administrator of the first one deletes a user. *)
Definition neighbour : User :=
  {| u_id := 3; u_tenant_id := 2; u_email := "u@x.org"; u_hashed_password := "";
     u_is_active := true; u_role := "user"; u_token_version := 0 |}.
Definition two_tenants : world :=
  with_db (set_table TUploadedFile
      {[7 := {| f_id := 7; f_tenant_id := 2; f_owner_id := 3; f_object_key := "k"; f_filename := "f";
                f_content_type := "image/png"; f_size_bytes := 1; f_verification_status := "verified";
                f_created_at := 0 |}]}
    (set_table TUser {[1 := an_admin; 2 := a_user; 3 := neighbour]}
    (set_table TTenant {[1 := a_tenant;
       2 := {| t_id := 2; t_slug := "acme"; t_name := "A"; t_is_active := true |}]} empty_tables)))
    empty_session (world_at 1000).
Definition admin_minted : result exn (string * string) * world :=
  run (token_pair small_settings an_admin) two_tenants.
Definition admin_access : string := match fst admin_minted with Ok (a, _) => a | Err _ => "" end.

Definition admin_requests : prog answer :=
  handle small_settings (λ _ _ _, Ok "url") admin_access None (DeleteUser 2).

