(* ===== verification/Schemas.v ===== *)
(** * Response models

    The response schemas of [app/schemas] and the [response_model] and
    [status_code] of every authenticated route of [app/api/routes].  A schema is
    a value of [ftype]; [serialize] is what FastAPI does with the object a route
    returns: each declared field is read from it and checked, the others are left
    out, and an object that does not fit raises [ResponseValidationError].
    [EmailStr] and the text of a datetime are pydantic's, the class [Pydantic];
    a time is an integer of microseconds. *)

From Stdlib Require Import ZArith Ascii String Lia.
From stdpp Require Import base tactics option list gmap strings.
From S2P Require Import Prelude PyText Json Errors Config Models Services Programs.
From S2P Require Import Cursor Users Storage Admin Api Idempotency.
Set Warnings "-register-all".
Local Open Scope string_scope.
Local Open Scope list_scope.
Local Open Scope Z_scope.

(** [EmailStr]: the normalised address, when the text is an address; and a
    datetime in JSON. *)
Class Pydantic := {
  email_str : string → option string;
  datetime_text : Z → string;
}.

(** An address as [EmailStr] gives it. *)
Definition is_email `{Pydantic} (e : string) : bool := bool_decide (email_str e = Some e).

(** ** Types of fields *)

Inductive ftype : Type :=
| TInt
| TBool
| TStr
| TEmail
| TDatetime
| TLiteral (values : list string)
| TListOrDict
| TOptional (t : ftype)
| TListOf (t : ftype)
| TDict (t : ftype)
| TModel (fields : list (string * ftype * option json)).   (* the default, if any *)

#[export] Instance ftype_eq_dec : EqDecision ftype.
Proof.
  refine (fix go (x y : ftype) : Decision (x = y) :=
    match x, y with
    | TInt, TInt | TBool, TBool | TStr, TStr | TEmail, TEmail | TDatetime, TDatetime
    | TListOrDict, TListOrDict => left _
    | TLiteral a, TLiteral b => cast_if (decide (a = b))
    | TOptional a, TOptional b | TListOf a, TListOf b | TDict a, TDict b => cast_if (go a b)
    | TModel a, TModel b =>
        cast_if (@list_eq_dec _ (@prod_eq_dec _ (@prod_eq_dec _ _ _ go) _ _) a b)
    | _, _ => right _
    end); clear go; congruence.
Defined.

Section serialize.
Context `{Pydantic}.

(** The declared fields of an object, in their order. *)
Definition serialize_fields (ser : ftype → json → option json) (attrs : list (string * json)) :
    list (string * ftype * option json) → option (list (string * json)) :=
  fix go fields :=
    match fields with
    | [] => Some []
    | (name, t, default) :: fields' =>
        x ← match dict_get name attrs with Some x => ser t x | None => default end;
        rest ← go fields';
        Some ((name, x) :: rest)
    end.

(** A value as a field of the type: what is sent, when it fits. *)
Fixpoint serialize (t : ftype) (v : json) {struct t} : option json :=
  match t with
  | TInt => match v with JInt _ => Some v | _ => None end
  | TBool => match v with JBool _ => Some v | _ => None end
  | TStr => match v with JStr _ => Some v | _ => None end
  | TEmail => match v with JStr e => JStr <$> email_str e | _ => None end
  | TDatetime => match v with JInt us => Some (JStr (datetime_text us)) | _ => None end
  | TLiteral values => match v with JStr x => if one_of values x then Some v else None | _ => None end
  | TListOrDict => match v with JList _ | JObj _ => Some v | _ => None end
  | TOptional t' => match v with JNull => Some JNull | _ => serialize t' v end
  | TListOf t' => match v with JList l => JList <$> mapM (serialize t') l | _ => None end
  | TDict t' =>
      match v with
      | JObj kvs => JObj <$> mapM (λ '(k, x), y ← serialize t' x; Some (k, y)) kvs
      | _ => None
      end
  | TModel fields =>
      match v with
      | JObj attrs => JObj <$> serialize_fields serialize attrs fields
      | _ => None
      end
  end.

(** [serialize_response] *)
Definition serialize_response (model : option ftype) (content : json) : result exn json :=
  match model with
  | Some t => result_of_option ResponseValidationError (serialize t content)
  | None => Ok content
  end.
End serialize.

(** ** [app/schemas] *)

Definition required (name : string) (t : ftype) : string * ftype * option json := (name, t, None).
Definition optional (name : string) (t : ftype) : string * ftype * option json :=
  (name, TOptional t, Some JNull).

Definition UserRead : ftype := TModel
  [required "id" TInt; required "email" TEmail; required "is_active" TBool; required "role" TStr].
Definition UserListPageSchema : ftype := TModel
  [required "items" (TListOf UserRead); optional "next_cursor" TStr].

Definition TenantRead : ftype := TModel
  [required "id" TInt; required "slug" TStr; required "name" TStr; required "is_active" TBool].

Definition AuditLogRead : ftype := TModel
  [required "id" TInt; required "admin_id" (TOptional TInt); required "action" (TLiteral AuditAction);
   required "target_user_id" (TOptional TInt); required "created_at" TDatetime].

Definition UploadedFileRead : ftype := TModel
  [required "id" TInt; required "owner_id" TInt; required "object_key" TStr; required "filename" TStr;
   required "content_type" TStr; required "size_bytes" TInt; required "verification_status" TStr;
   required "created_at" TDatetime].
Definition PresignedUploadResponse : ftype := TModel
  [required "object_key" TStr; required "upload_url" TStr; required "expires_in_seconds" TInt].
Definition PresignedDownloadUrlRead : ftype := TModel
  [required "download_url" TStr; required "expires_in_seconds" TInt].

Definition Token : ftype := TModel
  [required "access_token" TStr; required "refresh_token" TStr;
   ("token_type", TStr, Some (JStr "bearer"))].
Definition MessageResponse : ftype := TModel [required "message" TStr].

Definition ErrorBody : ftype := TModel
  [required "code" TStr; required "message" TStr; optional "details" TListOrDict].
Definition ErrorResponse : ftype := TModel [required "error" ErrorBody].

Definition HealthState : list string := ["ok"; "unavailable"].
Definition HealthStatus : ftype := TModel [required "status" (TLiteral HealthState)].
Definition DependencyHealthSchema : ftype := TModel
  [required "status" (TLiteral HealthState); optional "message" TStr].
Definition ReadinessHealthSchema : ftype := TModel
  [required "status" (TLiteral HealthState); required "checks" (TDict DependencyHealthSchema)].

Definition WebhookInboundResponse : ftype := TModel
  [required "status" TStr; required "provider" TStr; required "event_id" TStr].

(** ** What the routes return *)

(** The attributes of the rows: every column. *)
Definition user_attrs (u : User) : json :=
  JObj [("id", JInt (u_id u)); ("tenant_id", JInt (u_tenant_id u)); ("email", JStr (u_email u));
        ("hashed_password", JStr (u_hashed_password u)); ("is_active", JBool (u_is_active u));
        ("role", JStr (u_role u)); ("token_version", JInt (u_token_version u))].
Definition tenant_attrs (t : Tenant) : json :=
  JObj [("id", JInt (t_id t)); ("slug", JStr (t_slug t)); ("name", JStr (t_name t));
        ("is_active", JBool (t_is_active t))].
Definition audit_log_attrs (l : AuditLog) : json :=
  JObj [("id", JInt (al_id l)); ("tenant_id", JInt (al_tenant_id l));
        ("admin_id", opt_json JInt (al_admin_id l)); ("action", JStr (al_action l));
        ("target_user_id", opt_json JInt (al_target_user_id l)); ("created_at", JInt (al_created_at l))].
Definition file_attrs (f : UploadedFile) : json :=
  JObj [("id", JInt (f_id f)); ("tenant_id", JInt (f_tenant_id f)); ("owner_id", JInt (f_owner_id f));
        ("object_key", JStr (f_object_key f)); ("filename", JStr (f_filename f));
        ("content_type", JStr (f_content_type f)); ("size_bytes", JInt (f_size_bytes f));
        ("verification_status", JStr (f_verification_status f)); ("created_at", JInt (f_created_at f))].

Definition answer_attrs (a : answer) : json :=
  match a with
  | AUser u => user_attrs u
  | AUserPage page => JObj [("items", JList (ulp_items page)); ("next_cursor", ulp_next_cursor page)]
  | AMessage body => body
  | AAuditLogs logs => JList (audit_log_attrs <$> logs)
  | ATenant t => tenant_attrs t
  | ATenants ts => JList (tenant_attrs <$> ts)
  | AFile f => file_attrs f
  | APresignedUpload object_key u =>
      JObj [("object_key", JStr object_key); ("upload_url", JStr (url u));
            ("expires_in_seconds", JInt (expires_in_seconds u))]
  | AUrl u => JObj [("download_url", JStr (url u)); ("expires_in_seconds", JInt (expires_in_seconds u))]
  | ANothing => JNull
  end.

(** ** The decorators of the routes *)

Definition response_model (r : route) : option ftype :=
  match r with
  | GetMe | GetUser _ | PatchUser _ _ | DeactivateUser _ | ActivateUser _ => Some UserRead
  | GetUsers _ _ _ => Some UserListPageSchema
  | GetAuditLogs _ _ _ _ _ => Some (TListOf AuditLogRead)
  | PostTenant _ _ | GetTenant _ | PatchTenant _ _ => Some TenantRead
  | GetTenants _ _ _ => Some (TListOf TenantRead)
  | PostFile _ | PostPresignedComplete _ _ _ _ => Some UploadedFileRead
  | PostPresignedUpload _ _ => Some PresignedUploadResponse
  | GetDownloadUrl _ => Some PresignedDownloadUrlRead
  | GetAdmin | DeleteUser _ | DeleteFile _ => None
  end.

Definition status_code (r : route) : Z :=
  match r with
  | PostTenant _ _ | PostFile _ | PostPresignedComplete _ _ _ _ => 201
  | DeleteUser _ | DeleteFile _ => 204
  | _ => 200
  end.

(** The response of a route that has returned. *)
Definition response_of `{Pydantic} (r : route) (a : answer) : result exn response :=
  match serialize_response (response_model r) (answer_attrs a) with
  | Ok body => Ok (json_response (status_code r) body)
  | Err e => Err e
  end.

(** ** Facts *)

(** A type that refuses nothing a check of it accepted: the keys of what is sent
    are those the type declares. *)
Fixpoint json_keys (v : json) : list string :=
  match v with
  | JList l => concat (map json_keys l)
  | JObj kvs => concat (map (λ '(k, x), k :: json_keys x) kvs)
  | _ => []
  end.

(** No free part: every object that is sent has declared members. *)
Fixpoint closed_type (t : ftype) : bool :=
  match t with
  | TListOrDict | TDict _ => false
  | TOptional t' | TListOf t' => closed_type t'
  | TModel fields => forallb (λ '(_, t', d), closed_type t' &&
                       match d with Some x => bool_decide (json_keys x = []) | None => true end) fields
  | _ => true
  end.

Fixpoint type_keys (t : ftype) : list string :=
  match t with
  | TOptional t' | TListOf t' | TDict t' => type_keys t'
  | TModel fields => concat (map (λ '(name, t', _), name :: type_keys t') fields)
  | _ => []
  end.

Section ftype_ind.
Context (P : ftype → Prop).
Hypothesis Hbase : ∀ t, match t with TOptional _ | TListOf _ | TDict _ | TModel _ => True | _ => P t end.
Hypothesis Hoptional : ∀ t, P t → P (TOptional t).
Hypothesis Hlist : ∀ t, P t → P (TListOf t).
Hypothesis Hdict : ∀ t, P t → P (TDict t).
Hypothesis Hmodel : ∀ fields, Forall (λ f, P (f.1.2)) fields → P (TModel fields).

Fixpoint ftype_nested_ind (t : ftype) : P t :=
  match t with
  | TOptional t' => Hoptional t' (ftype_nested_ind t')
  | TListOf t' => Hlist t' (ftype_nested_ind t')
  | TDict t' => Hdict t' (ftype_nested_ind t')
  | TModel fields =>
      Hmodel fields ((fix go fs : Forall (λ f, P (f.1.2)) fs :=
        match fs with
        | [] => Forall_nil_2 _
        | f :: fs' => Forall_cons_2 _ _ _ (ftype_nested_ind (f.1.2)) (go fs')
        end) fields)
  | t' => Hbase t'
  end.
End ftype_ind.

Section facts.
Context `{Pydantic}.

Lemma serialize_fields_cons name t d fields attrs :
  serialize_fields serialize attrs ((name, t, d) :: fields) =
    x ← match dict_get name attrs with Some x => serialize t x | None => d end;
    rest ← serialize_fields serialize attrs fields;
    Some ((name, x) :: rest).
Proof. done. Qed.

Lemma mapM_keys (t : ftype) l l' :
  (∀ v b, serialize t v = Some b → json_keys b ⊆ type_keys t) →
  mapM (serialize t) l = Some l' → concat (map json_keys l') ⊆ type_keys t.
Proof.
  intros Ht. revert l'. induction l as [|v l IH]; intros l'; cbn;
    [intros [= <-]; apply list_subseteq_nil|].
  destruct (serialize t v) as [b|] eqn:E; [|done]. cbn.
  destruct (mapM (serialize t) l) as [bs|]; [|done]. cbn. intros [= <-]. cbn.
  apply list_subseteq_app_iff_l. split; [by eapply Ht|by apply IH].
Qed.

(** What is sent has no members but the declared ones. *)
Lemma serialize_keys t v b :
  closed_type t = true → serialize t v = Some b → json_keys b ⊆ type_keys t.
Proof.
  revert v b. pattern t. apply ftype_nested_ind; clear t;
    [intros t|intros t IH v b|intros t IH v b|intros t IH v b|intros fields IH v b].
  - destruct t; try done; intros v b _; cbn; destruct v; cbn; try done.
    all: try (intros [= <-]; apply list_subseteq_nil).
    + destruct (email_str s); [|done]. intros [= <-]. apply list_subseteq_nil.
    + destruct (one_of values s); [|done]. intros [= <-]. apply list_subseteq_nil.
  - cbn [closed_type serialize type_keys]. intros Hc. destruct v; try (apply IH; exact Hc). intros [= <-]. apply list_subseteq_nil.
  - cbn [closed_type serialize type_keys]. intros Hc. destruct v; try done.
    destruct (mapM (serialize t) l) as [l'|] eqn:E; [|done]. intros [= <-]. cbn [json_keys].
    eapply mapM_keys; [|exact E]. intros v' b'. by apply IH.
  - done.
  - intros Hc. destruct v as [| | | | | |attrs]; try done. cbn [serialize].
    destruct (serialize_fields serialize attrs fields) as [kvs|] eqn:E; [|done]. intros [= <-].
    revert kvs E. induction fields as [|[[name t] d] fields IHf]; intros kvs.
    { intros [= <-]. apply list_subseteq_nil. }
    rewrite serialize_fields_cons. cbn [closed_type forallb] in Hc. apply andb_prop in Hc as [Hc1 Hc2].
    apply andb_prop in Hc1 as [Ht Hd]. apply Forall_cons in IH as [IHt IHfs]. cbn in IHt.
    destruct (match dict_get name attrs with Some x => serialize t x | None => d end) as [x|] eqn:Ex; [|done].
    cbn [mbind option_bind]. destruct (serialize_fields serialize attrs fields) as [rest|] eqn:Er; [|done].
    cbn [mbind option_bind]. intros [= <-]. specialize (IHf IHfs Hc2 _ eq_refl). cbn [json_keys type_keys map concat] in IHf |- *.
    apply list_subseteq_app_iff_l. split.
    + assert (json_keys x ⊆ type_keys t ∨ json_keys x = []) as Hx.
      { destruct (dict_get name attrs) as [y|]; [left; by eapply IHt|]. right. subst d. by apply bool_decide_eq_true in Hd. }
      intros k [->|Hk]%elem_of_cons; [by left|]. right. apply elem_of_app. left.
      destruct Hx as [Hx|Hx]; [by apply Hx|]. rewrite Hx in Hk. by apply elem_of_nil in Hk.
    + intros k Hk. right. apply elem_of_app. right. by apply IHf.
Qed.

(** A list of values each of which fits. *)
Lemma serialize_list (t : ftype) l :
  Forall (λ v, is_Some (serialize t v)) l → is_Some (serialize (TListOf t) (JList l)).
Proof.
  intros Hl. cbn [serialize]. apply fmap_is_Some. induction Hl as [|v l [b Hv] Hl [bs IH]]; [by eexists|].
  cbn. rewrite Hv. cbn. rewrite IH. by eexists.
Qed.

Lemma serialize_nullable (t : ftype) o (f : Z → json) :
  (∀ z, is_Some (serialize t (f z))) → is_Some (serialize (TOptional t) (opt_json f o)).
Proof. intros Hf. destruct o as [z|]; cbn; [|by eexists]. destruct (Hf z) as [b Hb]. destruct (f z); eauto. Qed.
End facts.
