(* ===== verification/PublicApi.v ===== *)
(** * The public routes

    The routes of [app/api/routes/auth.py] that need no token, with the
    dependencies FastAPI resolves before it calls them: the rate limit of the
    decorator first, then the session and the tenant of the request, then the
    check of the body.  At most [limit] requests of a client are handled in a
    window, whatever they do afterwards. *)

From Stdlib Require Import ZArith Ascii String Lia.
From stdpp Require Import base tactics option list gmap strings.
From S2P Require Import Prelude PyText Json Errors Config Models Permissions Services Programs.
From S2P Require Import RedisFacts Tickets Reference Ids Tenants Cache Cursor Users JobQueue Auth Http RateLimit.
From S2P Require Import UserMutations Idempotency PasswordReset Storage Admin Api AuthSafety Schemas.
Local Open Scope string_scope.
Local Open Scope list_scope.
Local Open Scope Z_scope.

(** ** The bodies *)

Inductive public_route : Type :=
| PostRegister (email password : string)
| PostLogin (email password : string)
| PostRefresh (refresh_token : string)
| PostLogout (refresh_token : string)
| PostResetRequest (email : string)
| PostResetConfirm (token new_password : string).

(** [UserCreate.password], [PasswordResetConfirm] *)
Definition valid_new_password (password : string) : bool := 8 <=? slen password.
Definition valid_reset_confirm (token new_password : string) : bool :=
  (1 <=? slen token) && valid_new_password new_password.

Section public.
Context `{Crypto} (s : Settings).

(** [Depends(limiter)] *)
Definition limited_by (limiter : result exn (request → prog unit)) (rq : request) : prog unit :=
  limiter ← of_result limiter;
  limiter rq.

Definition tenant_header (rq : request) : option string := header rq "X-Tenant-Slug".

(** A [Token]. *)
Definition token_body (tokens : string * string) : json :=
  JObj [("access_token", JStr (fst tokens)); ("refresh_token", JStr (snd tokens));
        ("token_type", JStr "bearer")].
(** A [MessageResponse]. *)
Definition message_body (message : string) : json := JObj [("message", JStr message)].

(** ** The routes *)

Definition register_route (email password : string) (rq : request) : prog json :=
  _ ← limited_by (auth_register_rate_limit s) rq;
  in_session
    (tenant ← get_request_tenant (tenant_header rq);
     _ ← validated (valid_new_password password);
     if negb (registration_enabled s) then Raise (HTTPException 403 "Registration is disabled" [])
     else user ← create_user email password (t_id tenant); Ret (user_attrs user)).

(** What [login] does behind its limit. *)
Definition login_attempt (email password : string) (rq : request) : prog json :=
  in_session
    (tenant ← get_request_tenant (tenant_header rq);
     tokens ← login_user s email password (t_id tenant);
     Ret (token_body tokens)).

Definition login_route (email password : string) (rq : request) : prog json :=
  _ ← limited_by (auth_login_rate_limit s) rq;
  login_attempt email password rq.

Definition refresh_route (refresh_token : string) (rq : request) : prog json :=
  _ ← limited_by (auth_refresh_rate_limit s) rq;
  in_session (tokens ← rotate_refresh_token s refresh_token; Ret (token_body tokens)).

(** The route has no session. *)
Definition logout_route (refresh_token : string) (rq : request) : prog json :=
  _ ← limited_by (auth_logout_rate_limit s) rq;
  _ ← logout_user s refresh_token;
  Ret JNull.

(** The limit depends on the email and is asked in the route itself. *)
Definition request_reset_route (email : string) (rq : request) : prog json :=
  in_session
    (tenant ← get_request_tenant (tenant_header rq);
     message ← request_reset_password s rq email tenant;
     Ret (message_body message)).

Definition confirm_reset_route (token new_password : string) : prog json :=
  in_session
    (_ ← validated (valid_reset_confirm token new_password);
     message ← confirm_reset_password s token new_password;
     Ret (message_body message)).

Definition serve_public (r : public_route) (rq : request) : prog json :=
  match r with
  | PostRegister email password => register_route email password rq
  | PostLogin email password => login_route email password rq
  | PostRefresh refresh_token => refresh_route refresh_token rq
  | PostLogout refresh_token => logout_route refresh_token rq
  | PostResetRequest email => request_reset_route email rq
  | PostResetConfirm token new_password => confirm_reset_route token new_password
  end.
End public.

Definition public_model (r : public_route) : option ftype :=
  match r with
  | PostRegister _ _ => Some UserRead
  | PostLogin _ _ | PostRefresh _ => Some Token
  | PostLogout _ => None
  | PostResetRequest _ | PostResetConfirm _ _ => Some MessageResponse
  end.

Definition public_status (r : public_route) : Z := match r with PostLogout _ => 204 | _ => 200 end.

Definition public_response `{Pydantic} (r : public_route) (content : json) : result exn response :=
  match serialize_response (public_model r) content with
  | Ok body => Ok (json_response (public_status r) body)
  | Err e => Err e
  end.

(** ** Guessing passwords *)

(** The counter of the client in the window of its login attempts. *)
Definition login_key (s : Settings) (client : string) : string := "rate_limit:auth_login:" ++ client.

Section logins.
Context `{Crypto} (s : Settings) (client : string).

(** A login request of the client, or any code that leaves the counter alone. *)
Inductive login_or_other : prog json → Prop :=
| a_login email password rq :
    get_client_ip s rq = client → login_or_other (login_route s email password rq)
| another (q : prog unit) : keeps (leaves_key (login_key s client)) q → login_or_other (background q).

(** What happens behind the limit does not touch the counter. *)
Lemma login_attempt_leaves K email password rq :
  keeps (leaves_key K) (login_attempt s email password rq).
Proof.
  unfold login_attempt, in_session, get_request_tenant, get_active_tenant_by_slug, get_tenant_by_slug,
    login_user, authenticate_user, get_user_by_email, token_pair, create_access_token,
    create_refresh_token, create_token, uuid7, now_us, first, set_proc, on_proc.
  apply keeps_finally; [|by apply keeps_call]. solve_keeps.
Qed.

Lemma login_is_limited p :
  0 < auth_login_rate_limit_limit s → 0 < auth_login_rate_limit_window_seconds s → login_or_other p →
  limited (login_key s client) (auth_login_rate_limit_limit s) (auth_login_rate_limit_window_seconds s) p.
Proof.
  intros Hl Hw [email password rq <-|q Hq]; [|by apply limited_other].
  unfold login_route, limited_by, auth_login_rate_limit, rate_limit.
  rewrite (proj2 (Z.leb_gt _ 0) Hl), (proj2 (Z.leb_gt _ 0) Hw).
  apply (limited_request _ _ _ (λ _, login_attempt s email password rq)), login_attempt_leaves.
Qed.
End logins.


(** Eleven attempts with a wrong password, one after the other; ten are allowed. *)
Definition guess : prog json :=
  login_route small_settings "b@x.org" "guess"
    {| rq_method := "POST"; rq_path := "/api/v1/auth/login"; rq_headers := [];
       rq_client := Some "h"; rq_body := "" |}.
Definition guesses : list (prog json) * world :=
  schedule (concat (map (replicate 8) (seq 0 11))) (replicate 11 guess) two_users.

