(* ===== verification/OpenApi.v ===== *)
(** * The OpenAPI document

    [app/api/openapi.py]: the tags, the errors the routes document, and the
    document itself, which is FastAPI's with a description and a security scheme
    set in it, computed once.  The document FastAPI generates is an argument. *)

From Stdlib Require Import ZArith Ascii String Lia.
From stdpp Require Import base tactics option list strings.
From S2P Require Import Prelude PyText Json Errors JobQueue.
Local Open Scope string_scope.
Local Open Scope list_scope.
Local Open Scope Z_scope.

(** ** Tags and errors *)

Definition OPENAPI_TAGS : list (string * string) :=
  [("auth", "Registration, login, token refresh/logout, and password reset flows.");
   ("users", "User listing, profile reads, and self/admin updates.");
   ("admin", "Admin-only operations and audit log inspection.");
   ("files", "Authenticated file uploads backed by object storage.");
   ("health", "Process and dependency health checks for orchestration.");
   ("metrics", "Prometheus-compatible application metrics.");
   ("webhooks", "Signed inbound webhook processing with replay protection.")].

Definition ERROR_RESPONSES : list (Z * string) :=
  [(400, "Bad request.");
   (401, "Authentication required or credentials are invalid.");
   (403, "Authenticated but not authorized for this action.");
   (404, "Requested resource was not found.");
   (409, "Request conflicts with current resource state.");
   (422, "Request validation failed.");
   (429, "Rate limit exceeded.")].

(** [ERROR_RESPONSES[status]] for each status; [{**a, **b}]. *)
Definition errors_of (statuses : list Z) : list (Z * string) :=
  omap (λ st, List.find (λ e, fst e =? st) ERROR_RESPONSES) statuses.
Definition merge_errors (a b : list (Z * string)) : list (Z * string) :=
  a ++ filter (λ e, fst e ∉ a.*1) b.

Definition AUTH_ERROR_RESPONSES : list (Z * string) := errors_of [401; 422].
Definition PROTECTED_ERROR_RESPONSES : list (Z * string) := errors_of [401; 403; 404; 422].
Definition ADMIN_ERROR_RESPONSES : list (Z * string) := PROTECTED_ERROR_RESPONSES.
Definition RATE_LIMITED_ERROR_RESPONSES : list (Z * string) :=
  merge_errors AUTH_ERROR_RESPONSES (errors_of [429]).

(** ** The document *)

(** [f(x[key])], stored back: [x[key]] of a dict that has the key. *)
Definition update_member (key : string) (f : json → result exn json) (x : json) : result exn json :=
  match x with
  | JObj kvs =>
      match get_item key kvs with
      | Err e => Err e
      | Ok v => match f v with Err e => Err e | Ok v' => Ok (JObj (dict_set key v' kvs)) end
      end
  | _ => Err (TypeError "indices must be integers")
  end.
Definition set_item (key : string) (v x : json) : result exn json :=
  match x with
  | JObj kvs => Ok (JObj (dict_set key v kvs))
  | _ => Err (TypeError "object does not support item assignment")
  end.

Definition OPENAPI_DESCRIPTION : string :=
  "Production-oriented FastAPI backend template with versioned routes, " ++
  "JWT auth, admin workflows, audit logs, Redis-backed rate limiting, " ++
  "and object storage uploads.".

(** [{**schemes.get("HTTPBearer", {}), ...}] *)
Definition http_bearer_scheme (generated : list (string * json)) : list (string * json) :=
  fold_left (λ acc '(k, v), dict_set k v acc)
    [("type", JStr "http"); ("scheme", JStr "bearer"); ("bearerFormat", JStr "JWT");
     ("description", JStr ("Use the access token returned by login or refresh. " ++
                           "Send it as `Authorization: Bearer <access_token>`."))]
    generated.
Definition set_bearer_scheme (schemes : json) : result exn json :=
  match schemes with
  | JObj kvs =>
      match opt_default (JObj []) (dict_get "HTTPBearer" kvs) with
      | JObj generated => Ok (JObj (dict_set "HTTPBearer" (JObj (http_bearer_scheme generated)) kvs))
      | _ => Err (TypeError "argument after ** must be a mapping")
      end
  | _ => Err (AttributeError "get")
  end.

Definition described (schema : json) : result exn json :=
  match update_member "info" (set_item "description" (JStr OPENAPI_DESCRIPTION)) schema with
  | Err e => Err e
  | Ok schema => update_member "components" (update_member "securitySchemes" set_bearer_scheme) schema
  end.

(** [if app.openapi_schema] *)
Definition has_schema (cached : option json) : bool :=
  match cached with
  | Some (JObj kvs) => negb (bool_decide (kvs = []))
  | _ => false
  end.

(** [custom_openapi]: the document, and what the application keeps. *)
Definition custom_openapi (generated : json) (cached : option json) : result exn json * option json :=
  match cached with
  | Some schema =>
      if has_schema cached then (Ok schema, cached)
      else match described generated with Ok schema => (Ok schema, Some schema) | Err e => (Err e, cached) end
  | None => match described generated with Ok schema => (Ok schema, Some schema) | Err e => (Err e, cached) end
  end.

(** ** Facts *)

Lemma dict_get_set k v kvs k' :
  dict_get k' (dict_set k v kvs) = if String.eqb k' k then Some v else dict_get k' kvs.
Proof.
  induction kvs as [|[k0 v0] kvs IH]; cbn; [by destruct (String.eqb k' k)|].
  destruct (String.eqb_spec k k0) as [<-|Hk]; cbn.
  - by destruct (String.eqb k' k).
  - rewrite IH. destruct (String.eqb_spec k' k0) as [->|]; [|done].
    by destruct (String.eqb_spec k0 k) as [->|].
Qed.

Lemma dict_set_nonempty k v kvs : dict_set k v kvs ≠ [].
Proof. destruct kvs as [|[k0 v0] kvs]; cbn; [done|]. by destruct (String.eqb k k0). Qed.

Lemma update_member_ok key f x y : update_member key f x = Ok y →
  ∃ kvs v v', x = JObj kvs ∧ dict_get key kvs = Some v ∧ f v = Ok v' ∧ y = JObj (dict_set key v' kvs).
Proof.
  unfold update_member, get_item. destruct x; try done. destruct (dict_get key kvs) as [v|] eqn:E; [|done].
  cbn. destruct (f v) as [v'|] eqn:Ef; [|done]. intros [= <-]. by exists kvs, v, v'.
Qed.

(** Every other member is FastAPI's, the description and the scheme of the tokens
    are set, and the document is made once: afterwards what the generator would
    say is not looked at. *)
Lemma custom_openapi_described generated schema kept :
  custom_openapi generated None = (Ok schema, kept) →
  (∃ kvs kvs', generated = JObj kvs ∧ schema = JObj kvs' ∧
     ∀ k, k ≠ "info" → k ≠ "components" → dict_get k kvs' = dict_get k kvs) ∧
  ∀ generated', custom_openapi generated' kept = (Ok schema, kept).
Proof.
  cbn [custom_openapi]. destruct (described generated) as [x|] eqn:E; [|done]. intros [= <- <-].
  unfold described in E. destruct (update_member "info" _ generated) as [x1|] eqn:E1; [|done].
  apply update_member_ok in E1 as (kvs & v & v' & -> & _ & _ & ->).
  apply update_member_ok in E as (kvs1 & c & c' & Hk & _ & _ & ->). injection Hk as <-. split.
  - exists kvs, (dict_set "components" c' (dict_set "info" v' kvs)). split_and!; [done..|].
    intros k Hi Hc. rewrite !dict_get_set.
    destruct (String.eqb_spec k "components"); [done|]. by destruct (String.eqb_spec k "info").
  - intros generated'. unfold custom_openapi, has_schema.
    by rewrite bool_decide_eq_false_2 by apply dict_set_nonempty.
Qed.

(** The scheme keeps what FastAPI says besides its own members. *)
Lemma http_bearer_scheme_spec generated k :
  dict_get k (http_bearer_scheme generated) =
  if String.eqb k "description" then Some (JStr ("Use the access token returned by login or refresh. " ++
                                                  "Send it as `Authorization: Bearer <access_token>`."))
  else if String.eqb k "bearerFormat" then Some (JStr "JWT")
  else if String.eqb k "scheme" then Some (JStr "bearer")
  else if String.eqb k "type" then Some (JStr "http")
  else dict_get k generated.
Proof. unfold http_bearer_scheme. cbn [fold_left]. by rewrite !dict_get_set. Qed.
