(* ===== verification/Wiring.v ===== *)
(** * Connections, error tracking and the set-up of a process

    [app/core/redis.py] (the client), [app/db/session.py], [app/db/pool_config.py],
    [app/core/s3_client.py], [app/core/error_tracking.py], [app/core/runtime.py],
    the server of [app/core/metrics_server.py], and the middleware and the lifespan
    of [app/main.py]: what the libraries are given, as data, and the objects a process
    keeps.  A handle of a library (a client, a server) is a value of a type given as
    an argument, with the function that makes it. *)

From Stdlib Require Import ZArith QArith Ascii String Lia.
From stdpp Require Import base tactics option list strings.
From S2P Require Import Prelude PyText Json Errors Config Models Services JobQueue Http Programs Metrics Shutdown Middleware OpenApi Logging.
Local Open Scope string_scope.
Local Open Scope list_scope.
Local Open Scope Z_scope.

(** ** Arguments of the libraries *)

Set Warnings "-register-all".

(** The value of a keyword argument. *)
Inductive argument :=
| AText (t : string) | AInt (n : Z) | ABool (b : bool) | ANumber (q : Q) | AList (l : list string)
| ANone | ADict (kvs : list (string * argument)) | AConstant (name : string).
Definition keywords : Type := list (string * argument).

(** [REDIS_SSL_CERT_REQS] *)
Definition REDIS_SSL_CERT_REQS : list (string * string) :=
  [("none", "CERT_NONE"); ("optional", "CERT_OPTIONAL"); ("required", "CERT_REQUIRED")].
Definition cert_reqs (name : string) : result exn argument :=
  match List.find (λ e, String.eqb (fst e) name) REDIS_SSL_CERT_REQS with
  | Some (_, c) => Ok (AConstant c)
  | None => Err (KeyError name)
  end.

(** [build_redis_client]: the arguments of [Redis(...)]. *)
Definition build_redis_client (s : Settings) : result exn keywords :=
  let base := [("host", AText (redis_host s)); ("port", AInt (redis_port s)); ("db", AInt (redis_db s));
               ("decode_responses", ABool true);
               ("socket_timeout", ANumber (redis_socket_timeout_seconds s));
               ("socket_connect_timeout", ANumber (redis_socket_connect_timeout_seconds s))] in
  let user := if truthy (strip (redis_username s)) then [("username", AText (redis_username s))] else [] in
  let password := if truthy (strip (redis_password s)) then [("password", AText (redis_password s))] else [] in
  if redis_ssl s then
    match cert_reqs (redis_ssl_cert_reqs s) with
    | Ok c => Ok (base ++ user ++ password ++ [("ssl", ABool true); ("ssl_cert_reqs", c)])
    | Err e => Err e
    end
  else Ok (base ++ user ++ password).

(** With settings that were accepted the client is always built. *)
Lemma redis_client_built raw s : make_settings raw = Ok s → is_ok (build_redis_client s) = true.
Proof.
  intros (s0 & Hs0 & -> & _)%make_settings_Ok.
  apply validate_fields_Ok in Hs0 as (env & reqs & fmt & policy & _ & Hreqs & _ & _ & _ & ->).
  apply one_of_Ok in Hreqs as [_ Hin]. unfold build_redis_client.
  match goal with |- context [cert_reqs ?r] => assert (r = reqs) as -> end.
  { unfold apply_legacy_routes_default, apply_metrics_auth_default. repeat case_match; done. }
  assert (is_ok (cert_reqs reqs) = true) as Hc.
  { revert reqs Hin. apply Forall_forall. apply (bool_decide_unpack _). vm_compute. exact Logic.I. }
  destruct (redis_ssl _); [|done]. by destruct (cert_reqs reqs).
Qed.

(** [build_engine]: the URL and the arguments of [create_engine]; [a or b] of texts
    takes the second for an empty one. *)
Definition build_engine (s : Settings) (url : option string) : string * keywords :=
  let effective_database_url := match url with Some u => if truthy u then u else database_url s
                                | None => database_url s end in
  let connect_args :=
    if 0 <? db_statement_timeout_ms s
    then [("options", AText ("-c statement_timeout=" ++ str_of_int (db_statement_timeout_ms s)))] else [] in
  (effective_database_url,
   [("pool_size", AInt (db_pool_size s)); ("max_overflow", AInt (db_max_overflow s));
    ("pool_recycle", AInt (db_pool_recycle_seconds s)); ("pool_pre_ping", ABool (db_pool_pre_ping s));
    ("pool_timeout", AInt (db_pool_timeout_seconds s)); ("connect_args", ADict connect_args)]).

Definition session_maker : keywords := [("autocommit", ABool false); ("autoflush", ABool false)].

(** [describe_db_pool_configuration] *)
Definition describe_db_pool_configuration (s : Settings) : list (string * Z) :=
  let max_connections_per_process := db_pool_size s + db_max_overflow s in
  [("pool_size", db_pool_size s); ("max_overflow", db_max_overflow s);
   ("max_connections_per_process", max_connections_per_process)].
Definition log_db_pool_configuration (s : Settings) : string :=
  String.concat ""
    ["db_pool_configured pool_size="; str_of_int (db_pool_size s);
     " max_overflow="; str_of_int (db_max_overflow s);
     " max_connections_per_process="; str_of_int (db_pool_size s + db_max_overflow s);
     " max_postgres_connections_formula=";
     "api_workers_or_replicas*(pool_size+max_overflow)+worker_headroom"].

(** The arguments of [boto3.client("s3", ...)]. *)
Definition s3_arguments (s : Settings) : keywords :=
  [("endpoint_url", AText (s3_endpoint_url s)); ("aws_access_key_id", AText (s3_access_key_id s));
   ("aws_secret_access_key", AText (s3_secret_access_key s)); ("region_name", AText (s3_region_name s))].

(** ** Objects a process keeps *)

Section kept.
Context {Client Server : Type} (make_client : keywords → Client).

(** [get_s3_client], [reset_s3_client_cache] *)
Definition get_s3_client (s : Settings) (kept : option Client) : Client * option Client :=
  match kept with
  | Some c => (c, kept)
  | None => let c := make_client (s3_arguments s) in (c, Some c)
  end.
Definition reset_s3_client_cache : option Client := None.

(** [S3StorageProvider(client)]: a client given is used; [StorageService(provider)],
    a provider is its client here. *)
Definition storage_provider (s : Settings) (client : option Client) (kept : option Client) :
    Client * option Client :=
  match client with Some c => (c, kept) | None => get_s3_client s kept end.

(** [get_storage_service], [reset_storage_service_cache]: the service keeps the
    client it was made with. *)
Record process := { kept_client : option Client; kept_service : option Client }.
Definition get_storage_service (s : Settings) (p : process) : Client * process :=
  match kept_service p with
  | Some c => (c, p)
  | None => let '(c, kept) := storage_provider s None (kept_client p) in
            (c, {| kept_client := kept; kept_service := Some c |})
  end.
Definition reset_storage_service_cache (p : process) : process :=
  {| kept_client := kept_client p; kept_service := None |}.

(** [start_metrics_server]: the port that was bound; [stop_metrics_server]. *)
Context (bind : string → Z → Server) (bound_port : Server → Z).
Definition start_metrics_server (host : string) (port : Z) (kept : option Server) : Z * option Server :=
  match kept with
  | Some server => (bound_port server, kept)
  | None => let server := bind host port in (bound_port server, Some server)
  end.
Definition stop_metrics_server (kept : option Server) : option Server := None.

(** A service once made is the same ever after, whatever becomes of the client
    that is kept beside it; after its reset it uses the client that is kept. *)
Lemma storage_service_kept s p :
  let '(c, p') := get_storage_service s p in
  get_storage_service s p' = (c, p') ∧
  get_storage_service s {| kept_client := reset_s3_client_cache; kept_service := kept_service p' |} =
    (c, {| kept_client := None; kept_service := kept_service p' |}) ∧
  (kept_service p = None → fst (get_s3_client s (kept_client p)) = c ∧
   fst (get_storage_service s (reset_storage_service_cache p')) = c).
Proof.
  unfold get_storage_service, storage_provider. destruct (kept_service p) as [c|] eqn:E; cbn.
  - rewrite E. by split_and!.
  - destruct (kept_client p) as [c|]; cbn; by split_and!.
Qed.

Lemma metrics_server_once host port host' port' :
  let '(p, kept) := start_metrics_server host port None in
  start_metrics_server host' port' kept = (p, kept).
Proof. done. Qed.
End kept.

(** ** Error tracking: [error_tracking.py] *)

(** [initialize_error_tracking]: whether it is on, and the arguments of
    [sentry_sdk.init] besides the hook. *)
Definition initialize_error_tracking (s : Settings) : bool * option keywords :=
  if negb (truthy (sentry_dsn s)) then (false, None)
  else (true, Some
    [("dsn", AText (sentry_dsn s)); ("environment", AText (environment s));
     ("traces_sample_rate", ANumber (sentry_traces_sample_rate s));
     ("send_default_pii", ABool (sentry_send_default_pii s));
     ("release", if truthy (sentry_release s) then AText (sentry_release s) else ANone)]).

(** [d.setdefault(key, {})], and the dict it gives changed by [f]. *)
Definition in_member (key : string) (f : json → result exn json) (d : json) : result exn json :=
  match d with
  | JObj kvs =>
      match f (opt_default (JObj []) (dict_get key kvs)) with
      | Ok v => Ok (JObj (dict_set key v kvs))
      | Err e => Err e
      end
  | _ => Err (AttributeError "setdefault")
  end.

Definition _attach_request_id_to_event (request_id : option string) (event : json) : result exn json :=
  match request_id with
  | None => Ok event
  | Some r =>
      match in_member "tags" (set_item "request_id" (JStr r)) event with
      | Err e => Err e
      | Ok event => in_member "contexts" (in_member "request" (set_item "request_id" (JStr r))) event
      end
  end.

(** [event[a][b]...] *)
Fixpoint json_at (path : list string) (v : json) : option json :=
  match path, v with
  | [], _ => Some v
  | k :: path', JObj kvs => match dict_get k kvs with Some x => json_at path' x | None => None end
  | _, _ => None
  end.

Lemma in_member_ok key f d d' : in_member key f d = Ok d' →
  ∃ kvs v, d = JObj kvs ∧ f (opt_default (JObj []) (dict_get key kvs)) = Ok v ∧ d' = JObj (dict_set key v kvs).
Proof.
  unfold in_member. destruct d; try done. destruct (f _) as [v|] eqn:E; [|done]. intros [= <-]. by exists kvs, v.
Qed.

Lemma set_item_ok key v d d' : set_item key v d = Ok d' →
  ∃ kvs, d = JObj kvs ∧ d' = JObj (dict_set key v kvs).
Proof. destruct d; try done. intros [= <-]. by eexists. Qed.

(** The event carries the id of the request it happened in, among its tags and in
    its context, and keeps what it says otherwise. *)
Lemma event_has_request_id r event event' :
  _attach_request_id_to_event (Some r) event = Ok event' →
  json_at ["tags"; "request_id"] event' = Some (JStr r) ∧
  json_at ["contexts"; "request"; "request_id"] event' = Some (JStr r) ∧
  (∀ k, k ≠ "tags" → k ≠ "contexts" → json_at [k] event' = json_at [k] event) ∧
  (∀ k, k ≠ "request_id" → json_at ["tags"; k] event' = json_at ["tags"; k] event).
Proof.
  cbn [_attach_request_id_to_event]. destruct (in_member "tags" _ event) as [e1|] eqn:E1; [|done]. intros E2.
  apply in_member_ok in E1 as (kvs & tags & -> & Htags & ->).
  apply set_item_ok in Htags as (tkvs & Htkvs & ->).
  apply in_member_ok in E2 as (kvs1 & ctx & Hk & Hctx & ->). injection Hk as <-.
  apply in_member_ok in Hctx as (ckvs & rq & _ & Hrq & ->).
  apply set_item_ok in Hrq as (rkvs & _ & ->).
  split_and!; cbn [json_at]; rewrite ?dict_get_set; cbn; rewrite ?dict_get_set; cbn; rewrite ?dict_get_set; try done.
  - intros k Ht Hc. rewrite !dict_get_set. destruct (String.eqb_spec k "contexts"); [done|].
    by destruct (String.eqb_spec k "tags").
  - intros k Hk. rewrite dict_get_set. destruct (String.eqb_spec k "request_id"); [done|].
    destruct (dict_get "tags" kvs) as [v|]; cbn in Htkvs; subst; [done|]. by injection Htkvs as <-.
Qed.

(** ** The middleware of the application: [runtime.py], [main.py] *)

(** What [add_middleware] is given. *)
Inductive layer :=
| RequestContext
| SecurityHeaders (hsts_enabled : bool) (hsts_max_age_seconds : Z)
| Cors (allow_origins : list string) (allow_credentials : bool) (allow_methods allow_headers : list string)
| TrustedHost (allowed_hosts : list string).

(** [configure_runtime_middleware]: what it adds, in order. *)
Definition runtime_layers (s : Settings) : list layer :=
  (if security_headers_enabled s then [SecurityHeaders (hsts_enabled s) (hsts_max_age_seconds s)] else []) ++
  (if cors_enabled s
   then [Cors (cors_origins_list s) (cors_allow_credentials s) (cors_methods_list s) (cors_headers_list s)]
   else []) ++
  (if trusted_hosts_enabled s then [TrustedHost (trusted_hosts_list s)] else []).
Definition main_layers (s : Settings) : list layer := RequestContext :: runtime_layers s.

Section stack.
Context (seconds_text : Z → string).
(** Starlette's two. *)
Context (cors : list string → bool → list string → list string → prog response → prog response).
Context (trusted_host : list string → prog response → prog response).

Definition wrap (rq : request) (path : option (option string)) (l : layer) (inner : prog response) :
    prog response :=
  match l with
  | RequestContext => request_context seconds_text inner rq path
  | SecurityHeaders hsts age => dispatch hsts age inner
  | Cors o c m h => cors o c m h inner
  | TrustedHost hosts => trusted_host hosts inner
  end.

(** The layer added last is the outermost one. *)
Definition built_stack (added : list layer) (route : prog response) (rq : request)
    (path : option (option string)) : prog response :=
  server_error_middleware
    (fold_left (λ inner l, wrap rq path l inner) added (exception_middleware route)).

(** The stack [main.py] builds is the one of [Middleware]: inside Starlette's layers
    the security headers, then the context of the request, then the handlers. *)
Lemma main_stack s route rq path :
  built_stack (main_layers s) route rq path =
  application seconds_text s
    (λ inner, (if trusted_hosts_enabled s then trusted_host (trusted_hosts_list s) else λ p, p)
      ((if cors_enabled s
        then cors (cors_origins_list s) (cors_allow_credentials s) (cors_methods_list s) (cors_headers_list s)
        else λ p, p) inner)) route rq path.
Proof.
  unfold built_stack, main_layers, runtime_layers, application, configure_runtime_middleware.
  by destruct (security_headers_enabled s), (cors_enabled s), (trusted_hosts_enabled s).
Qed.
End stack.

(** Accepted remote settings check the host, and let no wildcard through CORS. *)
Lemma production_layers raw s :
  make_settings raw = Ok s → environment s = "production" →
  (∃ hosts, hosts ≠ [] ∧ TrustedHost hosts ∈ main_layers s) ∧
  (∀ o c m h, Cors o c m h ∈ main_layers s → o ≠ [] ∧ "*" ∉ o).
Proof.
  intros (s0 & _ & -> & _ & Hp & _)%make_settings_Ok Henv.
  apply validate_remote_Ok in Hp as (_ & Hw & He). specialize (He Henv).
  apply no_errors_hardened in He; [|done].
  set (s := apply_legacy_routes_default _) in *. clearbody s.
  unfold main_layers, runtime_layers. split.
  - exists (trusted_hosts_list s). destruct (h_hosts _ He) as [-> Hh]. split; [done|].
    right. apply elem_of_app. right. apply elem_of_app. right. left.
  - intros o c m h. rewrite elem_of_cons, !elem_of_app. intros [?|[H|[H|H]]]; [done| | |].
    + by destruct (security_headers_enabled s); [apply list_elem_of_singleton in H|apply elem_of_nil in H].
    + destruct (cors_enabled s) eqn:E; [|by apply elem_of_nil in H].
      apply list_elem_of_singleton in H as [= -> -> -> ->]. by apply (h_cors _ He).
    + by destruct (trusted_hosts_enabled s); [apply list_elem_of_singleton in H|apply elem_of_nil in H].
Qed.

(** [lifespan]: the line of the start, and the wait of the end. *)
Definition lifespan_start (s : Settings) : string := log_db_pool_configuration s.
Definition lifespan_end (s : Settings) (fuel : nat) : prog (option bool) :=
  wait_for_in_flight_requests fuel (api_shutdown_grace_seconds s).

(** ** [_get_header] of [middleware.py] *)

(** [bytes.lower] *)
Definition byte_lower (c : ascii) : ascii :=
  let n := code c in if ((65 <=? n) && (n <=? 90))%N then ascii_of_N (n + 32) else c.
Definition bytes_lower (b : string) : string := text (byte_lower <$> chars b).

(** A text within Latin-1 and the bytes that encode it are the same here. *)
Fixpoint _get_header (headers : list (string * string)) (name : string) : option string :=
  match headers with
  | [] => None
  | (key, value) :: headers' =>
      if String.eqb (bytes_lower key) (lower name) then Some value else _get_header headers' name
  end.

Definition is_ascii (c : ascii) : bool := (code c <? 128)%N.

Lemma lower_char_ascii c : is_ascii (lower_char c) = is_ascii c.
Proof. destruct c as [[] [] [] [] [] [] [] []]; reflexivity. Qed.
Lemma byte_lower_ascii c : is_ascii (byte_lower c) = is_ascii c.
Proof. destruct c as [[] [] [] [] [] [] [] []]; reflexivity. Qed.
Lemma byte_lower_char c : is_ascii c = true → byte_lower c = lower_char c.
Proof. destruct c as [[] [] [] [] [] [] [] []]; cbn; intros ?; first [reflexivity|done]. Qed.

Lemma lower_bytes_chars k n : forallb is_ascii n = true →
  byte_lower <$> k = lower_char <$> n ↔ lower_char <$> k = lower_char <$> n.
Proof.
  revert n. induction k as [|c k IH]; intros [|d n]; try done. cbn.
  intros [Hd Hn]%andb_prop. specialize (IH n Hn). split; intros [= Hc Hk].
  - f_equal; [|by apply IH]. rewrite <- Hc. symmetry. apply byte_lower_char.
    by rewrite <- byte_lower_ascii, Hc, lower_char_ascii.
  - f_equal; [|by apply IH]. rewrite <- Hc. apply byte_lower_char.
    by rewrite <- lower_char_ascii, Hc, lower_char_ascii.
Qed.

(** For a name within ASCII, the lookup on bytes is the one on texts of [Http]. *)
Lemma get_header_spec headers name :
  forallb is_ascii (chars name) = true → _get_header headers name = header_get name headers.
Proof.
  intros Hn. induction headers as [|[k v] headers IH]; [done|]. cbn [_get_header header_get]. rewrite IH.
  assert (String.eqb (bytes_lower k) (lower name) = String.eqb (lower k) (lower name)) as ->; [|done].
  apply eq_true_iff_eq. rewrite !String.eqb_eq. unfold bytes_lower, lower.
  pose proof (lower_bytes_chars (chars k) (chars name) Hn) as H.
  split; intros E; apply (f_equal chars) in E; rewrite !chars_text in E; f_equal; by apply H.
Qed.

(** ** The start of the worker *)

(** [register_worker_shutdown_handlers]: the handler of each signal. *)
Definition register_worker_shutdown_handlers : list (string * prog unit) :=
  [("SIGTERM", request_worker_shutdown); ("SIGINT", request_worker_shutdown)].

(** What [run_worker] has set up before its loop: it stops at the first error. *)
Record worker_process {Server : Type} := WorkerProcess {
  wp_loggers : loggers;
  wp_collectors : option (list collector);
  wp_handlers : list (string * prog unit);
  wp_server : option Server;
}.
Arguments worker_process : clear implicits.

Section worker_start.
Context {Server : Type} (bind : string → Z → Server) (bound_port : Server → Z).
Context (takes_mode : metric_kind → bool).

Definition worker_start (s : Settings) (p : worker_process Server) : worker_process Server * result exn unit :=
  let '(l, configured) := configure_logging s (wp_loggers p) in
  let p := WorkerProcess _ l (wp_collectors p) (wp_handlers p) (wp_server p) in
  match configured with
  | Err e => (p, Err e)
  | Ok _ =>
      match configure_metrics takes_mode s (wp_collectors p) with
      | Err e => (p, Err e)
      | Ok cs =>
          let server := if worker_metrics_enabled s
                        then snd (start_metrics_server bind bound_port (worker_metrics_host s)
                                    (worker_metrics_port s) (wp_server p))
                        else wp_server p in
          (WorkerProcess _ l (Some cs) register_worker_shutdown_handlers server, Ok tt)
      end
  end.

(** With a known level and without the directory of several processes, the worker
    starts: it logs through the filter, has its collectors and its handlers, and a
    server of metrics when that is asked for. *)
Lemma worker_starts s p :
  log_level s ∈ LEVEL_NAMES → configured_multiproc_dir s = None →
  ∃ p', worker_start s p = (p', Ok tt) ∧
    Forall (λ h, h_filtered h = true) (root_handlers (wp_loggers p')) ∧
    is_Some (wp_collectors p') ∧
    (wp_collectors p = None → wp_collectors p' = Some (collectors s)) ∧
    wp_handlers p' = register_worker_shutdown_handlers ∧
    (worker_metrics_enabled s = true → is_Some (wp_server p')).
Proof.
  intros Hlevel Hdir. unfold worker_start, configure_logging, check_level. rewrite bool_decide_true by done.
  cbn [wp_collectors].
  assert (∃ cs, configure_metrics takes_mode s (wp_collectors p) = Ok cs ∧
    (wp_collectors p = None → cs = collectors s)) as (cs & -> & Hcs).
  { destruct (wp_collectors p) as [cs|]; [by exists cs|]. exists (collectors s).
    unfold configure_metrics, collectors. by rewrite Hdir. }
  eexists. split; [reflexivity|]. cbn. split_and!; try done.
  - by repeat constructor.
  - intros H. by rewrite Hcs.
  - intros ->. unfold start_metrics_server. destruct (wp_server p); by eexists.
Qed.
End worker_start.
