(* ===== verification/Routing.v ===== *)
(** * The routes of the application and the router

    [app/main.py], [app/api/v1.py], [app/api/legacy.py] and the decorators of
    [app/api/routes/]: the table of the routes as the routers build it, and the
    choice of a route for a request.  The choice is Starlette's, as it is
    documented: the routes are tried in order, a parameter takes a segment that is
    not empty, the [$] of the pattern lets a line feed at the end pass, a path found
    for other methods only is 405, and a path found with or without its last slash
    only is redirected.  The routes of the interactive documentation are FastAPI's
    own and left out. *)

From Stdlib Require Import ZArith Ascii String Lia.
From stdpp Require Import base tactics option list gmap strings.
From S2P Require Import Prelude PyText Json Errors Config Models Permissions Services Schemas OpenApi.
Local Open Scope string_scope.
Local Open Scope list_scope.
Local Open Scope Z_scope.

(** ** Routers *)

(** The functions behind the routes. *)
Inductive handler :=
| register | login | me | refresh_token | logout | request_reset_password | confirm_reset_password
| list_users | get_user | patch_user | deactivate_user_endpoint | activate_user_endpoint | remove_user
| admin_panel | list_audit_logs
| create_tenant | list_tenant_records | get_tenant | patch_tenant
| upload_file | create_presigned_upload | complete_presigned_upload | get_download_url | delete_file
| inbound_webhook
| health_check | liveness_check | readiness_check | db_health_check | redis_health | s3_health | limited_endpoint
| metrics.
#[export] Instance handler_eq_dec : EqDecision handler.
Proof. solve_decision. Defined.

Record api_route := APIRoute {
  ar_method : string; ar_path : string; ar_endpoint : handler; ar_model : option ftype; ar_status : Z;
  ar_responses : list (Z * string); ar_deprecated : bool }.
Definition router := list api_route.

(** One decorator: the method, the path, the function below it, the response model,
    the status and the documented errors; the texts of the documentation are left out. *)
Definition operation : Type := string * string * handler * option ftype * Z * list (Z * string).

(** [APIRouter(prefix, deprecated)], [include_router]: the prefix goes before each
    path. *)
Definition include_router (prefix : string) (deprecated : bool) (r : router) : router :=
  (λ a, APIRoute (ar_method a) (prefix ++ ar_path a)%string (ar_endpoint a) (ar_model a) (ar_status a)
          (ar_responses a) (ar_deprecated a || deprecated)) <$> r.
Definition APIRouter (prefix : string) (routes : list operation) : router :=
  (λ '(m, p, h, model, st, errs), APIRoute m (prefix ++ p)%string h model st errs false) <$> routes.

Definition register_operation : operation :=
  ("POST", "/register", register, Some UserRead, 200, merge_errors AUTH_ERROR_RESPONSES RATE_LIMITED_ERROR_RESPONSES).
Definition login_operation : operation :=
  ("POST", "/login", login, Some Token, 200, merge_errors AUTH_ERROR_RESPONSES RATE_LIMITED_ERROR_RESPONSES).
Definition me_operation : operation := ("GET", "/me", me, Some UserRead, 200, AUTH_ERROR_RESPONSES).
Definition refresh_token_operation : operation :=
  ("POST", "/refresh", refresh_token, Some Token, 200, merge_errors AUTH_ERROR_RESPONSES RATE_LIMITED_ERROR_RESPONSES).
Definition logout_operation : operation :=
  ("POST", "/logout", logout, None, 204, merge_errors AUTH_ERROR_RESPONSES RATE_LIMITED_ERROR_RESPONSES).
Definition request_reset_password_operation : operation :=
  ("POST", "/password-reset/request", request_reset_password, Some MessageResponse, 200, RATE_LIMITED_ERROR_RESPONSES).
Definition confirm_reset_password_operation : operation :=
  ("POST", "/password-reset/confirm", confirm_reset_password, Some MessageResponse, 200, AUTH_ERROR_RESPONSES).
Definition list_users_operation : operation :=
  ("GET", "/", list_users, Some UserListPageSchema, 200, ADMIN_ERROR_RESPONSES).
Definition get_user_operation : operation :=
  ("GET", "/{user_id}", get_user, Some UserRead, 200, PROTECTED_ERROR_RESPONSES).
Definition patch_user_operation : operation :=
  ("PATCH", "/{user_id}", patch_user, Some UserRead, 200, PROTECTED_ERROR_RESPONSES).
Definition deactivate_user_endpoint_operation : operation :=
  ("PATCH", "/{user_id}/deactivate", deactivate_user_endpoint, Some UserRead, 200, ADMIN_ERROR_RESPONSES).
Definition activate_user_endpoint_operation : operation :=
  ("PATCH", "/{user_id}/activate", activate_user_endpoint, Some UserRead, 200, ADMIN_ERROR_RESPONSES).
Definition remove_user_operation : operation :=
  ("DELETE", "/{user_id}", remove_user, None, 204, ADMIN_ERROR_RESPONSES).
Definition admin_panel_operation : operation := ("GET", "", admin_panel, None, 200, ADMIN_ERROR_RESPONSES).
Definition list_audit_logs_operation : operation :=
  ("GET", "/audit-logs", list_audit_logs, Some (TListOf AuditLogRead), 200, ADMIN_ERROR_RESPONSES).
Definition create_tenant_operation : operation :=
  ("POST", "", create_tenant, Some TenantRead, 201, ADMIN_ERROR_RESPONSES).
Definition list_tenant_records_operation : operation :=
  ("GET", "", list_tenant_records, Some (TListOf TenantRead), 200, ADMIN_ERROR_RESPONSES).
Definition get_tenant_operation : operation :=
  ("GET", "/{tenant_id}", get_tenant, Some TenantRead, 200, ADMIN_ERROR_RESPONSES).
Definition patch_tenant_operation : operation :=
  ("PATCH", "/{tenant_id}", patch_tenant, Some TenantRead, 200, ADMIN_ERROR_RESPONSES).
Definition upload_file_operation : operation :=
  ("POST", "/upload", upload_file, Some UploadedFileRead, 201, PROTECTED_ERROR_RESPONSES).
Definition create_presigned_upload_operation : operation :=
  ("POST", "/presigned-upload", create_presigned_upload, Some PresignedUploadResponse, 200, PROTECTED_ERROR_RESPONSES).
Definition complete_presigned_upload_operation : operation :=
  ("POST", "/presigned-upload/complete", complete_presigned_upload, Some UploadedFileRead, 201, PROTECTED_ERROR_RESPONSES).
Definition get_download_url_operation : operation :=
  ("GET", "/{file_id}/download-url", get_download_url, Some PresignedDownloadUrlRead, 200, PROTECTED_ERROR_RESPONSES).
Definition delete_file_operation : operation :=
  ("DELETE", "/{file_id}", delete_file, None, 204, PROTECTED_ERROR_RESPONSES).
Definition inbound_webhook_operation : operation :=
  ("POST", "/inbound", inbound_webhook, Some WebhookInboundResponse, 200, AUTH_ERROR_RESPONSES).
Definition health_check_operation : operation := ("GET", "", health_check, Some HealthStatus, 200, []).
Definition liveness_check_operation : operation :=
  ("GET", "/live", liveness_check, Some HealthStatus, 200, []).
Definition readiness_check_operation : operation :=
  ("GET", "/ready", readiness_check, Some ReadinessHealthSchema, 200, []).
Definition db_health_check_operation : operation :=
  ("GET", "/db", db_health_check, Some ReadinessHealthSchema, 200, []).
Definition redis_health_operation : operation :=
  ("GET", "/redis", redis_health, Some ReadinessHealthSchema, 200, []).
Definition s3_health_operation : operation := ("GET", "/s3", s3_health, Some ReadinessHealthSchema, 200, []).
Definition limited_endpoint_operation : operation := ("GET", "/limited", limited_endpoint, None, 200, []).
Definition metrics_operation : operation := ("GET", "/metrics", metrics, None, 200, []).

Definition auth_router : router := APIRouter "/auth"
  [register_operation; login_operation; me_operation; refresh_token_operation; logout_operation;
   request_reset_password_operation; confirm_reset_password_operation].
Definition users_router : router := APIRouter "/users"
  [list_users_operation; get_user_operation; patch_user_operation;
   deactivate_user_endpoint_operation; activate_user_endpoint_operation; remove_user_operation].
Definition admin_router : router := APIRouter "/admin"
  [admin_panel_operation; list_audit_logs_operation].
Definition tenants_router : router := APIRouter "/admin/tenants"
  [create_tenant_operation; list_tenant_records_operation; get_tenant_operation;
   patch_tenant_operation].
Definition files_router : router := APIRouter "/files"
  [upload_file_operation; create_presigned_upload_operation; complete_presigned_upload_operation;
   get_download_url_operation; delete_file_operation].
Definition webhooks_router : router := APIRouter "/webhooks"
  [inbound_webhook_operation].
Definition health_router : router := APIRouter "/health"
  [health_check_operation; liveness_check_operation; readiness_check_operation;
   db_health_check_operation; redis_health_operation; s3_health_operation;
   limited_endpoint_operation].
Definition metrics_router : router := APIRouter ""
  [metrics_operation].

(** [v1.py], [legacy.py] *)
Definition API_V1_PREFIX : string := "/api/v1".
Definition api_v1_router : router :=
  include_router API_V1_PREFIX false
    (auth_router ++ users_router ++ admin_router ++ tenants_router ++ files_router ++ webhooks_router).
Definition legacy_api_router : router :=
  include_router "" true (auth_router ++ users_router ++ admin_router ++ tenants_router ++ files_router).

(** [include_application_routers] of [main.py] *)
Definition include_application_routers (legacy_routes_enabled : bool) : router :=
  include_router "" false health_router ++ include_router "" false metrics_router ++
  include_router "" false api_v1_router ++
  (if legacy_routes_enabled then include_router "" false legacy_api_router else []).

(** ** Matching *)

Inductive segment := Lit (s : string) | Param (name : string).

(** [compile_path]: a segment in braces is a parameter. *)
Definition compile_segment (l : list ascii) : segment :=
  match l with
  | c :: l' =>
      match unsnoc l' with
      | Some (name, d) => if Ascii.eqb c "{" && Ascii.eqb d "}" then Param (text name) else Lit (text l)
      | None => Lit (text l)
      end
  | [] => Lit ""
  end.
Definition compile_path (path : string) : list segment := compile_segment <$> split_chars "/" (chars path).

Definition line_feed : string := text [ascii_of_N 10].

(** The parameters of a path that matches. *)
Fixpoint match_segments (t : list segment) (p : list string) : option (list (string * string)) :=
  match t, p with
  | [], [] => Some []
  | [Lit l], [x] => if String.eqb x l || String.eqb x (l ++ line_feed) then Some [] else None
  | Lit l :: t', x :: p' => if String.eqb x l then match_segments t' p' else None
  | Param name :: t', x :: p' =>
      if String.eqb x "" then None else cons (name, x) <$> match_segments t' p'
  | _, _ => None
  end.

Inductive route_match := Full (params : list (string * string)) | Partial | NoMatch.

Definition matches (r : api_route) (method path : string) : route_match :=
  match match_segments (compile_path (ar_path r)) (split "/" path) with
  | Some params => if String.eqb (ar_method r) method then Full params else Partial
  | None => NoMatch
  end.

(** What the router does with a request. *)
Inductive routed :=
| Found (r : api_route) (params : list (string * string))
| MethodNotAllowed (r : api_route)
| Redirected (path : string)
| NotFound.

Fixpoint first_full (rs : router) (method path : string) : option (api_route * list (string * string)) :=
  match rs with
  | [] => None
  | r :: rs' => match matches r method path with Full params => Some (r, params) | _ => first_full rs' method path end
  end.

Definition matches_path (path : string) (r : api_route) : bool :=
  match matches r (ar_method r) path with NoMatch => false | _ => true end.

(** The path with its last slashes removed, or with one more. *)
Fixpoint drop_slashes (l : list ascii) : list ascii :=
  match l with c :: l' => if Ascii.eqb c "/" then drop_slashes l' else l | [] => [] end.
Definition redirect_path (path : string) : string :=
  match unsnoc (chars path) with
  | Some (_, c) => if Ascii.eqb c "/" then text (reverse (drop_slashes (reverse (chars path)))) else path ++ "/"
  | None => path ++ "/"
  end.

Definition find_route (rs : router) (method path : string) : routed :=
  match first_full rs method path with
  | Some (r, params) => Found r params
  | None =>
      match List.find (matches_path path) rs with
      | Some r => MethodNotAllowed r
      | None =>
          if negb (String.eqb path "/") && existsb (matches_path (redirect_path path)) rs
          then Redirected (redirect_path path) else NotFound
      end
  end.

(** ** The choice does not depend on the order *)

(** A segment and what it takes, in a path without a line feed. *)
Definition takes (sg : segment) (x : string) : Prop :=
  match sg with Lit l => x = l | Param _ => x ≠ "" end.

Definition no_line_feed (x : string) : Prop := ascii_of_N 10 ∉ chars x.

Lemma no_line_feed_suffix x l : no_line_feed x → x ≠ (l ++ line_feed)%string.
Proof. intros Hx ->. apply Hx. rewrite chars_app. apply elem_of_app. right. by left. Qed.

Lemma match_segments_takes t p params :
  Forall no_line_feed p → match_segments t p = Some params → Forall2 takes t p.
Proof.
  intros Hp. revert t params. induction Hp as [|x p Hx _ IH]; intros t params.
  { destruct t as [|[l|n] [|? ?]]; try done. }
  destruct t as [|[l|n] t]; [done| |]; cbn [match_segments].
  - assert (∀ o, (if String.eqb x l then match_segments t p else None) = Some o → Forall2 takes (Lit l :: t) (x :: p)) as Hlit.
    { intros o. destruct (String.eqb_spec x l) as [->|]; [|done]. intros Ho. constructor; [done|by eapply IH]. }
    destruct t as [|sg t]; [|by apply Hlit]. destruct p as [|y p]; [|by apply Hlit].
    destruct (String.eqb_spec x l) as [->|]; [by repeat constructor|].
    destruct (String.eqb_spec x (l ++ line_feed)) as [E|]; [|done]. by apply no_line_feed_suffix in E.
  - destruct (String.eqb_spec x "") as [|Hne]; [done|].
    destruct (match_segments t p) as [ps|] eqn:E; [|done]. intros _. constructor; [done|by eapply IH].
Qed.

(** Two patterns some path may match. *)
Fixpoint overlap (t t' : list segment) : bool :=
  match t, t' with
  | [], [] => true
  | Lit a :: u, Lit b :: u' => String.eqb a b && overlap u u'
  | Lit a :: u, Param _ :: u' | Param _ :: u, Lit a :: u' => negb (String.eqb a "") && overlap u u'
  | Param _ :: u, Param _ :: u' => overlap u u'
  | _, _ => false
  end.

Lemma takes_overlap t t' p : Forall2 takes t p → Forall2 takes t' p → overlap t t' = true.
Proof.
  intros Ht. revert t'. induction Ht as [|sg x t p Hsg _ IH]; intros t' Ht'; inversion Ht' as [|sg' ? u' ? Hsg' Hu']; subst; [done|].
  specialize (IH u' Hu'). destruct sg as [a|], sg' as [b|]; cbn in *; subst; rewrite ?IH, ?andb_true_r; try done.
  - by apply String.eqb_eq.
  - by apply negb_true_iff, String.eqb_neq.
  - by apply negb_true_iff, String.eqb_neq.
Qed.

#[export] Instance api_route_eq_dec : EqDecision api_route.
Proof. solve_decision. Defined.

(** No two routes of a table are for the same method and a common path. *)
Definition unambiguous (rs : router) : bool :=
  forallb (λ r, forallb (λ r', bool_decide (r = r') || negb (String.eqb (ar_method r) (ar_method r')) ||
                               negb (overlap (compile_path (ar_path r)) (compile_path (ar_path r')))) rs) rs.

Lemma application_unambiguous legacy : unambiguous (include_application_routers legacy) = true.
Proof. destruct legacy; vm_compute; reflexivity. Qed.

(** A request matches a route of the table. *)
Definition declared (rs : router) (method path : string) (r : api_route) (params : list (string * string)) : Prop :=
  r ∈ rs ∧ ar_method r = method ∧ match_segments (compile_path (ar_path r)) (split "/" path) = Some params.

Lemma declared_unique rs method path r params r' params' :
  unambiguous rs = true → Forall no_line_feed (split "/" path) →
  declared rs method path r params → declared rs method path r' params' → r = r' ∧ params = params'.
Proof.
  intros Hu Hp (Hr & Hm & Hmatch) (Hr' & Hm' & Hmatch').
  assert (r = r') as <-.
  { unfold unambiguous in Hu. rewrite forallb_forall in Hu. specialize (Hu r (proj1 (list_elem_of_In _ _) Hr)).
    rewrite forallb_forall in Hu. specialize (Hu r' (proj1 (list_elem_of_In _ _) Hr')).
    rewrite Hm, Hm', String.eqb_refl in Hu. cbn [negb] in Hu.
    rewrite (takes_overlap _ _ (split "/" path)) in Hu by (by eapply match_segments_takes).
    rewrite !orb_false_r in Hu. by apply bool_decide_eq_true in Hu. }
  split; [done|congruence].
Qed.

Lemma first_full_sound rs method path r params :
  first_full rs method path = Some (r, params) → declared rs method path r params.
Proof.
  unfold declared. induction rs as [|r0 rs IH]; [done|]. cbn [first_full]. unfold matches.
  destruct (match_segments (compile_path (ar_path r0)) _) as [ps|] eqn:E.
  - destruct (String.eqb_spec (ar_method r0) method) as [Hm|].
    + intros [= <- <-]. split_and!; [by left|done|done].
    + intros (Hr & ? & ?)%IH. split_and!; [by right|done..].
  - intros (Hr & ? & ?)%IH. split_and!; [by right|done..].
Qed.

Lemma first_full_none rs method path r params :
  first_full rs method path = None → ¬ declared rs method path r params.
Proof.
  intros Hn (Hr & Hm & Hmatch). induction rs as [|r0 rs IH]; [by apply elem_of_nil in Hr|].
  cbn [first_full] in Hn. unfold matches in Hn. apply elem_of_cons in Hr as [<-|Hr].
  - rewrite Hmatch, <- Hm, String.eqb_refl in Hn. done.
  - apply IH; [|done]. destruct (match_segments (compile_path (ar_path r0)) _); [destruct (String.eqb _ _)|]; done.
Qed.

(** C5: the router serves the declared routes, and nothing depends on the order in
    which the routers are included.  In whatever order the routes of the
    application are tried, with or without the legacy ones, a request whose path
    has no line feed is given to a route exactly if that route is declared for the
    method and a pattern the path matches; there is at most one such route, so no
    route hides another. *)
Theorem routing_exact (legacy : bool) (rs : router) (method path : string) :
  rs ≡ₚ include_application_routers legacy → Forall no_line_feed (split "/" path) →
  ∀ r params, find_route rs method path = Found r params ↔ declared rs method path r params.
Proof.
  intros Hrs Hp r params.
  assert (∀ r params r' params', declared rs method path r params → declared rs method path r' params' →
    r = r' ∧ params = params') as Huniq.
  { assert (∀ r params, declared rs method path r params → declared (include_application_routers legacy) method path r params)
      as Hperm by (intros r0 ps (Hr & ?); split; [by rewrite <- Hrs|done]).
    intros r1 p1 r2 p2 H1 H2. eapply declared_unique; [apply application_unambiguous|exact Hp|by apply Hperm..]. }
  unfold find_route. destruct (first_full rs method path) as [[r0 ps]|] eqn:E.
  - apply first_full_sound in E. split; [intros [= -> ->]; exact E|].
    intros Hd. by destruct (Huniq _ _ _ _ E Hd) as [-> ->].
  - split; [|intros Hd; by eapply first_full_none in Hd].
    repeat case_match; discriminate.
Qed.

Lemma routing_exact_witness :
  find_route (include_application_routers false) "PATCH" "/api/v1/users/7/activate" =
    Found (APIRoute "PATCH" "/api/v1/users/{user_id}/activate" activate_user_endpoint (Some UserRead) 200 ADMIN_ERROR_RESPONSES false)
      [("user_id", "7")] ∧
  find_route (include_application_routers false) "PUT" "/api/v1/auth/me" =
    MethodNotAllowed (APIRoute "GET" "/api/v1/auth/me" me (Some UserRead) 200 AUTH_ERROR_RESPONSES false) ∧
  find_route (include_application_routers false) "GET" "/api/v1/users" = Redirected "/api/v1/users/" ∧
  find_route (include_application_routers false) "GET" "/users/7" = NotFound.
Proof.
  split_and!; [|vm_compute; reflexivity..].
  refine (proj2 (routing_exact false (include_application_routers false) "PATCH" "/api/v1/users/7/activate" _ _ _ _) _).
  - reflexivity.
  - apply (bool_decide_unpack _). vm_compute. exact I.
  - split_and!; [|reflexivity..]. apply (bool_decide_unpack _). vm_compute. exact I.
Defined.

(** ** The legacy routes *)

#[export] Instance segment_eq_dec : EqDecision segment.
Proof. solve_decision. Defined.

Lemma split_v1 rest : split "/" ("/api/v1/" ++ rest)%string = "" :: "api" :: "v1" :: split "/" rest.
Proof. reflexivity. Qed.
Lemma split_legacy rest : split "/" ("/" ++ rest)%string = "" :: split "/" rest.
Proof. reflexivity. Qed.

(** A versioned route and its legacy twin. *)
Definition twin (r r' : api_route) : bool :=
  String.eqb (ar_method r) (ar_method r') && bool_decide (ar_endpoint r = ar_endpoint r') &&
  bool_decide (ar_model r = ar_model r') &&
  (ar_status r =? ar_status r') && bool_decide (ar_responses r = ar_responses r') &&
  negb (ar_deprecated r) && ar_deprecated r' &&
  match compile_path (ar_path r), compile_path (ar_path r') with
  | a :: b :: c :: t, d :: t' =>
      bool_decide (([a; b; c; d], t) = ([Lit ""; Lit "api"; Lit "v1"; Lit ""], t')) && negb (bool_decide (t = []))
  | _, _ => false
  end.

Lemma twin_match r r' q : twin r r' = true →
  match_segments (compile_path (ar_path r)) ("" :: "api" :: "v1" :: q) =
  match_segments (compile_path (ar_path r')) ("" :: q).
Proof.
  unfold twin. intros [_ Ht]%andb_prop. destruct (compile_path (ar_path r)) as [|a [|b [|c t]]]; try done.
  destruct (compile_path (ar_path r')) as [|d t']; [done|]. apply andb_prop in Ht as [Ht Hne].
  apply bool_decide_eq_true in Ht as [= -> -> -> -> ->]. by destruct t'.
Qed.

Definition v1_pattern (r : api_route) : bool :=
  match compile_path (ar_path r) with _ :: Lit x :: _ => String.eqb x "api" | _ => true end.

Lemma v1_taken rs method rest r params :
  Forall no_line_feed (split "/" ("/api/v1/" ++ rest)%string) →
  declared rs method ("/api/v1/" ++ rest)%string r params → v1_pattern r = true.
Proof.
  intros Hp (_ & _ & Hm). apply match_segments_takes in Hm; [|done]. rewrite split_v1 in Hm. unfold v1_pattern.
  destruct (compile_path (ar_path r)) as [|a [|[b|] t]]; try done.
  apply Forall2_cons in Hm as [_ Hm]. apply Forall2_cons in Hm as [Hb _]. cbn in Hb. by subst b.
Qed.

(** C6: the legacy routes are the versioned ones under their old names.  When they
    are enabled, a path without the prefix /api/v1 is given to a deprecated route
    exactly if the path with the prefix is given to a route other than the webhook
    endpoint; the two have the same handler, parameters, response model,
    status and documented errors.  When they are disabled, no deprecated route answers. *)
Theorem legacy_routes_twins (method rest : string) :
  let rs := include_application_routers true in
  Forall no_line_feed (split "/" ("/api/v1/" ++ rest)%string) →
  (∀ r params, find_route rs method ("/api/v1/" ++ rest)%string = Found r params →
     ar_endpoint r ≠ inbound_webhook →
     ∃ r', find_route rs method ("/" ++ rest)%string = Found r' params ∧ twin r r' = true) ∧
  (∀ r' params, find_route rs method ("/" ++ rest)%string = Found r' params → ar_deprecated r' = true →
     ∃ r, find_route rs method ("/api/v1/" ++ rest)%string = Found r params ∧ twin r r' = true) ∧
  (∀ path r params, find_route (include_application_routers false) method path = Found r params →
     ar_deprecated r = false).
Proof.
  intros rs Hp. assert (Forall no_line_feed (split "/" ("/" ++ rest)%string)) as Hp'.
  { rewrite split_v1 in Hp. rewrite split_legacy. apply Forall_cons in Hp as [? Hp].
    apply Forall_cons in Hp as [_ Hp]. apply Forall_cons in Hp as [_ Hp]. by apply Forall_cons. }
  assert (forallb (λ r, negb (v1_pattern r) || bool_decide (ar_endpoint r = inbound_webhook) || existsb (twin r) rs) rs = true)
    as Htwins by (vm_compute; reflexivity).
  assert (forallb (λ r', negb (ar_deprecated r') || existsb (λ r, twin r r') rs) rs = true)
    as Hlegacy by (vm_compute; reflexivity).
  assert (forallb (λ r, negb (ar_deprecated r)) (include_application_routers false) = true)
    as Hoff by (vm_compute; reflexivity).
  rewrite forallb_forall in Htwins, Hlegacy, Hoff.
  assert (∀ r r', twin r r' = true → ar_method r = ar_method r') as Hmethod.
  { unfold twin. intros r r'. rewrite !andb_true_iff. intros [[[[[[[Hm _] _] _] _] _] _] _]. by apply String.eqb_eq. }
  split_and!.
  - intros r params Hf Hw. apply (routing_exact true rs) in Hf; [|done..]. pose proof (v1_taken _ _ _ _ _ Hp Hf) as Hv1.
    destruct Hf as (Hr & Hm & Hmatch). specialize (Htwins r (proj1 (list_elem_of_In _ _) Hr)).
    rewrite Hv1, bool_decide_eq_false_2 in Htwins by done. cbn [negb orb] in Htwins.
    apply existsb_exists in Htwins as (r' & Hr' & Ht). exists r'. split; [|done].
    apply (routing_exact true rs); [done..|]. split_and!; [by apply list_elem_of_In|by rewrite <- (Hmethod r r')|].
    rewrite split_legacy, <- (twin_match r r') by done. by rewrite split_v1 in Hmatch.
  - intros r' params Hf Hd. apply (routing_exact true rs) in Hf; [|done..]. destruct Hf as (Hr' & Hm & Hmatch).
    specialize (Hlegacy r' (proj1 (list_elem_of_In _ _) Hr')). rewrite Hd in Hlegacy. cbn [negb orb] in Hlegacy.
    apply existsb_exists in Hlegacy as (r & Hr & Ht). exists r. split; [|done].
    apply (routing_exact true rs); [done..|]. split_and!; [by apply list_elem_of_In|by rewrite (Hmethod r r')|].
    rewrite split_v1, (twin_match r r') by done. by rewrite split_legacy in Hmatch.
  - intros path r params Hf. unfold find_route in Hf.
    destruct (first_full _ _ _) as [[r0 ps]|] eqn:E; [|repeat case_match; discriminate].
    injection Hf as -> ->. apply first_full_sound in E as (Hr & _ & _).
    specialize (Hoff r (proj1 (list_elem_of_In _ _) Hr)). by apply negb_true_iff in Hoff.
Qed.

Lemma legacy_routes_twins_witness :
  ∃ r', find_route (include_application_routers true) "DELETE" "/files/3" = Found r' [("file_id", "3")] ∧
    ar_deprecated r' = true.
Proof.
  destruct (legacy_routes_twins "DELETE" "files/3") as (Hv1 & _ & _).
  - apply (bool_decide_unpack _). vm_compute. exact I.
  - destruct (Hv1 (APIRoute "DELETE" "/api/v1/files/{file_id}" delete_file None 204 PROTECTED_ERROR_RESPONSES false)
      [("file_id", "3")]) as (r' & Hr' & Ht).
    + vm_compute. reflexivity.
    + discriminate.
    + exists r'. split; [exact Hr'|]. unfold twin in Ht. rewrite !andb_true_iff in Ht. apply Ht.
Defined.
