(* ===== verification/Typing.v ===== *)
(** * Types of the stored data

    What every table row, every Redis entry and every metrics sample of the
    program is, a type system for programs ([typed]), and its soundness: a typed
    program started on well-typed data meets well-typed data only, leaves it so at
    every moment, and returns a value of its type.  A queue holds the texts of the
    program's own jobs, the cache pages of [UserRead] objects, a counter an
    integer; users have addresses [EmailStr] accepts and roles of [UserRole], audit
    entries actions of [AuditAction], and so on.

    The years of the clock end with 9999, as those of Python do. *)

From Stdlib Require Import ZArith Ascii String Lia.
From stdpp Require Import base tactics option list gmap strings sorting fin_maps.
From S2P Require Import Prelude PyText Json Errors Config DateTime Models Permissions Services Programs.
From S2P Require Import DbFacts RedisFacts Ids JobQueue Tenants Cache Cursor Users CacheSafety Auth Http.
From S2P Require Import RateLimit PasswordReset Idempotency Webhooks Metrics Storage Admin Api Schemas.
Local Open Scope string_scope.
Local Open Scope list_scope.
Local Open Scope Z_scope.

(** ** Jobs *)

Definition end_of_time : Z := 253402300800000000.
Definition in_years (t : Z) : Prop := 0 <= t < end_of_time.

Definition text_or_null (v : json) : Prop := v = JNull ∨ ∃ t, v = JStr t.

(** The payloads the program enqueues, by the type of the job. *)
Definition job_payload (j : Job) : Prop :=
  (type j = JStr SEND_PASSWORD_RESET_EMAIL_JOB ∧ ∃ n, payload j = JObj [("user_id", JInt n)]) ∨
  (type j = JStr VERIFY_PRESIGNED_UPLOAD_JOB ∧ ∃ n, payload j = JObj [("uploaded_file_id", JInt n)]).

(** A job of the program. *)
Record app_job (j : Job) : Prop := {
  aj_id : ∃ i, id j = JStr i;
  aj_payload : job_payload j;
  aj_attempts : ∃ n, attempts j = JInt n ∧ 0 <= n;
  aj_request_id : text_or_null (request_id j);
  aj_last_error : text_or_null (last_error j);
  aj_failed_at : text_or_null (failed_at j);
  aj_started : processing_started_at j = JNull ∨
    ∃ t, in_years t ∧ processing_started_at j = JStr (isoformat t);
}.

(** The text of such a job. *)
Definition job_text (raw : string) : Prop := ∃ j, app_job j ∧ raw = to_json j.

Lemma text_or_null_wf v : text_or_null v → json_wf v.
Proof. by intros [->|[t ->]]. Qed.

Lemma app_job_wf j : app_job j → job_wf j.
Proof.
  intros [[i Hi] Hp (n & Hn & _) Hr Hl Hf Hs]. unfold job_wf. rewrite Hi, Hn.
  split_and!; try done; try by apply text_or_null_wf.
  - by destruct Hp as [[-> _]|[-> _]].
  - destruct Hp as [[_ [m ->]]|[_ [m ->]]]; apply json_wfb_spec; reflexivity.
  - by destruct Hs as [->|(t & _ & ->)].
Qed.

Lemma job_text_from raw : job_text raw → ∃ j, from_json raw = Ok j ∧ app_job j.
Proof. intros (j & Hj & ->). exists j. split; [by apply from_json_to_json, app_job_wf|done]. Qed.

Lemma app_job_text j : app_job j → job_text (to_json j).
Proof. intros Hj. by exists j. Qed.

Lemma app_job_started j v :
  app_job j → (v = JNull ∨ ∃ t, in_years t ∧ v = JStr (isoformat t)) →
  app_job (set_processing_started_at v j).
Proof. intros [? ? ? ? ? ? ?] Hv. by split. Qed.

Lemma app_job_next j : app_job j → ∃ j', with_next_attempt j = Ok j' ∧ app_job j'.
Proof.
  intros [Hi Hp (n & Hn & Hpos) Hr Hl Hf Hs]. unfold with_next_attempt. rewrite Hn. cbn.
  eexists. split; [done|]. split; cbn; try done; [|by left]. exists (n + 1). split; [done|lia].
Qed.

Lemma app_job_error j m : app_job j → ∃ j', with_error j (JStr m) = Ok j' ∧ app_job j'.
Proof.
  intros [Hi Hp Ha Hr Hl Hf Hs]. unfold with_error. cbn. eexists. split; [done|].
  split; cbn; try done. right. by eexists.
Qed.

(** ** Redis keys *)

Inductive key_type := KJobs | KDelayed | KPage | KCounter | KText.

Section types.
Context `{Crypto} `{Pydantic} (s : Settings).

(** The keys of the program and what they hold. *)
Inductive key_of : string → key_type → Prop :=
| key_ready : key_of (worker_queue_name s) KJobs
| key_processing : key_of (worker_processing_queue_name s) KJobs
| key_failed : key_of (worker_failed_queue_name s) KJobs
| key_delayed : key_of (worker_delayed_queue_name s) KDelayed
| key_maintenance : key_of (worker_maintenance_lock_key s) KText
| key_rate_limit rest : key_of ("rate_limit:" ++ rest) KCounter
| key_revoked rest : key_of ("revoked_refresh_token:" ++ rest) KText
| key_idempotency rest : key_of (IDEMPOTENCY_LOCK_PREFIX ++ rest) KText
| key_reset_job rest : key_of (PASSWORD_RESET_JOB_COMPLETED_PREFIX ++ rest) KText
| key_version t : key_of (build_users_list_cache_version_key t) KCounter
| key_page t p v : key_of (listing_key t p v) KPage.

(** The names of the settings do not collide with each other or with the prefixes
    of the program. *)
Definition reserved_prefixes : list string :=
  ["rate_limit:"; "revoked_refresh_token:"; IDEMPOTENCY_LOCK_PREFIX;
   PASSWORD_RESET_JOB_COMPLETED_PREFIX; "tenant:"].

Definition keys_apart : bool :=
  forallb (λ k, forallb (λ p, negb (startswith k p)) reserved_prefixes)
    [worker_queue_name s; worker_processing_queue_name s; worker_failed_queue_name s;
     worker_delayed_queue_name s; worker_maintenance_lock_key s] &&
  bool_decide (worker_delayed_queue_name s ∉
    [worker_queue_name s; worker_processing_queue_name s; worker_failed_queue_name s]) &&
  bool_decide (worker_maintenance_lock_key s ∉
    [worker_queue_name s; worker_processing_queue_name s; worker_failed_queue_name s;
     worker_delayed_queue_name s]).

(** A page of the cache: an object with the items and the cursor of a
    [UserListPage]. *)
Definition page_ok (v : json) : Prop :=
  ∃ items next, v = JObj [("items", JList items); ("next_cursor", next)] ∧
    Forall (λ i, serialize UserRead i = Some i) items ∧ text_or_null next.
Definition page_text (raw : string) : Prop := ∃ v, loads raw = Some v ∧ page_ok v.
Definition counter_text (raw : string) : Prop := ∃ n, raw = str_of_int n.

(** What a key of the type may hold. *)
Definition entry_ok (t : key_type) (v : redis_value) : Prop :=
  match t, v with
  | KJobs, RList l => Forall job_text l
  | KDelayed, RZset z => ∀ m, is_Some (z !! m) → job_text m
  | KPage, RStr raw => page_text raw
  | KCounter, RStr raw => counter_text raw
  | KText, RStr _ => True
  | _, _ => False
  end.

Definition typed_redis (st : rstate) : Prop :=
  ∀ k e t, st !! k = Some e → key_of k t → entry_ok t (re_value e).

Definition queue_names : list string :=
  [worker_queue_name s; worker_processing_queue_name s; worker_failed_queue_name s;
   worker_delayed_queue_name s; worker_maintenance_lock_key s].

Lemma name_not_prefixed k p rest :
  keys_apart = true → k ∈ queue_names → p ∈ reserved_prefixes → k ≠ (p ++ rest)%string.
Proof.
  unfold keys_apart. rewrite !andb_true_iff. intros [[Hall _] _] Hk Hp ->.
  rewrite forallb_forall in Hall. specialize (Hall _ (proj1 (list_elem_of_In _ _) Hk)).
  rewrite forallb_forall in Hall. specialize (Hall _ (proj1 (list_elem_of_In _ _) Hp)).
  by rewrite startswith_app in Hall.
Qed.

Lemma version_key_tenant t : ∃ rest, build_users_list_cache_version_key t = ("tenant:" ++ rest)%string.
Proof. by eexists. Qed.
Lemma page_key_tenant t p v : ∃ rest, listing_key t p v = ("tenant:" ++ rest)%string.
Proof. by eexists. Qed.

Lemma version_not_page t t' p v : listing_key t' p v ≠ build_users_list_cache_version_key t.
Proof. intros E. by eapply version_key_listing_key. Qed.

(** A name of the settings against a key with a prefix. *)
Ltac name_clash Hap E :=
  match type of E with
  | ?k = (?p ++ ?x)%string => apply (name_not_prefixed k p x Hap) in E
  | (?p ++ ?x)%string = ?k => symmetry in E; apply (name_not_prefixed k p x Hap) in E
  end; [done|repeat first [by left|right]..].

Ltac as_tenant_key E :=
  repeat match type of E with
    | context [build_users_list_cache_version_key ?t] =>
        let Et := fresh in destruct (version_key_tenant t) as [? Et]; rewrite Et in E; clear Et
    | context [listing_key ?t ?p ?v] =>
        let Et := fresh in destruct (page_key_tenant t p v) as [? Et]; rewrite Et in E; clear Et
    end.

(** A key has one type. *)
Lemma key_of_fun k t t' : keys_apart = true → key_of k t → key_of k t' → t = t'.
Proof.
  intros Hap Hk Hk'. pose proof Hap as Hap'. unfold keys_apart in Hap'.
  rewrite !andb_true_iff, !bool_decide_eq_true in Hap'.
  destruct Hap' as [[_ Hd] Hl]. rewrite !not_elem_of_cons in Hd. rewrite !not_elem_of_cons in Hl.
  destruct Hd as (Hd1 & Hd2 & Hd3 & _), Hl as (Hl1 & Hl2 & Hl3 & Hl4 & _).
  destruct Hk as [| | | | |r|r|r|r|x|x p v];
    match type of Hk' with key_of ?k0 _ => remember k0 as k eqn:E end; destruct Hk';
    try reflexivity; exfalso;
    first [discriminate E | congruence
      | by eapply version_not_page, E | by eapply version_not_page, eq_sym, E
      | as_tenant_key E; first [discriminate E | name_clash Hap E]].
Qed.

(** ** Rows *)

Definition user_ok (u : User) : bool := is_email (u_email u) && one_of UserRole (u_role u).
Definition tenant_ok (t : Tenant) : bool := is_slug (t_slug t) && valid_tenant_name (t_name t).
Definition audit_log_ok (l : AuditLog) : bool := one_of AuditAction (al_action l).
Definition file_ok (f : UploadedFile) : bool :=
  one_of [status_pending; status_verified] (f_verification_status f).
(** A stored response is one of the webhook endpoint. *)
Definition record_ok (r : IdempotencyRecord) : bool :=
  ((ir_status_code r =? 200) || (ir_status_code r =? 409)) &&
  match loads (ir_response_body r) with
  | Some body => bool_decide (serialize WebhookInboundResponse body = Some body)
  | None => false
  end.

Definition row_ok {R} (t : table R) : R → bool :=
  match t in table R return R → bool with
  | TTenant => tenant_ok
  | TUser => user_ok
  | TAuditLog => audit_log_ok
  | TIdempotencyRecord => record_ok
  | TUploadedFile => file_ok
  | _ => λ _, true
  end.

Definition typed_tables (d : tables) : Prop :=
  map_Forall (λ _ r, tenant_ok r = true) (tenants d) ∧ map_Forall (λ _ r, user_ok r = true) (users d) ∧
  map_Forall (λ _ r, audit_log_ok r = true) (audit_logs d) ∧
  map_Forall (λ _ r, record_ok r = true) (idempotency_records d) ∧
  map_Forall (λ _ r, file_ok r = true) (uploaded_files d).
#[export] Instance typed_tables_dec d : Decision (typed_tables d).
Proof. unfold typed_tables. apply _. Defined.

(** A write that keeps the rows well typed. *)
Definition typed_write (wr : write) : Prop :=
  ∀ d d', typed_tables d → wr d = Some d' → typed_tables d'.

(** ** The state *)

Record typed_world (w : world) : Prop := {
  tw_clock : 0 <= w_clock w;
  tw_redis : typed_redis (w_redis w);
  tw_db : typed_tables (w_db w);
  tw_session : Forall typed_write (all_writes (w_session w));
  tw_metrics : Forall (λ m, sample_ok s m = true) (w_metrics w);
}.
End types.
