(* ===== verification/TypeSystem.v ===== *)
(** * A type system for programs

    [typed p P E]: the commands of [p] keep the stored data well typed, the values
    it returns satisfy [P] and the errors it raises [E], provided the services
    answer with well-typed data.  The judgment looks at the program alone, not at
    a state; [typed_sound] connects it with runs. *)

From Stdlib Require Import ZArith Ascii String Lia.
From stdpp Require Import base tactics option list gmap strings sorting fin_maps.
From S2P Require Import Prelude PyText Json Errors Config DateTime Models Permissions Services Programs.
From S2P Require Import DbFacts RedisFacts Schemas Metrics Typing.
Local Open Scope string_scope.
Local Open Scope list_scope.
Local Open Scope Z_scope.

Section type_system.
Context `{Crypto} `{Pydantic} (s : Settings).

(** ** Redis *)

Definition redis_ok {B} (c : redis_cmd B) : Prop :=
  match c with
  | LPUSH k v => key_of s k KJobs ∧ job_text v
  | LREM1 k _ | RPOP k | LRANGE k _ _ => key_of s k KJobs
  | BRPOPLPUSH src dst _ => key_of s src KJobs ∧ key_of s dst KJobs
  | ZADD k m _ => key_of s k KDelayed ∧ job_text m
  | ZREM k _ | ZRANGEBYSCORE k _ _ => key_of s k KDelayed
  | SET k v _ _ => key_of s k KText ∨ key_of s k KPage ∧ page_text v
  | GET k => key_of s k KPage ∨ key_of s k KCounter
  | INCR k => key_of s k KCounter
  | EXISTS _ | DEL _ | DELS _ | EXPIRE _ _ | PING => True
  end.

Definition redis_reply {B} (c : redis_cmd B) : B → Prop :=
  match c in redis_cmd B return B → Prop with
  | BRPOPLPUSH _ _ _ | RPOP _ => λ o, match o with Some raw => job_text raw | None => True end
  | LRANGE _ _ _ | ZRANGEBYSCORE _ _ _ => λ l, Forall job_text l
  | GET k => λ o, match o with
                  | Some raw => (key_of s k KPage → page_text raw) ∧ (key_of s k KCounter → counter_text raw)
                  | None => True
                  end
  | _ => λ _, True
  end.

Section redis.
Context (Hap : keys_apart s = true) (now : Z) (st : rstate) (Hst : typed_redis s st).

Lemma live_typed k e t : live now st k = Some e → key_of s k t → entry_ok t (re_value e).
Proof.
  unfold live. destruct (st !! k) as [e'|] eqn:Ek; [|done]. intros Hl Hk. apply (Hst k e t); [|done].
  destruct (re_expires e') as [x|]; [destruct (x <=? now)|]; congruence.
Qed.

Lemma as_list_typed k l ex : key_of s k KJobs → as_list now st k = Ok (l, ex) → Forall job_text l.
Proof.
  intros Hk. unfold as_list. destruct (live now st k) as [[v x]|] eqn:El; [|intros [= <- _]; constructor].
  pose proof (live_typed k _ _ El Hk) as Ht. cbn in Ht. destruct v; try done. by intros [= <- _].
Qed.

Lemma as_zset_typed k z ex : key_of s k KDelayed → as_zset now st k = Ok (z, ex) →
  ∀ m, is_Some (z !! m) → job_text m.
Proof.
  intros Hk. unfold as_zset. destruct (live now st k) as [[v x]|] eqn:El.
  - pose proof (live_typed k _ _ El Hk) as Ht. cbn in Ht. destruct v; try done. by intros [= <- _].
  - intros [= <- _] m [? Hm]. by rewrite lookup_empty in Hm.
Qed.

Lemma as_str_typed k raw ex : as_str now st k = Ok (Some (raw, ex)) →
  ∀ t, key_of s k t → entry_ok t (RStr raw).
Proof.
  unfold as_str. destruct (live now st k) as [[v x]|] eqn:El; [|done].
  destruct v; try done. intros [= <- _] t Hk. apply (live_typed _ _ _ El Hk).
Qed.

Lemma typed_insert st' k v ex t : typed_redis s st' → key_of s k t → entry_ok t v →
  typed_redis s (<[k := REntry v ex]> st').
Proof.
  intros Hst' Hk Hv k' e t' [[<- <-]|[_ He]]%lookup_insert_Some Hk'; [|by eapply Hst'].
  by rewrite (key_of_fun s k t' t Hap Hk' Hk).
Qed.

Lemma typed_delete st' k : typed_redis s st' → typed_redis s (delete k st').
Proof. intros Hst' k' e t [_ He]%lookup_delete_Some Hk. by eapply Hst'. Qed.

Lemma put_jobs_typed st' k l ex : typed_redis s st' → key_of s k KJobs → Forall job_text l →
  typed_redis s (put_list k l ex st').
Proof. intros Hst' Hk Hl. destruct l; [by apply typed_delete|by eapply typed_insert]. Qed.

Lemma put_delayed_typed st' k z ex : typed_redis s st' → key_of s k KDelayed →
  (∀ m, is_Some (z !! m) → job_text m) → typed_redis s (put_zset k z ex st').
Proof. intros Hst' Hk Hz. unfold put_zset. case_decide; [by apply typed_delete|by eapply typed_insert]. Qed.
End redis.

Lemma Forall_unsnoc {A} (P : A → Prop) l l' x : Forall P l → unsnoc l = Some (l', x) → Forall P l' ∧ P x.
Proof. intros Hl ->%unsnoc_Some. by rewrite Forall_app, Forall_singleton in Hl. Qed.

Lemma typed_delete_keys now ks st : typed_redis s st → typed_redis s (delete_keys now ks st).2.
Proof.
  revert st. induction ks as [|k ks IH]; intros st Hst; [done|]. cbn.
  specialize (IH (delete k st) (typed_delete st k Hst)). by destruct (delete_keys _ _ _).
Qed.

(** A job moved from one list to another. *)
Lemma brpoplpush_typed now st src dst timeout :
  keys_apart s = true → typed_redis s st → key_of s src KJobs → key_of s dst KJobs →
  typed_redis s (redis_exec now (BRPOPLPUSH src dst timeout) st).2 ∧
  ∀ b, (redis_exec now (BRPOPLPUSH src dst timeout) st).1 = Ok b → redis_reply (BRPOPLPUSH src dst timeout) b.
Proof.
  intros Hap Hst Hk Hd. pose proof (put_jobs_typed Hap) as Hpl. pose proof (as_list_typed now st Hst) as Hlist.
  cbn [redis_reply redis_exec]. destruct (as_list now st src) as [[l ex]|e] eqn:E; cbn; [|done].
  destruct (unsnoc l) as [[l' v]|] eqn:El; cbn; [|split; [done|by intros b [= <-]]].
  destruct (Forall_unsnoc _ _ _ _ (Hlist _ _ _ Hk E) El) as [Hl' Hv].
  pose proof (Hpl st src l' ex Hst Hk Hl') as Hst'.
  destruct (as_list now (put_list src l' ex st) dst) as [[d ex']|e] eqn:Ed; cbn; [|done].
  split; [|by intros b [= <-]]. refine (Hpl _ dst (v :: d) ex' Hst' Hd _). constructor; [done|].
  by eapply (as_list_typed now _ Hst').
Qed.

(** A command keeps the entries well typed, and its reply is. *)
Lemma redis_typed {B} (c : redis_cmd B) now st :
  keys_apart s = true → typed_redis s st → redis_ok c →
  typed_redis s (redis_exec now c st).2 ∧ ∀ b, (redis_exec now c st).1 = Ok b → redis_reply c b.
Proof.
  intros Hap Hst. pose proof (as_list_typed now st Hst) as Hlist. pose proof (as_zset_typed now st Hst) as Hzset.
  pose proof (as_str_typed now st Hst) as Hstr. pose proof (live_typed now st Hst) as Hlive.
  pose proof (put_jobs_typed Hap) as Hpl. pose proof (put_delayed_typed Hap) as Hpz.
  destruct c; cbn [redis_ok redis_reply redis_exec]; intros Hok.
  - destruct Hok as [Hk Hv]. destruct (as_list now st k) as [[l ex]|e] eqn:E; cbn; [|done].
    split; [|done]. refine (Hpl st k (v :: l) ex Hst Hk _). constructor; [done|by eapply Hlist].
  - destruct (as_list now st k) as [[l ex]|e] eqn:E; cbn; [|done]. case_decide; [|done].
    split; [|done]. refine (Hpl st k _ ex Hst Hok _). by eapply Forall_remove_first, Hlist.
  - destruct Hok as [Hk Hd]. by apply (brpoplpush_typed now st src dst timeout).
  - destruct (as_list now st k) as [[l ex]|e] eqn:E; cbn; [|done].
    destruct (unsnoc l) as [[l' v]|] eqn:El; cbn; [|split; [done|by intros b [= <-]]].
    destruct (Forall_unsnoc _ _ _ _ (Hlist _ _ _ Hok E) El) as [Hl' Hv].
    split; [exact (Hpl st k l' ex Hst Hok Hl')|by intros b [= <-]].
  - destruct (as_list now st k) as [[l ex]|e] eqn:E; cbn; [|done]. split; [done|].
    intros b [= <-]. unfold lrange. apply Forall_take, Forall_drop. by eapply Hlist.
  - destruct Hok as [Hk Hm]. destruct (as_zset now st k) as [[z ex]|e] eqn:E; cbn; [|done].
    split; [|done]. refine (Hpz st k _ ex Hst Hk _). intros m' [x Hx]. apply lookup_insert_Some in Hx as [[<- _]|[_ Hx]]; [done|].
    by eapply Hzset.
  - destruct (as_zset now st k) as [[z ex]|e] eqn:E; cbn; [|done]. case_decide; [|done].
    split; [|done]. refine (Hpz st k _ ex Hst Hok _). intros m' [x Hx]. apply lookup_delete_Some in Hx as [_ Hx]. by eapply Hzset.
  - destruct (as_zset now st k) as [[z ex]|e] eqn:E; cbn; [|done]. split; [done|].
    intros b [= <-]. apply Forall_forall.
    intros m (sc & Hm & _)%elem_of_zrange. eapply Hzset; [exact Hok|exact E|by eexists].
  - split; [|by intros]. match goal with |- context [REntry (RStr v) ?x] => set (ex' := x) end.
    assert (typed_redis s (<[k := REntry (RStr v) ex']> st)) as Hset
      by (destruct Hok as [Hk|[Hk Hv]]; by eapply typed_insert).
    by repeat case_match.
  - destruct (as_str now st k) as [o|e] eqn:E; cbn; [|done]. split; [done|]. intros b [= <-].
    destruct o as [[raw ex]|]; [|done]. cbn. split; intros Hk; exact (Hstr _ _ _ E _ Hk).
  - done.
  - split; [by apply typed_delete|done].
  - pose proof (typed_delete_keys now ks st Hst) as Hks. by destruct (delete_keys now ks st).
  - destruct (as_str now st k) as [[[raw ex]|]|e]; cbn; [|split; [|done]|done].
    + destruct (int_of_str raw) as [n|]; [|done]. case_match; [|done]. split; [|done].
      eapply typed_insert; [done..|]. by eexists.
    + eapply typed_insert; [done..|]. by exists 1.
  - destruct (live now st k) as [e|] eqn:El; cbn; [|done]. split; [|done].
    destruct (seconds <=? 0); [by apply typed_delete|].
    intros k' e' t [[<- <-]|[_ He]]%lookup_insert_Some Hk'; [exact (Hlive _ _ _ El Hk')|exact (Hst _ _ _ He Hk')].
  - done.
Qed.

(** ** The database *)

Definition db_ok {B} (c : db_cmd B) : Prop :=
  match c with
  | Add t mk => ∀ key created, row_ok t (mk key created) = true
  | SetRow t _ f => ∀ r r', row_ok t r = true → f r = Some r' → row_ok t r' = true
  | BulkUpdate t _ f => ∀ r, row_ok t r = true → row_ok t (f r) = true
  | _ => True
  end.

Definition db_reply {B} (c : db_cmd B) : B → Prop :=
  match c in db_cmd B return B → Prop with
  | Select t q => λ l, Forall (λ r, row_ok t r = true ∧ q_where q r = true) l
  | Add t mk => λ r, ∃ key created, r = mk key created
  | Refresh t _ => λ r, row_ok t r = true
  | _ => λ _, True
  end.

Definition is_db_error (e : exn) : bool :=
  match e with IntegrityError | OperationalError _ | InvalidRequestError _ => true | _ => false end.

Lemma typed_rows {R} (t : table R) d :
  typed_tables d → map_Forall (λ _ r, row_ok t r = true) (get_table t d).
Proof. intros (Ht & Hu & Ha & Hi & Hf). destruct t; cbn; done. Qed.

Lemma typed_set_table {R} (t : table R) m d :
  typed_tables d → map_Forall (λ _ r, row_ok t r = true) m → typed_tables (set_table t m d).
Proof. intros (Ht & Hu & Ha & Hi & Hf) Hm. destruct t; split_and!; done. Qed.

Lemma typed_delete_row {R} (t : table R) k d : typed_tables d → typed_tables (delete_row t k d).
Proof.
  intros Hd. assert (∀ R' (t' : table R'), typed_tables (set_table t' (delete k (get_table t' d)) d)) as Hdel.
  { intros R' t'. apply typed_set_table; [done|]. apply map_Forall_delete. by apply typed_rows. }
  destruct t; try apply Hdel. destruct Hd as (Ht & Hu & Ha & Hi & Hf). split_and!; try done.
  - by apply map_Forall_delete.
  - intros i f [Hif _]%map_lookup_filter_Some. exact (Hf i f Hif).
Qed.

Lemma typed_insert_row {R} (t : table R) k r : row_ok t r = true → typed_write (insert_row t k r).
Proof.
  intros Hr d d' Hd [= <-]. apply typed_set_table; [done|]. apply map_Forall_insert_2; [done|by apply typed_rows].
Qed.

Lemma typed_change_row {R} (t : table R) k f :
  (∀ r r', row_ok t r = true → f r = Some r' → row_ok t r' = true) → typed_write (set_row t k f).
Proof.
  intros Hf d d' Hd. unfold set_row. destruct (get_table t d !! k) as [r|] eqn:Er; [|by intros [= <-]].
  destruct (f r) as [r'|] eqn:Ef; [|done]. cbn [mbind option_bind]. intros [= <-].
  pose proof (typed_rows t d Hd) as Hrows. apply typed_set_table; [done|].
  apply map_Forall_insert_2; [|done]. eapply Hf; [|exact Ef]. exact (Hrows k r Er).
Qed.

Lemma typed_drop_row {R} (t : table R) k : typed_write (drop_row t k).
Proof. intros d d' Hd [= <-]. by apply typed_delete_row. Qed.

Lemma typed_bulk_update {R} (t : table R) p f :
  (∀ r, row_ok t r = true → row_ok t (f r) = true) → typed_write (bulk_update t p f).
Proof.
  intros Hf d d' Hd [= <-]. apply typed_set_table; [done|]. apply map_Forall_fmap.
  intros k r Hr. pose proof (typed_rows t d Hd k r Hr) as Hok. cbn in Hok |- *. destruct (p r); [by apply Hf|done].
Qed.

Lemma typed_bulk_delete {R} (t : table R) p : typed_write (bulk_delete t p).
Proof.
  intros d d' Hd [= <-]. generalize (fst <$> filter (λ '(_, r), p r = true) (map_to_list (get_table t d))).
  intros l. induction l as [|k l IH]; cbn; [done|]. by apply typed_delete_row.
Qed.

Lemma typed_run_writes ws d d' :
  Forall typed_write ws → typed_tables d → run_writes ws d = Some d' → typed_tables d'.
Proof. apply writes_preserve. Qed.

(** A state with other tables and another session. *)
Lemma typed_with_db d ss w : typed_world s w → typed_tables d → Forall typed_write (all_writes ss) →
  typed_world s (with_db d ss w).
Proof. intros [? ? ? ? ?] ? ?. by split. Qed.

Lemma typed_end_session w : typed_world s w → typed_world s (end_session w).
Proof. intros Hw. apply typed_with_db; [done|apply Hw|constructor]. Qed.

Lemma typed_push wr w : typed_world s w → typed_write wr → typed_world s (push wr w).
Proof.
  intros Hw Hwr. apply typed_with_db; [done|apply Hw|]. pose proof (tw_session s w Hw) as Hs.
  unfold all_writes in *. cbn. rewrite app_assoc. apply Forall_app. by split; [|apply Forall_singleton].
Qed.

Lemma typed_push_flushed wr w : typed_world s w → typed_write wr → typed_world s (push_flushed wr w).
Proof.
  intros Hw Hwr. apply typed_with_db; [done|apply Hw|]. pose proof (tw_session s w Hw) as Hs.
  unfold all_writes in *. cbn. rewrite !Forall_app in *. destruct Hs. by rewrite Forall_singleton.
Qed.

Lemma typed_flush_result w d : typed_world s w → flush_result w = Some d → typed_tables d.
Proof.
  intros Hw. unfold flush_result. destruct (run_writes _ _) as [d1|] eqn:E; [|done]. cbn. case_decide; [|done].
  intros [= <-]. eapply typed_run_writes; [apply Hw|apply Hw|exact E].
Qed.

Lemma typed_tx_view w d : typed_world s w → tx_view (w_db w) (w_session w) = Some d → typed_tables d.
Proof.
  intros Hw. apply typed_run_writes; [|apply Hw]. pose proof (tw_session s w Hw) as Hs.
  unfold all_writes in Hs. by apply Forall_app in Hs as [? _].
Qed.

(** A bulk statement. *)
Lemma typed_bulk {R} (t : table R) p wr w r w' :
  typed_world s w → typed_write wr → bulk_spec t p wr w r w' →
  typed_world s w' ∧ ∀ e, r = Err e → is_db_error e = true.
Proof.
  intros Hw Hwr. unfold bulk_spec. destruct (tx_view _ _); [destruct (bulk wr w)|]; intros [-> ->].
  - split; [by apply typed_push_flushed|done].
  - split; [by apply typed_end_session|by intros e [= <-]].
  - split; [by apply typed_end_session|by intros e [= <-]].
Qed.

Lemma typed_select {R} (t : table R) q d res :
  typed_tables d → select_spec q (rows t d) res → Forall (λ r, row_ok t r = true ∧ q_where q r = true) res.
Proof.
  intros Hd (l & Hl & _ & ->). assert (Forall (λ r, row_ok t r = true ∧ q_where q r = true) l) as Hall.
  { rewrite Hl. apply Forall_forall. intros r [Hq Hr]%list_elem_of_filter. split; [|done].
    apply elem_of_rows in Hr as [k Hk]. exact (typed_rows t d Hd k r Hk). }
  destruct (q_limit q); [apply Forall_take|]; by apply Forall_drop.
Qed.

(** A command keeps the rows well typed, and its reply is. *)
Lemma db_typed {B} (c : db_cmd B) w r w' :
  typed_world s w → db_ok c → db_spec c w r w' →
  typed_world s w' ∧ match r with Ok b => db_reply c b | Err e => is_db_error e = true end.
Proof.
  intros Hw. destruct c; cbn [db_ok db_reply db_spec]; intros Hok.
  - intros [-> Hs]. split; [done|]. destruct (tx_view _ _) as [d|] eqn:Ed; [|by subst r].
    destruct Hs as (res & Hs & ->). eapply typed_select; [by eapply typed_tx_view|done].
  - intros (key & created & _ & _ & -> & ->). split; [|by eauto]. by apply typed_push, typed_insert_row.
  - intros [-> ->]. split; [|done]. by apply typed_push, typed_change_row.
  - intros [-> ->]. split; [|done]. by apply typed_push, typed_drop_row.
  - intros Hb. destruct (typed_bulk _ _ _ _ _ _ Hw (typed_bulk_update t p f Hok) Hb) as [Hw' He].
    split; [done|]. destruct r; [done|by apply He].
  - intros Hb. destruct (typed_bulk _ _ _ _ _ _ Hw (typed_bulk_delete t p) Hb) as [Hw' He].
    split; [done|]. destruct r; [done|by apply He].
  - intros [-> ->]. split; [done|]. destruct (tx_view _ _) as [d|] eqn:Ed; [|done]. cbn.
    destruct (get_table t d !! key) as [row|] eqn:Er; [|done].
    eapply (typed_rows t d); [by eapply typed_tx_view|exact Er].
  - destruct (flush_result w) as [d|]; intros [-> ->]; [|split; [by apply typed_end_session|done]].
    split; [|done]. apply typed_with_db; [done|apply Hw|]. unfold all_writes at 1. cbn. rewrite app_nil_r. apply Hw.
  - destruct (flush_result w) as [d|] eqn:Ed; intros [-> ->]; [|split; [by apply typed_end_session|done]].
    split; [|done]. apply typed_with_db; [done|by eapply typed_flush_result|constructor].
  - intros [-> ->]. split; [by apply typed_end_session|done].
  - intros [-> ->]. split; [by apply typed_end_session|done].
  - intros [-> ->]. done.
Qed.

(** ** Commands *)

Definition cmd_ok (B : Type) (c : svc B) : Prop :=
  match c with
  | Redis c => redis_ok c
  | Db c => db_ok c
  | Observe m => sample_ok s m = true
  | _ => True
  end.

Definition cmd_reply {B} (c : svc B) : B → Prop :=
  match c in svc B return B → Prop with
  | Redis c => redis_reply c
  | Db c => db_reply c
  | Now => in_years
  | _ => λ _, True
  end.

(** The errors a command may raise. *)
Definition cmd_error {B} (c : svc B) (e : exn) : bool :=
  match c with
  | Redis _ => is_redis_error e
  | Db _ => is_db_error e
  | S3 _ => is_boto_error e
  | SendMail _ | HttpPost _ _ _ => is_os_error e
  | BcryptHash _ => is_value_error e
  | _ => false
  end.

(** A reply of the type of the command. *)
Definition answers {B} (c : svc B) (r : result exn B) : Prop :=
  match r with Ok b => cmd_reply c b | Err e => cmd_error c e = true end.

Lemma typed_advance w w1 : typed_world s w → advance w w1 → typed_world s w1.
Proof. intros [Hc Hr Hd Hs Hm] (t & m & b & Ht & _ & _ & ->). split; cbn; [lia|done..]. Qed.

Lemma cmd_typed {B} (c : svc B) w r w' :
  keys_apart s = true → typed_world s w → w_clock w < end_of_time → cmd_ok B c → cmd_spec c w r w' →
  typed_world s w' ∧ answers c r.
Proof.
  intros Hap Hw Hend. pose proof Hw as [Hc Hr Hd Hs Hm].
  destruct c; cbn [cmd_ok cmd_spec]; intros Hok.
  - pose proof (redis_typed c (w_clock w) (w_redis w) Hap Hr Hok) as [Hst Hrep].
    pose proof (redis_exec_error (w_clock w) c (w_redis w)) as Herr.
    destruct (redis_exec _ _ _) as [r0 st]. intros [= -> ->]. split; [by split|].
    destruct r0; [by apply Hrep|by apply Herr].
  - intros Hspec. by eapply db_typed.
  - assert (∀ e, (s3_exec c (w_s3 w)).1 = Err e → is_boto_error e = true) as Herr
      by (intros e; destruct c; cbn; try done; case_match; try done; by intros [= <-]).
    destruct (s3_exec _ _) as [r0 o]. intros [= -> ->]. split; [by split|]. destruct r0; [done|by apply Herr].
  - intros [-> ->]. split; [by split|done].
  - intros (reply & -> & ->). split; [by split|done].
  - intros [-> ->]. split; [done|]. split; [done|exact Hend].
  - by intros [-> ->].
  - intros [-> ->]. split; [|done]. split; cbn; [lia|done..].
  - by intros (-> & n & -> & _).
  - by intros (-> & t & -> & _).
  - intros [-> Hb]. split; [done|]. destruct (bcrypt_refuses password);
      [by destruct Hb as [m ->]|by destruct Hb as (h & -> & _)].
  - destruct (f _) as [b p]. intros [-> ->]. split; [by split|done].
  - intros [-> ->]. split; [|done]. split; try done. by constructor.
Qed.

Lemma svc_typed faults {B} (c : svc B) w r w' :
  keys_apart s = true → typed_world s w → cmd_ok B c → svc_spec faults c w r w' →
  w_clock w' < end_of_time → typed_world s w' ∧ answers c r.
Proof.
  intros Hap Hw Hok (w1 & Hadv & Hcase) Hend.
  pose proof (typed_advance _ _ Hw Hadv) as Hw1.
  assert (w_clock w1 < end_of_time) as Hend1.
  { destruct Hcase as [Hs|(_ & e & _ & _ & [->|[r' Hs]])]; [|done|]; apply cmd_clock in Hs; lia. }
  assert (∀ e, infra_error c e → cmd_error c e = true) as Hinfra.
  { intros e He. destruct c; cbn in He |- *; try done; destruct He as [? He]; destruct_or?; by subst. }
  destruct Hcase as [Hs|(_ & e & He & -> & [->|[r' Hs]])].
  - by eapply cmd_typed.
  - split; [done|]. by apply Hinfra.
  - split; [|by apply Hinfra]. by eapply (cmd_typed c w1 r').
Qed.

(** ** The judgment *)

Fixpoint typed {A} (p : prog A) (P : A → Prop) (E : exn → Prop) : Prop :=
  match p with
  | Ret a => P a
  | Raise e => E e
  | Call c k => cmd_ok _ c ∧ ∀ r, answers c r → typed (k r) P E
  end.

Lemma typed_mono {A} (p : prog A) (P P' : A → Prop) (E E' : exn → Prop) :
  (∀ a, P a → P' a) → (∀ e, E e → E' e) → typed p P E → typed p P' E'.
Proof. intros HP HE. induction p as [| |B c k IH]; cbn; [auto..|]. intros [? Hk]. split; eauto. Qed.

Lemma typed_bind {A B} (p : prog A) (f : A → prog B) P Q E :
  typed p P E → (∀ a, P a → typed (f a) Q E) → typed (p ≫= f) Q E.
Proof.
  intros Hp Hf. unfold mbind, prog_bind. induction p as [| |C c k IH]; cbn in *; [auto..|].
  destruct Hp as [? Hk]. split; eauto.
Qed.

Lemma typed_catch {A} (p : prog A) h P E E' :
  typed p P E → (∀ e, E e → typed (h e) P E') → typed (catch p h) P E'.
Proof.
  intros Hp Hh. induction p as [| |C c k IH]; cbn in *; [auto..|]. destruct Hp as [? Hk]. split; eauto.
Qed.

Lemma typed_finally {A} (p : prog A) q P E :
  typed p P E → typed q (λ _, True) E → typed (finally p q) P E.
Proof.
  intros Hp Hq. induction p as [a|e|C c k IH]; cbn in *.
  - eapply (typed_bind q); [exact Hq|done].
  - eapply (typed_bind q); [exact Hq|done].
  - destruct Hp as [? Hk]. split; eauto.
Qed.

Lemma typed_of_result {A} (r : result exn A) (P : A → Prop) (E : exn → Prop) :
  match r with Ok a => P a | Err e => E e end → typed (of_result r) P E.
Proof. by destruct r. Qed.

Lemma typed_call {B} (c : svc B) (P : B → Prop) (E : exn → Prop) :
  cmd_ok B c → (∀ b, cmd_reply c b → P b) → (∀ e, cmd_error c e = true → E e) → typed (call c) P E.
Proof. intros Hok HP HE. split; [done|]. intros [b|e] Hr; cbn; [by apply HP|by apply HE]. Qed.

(** ** Soundness *)

Definition in_time (w : world) : Prop := w_clock w < end_of_time.

Lemma typed_wpi faults {A} (p : prog A) (P : A → Prop) (E : exn → Prop) w :
  keys_apart s = true → (in_time w → typed_world s w ∧ typed p P E) →
  wpi faults (λ w, in_time w → typed_world s w) p
    (λ r w', in_time w' → match r with Ok a => P a | Err e => E e end) w.
Proof.
  intros Hap. revert w. induction p as [a|e|B c k IH]; intros w Hw; cbn [wpi typed] in *.
  - split; intros Ht; by apply Hw.
  - split; intros Ht; by apply Hw.
  - split; [intros Ht; by apply Hw|]. intros r w' Hs. apply IH. intros Ht.
    assert (in_time w) as Ht0 by (unfold in_time in *; apply svc_clock in Hs; lia).
    destruct (Hw Ht0) as (Hw0 & Hok & Hk). destruct (svc_typed _ _ _ _ _ Hap Hw0 Hok Hs Ht) as [Hw' Hr].
    split; [done|by apply Hk].
Qed.
End type_system.

(** The clock of a run never goes back. *)
Lemma trace_clock `{ServicesSpec faults W} {A} (p : prog A) w :
  Forall (λ w', w_clock (view w') <= w_clock (view (snd (run p w)))) (trace p w) ∧
  w_clock (view w) <= w_clock (view (snd (run p w))).
Proof.
  revert w. induction p as [a|e|B c k IH]; intros w; cbn; [split; [by constructor|done]..|].
  pose proof (serve_spec B c w) as Hs%svc_clock. destruct (serve c w) as [r w']. cbn in Hs.
  destruct (IH r w') as [Hall Hle]. split; [constructor; [lia|done]|lia].
Qed.

(** A typed program started on well-typed data keeps it well typed at every
    moment, and ends as its type says. *)
Lemma typed_sound `{ServicesSpec faults W} `{Pydantic} (s : Settings) {A} (p : prog A) P E w :
  keys_apart s = true → typed s p P E → typed_world s (view w) →
  in_time (view (snd (run p w))) →
  Forall (λ w', typed_world s (view w')) (trace p w) ∧
  match fst (run p w) with Ok a => P a | Err e => E e end.
Proof.
  intros Hap Hp Hw Ht.
  destruct (wpi_trace (λ w, in_time w → typed_world s w) p
    (λ r w', in_time w' → match r with Ok a => P a | Err e => E e end) w) as [Hall Hres].
  { by apply typed_wpi. }
  split; [|by apply Hres]. destruct (trace_clock p w) as [Hclock _].
  eapply Forall_impl; [apply Forall_and; split; [exact Hall|exact Hclock]|].
  cbn. intros w' [Hw' Hle]. apply Hw'. unfold in_time in *. lia.
Qed.
