(* ===== verification/TypedServices.v ===== *)
(** * The services are well typed

    One typing lemma per operation: the queue, the cache, the rate limits, the
    users, the tenants, authentication, password resets, files, idempotency and
    webhooks keep the stored data well typed and return well-typed rows. *)

From Stdlib Require Import ZArith Ascii String Lia.
From stdpp Require Import base tactics option list gmap strings sorting fin_maps.
From S2P Require Import Prelude PyText Json Errors Config DateTime Models Permissions Services Programs.
From S2P Require Import DbFacts RedisFacts Ids JobQueue Tenants Cache Cursor Users CacheSafety Auth Http RateLimit.
From S2P Require Import Email PasswordReset Idempotency Webhooks Metrics Storage Admin Api Schemas PublicApi Typing TypeSystem.
Local Open Scope string_scope.
Local Open Scope list_scope.
Local Open Scope Z_scope.

Section typed_services.
Context `{Crypto} `{SqlText} `{Pydantic} (s : Settings).

Local Abbreviation redis_only := (λ e, is_redis_error e = true).
(** A program with whatever errors. *)
Local Abbreviation soft p P := (typed s p P (λ _, True)).

(** ** Structural rules *)

Lemma soft_call {B} (c : svc B) : cmd_ok s B c → soft (call c) (cmd_reply s c).
Proof. intros Hc. by apply typed_call. Qed.

(** Only the commands count. *)
Lemma soft_keeps {A} (p : prog A) : keeps (cmd_ok s) p → soft p (λ _, True).
Proof. induction p as [| |B c k IH]; cbn; [done..|]. intros [Hc Hk]. split; [done|]. intros r _. by apply IH. Qed.

Lemma soft_true {A} (p : prog A) P : soft p P → soft p (λ _, True).
Proof. by apply typed_mono. Qed.

Lemma soft_of_result {A} (r : result exn A) (P : A → Prop) : (∀ a, r = Ok a → P a) → soft (of_result r) P.
Proof. intros HP. apply typed_of_result. destruct r; auto. Qed.

Lemma soft_select {R} (t : table R) q :
  soft (db (Select t q)) (Forall (λ r, row_ok t r = true ∧ q_where q r = true)).
Proof. by apply soft_call. Qed.

Lemma soft_first {R} (t : table R) p :
  soft (first t p) (λ o, match o with Some r => row_ok t r = true ∧ p r = true | None => True end).
Proof.
  eapply typed_bind; [apply soft_select|]. intros [|r l] Hl; cbn; [done|]. by apply Forall_inv in Hl.
Qed.

Lemma soft_refresh {R} (t : table R) k : soft (db (Refresh t k)) (λ r, row_ok t r = true).
Proof. by apply soft_call. Qed.

Lemma soft_add {R} (t : table R) mk :
  (∀ key created, row_ok t (mk key created) = true) → soft (db (Add t mk)) (λ r, row_ok t r = true).
Proof. intros Hmk. eapply typed_mono; [| |by apply soft_call]; [|done]. by intros r (key & created & ->). Qed.

Lemma soft_in_session {A} (p : prog A) P : soft p P → soft (in_session p) P.
Proof. intros Hp. apply typed_finally; [done|]. by apply soft_keeps, keeps_call. Qed.

(** ** The queue *)

Lemma typed_or_now E t :
  typed s (or_now t) (λ x, t = None → ∃ us, in_years us ∧ x = isoformat us) E.
Proof.
  unfold or_now. assert (typed s (now ← now_us; Ret (isoformat now))
    (λ x, t = None → ∃ us, in_years us ∧ x = isoformat us) E) as Hnow.
  { eapply typed_bind; [apply typed_call with (P := in_years); try done|]. intros us Hus _. by exists us. }
  destruct t as [x|]; [|done]. destruct (truthy x); [|done]. cbn. done.
Qed.

Lemma typed_uuid7 E : typed s uuid7 (λ _, True) E.
Proof.
  unfold uuid7. do 3 (eapply typed_bind; [apply typed_call with (P := λ _, True); try done|intros ? _]).
  done.
Qed.

Lemma typed_redis_call {B} (c : redis_cmd B) : redis_ok s c → typed s (redis c) (redis_reply s c) redis_only.
Proof. intros Hc. by apply typed_call. Qed.

(** A job is typed when it is one of the program's. *)
Lemma typed_enqueue_job job_type payload queue :
  key_of s queue KJobs →
  job_payload {| id := JNull; type := JStr job_type; payload := payload; attempts := JNull;
                 request_id := JNull; last_error := JNull; failed_at := JNull;
                 processing_started_at := JNull |} →
  typed s (enqueue_job job_type payload queue) app_job redis_only.
Proof.
  intros Hk Hp. unfold enqueue_job. eapply typed_bind; [apply typed_uuid7|]. intros i _.
  eapply typed_bind; [apply typed_call with (P := λ _, True); done|]. intros rid _.
  match goal with |- context [to_json ?j] => assert (app_job j) as Hj end.
  { split; cbn; [by eexists|exact Hp|by exists 0| |by left..]. destruct rid; [right; by eexists|by left]. }
  eapply typed_bind; [|intros n _; exact Hj]. apply typed_redis_call. split; [done|by apply app_job_text].
Qed.

Lemma typed_with_started E j : app_job j → typed s (with_processing_started_at j None) app_job E.
Proof.
  intros Hj. unfold with_processing_started_at. eapply typed_bind; [apply typed_or_now|].
  intros x Hx. destruct (Hx eq_refl) as (us & Hus & ->). apply app_job_started; [done|]. right. by exists us.
Qed.

Lemma typed_from_json E raw : job_text raw → typed s (of_result (from_json raw)) app_job E.
Proof. intros (j & -> & Hj)%job_text_from. exact Hj. Qed.

Lemma typed_dequeue_job queue processing timeout :
  key_of s queue KJobs → key_of s processing KJobs →
  typed s (dequeue_job queue processing timeout)
    (λ o, match o with Some j => app_job j | None => True end) redis_only.
Proof.
  intros Hq Hp. unfold dequeue_job. eapply typed_bind; [by apply typed_redis_call|].
  intros [raw|] Hraw; [|done]. eapply typed_bind; [by apply typed_from_json|]. intros j Hj.
  eapply typed_bind; [by apply typed_with_started|]. intros j' Hj'. destruct (negb _); [|done].
  eapply typed_bind; [by apply typed_redis_call|]. intros n _.
  eapply typed_bind; [apply typed_redis_call; split; [done|by apply app_job_text]|]. intros m _. exact Hj'.
Qed.

Lemma typed_ack_job j processing : key_of s processing KJobs →
  typed s (ack_job j processing) (λ _, True) redis_only.
Proof. intros Hp. eapply typed_bind; [by apply typed_redis_call|]. done. Qed.

Lemma typed_schedule_retry j e processing delayed :
  app_job j → key_of s processing KJobs → key_of s delayed KDelayed →
  typed s (schedule_retry s j e processing delayed None) app_job redis_only.
Proof.
  intros Hj Hp Hd. unfold schedule_retry. destruct (app_job_next j Hj) as (j1 & -> & Hj1).
  destruct (app_job_error j1 e Hj1) as (j2 & Ej2 & Hj2). destruct (aj_attempts j2 Hj2) as (n & Hn & _).
  eapply typed_bind; [apply typed_of_result with (P := λ x, x = j1); done|]. intros x ->. rewrite Ej2.
  eapply typed_bind; [apply typed_of_result with (P := λ x, x = j2); done|]. intros x ->.
  eapply typed_bind; [apply typed_call with (P := λ _, True); done|]. intros t _. rewrite Hn.
  eapply typed_bind; [apply typed_of_result with (P := λ _, True); done|]. intros m _.
  eapply typed_bind; [by apply typed_redis_call|]. intros ? _.
  eapply typed_bind; [apply typed_redis_call; split; [done|by apply app_job_text]|]. intros ? _. exact Hj2.
Qed.

Lemma typed_promote_loop queue delayed limit raws n :
  key_of s queue KJobs → key_of s delayed KDelayed → Forall job_text raws →
  typed s (promote_loop queue delayed limit raws n) (λ _, True) redis_only.
Proof.
  intros Hq Hd Hl. revert n. induction Hl as [|raw raws Hraw _ IH]; intros n; cbn [promote_loop]; [done|].
  destruct (match limit with Some _ => _ | None => _ end); [done|].
  eapply typed_bind; [by apply typed_redis_call|]. intros m _. destruct (negb _); [|apply IH].
  eapply typed_bind; [by apply typed_redis_call|]. intros ? _. apply IH.
Qed.

Lemma typed_promote_delayed_jobs queue delayed limit :
  key_of s queue KJobs → key_of s delayed KDelayed →
  typed s (promote_delayed_jobs queue delayed None limit) (λ _, True) redis_only.
Proof.
  intros Hq Hd. unfold promote_delayed_jobs. eapply typed_bind; [apply typed_call with (P := λ _, True); done|].
  intros t _. eapply typed_bind; [by apply typed_redis_call|]. intros raws Hraws. by apply typed_promote_loop.
Qed.

(** The age of a job of the program is always known. *)
Lemma app_job_stale t v j : app_job j → is_ok (is_stale t v j) = true.
Proof.
  intros Hj. unfold is_stale. destruct (aj_started j Hj) as [->|(us & Hus & ->)]; [done|].
  by rewrite fromisoformat_isoformat.
Qed.

Lemma typed_reclaim_loop queue processing v t raws n :
  key_of s queue KJobs → key_of s processing KJobs → Forall job_text raws →
  typed s (reclaim_loop queue processing v t raws n) (λ _, True) redis_only.
Proof.
  intros Hq Hp Hl. revert n. induction Hl as [|raw raws Hraw _ IH]; intros n; cbn [reclaim_loop]; [done|].
  eapply typed_bind; [by apply typed_from_json|]. intros j Hj. pose proof (app_job_stale t v j Hj) as Hok.
  eapply typed_bind; [apply typed_of_result with (P := λ _, True); by destruct (is_stale t v j)|].
  intros stale _. destruct (negb stale); [apply IH|]. eapply typed_bind; [by apply typed_redis_call|].
  intros m _. destruct (negb _); [|apply IH].
  eapply typed_bind; [|intros ? _; apply IH]. apply typed_redis_call. split; [done|].
  apply app_job_text, app_job_started; [done|by left].
Qed.

Lemma typed_reclaim_stale queue processing v :
  key_of s queue KJobs → key_of s processing KJobs →
  typed s (reclaim_stale_processing_jobs queue processing v None) (λ _, True) redis_only.
Proof.
  intros Hq Hp. unfold reclaim_stale_processing_jobs.
  eapply typed_bind; [apply typed_call with (P := λ _, True); done|].
  intros t _. eapply typed_bind; [by apply typed_redis_call|]. intros raws Hraws. by apply typed_reclaim_loop.
Qed.

Lemma typed_move_job_to_failed_queue j e processing failed :
  app_job j → key_of s processing KJobs → key_of s failed KJobs →
  typed s (move_job_to_failed_queue j (Some e) processing failed) app_job redis_only.
Proof.
  intros Hj Hp Hf. unfold move_job_to_failed_queue.
  eapply typed_bind with (P := app_job).
  { unfold with_failed_at. eapply typed_bind; [apply typed_or_now|]. intros x _. cbn.
    destruct Hj. split; try done. right. by eexists. }
  intros j1 Hj1. destruct (app_job_error j1 e Hj1) as (j2 & -> & Hj2).
  eapply typed_bind; [apply typed_of_result with (P := λ x, x = j2); done|]. intros x ->.
  eapply typed_bind; [by apply typed_redis_call|]. intros ? _.
  eapply typed_bind; [apply typed_redis_call; split; [done|by apply app_job_text]|]. intros ? _. exact Hj2.
Qed.

Lemma typed_list_failed_jobs failed limit : key_of s failed KJobs →
  typed s (list_failed_jobs failed limit) (Forall app_job) redis_only.
Proof.
  intros Hf. unfold list_failed_jobs. eapply typed_bind; [by apply typed_redis_call|]. intros raws Hraws.
  apply typed_of_result. cbn in Hraws. induction Hraws as [|raw raws Hraw _ IH]; cbn; [constructor|].
  destruct (job_text_from raw Hraw) as (j & -> & Hj). destruct (of_raw_jobs raws); [by constructor|done].
Qed.

Lemma typed_requeue_failed_jobs fuel queue failed limit :
  key_of s queue KJobs → key_of s failed KJobs →
  typed s (requeue_failed_jobs fuel queue failed limit) (λ _, True) redis_only.
Proof.
  intros Hq Hf. unfold requeue_failed_jobs. generalize 0. induction fuel as [|fuel IH]; intros n; [done|].
  cbn [requeue_loop]. destruct (match limit with Some _ => _ | None => _ end); [|done].
  eapply typed_bind; [by apply typed_redis_call|]. intros [raw|] Hraw; [|done].
  eapply typed_bind; [by apply typed_from_json|]. intros j Hj.
  eapply typed_bind; [apply typed_redis_call; split; [done|by apply app_job_text]|]. intros ? _. apply IH.
Qed.

Lemma typed_try_lock key ttl : key_of s key KText →
  typed s (try_acquire_maintenance_lock key ttl) (λ _, True) redis_only.
Proof. intros Hk. apply typed_redis_call. by left. Qed.

(** ** The cache *)

Lemma soft_except_redis {A} (p h : prog A) P : soft p P → soft h P → soft (except_redis p h) P.
Proof. intros Hp Hh. eapply typed_catch; [exact Hp|]. intros e _. by destruct (is_redis_error e). Qed.

Lemma soft_redis {B} (c : redis_cmd B) : redis_ok s c → soft (redis c) (redis_reply s c).
Proof. intros Hc. by apply soft_call. Qed.

(** What is read is a page. *)
Lemma soft_get_json_cache key : key_of s key KPage →
  soft (get_json_cache key) (λ o, match o with Some v => page_ok v | None => True end).
Proof.
  intros Hk. unfold get_json_cache.
  eapply typed_bind with (P := λ o, match o with Some (Some raw) => page_text raw | _ => True end).
  - apply soft_except_redis; [|done]. eapply typed_bind; [apply soft_redis; by left|].
    intros [raw|] Hraw; cbn; [|done]. by apply Hraw.
  - intros [[raw|]|]; try done. intros (v & Hl & Hv). rewrite Hl. by destruct v.
Qed.

Lemma soft_set_json_cache key v ttl : key_of s key KPage → page_ok v → json_wf v →
  soft (set_json_cache key v ttl) (λ _, True).
Proof.
  intros Hk Hv Hwf. apply soft_except_redis; [|done]. eapply typed_bind; [|done].
  apply soft_redis. right. split; [done|]. exists v. split; [by apply loads_dumps|done].
Qed.

Lemma soft_get_cache_version key : key_of s key KCounter → soft (get_cache_version key) (λ _, True).
Proof.
  intros Hk. unfold get_cache_version. eapply typed_bind with (P := λ _, True).
  - apply soft_except_redis; [|done]. eapply typed_bind; [apply soft_redis; by right|done].
  - intros [[raw|]|] _; [|done..]. by destruct (int_of_str raw).
Qed.

Lemma soft_invalidate t : soft (invalidate_users_list_cache t) (λ _, True).
Proof.
  unfold invalidate_users_list_cache. eapply typed_bind with (P := λ _, True); [|done]. apply soft_except_redis; [|done].
  eapply typed_bind; [apply soft_redis; apply key_version|done].
Qed.

(** ** Users *)

Lemma user_sent u : user_ok u = true →
  serialize UserRead (_serialize_user u) = Some (_serialize_user u).
Proof.
  intros [He _]%andb_prop. unfold is_email in He. apply bool_decide_eq_true in He.
  unfold UserRead, _serialize_user. cbn. by rewrite He.
Qed.

Lemma users_sent us : Forall (λ u, user_ok u = true) us →
  Forall (λ i, serialize UserRead i = Some i) (_serialize_user <$> us).
Proof. intros Hus. apply Forall_fmap. eapply Forall_impl; [exact Hus|]. apply user_sent. Qed.

Lemma next_cursor_text us p n : _build_next_cursor us p = Ok n → text_or_null n.
Proof. unfold _build_next_cursor. repeat case_match; intros [= <-]; first [by left|right; by eexists]. Qed.

Lemma soft_query_users t p :
  soft (query_users t p) (λ '(us, next), Forall (λ u, user_ok u = true) us ∧ text_or_null next).
Proof.
  assert (∀ us q, Forall (λ u, row_ok TUser u = true ∧ q u = true) us → Forall (λ u, user_ok u = true) us) as Hus
    by (intros us q Hall; eapply Forall_impl; [exact Hall|]; by intros u [? _]).
  unfold query_users. destruct (use_offset p).
  - eapply typed_bind; [apply soft_select|]. intros us Hall. split; [by eapply Hus|by left].
  - eapply typed_bind; [apply soft_of_result with (P := λ _, True); done|]. intros extra _.
    eapply typed_bind; [apply soft_select|]. intros us Hall.
    eapply typed_bind; [eapply soft_of_result; intros n; apply next_cursor_text|].
    intros n Hn. split; [by eapply Hus|done].
Qed.

(** The users of a result. *)
Definition result_ok (r : UserListResult) : Prop :=
  Forall (λ i, serialize UserRead i = Some i) (user_list_items r) ∧ text_or_null (r_next_cursor r).

Lemma soft_get_users t p : soft (get_users s t p) result_ok.
Proof.
  unfold get_users. eapply typed_bind with (P := λ key, key_of s key KPage).
  { unfold build_users_list_cache_key. eapply typed_bind; [apply soft_get_cache_version, key_version|].
    intros v _. exact (key_page s t p v). }
  intros key Hkey.
  eapply typed_bind with (P := λ o, match o with Some v => page_ok v | None => True end).
  { destruct (users_cache_enabled s); [by apply soft_get_json_cache|done]. }
  intros [v|] Hv.
  - destruct Hv as (items & next & -> & Hi & Hn). by split.
  - eapply typed_bind; [apply soft_query_users|]. intros [us next] [Hus Hn].
    eapply typed_bind with (P := λ _, True); [|intros ? _; split; [by apply users_sent|done]].
    destruct (users_cache_enabled s); [|done]. apply soft_set_json_cache; [done| |].
    + exists (_serialize_user <$> us), next. split_and!; [done|by apply users_sent|done].
    + rewrite cached_page_json. apply page_json_wf; [apply serialized_wf|by apply text_or_null_wf].
Qed.

Lemma soft_list_users page size p me :
  soft (list_users s page size p me) (λ pg, Forall (λ i, serialize UserRead i = Some i) (ulp_items pg) ∧
    text_or_null (ulp_next_cursor pg)).
Proof.
  unfold list_users. destruct (cursor_and_page page p); [done|].
  eapply typed_bind; [eapply typed_catch; [apply soft_get_users|by intros]|]. by intros r [Hi Hn].
Qed.

(** The optional row of a lookup. *)
Definition maybe {R} (t : table R) (o : option R) : Prop :=
  match o with Some r => row_ok t r = true | None => True end.

Lemma soft_load {R} (t : table R) p : soft (first t p) (maybe t).
Proof. eapply typed_mono; [| |apply soft_first]; [|done]. by intros [r|]; [intros [? _]|]. Qed.

Lemma soft_set_row {R} (t : table R) k f :
  (∀ r r', row_ok t r = true → f r = Some r' → row_ok t r' = true) → soft (db (SetRow t k f)) (λ _, True).
Proof. intros Hf. by apply soft_call. Qed.

Lemma soft_change_row {R} (t : table R) k (f : R → R) :
  (∀ r, row_ok t r = true → row_ok t (f r) = true) → soft (db (SetRow t k (λ r, Some (f r)))) (λ _, True).
Proof. intros Hf. apply soft_set_row. intros r r' Hr [= <-]. by apply Hf. Qed.

Lemma soft_db {B} (c : db_cmd B) : db_ok c → soft (db c) (λ _, True).
Proof. intros Hc. eapply soft_true, soft_call. exact Hc. Qed.

(** The body of a request, once validated, sets an address [EmailStr] accepts and
    a role. *)
Definition update_ok (update : UserUpdate) : bool :=
  match up_email update with Some (Some e) => is_email e | _ => true end && valid_update update.

Lemma apply_update_ok user update r r' : update_ok update = true →
  user_ok r = true → apply_update user update r = Some r' → user_ok r' = true.
Proof.
  unfold update_ok, valid_update, apply_update, user_ok.
  intros [He Hr]%andb_prop [Hre Hrr]%andb_prop.
  destruct (up_email update) as [[e|]|]; cbn; [|done|];
    destruct (up_is_active update) as [[b|]|]; cbn; try done;
    destruct (up_role update) as [[rl|]|]; cbn in Hr |- *; try done;
    destruct (should_invalidate_tokens user update); intros [= <-]; cbn; apply andb_true_intro; by split.
Qed.

Lemma soft_increment_token_version u : soft (increment_user_token_version u) (λ u, user_ok u = true).
Proof.
  unfold increment_user_token_version. eapply typed_bind; [by apply soft_change_row|]. intros ? _.
  eapply typed_bind; [by apply soft_db|]. intros ? _. eapply typed_bind; [apply soft_refresh|]. intros r Hr.
  eapply typed_bind; [apply soft_invalidate|]. intros ? _. exact Hr.
Qed.

Lemma soft_update_user user update commit : user_ok user = true → update_ok update = true →
  soft (update_user user update commit) (λ u, user_ok u = true).
Proof.
  intros Hu Hup. unfold update_user.
  eapply typed_bind; [apply soft_set_row; intros r r'; by apply apply_update_ok|]. intros ? _. destruct commit.
  - eapply typed_bind; [by apply soft_db|]. intros ? _. eapply typed_bind; [apply soft_refresh|]. intros r Hr.
    eapply typed_bind; [apply soft_invalidate|]. intros ? _. exact Hr.
  - eapply typed_bind; [by apply soft_db|]. intros ? _. apply soft_of_result. intros r.
    destruct (apply_update user update user) as [r'|] eqn:E; [|done]. intros [= <-].
    by eapply apply_update_ok.
Qed.
End typed_services.
