(* ===== verification/TypedRequests.v ===== *)
(** * The operations of the requests are well typed

    Rate limits, authentication, password resets, tenants, the audit log, files,
    idempotency and webhooks: each keeps the stored data well typed and returns
    well-typed rows. *)

From Stdlib Require Import ZArith Ascii String Lia.
From stdpp Require Import base tactics option list gmap strings sorting fin_maps.
From S2P Require Import Prelude PyText Json Errors Config DateTime Models Permissions Services Programs.
From S2P Require Import DbFacts RedisFacts Ids JobQueue Tenants Cache Cursor Users CacheSafety Auth Http RateLimit.
From S2P Require Import Email PasswordReset Idempotency Webhooks Metrics Storage Health Admin Api Schemas PublicApi.
From S2P Require Import Typing TypeSystem TypedServices.
Local Open Scope string_scope.
Local Open Scope list_scope.
Local Open Scope Z_scope.

Create HintDb typed.

(** A program of which only the commands count: the rules apply themselves. *)
Ltac soft_auto :=
  lazymatch goal with
  | |- typed _ (Ret _) _ _ => exact Logic.I
  | |- typed _ (Raise _) _ _ => exact Logic.I
  | |- typed _ (of_result _) _ _ => apply soft_of_result; intros; exact Logic.I
  | |- typed _ (mbind _ _) _ _ =>
      eapply typed_bind with (P := λ _, True); [solve [soft_auto]|intros ? _; soft_auto]
  | |- typed _ (in_session _) _ _ => apply soft_in_session; soft_auto
  | |- typed _ (finally _ _) _ _ => apply typed_finally; soft_auto
  | |- typed _ (catch _ _) _ _ =>
      apply typed_catch with (E := λ _, True); [soft_auto|intros ? _; soft_auto]
  | |- typed _ (except_boto_errors _ _) _ _ => unfold except_boto_errors; soft_auto
  | |- typed _ (except_client_error _ _) _ _ => unfold except_client_error; soft_auto
  | |- typed _ (match ?x with _ => _ end) _ _ => destruct x; soft_auto
  | |- typed _ (call _) _ _ => eapply soft_true, soft_call; exact Logic.I
  | |- typed _ now_us _ _ => unfold now_us; soft_auto
  | |- typed _ (set_proc _) _ _ => unfold set_proc, on_proc; soft_auto
  | |- typed _ (read_proc _) _ _ => unfold read_proc, on_proc; soft_auto
  | |- typed _ (db _) _ _ => solve [auto with typed | apply soft_db; exact Logic.I]
  | |- typed _ (s3 _) _ _ => eapply soft_true, soft_call; exact Logic.I
  | |- typed _ _ _ _ => solve [auto with typed | eauto with typed]
  end.

Section typed_requests.
Context `{Crypto} `{SqlText} `{Pydantic} (s : Settings).

Local Abbreviation soft p P := (typed s p P (λ _, True)).

(** ** Rate limits *)

Lemma soft_counter key limit window : key_of s key KCounter →
  soft (enforce_rate_limit_counter key limit window) (λ _, True).
Proof.
  intros Hk. unfold enforce_rate_limit_counter.
  assert (soft (redis (INCR key)) (λ _, True)) as Hincr by (by eapply soft_true, soft_redis).
  assert (soft (redis (EXPIRE key window)) (λ _, True)) as Hexp by (by eapply soft_true, soft_redis).
  soft_auto.
Qed.

Lemma soft_limited_by limit window prefix rq :
  soft (limited_by (rate_limit s limit window ("rate_limit:" ++ prefix)) rq) (λ _, True).
Proof.
  unfold limited_by. eapply typed_bind with (P := λ f, soft (f rq) (λ _, True)); [|auto].
  apply soft_of_result. intros f. unfold rate_limit. repeat case_match; intros [= <-];
    apply soft_counter, (key_rate_limit s (prefix ++ ":" ++ _)).
Qed.

Lemma soft_reset_limit rq email : soft (password_reset_rate_limit s rq email) (λ _, True).
Proof. apply soft_counter. apply (key_rate_limit s ("password_reset:" ++ _)). Qed.

Lemma soft_ingress_limit rq : soft (webhook_ingress_rate_limit s rq) (λ _, True).
Proof. apply soft_counter. apply (key_rate_limit s ("webhook_ingress:" ++ _)). Qed.

Lemma soft_provider_limit provider : soft (enforce_webhook_provider_rate_limit s provider) (λ _, True).
Proof.
  unfold enforce_webhook_provider_rate_limit. destruct (String.eqb _ _); [done|].
  apply soft_counter. apply (key_rate_limit s ("webhook_provider:" ++ _)).
Qed.

(** ** The audit log and tenants *)

Lemma soft_audit_log tenant admin action target commit : one_of AuditAction action = true →
  soft (create_audit_log tenant admin action target commit) (λ l, audit_log_ok l = true).
Proof.
  intros Ha. unfold create_audit_log. eapply typed_bind; [by apply (soft_add s TAuditLog)|].
  intros l Hl. cbn in Hl. destruct commit.
  - eapply typed_bind; [by apply soft_db|]. intros ? _. apply (soft_refresh s TAuditLog).
  - eapply typed_bind; [by apply soft_db|]. intros ? _. exact Hl.
Qed.

Lemma soft_audit tenant admin action target commit : one_of AuditAction action = true →
  soft (create_audit_log tenant admin action target commit) (λ _, True).
Proof. intros Ha. by eapply soft_true, soft_audit_log. Qed.

Lemma soft_get_audit_logs tenant skip limit action admin target :
  soft (get_audit_logs tenant skip limit action admin target) (Forall (λ l, audit_log_ok l = true)).
Proof.
  eapply typed_mono; [| |apply (soft_select s TAuditLog)]; [|done].
  intros l Hl. eapply Forall_impl; [exact Hl|]. by intros r [? _].
Qed.

Lemma soft_tenant_by_slug slug : soft (get_tenant_by_slug slug) (maybe TTenant).
Proof. apply soft_load. Qed.
Lemma soft_tenant_by_id i : soft (get_tenant_by_id i) (maybe TTenant).
Proof. apply soft_load. Qed.

Lemma soft_active_tenant slug : soft (get_active_tenant_by_slug slug) (λ t, tenant_ok t = true).
Proof.
  unfold get_active_tenant_by_slug. eapply typed_bind; [apply soft_tenant_by_slug|].
  intros [t|] Ht; [|done]. by destruct (negb _).
Qed.

Lemma soft_request_tenant header : soft (get_request_tenant header) (λ t, tenant_ok t = true).
Proof.
  unfold get_request_tenant. eapply typed_bind; [apply soft_active_tenant|]. intros t Ht.
  eapply typed_bind with (P := λ _, True); [soft_auto|]. intros ? _. exact Ht.
Qed.

Lemma validate_slug_ok slug slug' : validate_slug slug = Ok slug' → is_slug slug' = true.
Proof. unfold validate_slug. repeat case_match; intros [= <-]. done. Qed.

Lemma soft_create_tenant slug name : is_slug slug = true → valid_tenant_name name = true →
  soft (create_tenant slug name) (λ t, tenant_ok t = true).
Proof.
  intros Hs Hn. unfold create_tenant. eapply typed_bind; [apply soft_tenant_by_slug|].
  intros [t|] _; [done|]. eapply typed_bind; [apply (soft_add s TTenant)|].
  { intros key created. apply andb_true_intro. by split. }
  intros t _. eapply typed_bind; [by apply soft_db|]. intros ? _. apply (soft_refresh s TTenant).
Qed.

Lemma soft_list_tenants skip limit inactive :
  soft (list_tenants skip limit inactive) (Forall (λ t, tenant_ok t = true)).
Proof.
  eapply typed_mono; [| |apply (soft_select s TTenant)]; [|done].
  intros l Hl. eapply Forall_impl; [exact Hl|]. by intros r [? _].
Qed.

Lemma soft_update_tenant i name active :
  match name with Some n => valid_tenant_name n | None => true end = true →
  soft (update_tenant i name active) (maybe TTenant).
Proof.
  intros Hn. unfold update_tenant. eapply typed_bind; [apply soft_tenant_by_id|].
  intros [t|] _; [|done]. eapply typed_bind with (P := λ _, True).
  { destruct name as [n|]; [|done]. apply (soft_set_row s TTenant). intros r r' Hr [= <-].
    apply andb_prop in Hr as [Hr _]. apply andb_true_intro. by split. }
  intros ? _. eapply typed_bind with (P := λ _, True).
  { destruct active as [b|]; [|done]. apply (soft_set_row s TTenant). by intros r r' Hr [= <-]. }
  intros ? _. eapply typed_bind; [by apply soft_db|]. intros ? _.
  eapply typed_bind; [apply (soft_refresh s TTenant)|]. intros r Hr. exact Hr.
Qed.

Lemma soft_provision slug name admin tenant : is_slug slug = true → valid_tenant_name name = true →
  soft (provision_tenant slug name admin tenant) (λ t, tenant_ok t = true).
Proof.
  intros Hs Hn. unfold provision_tenant. eapply typed_bind; [by apply soft_create_tenant|]. intros t Ht.
  eapply typed_bind; [by apply soft_audit|]. intros ? _. exact Ht.
Qed.

Lemma soft_set_active i active admin tenant :
  soft (set_tenant_active_state i active admin tenant) (maybe TTenant).
Proof.
  unfold set_tenant_active_state. eapply typed_bind; [by apply soft_update_tenant|].
  intros [t|] Ht; [|done]. eapply typed_bind; [apply soft_audit; by destruct active|]. intros ? _. exact Ht.
Qed.

(** ** Authentication *)

Lemma soft_uuid7 : soft uuid7 (λ _, True).
Proof. apply typed_uuid7. Qed.

Lemma soft_token subject tenant version lifetime type :
  soft (create_token s subject tenant version lifetime type) (λ _, True).
Proof. unfold create_token. pose proof soft_uuid7. soft_auto. Qed.

Lemma soft_token_pair u : soft (token_pair s u) (λ _, True).
Proof.
  unfold token_pair. eapply typed_bind; [apply soft_token|]. intros a _.
  eapply typed_bind; [apply soft_token|]. done.
Qed.

Lemma soft_decode_token token : soft (decode_token s token) (λ _, True).
Proof. unfold decode_token. soft_auto. Qed.

Lemma soft_user_by_email email tenant : soft (get_user_by_email email tenant) (maybe TUser).
Proof. apply soft_load. Qed.
Lemma soft_user_by_id i tenant : soft (get_user_by_id i tenant) (maybe TUser).
Proof. apply soft_load. Qed.

Lemma soft_hash password : soft (hash_password password) (λ _, True).
Proof. unfold hash_password. soft_auto. Qed.

Lemma soft_create_user email password tenant : is_email email = true →
  soft (create_user email password tenant) (λ u, user_ok u = true).
Proof.
  intros He. unfold create_user. eapply typed_bind; [apply soft_user_by_email|]. intros [u|] _; [done|].
  eapply typed_bind; [apply soft_hash|]. intros h _.
  eapply typed_bind; [apply (soft_add s TUser)|].
  { intros key created. apply andb_true_intro. by split. }
  intros u _. eapply typed_bind; [by apply soft_db|]. intros ? _.
  eapply typed_bind; [apply (soft_refresh s TUser)|]. intros r Hr.
  eapply typed_bind; [apply soft_invalidate|]. intros ? _. exact Hr.
Qed.

Lemma soft_authenticate email password tenant :
  soft (authenticate_user email password tenant) (λ _, True).
Proof.
  unfold authenticate_user. eapply typed_bind; [apply soft_user_by_email|]. intros [u|] _; soft_auto.
Qed.

Lemma soft_login email password tenant : soft (login_user s email password tenant) (λ _, True).
Proof. eapply typed_bind; [apply soft_authenticate|]. intros u _. apply soft_token_pair. Qed.

Lemma soft_revoked jti : soft (is_refresh_token_revoked jti) (λ _, True).
Proof. eapply typed_bind; [by eapply soft_true, soft_redis|]. done. Qed.

Lemma soft_revoke jti exp fresh : soft (revoke_refresh_token jti exp fresh) (λ _, True).
Proof.
  unfold revoke_refresh_token. eapply typed_bind with (P := λ _, True); [soft_auto|]. intros now _.
  destruct exp; try done. cbv zeta. destruct (_ <=? 0); [done|].
  eapply typed_bind; [eapply soft_true, soft_redis; left; apply key_revoked|]. done.
Qed.

Lemma soft_decode_refresh token : soft (_decode_refresh_token s token) (λ _, True).
Proof.
  unfold _decode_refresh_token. pose proof soft_decode_token. pose proof soft_revoked. soft_auto.
Qed.

Lemma soft_tenant_of u : soft (tenant_of u) (maybe TTenant).
Proof. apply soft_tenant_by_id. Qed.

Lemma soft_assert_member u : soft (assert_active_member u) (λ _, True).
Proof. eapply typed_bind; [apply soft_tenant_of|]. intros t _. soft_auto. Qed.

Lemma soft_user_from_refresh payload : soft (_get_active_user_from_refresh_payload payload) (λ _, True).
Proof.
  unfold _get_active_user_from_refresh_payload. cbv zeta. destruct (is_null _ || is_null _); [done|].
  eapply typed_bind with (P := λ _, True); [soft_auto|]. intros i _.
  eapply typed_bind with (P := λ _, True); [soft_auto|]. intros t _.
  eapply typed_bind; [apply soft_user_by_id|]. intros [u|] _; [|done].
  pose proof (soft_assert_member u). soft_auto.
Qed.

Lemma soft_rotate token : soft (rotate_refresh_token s token) (λ _, True).
Proof.
  unfold rotate_refresh_token. eapply typed_bind; [apply soft_decode_refresh|]. intros payload _.
  eapply typed_bind; [apply soft_user_from_refresh|]. intros u _.
  eapply typed_bind; [apply soft_revoke|]. intros fresh _. destruct (negb _); [done|]. apply soft_token_pair.
Qed.

Lemma soft_logout token : soft (logout_user s token) (λ _, True).
Proof.
  eapply typed_bind; [apply soft_decode_refresh|]. intros payload _.
  eapply typed_bind; [apply soft_revoke|]. done.
Qed.

Lemma soft_current_user credentials header :
  soft (get_current_user s credentials header) (λ u, user_ok u = true).
Proof.
  unfold get_current_user. eapply typed_bind with (P := λ _, True).
  { pose proof soft_decode_token. soft_auto. }
  intros [[i t] v] _. eapply typed_bind; [apply soft_user_by_id|]. intros [u|] Hu; [|done].
  destruct (negb _); [done|]. destruct (negb _); [done|].
  eapply typed_bind; [apply soft_tenant_of|]. intros tn _.
  eapply typed_bind with (P := λ _, True); [soft_auto|]. intros ? _.
  eapply typed_bind with (P := λ _, True).
  { destruct header as [slug|]; [|done]. eapply typed_bind; [apply soft_active_tenant|]. intros ? _. soft_auto. }
  intros ? _. eapply typed_bind with (P := λ _, True); [soft_auto|]. intros ? _.
  eapply typed_bind with (P := λ _, True); [soft_auto|]. intros ? _. exact Hu.
Qed.

(** ** Password resets *)

(** A job of the program. *)
Lemma soft_enqueue type payload : 
  (type = SEND_PASSWORD_RESET_EMAIL_JOB ∧ (∃ n, payload = JObj [("user_id", JInt n)])) ∨
  (type = VERIFY_PRESIGNED_UPLOAD_JOB ∧ (∃ n, payload = JObj [("uploaded_file_id", JInt n)])) →
  soft (enqueue_job type payload (worker_queue_name s)) app_job.
Proof.
  intros Hj. eapply typed_mono; [| |apply typed_enqueue_job]; [done|done|apply key_ready|].
  destruct Hj as [[-> ?]|[-> ?]]; [by left|by right].
Qed.

Lemma soft_enqueue_reset i : soft (enqueue_password_reset_email_job s i) (λ _, True).
Proof. eapply soft_true, soft_enqueue. left. eauto. Qed.

Lemma soft_request_reset email tenant : soft (request_password_reset s email tenant) (λ _, True).
Proof.
  unfold request_password_reset. eapply typed_bind; [apply soft_user_by_email|]. intros [u|] _; [|done].
  destruct (negb _); [done|]. eapply typed_bind; [apply soft_enqueue_reset|]. intros ? _.
  eapply typed_bind; [by apply soft_audit|]. done.
Qed.

Lemma soft_reset_password u password now : soft (reset_password u password now) (λ _, True).
Proof.
  unfold reset_password. eapply typed_bind; [apply soft_hash|]. intros h _.
  eapply typed_bind; [by apply (soft_change_row s TUser)|]. intros ? _.
  eapply typed_bind; [apply soft_increment_token_version|]. intros v _.
  eapply typed_bind; [by apply soft_db|]. intros ? _. eapply typed_bind; [by apply soft_db|]. intros ? _.
  eapply typed_bind; [apply (soft_refresh s TUser)|]. intros r _.
  eapply typed_bind; [by apply soft_audit|]. done.
Qed.

Lemma soft_confirm_reset token password : soft (confirm_password_reset s token password) (λ _, True).
Proof.
  unfold confirm_password_reset. cbv zeta. eapply typed_bind; [apply (soft_load s TResetToken)|].
  intros [t|] _; [|done]. eapply typed_bind with (P := λ _, True); [soft_auto|]. intros now _.
  destruct (bool_decide _); [done|]. destruct (_ <? _); [done|].
  eapply typed_bind; [apply (soft_load s TUser)|]. intros [u|] _; [|done].
  destruct (negb _); [done|]. apply soft_reset_password.
Qed.

(** ** Files *)

Lemma soft_file mk : (∀ key created, file_ok (mk key created) = true) →
  soft (store_file mk) (λ f, file_ok f = true).
Proof.
  intros Hmk. unfold store_file. eapply typed_bind; [by apply (soft_add s TUploadedFile)|]. intros f _.
  eapply typed_bind; [by apply soft_db|]. intros ? _. apply (soft_refresh s TUploadedFile).
Qed.

Lemma soft_scan body filename : soft (run_malware_scan s body filename) (λ _, True).
Proof. unfold run_malware_scan, http_scan. soft_auto. Qed.

Lemma soft_object_key tenant owner filename : soft (build_object_key tenant owner filename) (λ _, True).
Proof. unfold build_object_key, uuid7_hex. pose proof soft_uuid7. soft_auto. Qed.

Lemma soft_upload owner file : soft (upload s owner file) (λ f, file_ok f = true).
Proof.
  unfold upload, upload_fileobj. pose proof soft_scan. pose proof soft_object_key.
  eapply typed_bind with (P := λ _, True); [soft_auto|]. intros filename _.
  eapply typed_bind with (P := λ _, True); [soft_auto|]. intros content_type _.
  eapply typed_bind with (P := λ _, True); [soft_auto|]. intros [spool size] _.
  do 4 (eapply typed_bind with (P := λ _, True); [soft_auto|]; intros ? _).
  eapply typed_bind with (P := λ _, True); [soft_auto|]. intros key _.
  eapply typed_bind with (P := λ _, True); [soft_auto|]. intros ? _. by apply soft_file.
Qed.

Lemma soft_bucket : soft verify_bucket_access (λ _, True).
Proof. unfold verify_bucket_access. soft_auto. Qed.

Lemma soft_presigned_upload presign owner filename content_type :
  soft (create_presigned_upload s presign owner filename content_type) (λ _, True).
Proof.
  unfold create_presigned_upload, generate_presigned_upload_url, presigned.
  pose proof soft_bucket. pose proof soft_object_key. soft_auto.
Qed.

Lemma soft_metadata key content_type size :
  soft (verify_stored_object_metadata key content_type size) (λ _, True).
Proof. unfold verify_stored_object_metadata, get_object_metadata. soft_auto. Qed.

Lemma soft_content key content_type size filename :
  soft (verify_stored_object_content s key content_type size filename) (λ _, True).
Proof.
  unfold verify_stored_object_content, get_object_metadata, download_object_body. pose proof soft_scan. soft_auto.
Qed.

Lemma soft_complete owner key filename content_type size :
  soft (complete_presigned_upload s owner key filename content_type size) (λ f, file_ok f = true).
Proof.
  unfold complete_presigned_upload. pose proof soft_metadata.
  do 5 (eapply typed_bind with (P := λ _, True); [soft_auto|]; intros ? _).
  eapply typed_bind; [by apply soft_file|]. intros f Hf.
  eapply typed_bind; [eapply soft_true, soft_enqueue; right; eauto|]. intros ? _. exact Hf.
Qed.

Lemma soft_download_url presign i u : soft (get_download_url s presign i u) (λ _, True).
Proof.
  unfold get_download_url, get_uploaded_file. eapply typed_bind; [apply (soft_load s TUploadedFile)|].
  intros [f|] _; [|done]. unfold get_presigned_download_url, generate_presigned_download_url, presigned. soft_auto.
Qed.

Lemma soft_delete_file i u : soft (delete_file i u) (λ _, True).
Proof.
  unfold delete_file, get_uploaded_file. eapply typed_bind; [apply (soft_load s TUploadedFile)|].
  intros [f|] _; [|done]. unfold delete_uploaded_file, delete_object. soft_auto.
Qed.

(** ** Idempotency and webhooks *)

(** A response of the webhook endpoint. *)
Definition webhook_answer (r : response) : Prop :=
  (resp_status r = 200 ∨ resp_status r = 409) ∧
  serialize WebhookInboundResponse (resp_content r) = Some (resp_content r).

Lemma record_answer r : record_ok r = true →
  ∃ content, parse_cached_response_body r = Ok content ∧
    webhook_answer (json_response (ir_status_code r) content).
Proof.
  unfold record_ok, parse_cached_response_body. intros [Hs Hb]%andb_prop.
  destruct (loads (ir_response_body r)) as [content|]; [|done]. exists content. split; [done|].
  apply bool_decide_eq_true in Hb. split; [|exact Hb]. cbn. lia.
Qed.

Lemma soft_cached_response r : record_ok r = true → soft (of_result (cached_json_response r)) webhook_answer.
Proof.
  intros Hr. destruct (record_answer r Hr) as (content & Hc & Ha). unfold cached_json_response.
  by rewrite Hc.
Qed.

Lemma soft_try_commit : soft try_commit (λ _, True).
Proof. unfold try_commit. soft_auto. Qed.

Lemma soft_get_cached key : soft (get_cached_response key) (maybe TIdempotencyRecord).
Proof.
  unfold get_cached_response. eapply typed_bind with (P := λ _, True); [soft_auto|]. intros now _.
  apply (soft_load s TIdempotencyRecord).
Qed.

Lemma webhook_record_ok key status code payload expires i created :
  code = 200 ∨ code = 409 →
  record_ok (new_idempotency_record key code (webhook_response_body status payload) expires i created) = true.
Proof.
  intros Hc. unfold record_ok, new_idempotency_record. cbn [ir_status_code ir_response_body].
  rewrite loads_dumps by (apply json_wfb_spec; reflexivity).
  apply andb_true_intro. split; [lia|]. by apply bool_decide_eq_true.
Qed.

Lemma soft_store key code status payload : code = 200 ∨ code = 409 →
  soft (store_response s key code (webhook_response_body status payload)) (λ r, record_ok r = true).
Proof.
  intros Hc. unfold store_response. eapply typed_bind with (P := λ _, True); [soft_auto|]. intros now _. cbv zeta.
  eapply typed_bind; [apply (soft_add s TIdempotencyRecord); intros; by apply webhook_record_ok|]. intros r _.
  eapply typed_bind; [apply soft_try_commit|]. intros [|] _; [apply (soft_refresh s TIdempotencyRecord)|].
  eapply typed_bind; [apply soft_get_cached|]. by intros [r'|] Hr.
Qed.

Lemma soft_verify_signature payload signature timestamp secret tolerance :
  soft (verify_inbound_webhook_signature payload signature timestamp secret tolerance) (λ _, True).
Proof.
  unfold verify_inbound_webhook_signature, verify_timestamped_hmac_signature. soft_auto.
Qed.

Lemma soft_record_event payload raw : soft (record_event payload raw) (λ _, True).
Proof.
  unfold record_event, persist_webhook_event. pose proof soft_try_commit.
  assert (∀ p e r, soft (db (Add TWebhookEvent (new_webhook_event p e r))) (λ _, True)) as Hadd
    by (intros; by apply soft_db).
  assert (∀ k, soft (db (Refresh TWebhookEvent k)) (λ _, True)) as Href by (intros; by apply soft_db).
  soft_auto.
Qed.

Lemma soft_process_webhook parse_json key raw signature timestamp :
  soft (process_webhook s parse_json key raw signature timestamp) webhook_answer.
Proof.
  unfold process_webhook. eapply typed_bind; [apply soft_verify_signature|]. intros ? _.
  eapply typed_bind with (P := λ _, True); [soft_auto|]. intros payload _.
  eapply typed_bind; [apply soft_provider_limit|]. intros ? _.
  eapply typed_bind; [apply soft_record_event|]. intros [|] _; cbn [negb].
  - eapply typed_bind; [apply soft_store; by left|]. intros r Hr.
    destruct (record_answer r Hr) as (content & -> & _ & Hc). split; [by left|exact Hc].
  - eapply typed_bind; [apply soft_store; by right|]. intros r. apply soft_cached_response.
Qed.

Lemma soft_lock key : soft (try_acquire_idempotency_lock s key) (λ _, True).
Proof. eapply soft_true, soft_redis. left. apply key_idempotency. Qed.

Lemma soft_begin key :
  soft (begin_idempotent_request s key) (λ x, maybe TIdempotencyRecord x.1).
Proof.
  unfold begin_idempotent_request. eapply typed_bind; [apply soft_get_cached|].
  intros [r|] Hr; [exact Hr|]. eapply typed_bind; [apply soft_lock|]. intros [|] _; [done|]. cbn [negb].
  eapply typed_bind; [apply soft_get_cached|]. intros [r|] Hr'; [exact Hr'|done].
Qed.

Lemma soft_inbound_webhook parse_json rq : soft (inbound_webhook s parse_json rq) webhook_answer.
Proof.
  apply soft_in_session. eapply typed_bind with (P := λ _, True); [soft_auto|]. intros key _.
  eapply typed_bind; [apply soft_ingress_limit|]. intros ? _. unfold handle_webhook.
  eapply typed_bind with (P := λ _, True); [soft_auto|]. intros ? _.
  eapply typed_bind with (P := λ _, True); [soft_auto|]. intros scope_key _.
  eapply typed_bind; [apply soft_begin|]. intros [[r|] lock] Hr; [by apply soft_cached_response|].
  apply typed_finally; [apply soft_process_webhook|]. destruct lock; [|done].
  eapply typed_bind; [by eapply soft_true, soft_redis|]. done.
Qed.
(** ** Metrics and health *)

Lemma typed_observe name labels E :
  (∀ s, sample_ok s (Sample name labels) = true) → typed s (observe name labels) (λ _, True) E.
Proof. intros Hok. by apply typed_call; [apply Hok| |]. Qed.

Lemma typed_observe_request method path code E : typed s (observe_request method path code) (λ _, True) E.
Proof. eapply typed_bind; [by apply typed_observe|]. intros ? _. by apply typed_observe. Qed.

Lemma typed_observe_job job_type status E : typed s (observe_worker_job job_type status) (λ _, True) E.
Proof. by apply typed_observe. Qed.

Lemma typed_observe_maintenance status E : typed s (observe_worker_maintenance status) (λ _, True) E.
Proof. by apply typed_observe. Qed.

Lemma typed_check dependency message p E :
  soft p (λ _, True) → typed s (check dependency message p) (λ _, True) E.
Proof.
  intros Hp. unfold check, observe_dependency_check.
  eapply typed_bind with (P := λ _, True).
  { eapply typed_catch with (E := λ _, True); [|done]. eapply typed_bind; [exact Hp|done]. }
  intros [|] _; (eapply typed_bind with (P := λ _, True); [|done]);
    (eapply typed_bind; [by apply typed_observe|]; intros ? _; by apply typed_observe).
Qed.

Lemma typed_check_database E : typed s check_database (λ _, True) E.
Proof. apply typed_check. by apply soft_db. Qed.

Lemma typed_check_redis E : typed s check_redis (λ _, True) E.
Proof. apply typed_check. eapply typed_bind; [by eapply soft_true, soft_redis|done]. Qed.

Lemma typed_check_s3 E : typed s (check_s3 s) (λ _, True) E.
Proof. unfold check_s3. destruct (negb _); [done|]. apply typed_check, soft_bucket. Qed.

Lemma typed_readiness E :
  typed s (get_readiness s) (λ h, (rh_checks h).*1 ⊆ ["database"; "redis"; "object_storage"]) E.
Proof.
  unfold get_readiness. eapply typed_bind; [apply typed_check_database|]. intros d _.
  eapply typed_bind; [apply typed_check_redis|]. intros r _.
  eapply typed_bind with (P := λ c : list (string * DependencyHealth), c.*1 ⊆ ["object_storage"]).
  { destruct (readiness_check_s3_enabled s); [|apply list_subseteq_nil].
    eapply typed_bind; [apply typed_check_s3|]. intros c _; cbn; reflexivity. }
  intros c Hc. cbv zeta.
  assert (([("database", d); ("redis", r)] ++ c).*1 ⊆ ["database"; "redis"; "object_storage"]) as Hall.
  { rewrite fmap_app. cbn. set_solver. }
  by destruct (existsb _ _).
Qed.
End typed_requests.
