(* ===== verification/TypedRoutes.v ===== *)
(** * The routes are well typed

    Every route of the API keeps the stored data well typed, and what it returns
    fits the response model it declares: FastAPI never refuses the answer of a
    route, and sends no member the model does not declare. *)

From Stdlib Require Import ZArith Ascii String Lia.
From stdpp Require Import base tactics option list gmap strings sorting fin_maps.
From S2P Require Import Prelude PyText Json Errors Config DateTime Models Permissions Services Programs.
From S2P Require Import DbFacts Reference RedisFacts Ids JobQueue Tenants Cache Cursor Users CacheSafety Auth Http RateLimit.
From S2P Require Import Email PasswordReset Idempotency Webhooks Metrics Storage Health Admin Api Schemas PublicApi.
From S2P Require Import Isolation UserMutations AuthSafety Typing TypeSystem TypedServices TypedRequests.
Local Open Scope string_scope.
Local Open Scope list_scope.
Local Open Scope Z_scope.

Section typed_routes.
Context `{Crypto} `{SqlText} `{Pydantic} (s : Settings).
Context (presign : string → string → option string → result exn string).

Local Abbreviation soft p P := (typed s p P (λ _, True)).

(** ** The users' routes *)

Lemma soft_permitted permissions u : user_ok u = true →
  soft (permitted permissions u) (λ u', user_ok u' = true).
Proof.
  intros Hu. apply soft_of_result. unfold require_permission. intros u'.
  destruct (negb _); intros [= <-]. exact Hu.
Qed.

Lemma soft_commit_with_audit tenant admin action target : one_of AuditAction action = true →
  soft (commit_user_mutation_with_audit tenant admin action target) (λ _, True).
Proof.
  intros Ha. unfold commit_user_mutation_with_audit. eapply typed_bind; [by apply soft_audit|]. intros ? _.
  eapply typed_bind; [by apply soft_db|]. intros ? _. apply soft_invalidate.
Qed.

Lemma soft_get_user i me : soft (get_user i me) (λ u, user_ok u = true).
Proof.
  unfold get_user. eapply typed_bind; [apply soft_user_by_id|]. intros [u|] Hu; [|done]. by destruct (negb _).
Qed.

Lemma soft_patch_user i update me : update_ok update = true →
  soft (patch_user i update me) (λ u, user_ok u = true).
Proof.
  intros Hup. unfold patch_user. eapply typed_bind; [apply soft_user_by_id|]. intros [u|] Hu; [|done].
  destruct (negb _); [done|]. destruct (user_has_permission _ _).
  - eapply typed_bind; [by apply soft_update_user|]. intros u' _.
    eapply typed_bind; [by apply soft_commit_with_audit|]. intros ? _. apply (soft_refresh s TUser).
  - apply soft_update_user; [exact Hu|]. unfold update_ok in Hup |- *. apply andb_prop in Hup as [He _].
    apply andb_true_intro. by split.
Qed.

(** A change that keeps users well typed, committed with its audit entry. *)
Lemma soft_flagged (f : Z → Z → bool → prog (option User)) (g : User → User → User) action i me :
  (∀ i t, f i t false = (user ← get_user_by_id i t;
     match user with
     | None => Ret None
     | Some user => _ ← db (SetRow TUser (u_id user) (λ r, Some (g user r)));
                    _ ← db Flush; Ret (Some (g user user))
     end)) →
  (∀ u r, user_ok r = true → user_ok (g u r) = true) → one_of AuditAction action = true →
  soft (user ← f i (u_tenant_id me) false;
        match user with
        | None => Raise user_not_found
        | Some user =>
            _ ← commit_user_mutation_with_audit (u_tenant_id me) (u_id me) action i;
            db (Refresh TUser (u_id user))
        end) (λ u, user_ok u = true).
Proof.
  intros Hf Hg Ha. rewrite Hf. eapply typed_bind with (P := λ _, True).
  { eapply typed_bind; [apply soft_user_by_id|]. intros [u|] _; [|done].
    eapply typed_bind; [apply (soft_change_row s TUser); apply Hg|]. intros ? _.
    eapply typed_bind; [by apply soft_db|]. done. }
  intros [u|] _; [|done]. eapply typed_bind; [by apply soft_commit_with_audit|]. intros ? _.
  apply (soft_refresh s TUser).
Qed.

Lemma soft_deactivate i me : soft (deactivate_user_endpoint i me) (λ u, user_ok u = true).
Proof. by apply (soft_flagged deactivate_user deactivated). Qed.

Lemma soft_activate i me : soft (activate_user_endpoint i me) (λ u, user_ok u = true).
Proof. by apply (soft_flagged activate_user (λ _, set_is_active true)). Qed.

Lemma soft_remove_user i me : soft (remove_user i me) (λ _, True).
Proof.
  unfold remove_user, delete_user. eapply typed_bind; [apply soft_user_by_id|]. intros [u|] _; [|done].
  eapply typed_bind with (P := λ _, True); [|intros ? _; by apply soft_commit_with_audit].
  eapply typed_bind; [by apply soft_db|]. intros ? _. by apply soft_db.
Qed.

(** ** The tenants' routes *)

Lemma soft_patch_tenant i update me : valid_tenant_update update = true →
  soft (patch_tenant i update me) (λ t, tenant_ok t = true).
Proof.
  intros Hv. unfold patch_tenant. eapply typed_bind with (P := λ _, True); [by apply soft_of_result|]. intros u _.
  assert (soft (tenant ← get_tenant_by_id i;
    match tenant with
    | None => Raise tenant_not_found
    | Some tenant =>
        tenant ← match tu_name update with
                 | Some name => update_tenant i (Some name) None
                 | None => Ret (Some tenant)
                 end;
        tenant ← match tu_is_active update with
                 | Some is_active => set_tenant_active_state i is_active (u_id u) (u_tenant_id u)
                 | None => Ret tenant
                 end;
        match tenant with None => Raise tenant_not_found | Some t => Ret t end
    end) (λ t, tenant_ok t = true)) as Hrest.
  { eapply typed_bind; [apply soft_tenant_by_id|]. intros [t|] Ht; [|done].
    eapply typed_bind with (P := maybe TTenant).
    { unfold valid_tenant_update in Hv. destruct (tu_name update); [by apply soft_update_tenant|exact Ht]. }
    intros t1 Ht1. eapply typed_bind with (P := maybe TTenant).
    { destruct (tu_is_active update); [apply soft_set_active|exact Ht1]. }
    by intros [t2|] Ht2. }
  destruct (tu_name update), (tu_is_active update); [exact Hrest..|exact Logic.I].
Qed.

(** ** The answers *)

(** The members a route may send. *)
Definition sent_keys (r : route) : list string :=
  match response_model r with
  | Some t => type_keys t
  | None => match r with GetAdmin => ["message"; "email"] | _ => [] end
  end.

(** The data of an answer fit the model of its route. *)
Definition fits (r : route) (a : answer) : Prop :=
  match response_model r with
  | Some t => is_Some (serialize t (answer_attrs a))
  | None => json_keys (answer_attrs a) ⊆ sent_keys r
  end.

(** The address of a body has passed [EmailStr]. *)
Definition route_ok (r : route) : bool :=
  match r with
  | PatchUser _ update => match up_email update with Some (Some e) => is_email e | _ => true end
  | _ => true
  end.

Lemma soft_validated ok : soft (validated ok) (λ _, ok = true).
Proof. by destruct ok. Qed.

Lemma user_fits u : user_ok u = true → is_Some (serialize UserRead (user_attrs u)).
Proof.
  intros [He _]%andb_prop. apply bool_decide_eq_true in He. unfold UserRead, user_attrs. cbn. rewrite He. by eexists.
Qed.

Lemma tenant_fits t : is_Some (serialize TenantRead (tenant_attrs t)).
Proof. by eexists. Qed.

Lemma file_fits f : is_Some (serialize UploadedFileRead (file_attrs f)).
Proof. by eexists. Qed.

Lemma audit_log_fits l : audit_log_ok l = true → is_Some (serialize AuditLogRead (audit_log_attrs l)).
Proof.
  unfold audit_log_ok. intros Ha. unfold AuditLogRead, audit_log_attrs.
  destruct l as [i t [a|] action [tg|] c]; cbn in Ha |- *; rewrite Ha; by eexists.
Qed.

Lemma page_fits page :
  Forall (λ i, serialize UserRead i = Some i) (ulp_items page) → text_or_null (ulp_next_cursor page) →
  is_Some (serialize UserListPageSchema (answer_attrs (AUserPage page))).
Proof.
  intros Hi Hn. destruct (serialize_list UserRead (ulp_items page)) as [b Hb].
  { eapply Forall_impl; [exact Hi|]. intros i ->. by eexists. }
  unfold UserListPageSchema. cbn [answer_attrs serialize]. apply fmap_is_Some.
  unfold required, optional. rewrite !serialize_fields_cons. cbn [dict_get String.eqb Ascii.eqb Bool.eqb].
  rewrite Hb. destruct Hn as [->|[t ->]]; by eexists.
Qed.

(** The steps before a route's work: the permission of the user, the arguments that
    were read, the checks that only raise. *)
Ltac permitted := eapply typed_bind; [by apply soft_permitted|]; intros ? _.
Tactic Notation "validated" "as" ident(Hv) := eapply typed_bind; [apply soft_validated|]; intros ? Hv.
Tactic Notation "validated" := let Hv := fresh in validated as Hv; clear Hv.
Ltac checked := eapply typed_bind with (P := λ _, True); [by apply soft_of_result|]; intros ? _.

Lemma soft_serve_route r me : route_ok r = true → user_ok me = true →
  soft (serve_route s presign r me) (fits r).
Proof.
  intros Hr Hme. destruct r; cbn [serve_route route_ok] in *.
  - by apply user_fits.
  - unfold users_list_route. permitted. validated.
    eapply typed_bind; [apply soft_list_users|]. intros pg [Hi Hn]. by apply page_fits.
  - eapply typed_bind; [apply soft_get_user|]. intros u Hu. by apply user_fits.
  - unfold user_patch_route. validated as Hv.
    eapply typed_bind; [apply soft_patch_user; apply andb_true_intro; by split|]. intros u Hu. by apply user_fits.
  - unfold user_deactivate_route. permitted.
    eapply typed_bind; [apply soft_deactivate|]. intros v Hv. by apply user_fits.
  - unfold user_activate_route. permitted.
    eapply typed_bind; [apply soft_activate|]. intros v Hv. by apply user_fits.
  - unfold user_delete_route. permitted.
    eapply typed_bind; [apply soft_remove_user|]. intros ? _. apply list_subseteq_nil.
  - unfold admin_panel. eapply typed_bind; [|intros b Hb; exact Hb].
    permitted. cbn. done.
  - unfold audit_logs_route. permitted. validated. eapply typed_bind.
    { unfold list_audit_logs. checked. apply soft_get_audit_logs. }
    intros logs Hl. apply serialize_list, Forall_fmap. eapply Forall_impl; [exact Hl|]. apply audit_log_fits.
  - unfold tenant_create_route. permitted. validated as Hn. eapply typed_bind with (P := λ _, True).
    { unfold create_tenant_endpoint. checked.
      eapply typed_bind; [eapply soft_of_result; intros x; apply validate_slug_ok|]. intros sl Hs.
      by eapply soft_true, soft_provision. }
    intros t _. apply tenant_fits.
  - unfold tenants_route, list_tenant_records. permitted. validated. eapply typed_bind with (P := λ _, True).
    { checked. eapply soft_true, soft_list_tenants. }
    intros ts _. apply serialize_list, Forall_fmap, Forall_forall. intros t _. apply tenant_fits.
  - unfold get_tenant. eapply typed_bind with (P := λ _, True); [|intros t _; apply tenant_fits].
    checked.
    eapply typed_bind; [apply soft_tenant_by_id|]. by intros [t|] Ht.
  - unfold tenant_patch_route. permitted. validated as Hv.
    eapply typed_bind; [by apply soft_patch_tenant|]. intros t _. apply tenant_fits.
  - unfold upload_file. eapply typed_bind with (P := λ _, True); [|intros f _; apply file_fits].
    checked. eapply soft_true, soft_upload.
  - unfold create_presigned_upload_endpoint. eapply typed_bind with (P := λ _, True); [|intros [k u] _; by eexists].
    checked. apply soft_presigned_upload.
  - unfold presigned_complete_route, complete_presigned_upload_endpoint. checked. validated.
    eapply typed_bind with (P := λ _, True); [|intros f _; apply file_fits].
    checked. eapply soft_true, soft_complete.
  - eapply typed_bind; [apply soft_download_url|]. intros u _. by eexists.
  - eapply typed_bind; [apply soft_delete_file|]. intros ? _. apply list_subseteq_nil.
Qed.

Lemma soft_handle credentials header r : route_ok r = true →
  soft (handle s presign credentials header r) (fits r).
Proof.
  intros Hr. apply soft_in_session. eapply typed_bind; [apply soft_current_user|]. intros me.
  by apply soft_serve_route.
Qed.
(** ** The public routes *)

Definition public_ok (r : public_route) : bool :=
  match r with PostRegister email _ | PostLogin email _ | PostResetRequest email => is_email email | _ => true end.

Definition public_keys (r : public_route) : list string :=
  match public_model r with Some t => type_keys t | None => [] end.

Definition public_fits (r : public_route) (content : json) : Prop :=
  match public_model r with
  | Some t => is_Some (serialize t content)
  | None => json_keys content ⊆ public_keys r
  end.

Lemma soft_serve_public r rq : public_ok r = true → soft (serve_public s r rq) (public_fits r).
Proof.
  intros Hr. destruct r; cbn [serve_public public_ok] in *.
  - unfold register_route. eapply typed_bind; [apply (soft_limited_by s _ _ "auth_register")|]. intros ? _.
    apply soft_in_session. eapply typed_bind; [apply soft_request_tenant|]. intros t _.
    eapply typed_bind; [apply soft_validated|]. intros ? _. destruct (negb _); [done|].
    eapply typed_bind; [by apply soft_create_user|]. intros u. apply user_fits.
  - unfold login_route, login_attempt. eapply typed_bind; [apply (soft_limited_by s _ _ "auth_login")|]. intros ? _.
    apply soft_in_session. eapply typed_bind; [apply soft_request_tenant|]. intros t _.
    eapply typed_bind; [apply soft_login|]. intros tk _. by eexists.
  - unfold refresh_route. eapply typed_bind; [apply (soft_limited_by s _ _ "auth_refresh")|]. intros ? _.
    apply soft_in_session. eapply typed_bind; [apply soft_rotate|]. intros tk _. by eexists.
  - unfold logout_route. eapply typed_bind; [apply (soft_limited_by s _ _ "auth_logout")|]. intros ? _.
    eapply typed_bind; [apply soft_logout|]. intros ? _. apply list_subseteq_nil.
  - unfold request_reset_route, request_reset_password. apply soft_in_session.
    eapply typed_bind; [apply soft_request_tenant|]. intros t _.
    eapply typed_bind with (P := λ _, True); [|intros m _; by eexists].
    eapply typed_bind; [apply soft_reset_limit|]. intros ? _. apply soft_request_reset.
  - unfold confirm_reset_route, confirm_reset_password. apply soft_in_session.
    eapply typed_bind; [apply soft_validated|]. intros ? _.
    eapply typed_bind; [apply soft_confirm_reset|]. intros m _. by eexists.
Qed.
(** ** Endpoints *)

Context (parse_json : string → option json).

(** A request: of a user who is logged in, of anyone, or of a provider. *)
Inductive endpoint : Type :=
| Authenticated (credentials : string) (header : option string) (r : route)
| Public (r : public_route) (rq : request)
| InboundWebhook (rq : request).

Definition endpoint_ok (e : endpoint) : bool :=
  match e with Authenticated _ _ r => route_ok r | Public r _ => public_ok r | InboundWebhook _ => true end.

(** The route runs, and its answer is validated and sent. *)
Definition endpoint_response (e : endpoint) : prog (result exn response) :=
  match e with
  | Authenticated credentials header r =>
      a ← handle s presign credentials header r; Ret (response_of r a)
  | Public r rq => content ← serve_public s r rq; Ret (public_response r content)
  | InboundWebhook rq => resp ← inbound_webhook s parse_json rq; Ret (Ok resp)
  end.

(** The status codes and the members of the responses the API documents. *)
Definition endpoint_statuses (e : endpoint) : list Z :=
  match e with
  | Authenticated _ _ r => [status_code r]
  | Public r _ => [public_status r]
  | InboundWebhook _ => [200; 409]
  end.

Definition endpoint_keys (e : endpoint) : list string :=
  match e with
  | Authenticated _ _ r => sent_keys r
  | Public r _ => public_keys r
  | InboundWebhook _ => type_keys WebhookInboundResponse
  end.

Definition documented (e : endpoint) (r : result exn response) : Prop :=
  ∃ resp, r = Ok resp ∧ resp_status resp ∈ endpoint_statuses e ∧
    json_keys (resp_content resp) ⊆ endpoint_keys e.

(** The models are closed: a serialized answer has their members only. *)
Lemma response_model_closed r t : response_model r = Some t → closed_type t = true.
Proof. destruct r; intros [= <-]; reflexivity. Qed.
Lemma public_model_closed r t : public_model r = Some t → closed_type t = true.
Proof. destruct r; intros [= <-]; reflexivity. Qed.

Lemma fits_documented credentials header r a :
  fits r a → documented (Authenticated credentials header r) (response_of r a).
Proof.
  unfold fits, documented, response_of, serialize_response. cbn [endpoint_statuses endpoint_keys]. unfold sent_keys.
  destruct (response_model r) as [t|] eqn:Em.
  - intros [b Hb]. rewrite Hb. cbn. eexists. split_and!; [done|by left|]. cbn.
    eapply serialize_keys; [by eapply response_model_closed|exact Hb].
  - intros Hk. eexists. split_and!; [done|by left|exact Hk].
Qed.

Lemma public_fits_documented r rq content :
  public_fits r content → documented (Public r rq) (public_response r content).
Proof.
  unfold public_fits, documented, public_response, serialize_response. cbn [endpoint_statuses endpoint_keys].
  unfold public_keys. destruct (public_model r) as [t|] eqn:Em.
  - intros [b Hb]. rewrite Hb. cbn. eexists. split_and!; [done|by left|]. cbn.
    eapply serialize_keys; [by eapply public_model_closed|exact Hb].
  - intros Hk. eexists. split_and!; [done|by left|exact Hk].
Qed.

Lemma soft_endpoint e : endpoint_ok e = true → soft (endpoint_response e) (documented e).
Proof.
  intros He. destruct e as [credentials header r|r rq|rq]; cbn [endpoint_response endpoint_ok] in *.
  - eapply typed_bind; [by apply soft_handle|]. intros a. apply fits_documented.
  - eapply typed_bind; [by apply soft_serve_public|]. intros c. apply public_fits_documented.
  - eapply typed_bind; [apply soft_inbound_webhook|]. intros resp [Hs Hc]. eexists. split_and!; [done| |].
    + destruct Hs as [->| ->]; [by left|by right; left].
    + eapply serialize_keys; [|exact Hc]. reflexivity.
Qed.

(** No member the API documents is a secret of a row. *)
Definition secrets : list string :=
  ["hashed_password"; "token_version"; "token_hash"; "payload_hash"; "tenant_id"].

Lemma secrets_undocumented e : Forall (λ k, k ∉ endpoint_keys e) secrets.
Proof.
  apply (bool_decide_eq_true _).
  destruct e as [c h r|r rq|rq]; [destruct r|destruct r|]; reflexivity.
Qed.
End typed_routes.

(** C4: the API is well typed.  From stored data that are well typed (the queues
    hold jobs of the program, cached pages hold [UserRead] objects, users have
    accepted addresses and known roles, audit entries known actions, stored
    webhook responses the two the endpoint sends), with any faults of the services
    and requests whose addresses have passed validation, every moment of serving
    any request leaves them well typed; and when the route ends normally its answer
    is never refused by the response model it declares: it is sent with a
    documented status, only with members the model declares, so without the
    secrets of a row such as a hashed password. *)
Theorem api_well_typed `{SqlText} `{ServicesSpec faults W} `{Pydantic} (s : Settings) presign parse_json
    (e : endpoint) (w : W) :
  let p := endpoint_response s presign parse_json e in
  keys_apart s = true → endpoint_ok e = true → typed_world s (view w) → in_time (view (snd (run p w))) →
  Forall (λ w', typed_world s (view w')) (trace p w) ∧
  match fst (run p w) with
  | Ok r => ∃ resp, r = Ok resp ∧ resp_status resp ∈ endpoint_statuses e ∧
      json_keys (resp_content resp) ⊆ endpoint_keys e ∧
      Forall (λ k, k ∉ json_keys (resp_content resp)) secrets
  | Err _ => True
  end.
Proof.
  cbn zeta. intros Hap He Hw Ht.
  destruct (typed_sound s (endpoint_response s presign parse_json e) (documented e) (λ _, True) w
    Hap (soft_endpoint s presign parse_json e He) Hw Ht) as [Hall Hres].
  split; [exact Hall|]. destruct (fst (run _ w)) as [r|]; [|done].
  destruct Hres as (resp & Hr & Hs & Hk). exists resp. split_and!; [done..|].
  eapply Forall_impl; [apply (secrets_undocumented e)|]. by intros k Hd Hin%Hk.
Qed.

(** An address has an at sign, and not a domain reserved for special use. *)
#[local] Instance demo_pydantic : Pydantic := {|
  email_str e := if contains "@" e && negb (contains ".local" e) then Some e else None;
  datetime_text := isoformat;
|}.

Lemma empty_redis_typed `{Crypto} `{Pydantic} s : typed_redis s ∅.
Proof. intros k e t He. by rewrite lookup_empty in He. Qed.

Definition demo_patch : endpoint :=
  Authenticated admin_access None
    (PatchUser 2 {| up_email := Some (Some "c@x.org"); up_is_active := None; up_role := Some (Some "admin") |}).

(** An address [EmailStr] refuses, as it does the domains reserved for special
    use: the answer about such a user is refused too.  [seed_dev_data] stores two. *)
Lemma refused_address_not_sent `{Pydantic} (u : User) :
  email_str (u_email u) = None → response_of GetMe (AUser u) = Err ResponseValidationError.
Proof. intros He. unfold response_of. cbn. by rewrite He. Qed.

Lemma dev_users_not_sent :
  Forall (λ d, ∀ t h k, response_of GetMe (AUser (new_dev_user t h d k)) = Err ResponseValidationError) DEV_USERS.
Proof. repeat constructor. Qed.

(** A state with nothing in Redis and no session open. *)
Lemma plain_world_typed `{Crypto} `{Pydantic} s w :
  0 <=? w_clock w = true → w_redis w = ∅ → bool_decide (typed_tables (w_db w)) = true →
  all_writes (w_session w) = [] → w_metrics w = [] → typed_world s w.
Proof.
  intros Hc Hr Hd Hs Hm. split; [lia| |by apply bool_decide_eq_true in Hd| |].
  - rewrite Hr. apply empty_redis_typed.
  - by rewrite Hs.
  - by rewrite Hm.
Qed.

Lemma minted_typed : typed_world small_settings (view (snd admin_minted)).
Proof. apply plain_world_typed; vm_compute; reflexivity. Qed.

Lemma api_well_typed_witness :
  let p := endpoint_response small_settings (λ _ _ _, Ok "url") loads demo_patch in
  let w := snd admin_minted in
  fst (run p w) = Ok (Ok (json_response 200
    (JObj [("id", JInt 2); ("email", JStr "c@x.org"); ("is_active", JBool true); ("role", JStr "admin")]))) ∧
  Forall (λ w', typed_world small_settings (view w')) (trace p w).
Proof.
  cbn zeta. split; [vm_compute; reflexivity|].
  refine (proj1 (api_well_typed (faults:=false) (W:=world) small_settings (λ _ _ _, Ok "url") loads demo_patch
    (snd admin_minted) _ _ _ _)).
  - vm_compute. reflexivity.
  - vm_compute. reflexivity.
  - exact minted_typed.
  - vm_compute. reflexivity.
Defined.
