(* ===== verification/Application.v ===== *)
(** * The application

    [app/main.py]: a request goes through the middleware to the route the router
    chooses, its arguments are read, the route runs, and its answer or its exception
    becomes the response.  Reading the arguments from the path, the query and the
    body is FastAPI's and pydantic's, the class [FastApi]; that they are read after
    the dependencies of a route have run is FastAPI's order.  [HTTPBearer], the text
    of the metrics and the absolute URL of a redirect are arguments as well. *)

From Stdlib Require Import ZArith Ascii String Lia.
From stdpp Require Import base tactics option list gmap strings sorting fin_maps.
From S2P Require Import Routing.
From S2P Require Import Prelude PyText Json Errors Config DateTime Models Permissions Services Programs.
From S2P Require Import DbFacts Reference RedisFacts Ids JobQueue Tenants Cache Cursor Users CacheSafety Auth Http RateLimit.
From S2P Require Import Email PasswordReset Idempotency Webhooks Metrics Shutdown Middleware Storage Health Admin Api Schemas PublicApi.
From S2P Require Import Isolation UserMutations AuthSafety Typing TypeSystem TypedServices TypedRequests TypedRoutes.
Local Open Scope string_scope.
Local Open Scope list_scope.
Local Open Scope Z_scope.

(** ** Arguments *)

(** The arguments of a request, once read and validated: those of a route with a
    token, of a public route, or none. *)
Inductive arguments := Of (r : route) | OfPublic (r : public_route).

(** The function a route with its arguments belongs to. *)
Definition user_handler (r : route) : handler :=
  match r with
  | GetMe => Routing.me | GetUsers _ _ _ => Routing.list_users | GetUser _ => Routing.get_user
  | PatchUser _ _ => Routing.patch_user | DeactivateUser _ => Routing.deactivate_user_endpoint
  | ActivateUser _ => Routing.activate_user_endpoint | DeleteUser _ => Routing.remove_user
  | GetAdmin => Routing.admin_panel | GetAuditLogs _ _ _ _ _ => Routing.list_audit_logs
  | PostTenant _ _ => Routing.create_tenant | GetTenants _ _ _ => Routing.list_tenant_records
  | GetTenant _ => Routing.get_tenant | PatchTenant _ _ => Routing.patch_tenant
  | PostFile _ => Routing.upload_file | PostPresignedUpload _ _ => Routing.create_presigned_upload
  | PostPresignedComplete _ _ _ _ => Routing.complete_presigned_upload
  | GetDownloadUrl _ => Routing.get_download_url | DeleteFile _ => Routing.delete_file
  end.
Definition public_handler (r : public_route) : handler :=
  match r with
  | PostRegister _ _ => Routing.register | PostLogin _ _ => Routing.login
  | PostRefresh _ => Routing.refresh_token | PostLogout _ => Routing.logout
  | PostResetRequest _ => Routing.request_reset_password | PostResetConfirm _ _ => Routing.confirm_reset_password
  end.

Class FastApi := {
  http_bearer : request → result exn string;
  read_arguments : handler → list (string * string) → request → option arguments;
}.

Definition arguments_ok `{Pydantic} (h : handler) (a : arguments) : bool :=
  match a with
  | Of r => bool_decide (user_handler r = h) && route_ok r
  | OfPublic r => bool_decide (public_handler r = h) && public_ok r
  end.

(** What is read are arguments of the function, and the addresses among them have
    passed [EmailStr]. *)
Class FastApiSpec `{FastApi} `{Pydantic} : Prop :=
  read_arguments_ok h params rq a : read_arguments h params rq = Some a → arguments_ok h a = true.

(** The permission a route asks for by [require_permission]. *)
Definition required_permission (h : handler) : option Permission :=
  match h with
  | Routing.list_users => Some USERS_LIST
  | Routing.deactivate_user_endpoint => Some USERS_DEACTIVATE
  | Routing.activate_user_endpoint => Some USERS_ACTIVATE
  | Routing.remove_user => Some USERS_DELETE
  | Routing.admin_panel => Some ADMIN_ACCESS
  | Routing.list_audit_logs => Some AUDIT_LOGS_LIST
  | Routing.create_tenant => Some TENANTS_PROVISION
  | Routing.list_tenant_records | Routing.get_tenant => Some TENANTS_LIST
  | Routing.patch_tenant => Some TENANTS_MANAGE
  | Routing.upload_file | Routing.create_presigned_upload | Routing.complete_presigned_upload => Some FILES_UPLOAD
  | _ => None
  end.

Section application.
Context `{Crypto} `{SqlText} `{Pydantic} `{FastApi} (s : Settings).
Context (seconds_text : Z → string) (presign : string → string → option string → result exn string)
        (parse_json : string → option json) (rendered : string) (absolute_url : request → string → string).

(** ** Routes *)

Definition validation_failed : exn := RequestValidationError (JList []).

(** The dependencies of a route run before the errors of its arguments are raised. *)
Definition refused_arguments (h : handler) (rq : request) : prog response :=
  match h with
  | Routing.register =>
      _ ← limited_by (auth_register_rate_limit s) rq;
      in_session (_ ← get_request_tenant (tenant_header rq); Raise validation_failed)
  | Routing.login =>
      _ ← limited_by (auth_login_rate_limit s) rq;
      in_session (_ ← get_request_tenant (tenant_header rq); Raise validation_failed)
  | Routing.refresh_token =>
      _ ← limited_by (auth_refresh_rate_limit s) rq;
      in_session (Raise validation_failed)
  | Routing.logout => _ ← limited_by (auth_logout_rate_limit s) rq; Raise validation_failed
  | Routing.request_reset_password =>
      in_session (_ ← get_request_tenant (tenant_header rq); Raise validation_failed)
  | Routing.confirm_reset_password => in_session (Raise validation_failed)
  | _ =>
      credentials ← of_result (http_bearer rq);
      in_session
        (current_user ← get_current_user s credentials (tenant_header rq);
         _ ← match required_permission h with
             | Some permission => permitted permission current_user
             | None => Ret current_user
             end;
         Raise validation_failed)
  end.

Definition user_route (r : route) (rq : request) : prog response :=
  credentials ← of_result (http_bearer rq);
  a ← handle s presign credentials (tenant_header rq) r;
  of_result (response_of r a).
Definition open_route (r : public_route) (rq : request) : prog response :=
  content ← serve_public s r rq;
  of_result (public_response r content).

(** The function of the route found, with the arguments of the request. *)
Definition run_route (r : api_route) (params : list (string * string)) (rq : request) : prog response :=
  match ar_endpoint r with
  | Routing.inbound_webhook => inbound_webhook s parse_json rq
  | Routing.health_check => health_check
  | Routing.liveness_check => liveness_check
  | Routing.readiness_check => readiness_check s
  | Routing.db_health_check => db_health_check
  | Routing.redis_health => redis_health
  | Routing.s3_health => s3_health s
  | Routing.limited_endpoint => limited_endpoint s rq
  | Routing.metrics =>
      text ← of_result (metrics_endpoint s rendered (header rq "Authorization"));
      Ret (json_response 200 (JStr text))
  | h =>
      match read_arguments h params rq with
      | Some (Of r) => user_route r rq
      | Some (OfPublic r) => open_route r rq
      | None => refused_arguments h rq
      end
  end.

(** The router: the route found, or Starlette's answers. *)
Definition method_not_allowed (r : api_route) : exn :=
  HTTPException 405 "Method Not Allowed" [("Allow", ar_method r)].
Definition not_found : exn := HTTPException 404 "Not Found" [].

Definition routes : router := include_application_routers (opt_default false (legacy_routes_enabled s)).

Definition route_request (rq : request) : prog response :=
  match find_route routes (rq_method rq) (rq_path rq) with
  | Found r params => run_route r params rq
  | MethodNotAllowed r => Raise (method_not_allowed r)
  | Redirected path =>
      Ret {| resp_status := 307; resp_content := JNull; resp_headers := [("location", absolute_url rq path)] |}
  | NotFound => Raise not_found
  end.

(** [scope["route"]] *)
Definition scope_route (rq : request) : option (option string) :=
  match find_route routes (rq_method rq) (rq_path rq) with
  | Found r _ | MethodNotAllowed r => Some (Some (ar_path r))
  | _ => None
  end.

Definition app (rq : request) : prog response :=
  application seconds_text s (λ app, app) (route_request rq) rq (scope_route rq).

(** ** Typing *)

Local Abbreviation soft p P := (typed s p P (λ _, True)).

(** What a route documents: statuses and members. *)
Definition route_statuses (h : handler) (status : Z) : list Z :=
  match h with
  | Routing.inbound_webhook => [status; 409]
  | Routing.readiness_check | Routing.db_health_check | Routing.redis_health | Routing.s3_health => [status; 503]
  | _ => [status]
  end.

(** The members of the response of a route: those of its model, with the names of
    the checks for the health routes, or those of the object the function returns. *)
Definition documented_keys (model : option ftype) (h : handler) : list string :=
  match model with
  | Some t => type_keys t ++
      (if bool_decide (t = ReadinessHealthSchema) then ["database"; "redis"; "object_storage"] else [])
  | None => match h with
            | Routing.admin_panel => ["message"; "email"]
            | Routing.limited_endpoint => ["message"]
            | _ => []
            end
  end.

Definition as_documented (r : api_route) (resp : response) : Prop :=
  resp_status resp ∈ route_statuses (ar_endpoint r) (ar_status r) ∧
  json_keys (resp_content resp) ⊆ documented_keys (ar_model r) (ar_endpoint r).

(** What the application may answer to a request. *)
Definition well_answered (rq : request) (resp : response) : Prop :=
  match find_route routes (rq_method rq) (rq_path rq) with
  | Found r _ => as_documented r resp ∨ is_envelope (resp_content resp) = true
  | MethodNotAllowed r => resp_status resp = 405 ∧ is_envelope (resp_content resp) = true
  | Redirected path => resp_status resp = 307 ∧ path = redirect_path (rq_path rq)
  | NotFound => resp_status resp = 404 ∧ is_envelope (resp_content resp) = true
  end.

(** ** The routes *)

Definition handler_status (h : handler) : Z :=
  match h with
  | Routing.create_tenant | Routing.upload_file | Routing.complete_presigned_upload => 201
  | Routing.remove_user | Routing.delete_file | Routing.logout => 204
  | _ => 200
  end.

(** The response models the functions of the program were given above. *)
Definition handler_model (h : handler) : option ftype :=
  match h with
  | Routing.register | Routing.me | Routing.get_user | Routing.patch_user
  | Routing.deactivate_user_endpoint | Routing.activate_user_endpoint => Some UserRead
  | Routing.login | Routing.refresh_token => Some Token
  | Routing.request_reset_password | Routing.confirm_reset_password => Some MessageResponse
  | Routing.list_users => Some UserListPageSchema
  | Routing.list_audit_logs => Some (TListOf AuditLogRead)
  | Routing.list_tenant_records => Some (TListOf TenantRead)
  | Routing.create_tenant | Routing.get_tenant | Routing.patch_tenant => Some TenantRead
  | Routing.upload_file | Routing.complete_presigned_upload => Some UploadedFileRead
  | Routing.create_presigned_upload => Some PresignedUploadResponse
  | Routing.get_download_url => Some PresignedDownloadUrlRead
  | Routing.inbound_webhook => Some WebhookInboundResponse
  | Routing.health_check | Routing.liveness_check => Some HealthStatus
  | Routing.readiness_check | Routing.db_health_check | Routing.redis_health | Routing.s3_health =>
      Some ReadinessHealthSchema
  | _ => None
  end.

(** The table agrees with the routes as they are modelled. *)
Lemma table_row r : r ∈ routes →
  ar_status r = handler_status (ar_endpoint r) ∧ ar_model r = handler_model (ar_endpoint r).
Proof.
  assert (∀ legacy, forallb (λ r, (ar_status r =? handler_status (ar_endpoint r)) &&
      bool_decide (ar_model r = handler_model (ar_endpoint r)))
    (include_application_routers legacy) = true) as Hall by (intros []; vm_compute; reflexivity).
  specialize (Hall (opt_default false (legacy_routes_enabled s))). rewrite forallb_forall in Hall.
  intros Hr. specialize (Hall r (proj1 (list_elem_of_In _ _) Hr)). apply andb_prop in Hall as [Hs Hm].
  split; [lia|by apply bool_decide_eq_true in Hm].
Qed.

Lemma user_handler_documented r : sent_keys r ⊆ documented_keys (handler_model (user_handler r)) (user_handler r).
Proof. destruct r; reflexivity. Qed.
Lemma public_handler_documented r :
  public_keys r ⊆ documented_keys (handler_model (public_handler r)) (public_handler r).
Proof. destruct r; reflexivity. Qed.

Lemma own_status status h : status ∈ route_statuses h status.
Proof. destruct h; by left. Qed.

Lemma user_status r : status_code r = handler_status (user_handler r).
Proof. by destruct r. Qed.
Lemma public_route_status r : public_status r = handler_status (public_handler r).
Proof. by destruct r. Qed.

(** A validated answer is as documented. *)
Lemma soft_validated_answer r' a r :
  r ∈ routes → user_handler r' = ar_endpoint r → fits r' a →
  soft (of_result (response_of r' a)) (as_documented r).
Proof.
  intros Hr Hh Ha. destruct (fits_documented "" None r' a Ha) as (resp & -> & Hs & Hk).
  split.
  - cbn in Hs. apply list_elem_of_singleton in Hs as ->. rewrite (proj1 (table_row r Hr)), user_status, Hh. apply own_status.
  - etransitivity; [exact Hk|]. rewrite (proj2 (table_row r Hr)), <- Hh. apply user_handler_documented.
Qed.

Lemma soft_user_route r' rq r : r ∈ routes → user_handler r' = ar_endpoint r → route_ok r' = true →
  soft (user_route r' rq) (as_documented r).
Proof.
  intros Hr Hh Hok. unfold user_route. eapply typed_bind with (P := λ _, True); [by apply soft_of_result|].
  intros credentials _. eapply typed_bind; [by apply soft_handle|]. intros a Ha.
  by apply soft_validated_answer.
Qed.

Lemma soft_open_route r' rq r : r ∈ routes → public_handler r' = ar_endpoint r → public_ok r' = true →
  soft (open_route r' rq) (as_documented r).
Proof.
  intros Hr Hh Hok. unfold open_route. eapply typed_bind; [by apply soft_serve_public|]. intros c Hc.
  destruct (public_fits_documented r' rq c Hc) as (resp & -> & Hs & Hk). split.
  - cbn in Hs. apply list_elem_of_singleton in Hs as ->.
    rewrite (proj1 (table_row r Hr)), public_route_status, Hh. apply own_status.
  - etransitivity; [exact Hk|]. rewrite (proj2 (table_row r Hr)), <- Hh. apply public_handler_documented.
Qed.

Lemma soft_refused h rq P : soft (refused_arguments h rq) P.
Proof.
  assert (∀ limit window prefix, soft (limited_by (rate_limit s limit window ("rate_limit:" ++ prefix)) rq) (λ _, True))
    as Hlimit by (intros; apply soft_limited_by).
  assert (soft (_ ← get_request_tenant (tenant_header rq); Raise validation_failed) P) as Htenant
    by (eapply typed_bind; [apply soft_request_tenant|done]).
  assert (soft (credentials ← of_result (http_bearer rq);
    in_session (current_user ← get_current_user s credentials (tenant_header rq);
      _ ← match required_permission h with
          | Some permission => permitted permission current_user
          | None => Ret current_user
          end;
      Raise validation_failed)) P) as Huser.
  { eapply typed_bind with (P := λ _, True); [by apply soft_of_result|]. intros c _. apply soft_in_session.
    eapply typed_bind; [apply soft_current_user|]. intros u Hu. eapply typed_bind with (P := λ _, True); [|done].
    destruct (required_permission h); [|done]. by apply soft_of_result. }
  destruct h; try exact Huser; cbn [refused_arguments].
  - eapply typed_bind; [apply (Hlimit _ _ "auth_register")|]. intros ? _. by apply soft_in_session.
  - eapply typed_bind; [apply (Hlimit _ _ "auth_login")|]. intros ? _. by apply soft_in_session.
  - eapply typed_bind; [apply (Hlimit _ _ "auth_refresh")|]. intros ? _. by apply soft_in_session.
  - by eapply typed_bind; [apply (Hlimit _ _ "auth_logout")|].
  - by apply soft_in_session.
  - by apply soft_in_session.
Qed.

Lemma readiness_documented r h :
  ar_status r = 200 → route_statuses (ar_endpoint r) 200 = [200; 503] → ar_model r = Some ReadinessHealthSchema →
  (rh_checks h).*1 ⊆ ["database"; "redis"; "object_storage"] → as_documented r (readiness_response h).
Proof.
  intros Hs Hst Hk Hn. unfold as_documented. rewrite Hs, Hst, Hk. set (health_keys := documented_keys _ _). split.
  - cbn. destruct (String.eqb _ _); [by left|by right; left].
  - assert (∀ l, l.*1 ⊆ ["database"; "redis"; "object_storage"] →
      concat (map (λ '(k, x), k :: json_keys x) (map (λ '(name, d), (name, dump_dependency d)) l)) ⊆ health_keys) as Hl.
    { clear Hn Hk. induction l as [|[name d] l IH]; [intros _; apply list_subseteq_nil|].
      cbn [map concat fmap list_fmap fst]. intros Hn. intros k. rewrite elem_of_app, elem_of_cons.
      assert (name ∈ ["database"; "redis"; "object_storage"]) as Hname by (apply Hn; by left).
      intros [[->|Hd]|Hk].
      - unfold health_keys. cbn. set_solver.
      - unfold dump_dependency in Hd. destruct (dh_message d); cbn in Hd; unfold health_keys; cbn; set_solver.
      - apply IH; [|done]. intros x Hx. apply Hn. by right. }
    change (json_keys (resp_content (readiness_response h))) with
      ("status" :: "checks" :: concat (map (λ '(k, x), k :: json_keys x)
         (map (λ '(name, d), (name, dump_dependency d)) (rh_checks h))) ++ []).
    rewrite app_nil_r. intros k. rewrite !elem_of_cons. intros [->|[->|Hk']]; [by left|by right; left|].
    exact (Hl _ Hn k Hk').
Qed.

Lemma soft_health r h p :
  ar_status r = 200 → route_statuses (ar_endpoint r) 200 = [200; 503] → ar_model r = Some ReadinessHealthSchema →
  soft p (λ _, True) → h ∈ ["database"; "redis"; "object_storage"] →
  soft (one_check h p) (as_documented r).
Proof.
  intros Hs Hst Hk Hp Hh. unfold one_check. eapply typed_bind; [exact Hp|]. intros d _.
  apply readiness_documented; [done..|]. cbn. set_solver.
Qed.

Lemma soft_run_route r params rq :
  (∀ h params rq a, read_arguments h params rq = Some a → arguments_ok h a = true) →
  r ∈ routes → soft (run_route r params rq) (as_documented r).
Proof.
  intros Hargs Hr. destruct (table_row r Hr) as [Hst Hm]. unfold run_route.
  assert (soft (match read_arguments (ar_endpoint r) params rq with
                | Some (Of r') => user_route r' rq
                | Some (OfPublic r') => open_route r' rq
                | None => refused_arguments (ar_endpoint r) rq
                end) (as_documented r)) as Hread.
  { destruct (read_arguments _ _ _) as [[r'|r']|] eqn:E; [| |apply soft_refused].
    - apply Hargs, andb_prop in E as [Hh Hok]. apply bool_decide_eq_true in Hh. by apply soft_user_route.
    - apply Hargs, andb_prop in E as [Hh Hok]. apply bool_decide_eq_true in Hh. by apply soft_open_route. }
  destruct (ar_endpoint r) eqn:Eh; try exact Hread; cbn [handler_status handler_model] in Hst, Hm; clear Hread.
  - eapply typed_mono; [| |apply soft_inbound_webhook]; [|done]. intros resp [Hs Hc]. unfold as_documented.
    rewrite Eh, Hst, Hm. split; [destruct Hs as [->| ->]; [by left|by right; left]|].
    assert (documented_keys (Some WebhookInboundResponse) Routing.inbound_webhook = type_keys WebhookInboundResponse)
      as -> by reflexivity.
    eapply serialize_keys; [|exact Hc]. reflexivity.
  - unfold as_documented. rewrite Eh, Hst, Hm. split; [by left|]. cbn. set_solver.
  - unfold as_documented. rewrite Eh, Hst, Hm. split; [by left|]. cbn. set_solver.
  - apply soft_in_session. eapply typed_bind; [apply typed_readiness|]. intros h Hh.
    apply readiness_documented; [by rewrite ?Eh..|done].
  - apply soft_in_session, soft_health; [by rewrite ?Eh..|apply typed_check_database|set_solver].
  - apply soft_health; [by rewrite ?Eh..|apply typed_check_redis|set_solver].
  - apply soft_health; [by rewrite ?Eh..|apply typed_check_s3|set_solver].
  - unfold limited_endpoint. eapply typed_bind with (P := λ f, soft (f rq) (λ _, True)).
    { apply soft_of_result. intros f. unfold rate_limit. repeat case_match; intros [= <-];
        apply soft_counter, (key_rate_limit s (get_client_ip s rq)). }
    intros f Hf. eapply typed_bind; [exact Hf|]. intros ? _. unfold as_documented. rewrite Eh, Hst, Hm.
    split; [by left|]. cbn. reflexivity.
  - eapply typed_bind with (P := λ _, True); [by apply soft_of_result|]. intros text _.
    unfold as_documented. rewrite Eh, Hst, Hm. split; [by left|]. apply list_subseteq_nil.
Qed.

(** Only the function of a route raises something. *)
Definition may_fail (rq : request) (e : exn) : Prop :=
  match find_route routes (rq_method rq) (rq_path rq) with Found _ _ => True | _ => False end.

Lemma typed_routed rq :
  (∀ h params rq a, read_arguments h params rq = Some a → arguments_ok h a = true) →
  typed s (exception_middleware (route_request rq)) (well_answered rq) (may_fail rq).
Proof.
  intros Hargs. unfold exception_middleware, route_request, well_answered, may_fail.
  destruct (find_route routes (rq_method rq) (rq_path rq)) as [r params|r|path|] eqn:E; [|done| |done].
  - apply typed_catch with (E := λ _, True).
    + eapply typed_mono; [| |apply soft_run_route]; [by left|done|done|]. unfold find_route in E.
      destruct (first_full _ _ _) as [[r0 ps]|] eqn:Ef; [|repeat case_match; discriminate].
      injection E as -> ->. by apply first_full_sound in Ef as [Hr _].
    + intros e _. destruct (is_unhandled e); [done|]. right. apply respond_envelope.
  - split; [done|]. unfold find_route in E. repeat case_match; try discriminate. by injection E.
Qed.

(** ** The middleware *)

Lemma well_answered_headers rq f resp : well_answered rq resp → well_answered rq (with_headers f resp).
Proof. done. Qed.

Lemma typed_silent {B} (c : svc B) E :
  cmd_ok s B c → (∀ e, cmd_error c e = false) → typed s (call c) (λ _, True) E.
Proof. intros Hc He. apply typed_call; [done..|]. intros e. by rewrite He. Qed.

Lemma typed_enter rq E : typed s (enter_request rq) (λ _, True) E.
Proof.
  unfold enter_request. eapply typed_bind; [by apply typed_silent|]. intros start _.
  eapply typed_bind with (P := λ _, True); [destruct (some_truthy _); [done|apply typed_uuid7]|]. intros rid _.
  do 3 (eapply typed_bind; [by apply typed_silent|]; intros ? _). done.
Qed.

Lemma typed_leave token E : typed s (leave_request token) (λ _, True) E.
Proof. eapply typed_bind; [by apply typed_silent|]. intros ? _. by apply typed_silent. Qed.

Lemma typed_request_context p rq route E :
  typed s p (well_answered rq) E → typed s (request_context seconds_text p rq route) (well_answered rq) E.
Proof.
  intros Hp. unfold request_context. eapply typed_bind; [apply typed_enter|]. intros [[start rid] token] _.
  apply typed_finally; [|apply typed_leave]. unfold request_body.
  eapply typed_bind; [exact Hp|]. intros resp Hresp.
  eapply typed_bind with (P := well_answered rq).
  { unfold send_wrapper. eapply typed_bind; [by apply typed_silent|]. intros now _. by apply well_answered_headers. }
  intros resp' Hresp'. eapply typed_bind; [by apply typed_silent|]. intros ? _.
  eapply typed_bind with (P := λ _, True); [|done]. destruct (String.eqb _ _); [done|]. apply typed_observe_request.
Qed.

Lemma typed_app rq :
  (∀ h params rq a, read_arguments h params rq = Some a → arguments_ok h a = true) →
  typed s (app rq) (well_answered rq) (λ _, False).
Proof.
  intros Hargs. unfold app, application, server_error_middleware.
  apply typed_catch with (E := may_fail rq).
  - pose proof (typed_request_context _ rq (scope_route rq) _ (typed_routed rq Hargs)) as Hctx.
    unfold configure_runtime_middleware, dispatch. destruct (security_headers_enabled s); [|exact Hctx].
    eapply typed_bind; [exact Hctx|]. intros resp. apply well_answered_headers.
  - intros e. unfold may_fail. cbn. unfold well_answered.
    destruct (find_route _ _ _); [intros _; right; apply respond_envelope|done..].
Qed.
End application.


(** ** The documented errors *)

Definition needs_token (h : handler) : bool :=
  match h with
  | Routing.register | Routing.login | Routing.refresh_token | Routing.logout
  | Routing.request_reset_password | Routing.confirm_reset_password | Routing.inbound_webhook
  | Routing.health_check | Routing.liveness_check | Routing.readiness_check | Routing.db_health_check
  | Routing.redis_health | Routing.s3_health | Routing.limited_endpoint | Routing.metrics => false
  | _ => true
  end.

(** A route with a token documents 401, one with a permission 403. *)
Lemma token_errors_documented legacy :
  forallb (λ r, implb (needs_token (ar_endpoint r)) (bool_decide (401 ∈ (ar_responses r).*1)) &&
                implb (bool_decide (is_Some (required_permission (ar_endpoint r))))
                      (bool_decide (403 ∈ (ar_responses r).*1)))
    (include_application_routers legacy) = true.
Proof. destruct legacy; vm_compute; reflexivity. Qed.

(** Errors that functions raise and the documentation of their routes lacks: an
    invalid reset token, an address that is taken, too many webhooks. *)
Definition raises_undocumented (h : handler) (e : exn) : Prop :=
  Forall (λ r, ar_endpoint r = h → resp_status (respond e) ∉ (ar_responses r).*1) (include_application_routers true).
#[local] Instance raises_undocumented_dec h e : Decision (raises_undocumented h e).
Proof. unfold raises_undocumented. apply _. Defined.

Lemma undocumented_errors :
  raises_undocumented Routing.confirm_reset_password raise_invalid_reset_token ∧
  raises_undocumented Routing.register (raised BadRequestError "User with this email already exists") ∧
  raises_undocumented Routing.upload_file file_too_large ∧
  raises_undocumented Routing.inbound_webhook too_many_requests.
Proof. apply (bool_decide_unpack _). vm_compute. exact Logic.I. Qed.

(** ** An example *)

(** A request to deactivate a user; the path parameter is the only argument read. *)
#[local] Existing Instance demo_pydantic.
#[local] Instance demo_fast_api : FastApi := {|
  http_bearer rq := match provided_token (header rq "Authorization") with
                    | Some t => Ok t
                    | None => Err (HTTPException 403 "Not authenticated" [])
                    end;
  read_arguments h params rq :=
    match h, params with
    | Routing.deactivate_user_endpoint, [(_, v)] => (λ n, Of (DeactivateUser n)) <$> int_of_str v
    | _, _ => None
    end;
|}.
#[local] Instance demo_fast_api_spec : FastApiSpec.
Proof.
  intros h params rq a. cbn. destruct h; try done. destruct params as [|[k v] [|? ?]]; try done.
  destruct (int_of_str v); [|done]. by intros [= <-].
Qed.

Definition demo_app : request → prog response :=
  app small_settings (λ _, "0.1") (λ _ _ _, Ok "url") loads "" (λ _ path, path).
Definition deactivation (path : string) : request :=
  {| rq_method := "PATCH"; rq_path := path; rq_headers := [("Authorization", "Bearer " ++ admin_access)%string];
     rq_client := Some "h"; rq_body := "" |}.

Definition sent_by_app (rq : request) : option (Z * json) :=
  match fst (run (demo_app rq) (snd admin_minted)) with
  | Ok resp => Some (resp_status resp, resp_content resp)
  | Err _ => None
  end.

