(* ===== verification/Worker.v ===== *)
(** * The worker

    [app/worker.py] and [app/worker_failed_jobs.py]: the loop that takes jobs
    from the queue, runs them, retries or fails them, and does the maintenance.
    The user id and the file id of a job are the integers the program puts into
    its payload, and the id of a job is a text; other values raise.  [py_str] is
    the text Python gives a JSON value that is not a text.  Logging, the server
    of the metrics and the signal handlers are set up before the loop, in [Wiring]; a
    signal sets the shutdown flag between any two commands. *)

From Stdlib Require Import ZArith QArith Ascii String Lia.
From stdpp Require Import base tactics option list gmap strings.
From S2P Require Import Prelude PyText Json Errors Config Models Services Programs.
From S2P Require Import JobQueue Tenants PasswordReset Idempotency Webhooks Metrics Shutdown Storage.
Local Open Scope string_scope.
Local Open Scope list_scope.
Local Open Scope Z_scope.

Section worker.
Context `{Crypto} (s : Settings) (py_str : json → string).

(** [str(x)] *)
Definition str_of_json (v : json) : string :=
  match v with JStr t => t | _ => py_str v end.

(** ** Handling a job *)

(** [job.payload[key]] *)
Definition payload_item (key : string) (job : Job) : result exn json :=
  match payload job with
  | JObj kvs => get_item key kvs
  | _ => Err (TypeError "indices must be integers")
  end.

Definition integer_item (key : string) (job : Job) : result exn Z :=
  match payload_item key job with
  | Ok (JInt n) => Ok n
  | Ok _ => Err (TypeError "an integer is required")
  | Err e => Err e
  end.

Definition job_id_text (job : Job) : result exn string :=
  match id job with JStr t => Ok t | _ => Err (TypeError "a text is required") end.

Definition handle_job (job : Job) : prog unit :=
  if json_eqb (type job) (JStr SEND_PASSWORD_RESET_EMAIL_JOB) then
    user_id ← of_result (integer_item "user_id" job);
    in_session
      (job_id ← of_result (job_id_text job);
       create_password_reset_token_and_send_email s user_id (Some job_id))
  else if json_eqb (type job) (JStr VERIFY_PRESIGNED_UPLOAD_JOB) then
    uploaded_file_id ← of_result (integer_item "uploaded_file_id" job);
    in_session (verify_presigned_upload_in_worker s uploaded_file_id)
  else Raise (UnknownJobTypeError (str_of_json (type job))).

(** ** Outcomes *)

Definition ack (job : Job) : prog unit := ack_job job (worker_processing_queue_name s).
Definition retry (job : Job) (e : exn) : prog Job :=
  schedule_retry s job (exn_str e) (worker_processing_queue_name s) (worker_delayed_queue_name s) None.
Definition fail_job (job : Job) (e : exn) : prog Job :=
  move_job_to_failed_queue job (Some (exn_str e)) (worker_processing_queue_name s)
    (worker_failed_queue_name s).

(** The [except] clauses; the result says that the job is dealt with. *)
Definition job_failed (job : Job) (e : exn) : prog bool :=
  match e with
  | UnknownJobTypeError _ =>
      _ ← fail_job job e;
      _ ← observe_worker_job (str_of_json (type job)) "failed";
      Ret true
  | _ =>
      n ← of_result (as_int (attempts job));
      if n <? worker_max_retries s then
        _ ← retry job e;
        _ ← observe_worker_job (str_of_json (type job)) "retry_scheduled";
        Ret true
      else
        _ ← fail_job job e;
        _ ← observe_worker_job (str_of_json (type job)) "failed";
        Ret true
  end.

Definition run_job (job : Job) : prog bool :=
  _ ← mark_worker_job_started;
  settled ← finally (catch (_ ← handle_job job; Ret false) (job_failed job)) mark_worker_job_finished;
  if (settled : bool) then Ret true
  else
    _ ← ack job;
    _ ← observe_worker_job (str_of_json (type job)) "completed";
    Ret true.

Definition process_next_job : prog bool :=
  job ← dequeue_job (worker_queue_name s) (worker_processing_queue_name s)
          (worker_poll_timeout_seconds s);
  match job with
  | None => Ret false
  | Some job => run_job job
  end.

(** ** Maintenance *)

(** The four cleanups of one session. *)
Definition cleanups : prog unit :=
  in_session
    (_ ← cleanup_expired_password_reset_tokens;
     _ ← cleanup_expired_idempotency_records;
     _ ← cleanup_old_webhook_events s;
     _ ← cleanup_old_audit_logs s;
     Ret tt).

Definition run_scheduled_maintenance : prog bool :=
  if negb (worker_maintenance_enabled s) then Ret false
  else
    acquired ← try_acquire_maintenance_lock (worker_maintenance_lock_key s)
                 (worker_maintenance_interval_seconds s);
    if negb acquired then
      _ ← observe_worker_maintenance "skipped";
      Ret false
    else
      _ ← cleanups;
      _ ← observe_worker_maintenance "completed";
      Ret true.

Definition with_last_maintenance (t : Z) (p : proc) : proc :=
  {| p_request_id := p_request_id p; p_tenant_id := p_tenant_id p;
     p_tenant_slug := p_tenant_slug p; p_in_flight := p_in_flight p;
     p_shutdown_requested := p_shutdown_requested p; p_job_in_progress := p_job_in_progress p;
     p_last_maintenance_attempt_at := t;
     p_last_queue_maintenance_at := p_last_queue_maintenance_at p |}.
Definition with_last_queue_maintenance (t : Z) (p : proc) : proc :=
  {| p_request_id := p_request_id p; p_tenant_id := p_tenant_id p;
     p_tenant_slug := p_tenant_slug p; p_in_flight := p_in_flight p;
     p_shutdown_requested := p_shutdown_requested p; p_job_in_progress := p_job_in_progress p;
     p_last_maintenance_attempt_at := p_last_maintenance_attempt_at p;
     p_last_queue_maintenance_at := t |}.

(** [now if now is not None else time.monotonic()] *)
Definition or_monotonic (now : option Z) : prog Z :=
  match now with Some t => Ret t | None => call Monotonic end.

Definition maybe_run_scheduled_maintenance (now : option Z) : prog bool :=
  current_time ← or_monotonic now;
  last ← read_proc p_last_maintenance_attempt_at;
  if current_time - last <? worker_maintenance_interval_seconds s * second then Ret false
  else
    _ ← set_proc (with_last_maintenance current_time);
    run_scheduled_maintenance.

Definition maybe_run_queue_maintenance (now : option Z) : prog unit :=
  current_time ← or_monotonic now;
  last ← read_proc p_last_queue_maintenance_at;
  if current_time - last <? worker_queue_maintenance_interval_seconds s * second then Ret tt
  else
    _ ← set_proc (with_last_queue_maintenance current_time);
    _ ← reclaim_stale_processing_jobs (worker_queue_name s) (worker_processing_queue_name s)
          (worker_processing_visibility_timeout_seconds s) None;
    _ ← promote_delayed_jobs (worker_queue_name s) (worker_delayed_queue_name s) None
          (Some (worker_queue_promote_batch_size s));
    Ret tt.

(** ** The loop *)

(** [while not worker_shutdown_requested()]: [fuel] bounds the rounds, and
    running out of it is [None]. *)
Fixpoint worker_loop (fuel : nat) : prog (option unit) :=
  match fuel with
  | O => Ret None
  | S fuel' =>
      stop ← worker_shutdown_requested;
      if (stop : bool) then Ret (Some tt)
      else
        _ ← maybe_run_scheduled_maintenance None;
        stop ← worker_shutdown_requested;
        if (stop : bool) then Ret (Some tt)
        else
          _ ← maybe_run_queue_maintenance None;
          _ ← process_next_job;
          worker_loop fuel'
  end.

(** After the loop: the wait for the job of the worker. *)
Definition run_worker (fuel wait_fuel : nat) : prog (option unit) :=
  ended ← worker_loop fuel;
  match ended with
  | None => Ret None
  | Some _ =>
      _ ← wait_for_worker_job_completion wait_fuel (worker_shutdown_grace_seconds s);
      Ret (Some tt)
  end.

(** ** [worker_failed_jobs.py] *)

Inductive command := ListFailed (limit : Z) | Requeue (limit : option Z).

(** [main] without the parser of the arguments: what is printed, as a JSON value. *)
Definition failed_jobs_main (fuel : nat) (args : command) : prog (option json) :=
  match args with
  | ListFailed limit =>
      jobs ← list_failed_jobs (worker_failed_queue_name s) limit;
      Ret (Some (JList (map to_dict jobs)))
  | Requeue limit =>
      requeued_count ← requeue_failed_jobs fuel (worker_queue_name s) (worker_failed_queue_name s) limit;
      Ret (option_map (λ n, JObj [("requeued", JInt n)]) requeued_count)
  end.
End worker.
