(* ===== verification/TypedWorker.v ===== *)
(** * The worker is well typed

    From well-typed data the worker keeps them well typed, and the only errors
    that end its loop are those of Redis and of the database: it never meets a
    queue entry it cannot read. *)

From Stdlib Require Import ZArith QArith Ascii String Lia.
From stdpp Require Import base tactics option list gmap strings sorting fin_maps.
From S2P Require Import Prelude PyText Json Errors Config DateTime Models Permissions Services Programs.
From S2P Require Import DbFacts Reference RedisFacts Ids JobQueue Tenants Cache Auth Http RateLimit.
From S2P Require Import Email PasswordReset Idempotency Webhooks Metrics Storage Shutdown Admin Api Schemas.
From S2P Require Import UserMutations AuthSafety Typing TypeSystem TypedServices TypedRequests TypedRoutes Worker.
Local Open Scope string_scope.
Local Open Scope list_scope.
Local Open Scope Z_scope.

Section typed_worker.
Context `{Crypto} `{Pydantic} (s : Settings) (py_str : json → string).

(** The errors of Redis and of the database. *)
Definition service_error (e : exn) : bool := is_redis_error e || is_db_error e.

Local Abbreviation soft p P := (typed s p P (λ _, True)).
Local Abbreviation safe p P := (typed s p P (λ e, service_error e = true)).

Lemma safe_redis {A} (p : prog A) P : typed s p P (λ e, is_redis_error e = true) → safe p P.
Proof. apply typed_mono; [done|]. intros e He. unfold service_error. by rewrite He. Qed.

Lemma safe_db {B} (c : db_cmd B) : db_ok c → safe (db c) (λ _, True).
Proof. intros Hc. apply typed_call; [done..|]. intros e He. unfold service_error. cbn in He. rewrite He. by rewrite orb_true_r. Qed.

Lemma safe_now : safe now_us (λ _, True).
Proof. by apply typed_call. Qed.

(** ** Jobs *)

Lemma soft_commit_reset_job job_id : soft (commit_reset_job s job_id) (λ _, True).
Proof.
  unfold commit_reset_job, mark_password_reset_job_completed.
  assert (∀ i v nx ex, soft (redis (SET (password_reset_job_completed_key i) v nx ex)) (λ _, True)) as Hset.
  { intros. eapply soft_true, soft_redis. left. apply (key_reset_job s). }
  soft_auto.
Qed.

Lemma soft_send_reset_token u job_id : soft (send_reset_token s u job_id) (λ _, True).
Proof.
  unfold send_reset_token, generate_password_reset_token, send_password_reset_email, send_email.
  pose proof soft_commit_reset_job.
  assert (∀ u h e, soft (db (Add TResetToken (new_reset_token u h e))) (λ _, True)) as Ht by (intros; by apply soft_db).
  assert (∀ i, soft (db (Add TJobCompletion (new_job_completion i))) (λ _, True)) as Hc by (intros; by apply soft_db).
  soft_auto.
Qed.

Lemma soft_reset_job i job_id : soft (create_password_reset_token_and_send_email s i job_id) (λ _, True).
Proof.
  unfold create_password_reset_token_and_send_email, is_password_reset_job_done, is_password_reset_job_completed,
    is_password_reset_job_completed_in_db, mark_password_reset_job_completed.
  pose proof soft_send_reset_token.
  assert (∀ k, soft (redis (EXISTS k)) (λ _, True)) as Hex by (intros; by eapply soft_true, soft_redis).
  assert (∀ i v nx ex, soft (redis (SET (password_reset_job_completed_key i) v nx ex)) (λ _, True)) as Hset.
  { intros. eapply soft_true, soft_redis. left. apply (key_reset_job s). }
  assert (∀ p, soft (first TUser p) (λ _, True)) as Hu by (intros; by eapply soft_true, (soft_load s TUser)).
  assert (∀ p, soft (first TJobCompletion p) (λ _, True)) as Hj by (intros; by eapply soft_true, (soft_load s TJobCompletion)).
  soft_auto.
Qed.

Lemma soft_verify_job i : soft (verify_presigned_upload_in_worker s i) (λ _, True).
Proof.
  unfold verify_presigned_upload_in_worker, suppress, delete_object.
  assert (∀ k ct sz f, soft (verify_stored_object_content s k ct sz f) (λ _, True)) as Hv by apply soft_content.
  eapply typed_bind; [apply (soft_load s TUploadedFile)|]. intros [f|] Hf; [|done].
  assert (soft (db (SetRow TUploadedFile (f_id f) (λ r, Some (set_verification_status status_verified r)))) (λ _, True))
    by (by apply (soft_change_row s TUploadedFile)).
  soft_auto.
Qed.

Lemma soft_handle_job j : soft (handle_job s py_str j) (λ _, True).
Proof.
  unfold handle_job. pose proof soft_reset_job. pose proof soft_verify_job. soft_auto.
Qed.

(** The outcome of a failed job of the program. *)
Lemma safe_job_failed j e : app_job j → safe (job_failed s py_str j e) (λ _, True).
Proof.
  intros Hj. destruct (aj_attempts j Hj) as (n & Hn & _).
  assert (safe (fail_job s j e) (λ _, True)) as Hfail.
  { eapply typed_mono; [| |apply safe_redis, typed_move_job_to_failed_queue]; try done; constructor. }
  assert (safe (retry s j e) (λ _, True)) as Hretry.
  { eapply typed_mono; [| |apply safe_redis, typed_schedule_retry]; try done; constructor. }
  assert (∀ a b, safe (observe_worker_job a b) (λ _, True)) as Hobs by (intros; apply typed_observe_job).
  assert (safe (_ ← fail_job s j e; _ ← observe_worker_job (str_of_json py_str (type j)) "failed"; Ret true)
    (λ _, True)) as Hf.
  { eapply typed_bind; [exact Hfail|]. intros ? _. eapply typed_bind; [apply Hobs|]. done. }
  assert (safe (n ← of_result (as_int (attempts j));
    if n <? worker_max_retries s then
      _ ← retry s j e; _ ← observe_worker_job (str_of_json py_str (type j)) "retry_scheduled"; Ret true
    else _ ← fail_job s j e; _ ← observe_worker_job (str_of_json py_str (type j)) "failed"; Ret true)
    (λ _, True)) as Hr.
  { rewrite Hn. eapply typed_bind with (P := λ _, True); [by apply typed_of_result|]. intros m _.
    destruct (m <? _); [|exact Hf]. eapply typed_bind; [exact Hretry|]. intros ? _.
    eapply typed_bind; [apply Hobs|]. done. }
  destruct e; first [exact Hr|exact Hf].
Qed.

Lemma safe_proc f : safe (set_proc f) (λ _, True).
Proof. by apply typed_call. Qed.

Lemma safe_run_job j : app_job j → safe (run_job s py_str j) (λ _, True).
Proof.
  intros Hj. unfold run_job. eapply typed_bind; [apply safe_proc|]. intros ? _.
  eapply typed_bind with (P := λ _, True).
  { apply typed_finally; [|apply safe_proc]. eapply typed_catch with (E := λ _, True).
    - eapply typed_bind; [apply soft_handle_job|]. done.
    - intros e _. by apply safe_job_failed. }
  intros [|] _; [done|]. eapply typed_bind; [apply safe_redis, typed_ack_job; constructor|]. intros ? _.
  eapply typed_bind; [apply typed_observe_job|]. done.
Qed.

Lemma safe_process_next_job : safe (process_next_job s py_str) (λ _, True).
Proof.
  unfold process_next_job. eapply typed_bind; [apply safe_redis, typed_dequeue_job; constructor|].
  intros [j|] Hj; [by apply safe_run_job|done].
Qed.

(** ** Maintenance *)

Lemma safe_cleanup {R} (t : table R) (p : Z → R → bool) :
  safe (now ← now_us; n ← db (BulkDelete t (p now)); _ ← db Commit; Ret n) (λ _, True).
Proof.
  eapply typed_bind; [apply safe_now|]. intros now _.
  eapply typed_bind; [by apply safe_db|]. intros n _. eapply typed_bind; [by apply safe_db|]. done.
Qed.

Lemma safe_cleanups : safe (cleanups s) (λ _, True).
Proof.
  apply typed_finally; [|by apply safe_db].
  eapply typed_bind; [apply (safe_cleanup TResetToken)|]. intros ? _.
  eapply typed_bind; [apply (safe_cleanup TIdempotencyRecord)|]. intros ? _.
  eapply typed_bind; [apply (safe_cleanup TWebhookEvent)|]. intros ? _.
  eapply typed_bind; [apply (safe_cleanup TAuditLog)|]. done.
Qed.

Lemma safe_scheduled : safe (maybe_run_scheduled_maintenance s None) (λ _, True).
Proof.
  unfold maybe_run_scheduled_maintenance. eapply typed_bind with (P := λ _, True); [by apply typed_call|].
  intros t _. eapply typed_bind with (P := λ _, True); [by apply typed_call|]. intros last _.
  destruct (_ <? _); [done|]. eapply typed_bind; [apply safe_proc|]. intros ? _.
  unfold run_scheduled_maintenance. destruct (negb _); [done|].
  eapply typed_bind; [apply safe_redis, typed_try_lock; constructor|]. intros b _. destruct (negb b).
  - eapply typed_bind; [apply typed_observe_maintenance|]. done.
  - eapply typed_bind; [apply safe_cleanups|]. intros ? _.
    eapply typed_bind; [apply typed_observe_maintenance|]. done.
Qed.

Lemma safe_queue_maintenance : safe (maybe_run_queue_maintenance s None) (λ _, True).
Proof.
  unfold maybe_run_queue_maintenance. eapply typed_bind with (P := λ _, True); [by apply typed_call|].
  intros t _. eapply typed_bind with (P := λ _, True); [by apply typed_call|]. intros last _.
  destruct (_ <? _); [done|]. eapply typed_bind; [apply safe_proc|]. intros ? _.
  eapply typed_bind; [apply safe_redis, typed_reclaim_stale; constructor|]. intros ? _.
  eapply typed_bind; [apply safe_redis, typed_promote_delayed_jobs; constructor|]. done.
Qed.

(** ** The loop *)

Lemma safe_worker_loop fuel : safe (worker_loop s py_str fuel) (λ _, True).
Proof.
  induction fuel as [|fuel IH]; [done|]. cbn [worker_loop].
  eapply typed_bind with (P := λ _, True); [by apply typed_call|]. intros [|] _; [done|].
  eapply typed_bind; [apply safe_scheduled|]. intros ? _.
  eapply typed_bind with (P := λ _, True); [by apply typed_call|]. intros [|] _; [done|].
  eapply typed_bind; [apply safe_queue_maintenance|]. intros ? _.
  eapply typed_bind; [apply safe_process_next_job|]. intros ? _. exact IH.
Qed.

Lemma safe_wait fuel grace : safe (wait_for_worker_job_completion fuel grace) (λ _, True).
Proof.
  assert (safe job_not_in_progress (λ _, True)) as Hidle.
  { eapply typed_bind with (P := λ _, True); [by apply typed_call|done]. }
  unfold wait_for_worker_job_completion. eapply typed_bind; [exact Hidle|]. intros [|] _; [done|].
  eapply typed_bind with (P := λ _, True); [by apply typed_call|]. intros start _.
  generalize (deadline_after start grace). induction fuel as [|fuel IH]; intros deadline; [done|]. cbn [wait_loop].
  eapply typed_bind with (P := λ _, True); [by apply typed_call|]. intros now _.
  destruct (before now deadline); [|done]. eapply typed_bind; [exact Hidle|]. intros [|] _; [done|].
  eapply typed_bind with (P := λ _, True); [by apply typed_call|]. intros ? _. apply IH.
Qed.

Lemma safe_run_worker fuel wait_fuel : safe (run_worker s py_str fuel wait_fuel) (λ _, True).
Proof.
  unfold run_worker. eapply typed_bind; [apply safe_worker_loop|]. intros [[]|] _; [|done].
  eapply typed_bind; [apply safe_wait|]. done.
Qed.

Lemma safe_failed_jobs fuel args : safe (failed_jobs_main s fuel args) (λ _, True).
Proof.
  destruct args as [limit|limit]; cbn [failed_jobs_main].
  - eapply typed_bind; [apply safe_redis, typed_list_failed_jobs; constructor|]. done.
  - eapply typed_bind; [apply safe_redis, typed_requeue_failed_jobs; constructor|]. done.
Qed.
End typed_worker.

(** The processes beside the API: the worker, and the command for failed jobs. *)
Inductive worker_command := RunWorker (fuel wait_fuel : nat) | FailedJobs (fuel : nat) (args : command).

Definition worker_main `{Crypto} (s : Settings) (py_str : json → string) (c : worker_command) : prog unit :=
  match c with
  | RunWorker fuel wait_fuel => _ ← run_worker s py_str fuel wait_fuel; Ret tt
  | FailedJobs fuel args => _ ← failed_jobs_main s fuel args; Ret tt
  end.

(** C9: the worker is well typed.  From well-typed data, with any faults of the
    services and for any number of rounds, every moment of the worker and of the
    command for failed jobs leaves the data well typed; and if an exception ends
    one of them it is an error of Redis or of the database: an entry of a queue
    that does not parse, lacks a field, has no number of attempts or an unreadable
    time is never met, and whatever a job raises is settled by a retry or the
    failed queue. *)
Theorem worker_well_typed `{ServicesSpec faults W} `{Pydantic} (s : Settings) (py_str : json → string)
    (c : worker_command) (w : W) :
  let p := worker_main s py_str c in
  keys_apart s = true → typed_world s (view w) → in_time (view (snd (run p w))) →
  Forall (λ w', typed_world s (view w')) (trace p w) ∧
  match fst (run p w) with Ok _ => True | Err e => service_error e = true end.
Proof.
  cbn zeta. intros Hap Hw Ht.
  refine (typed_sound s (worker_main s py_str c) (λ _, True) (λ e, service_error e = true) w Hap _ Hw Ht).
  destruct c; (eapply typed_bind; [|done]); [apply safe_run_worker|apply safe_failed_jobs].
Qed.

Definition queued_job : Job :=
  {| id := JStr "j"; type := JStr SEND_PASSWORD_RESET_EMAIL_JOB; payload := JObj [("user_id", JInt 2)];
     attempts := JInt 0; request_id := JNull; last_error := JNull; failed_at := JNull;
     processing_started_at := JNull |}.
Definition one_job : world :=
  with_redis {[worker_queue_name small_settings := REntry (RList [to_json queued_job]) None]} two_users.

#[local] Instance any_address : Pydantic := {| email_str := Some; datetime_text := isoformat |}.

Lemma one_job_typed : typed_world small_settings (view one_job).
Proof.
  split.
  - vm_compute. discriminate.
  - change (w_redis (view one_job)) with (w_redis one_job). cbn [one_job with_redis w_redis].
    intros k e t Hk Ht. apply lookup_singleton_Some in Hk as [<- <-].
    rewrite (key_of_fun small_settings _ t KJobs eq_refl Ht (key_ready small_settings)).
    apply Forall_singleton, app_job_text. split; cbn; [by eexists| |by exists 0|by left..].
    left. split; [done|by eexists].
  - apply (bool_decide_unpack _). vm_compute. exact Logic.I.
  - assert (all_writes (w_session (view one_job)) = []) as -> by (vm_compute; reflexivity). constructor.
  - assert (w_metrics (view one_job) = []) as -> by (vm_compute; reflexivity). constructor.
Qed.

(** A round of the worker: no mail server is configured, so the job fails and is
    scheduled again. *)
Lemma worker_well_typed_witness :
  let p := worker_main small_settings (λ _, "") (RunWorker 1 1) in
  let w := snd (run p one_job) in
  fst (run p one_job) = Ok tt ∧
  w_redis w !! worker_queue_name small_settings = None ∧
  is_Some (w_redis w !! worker_delayed_queue_name small_settings) ∧
  Forall (λ w', typed_world small_settings (view w')) (trace p one_job).
Proof.
  cbn zeta. split_and!; [vm_compute; reflexivity..| |].
  - apply (bool_decide_unpack _). vm_compute. exact Logic.I.
  - refine (proj1 (worker_well_typed (faults:=false) (W:=world) small_settings (λ _, "") (RunWorker 1 1) one_job _ _ _)).
    + vm_compute. reflexivity.
    + exact one_job_typed.
    + vm_compute. reflexivity.
Defined.
