(* ===== verification/WorkerSafety.v ===== *)
(** * What the worker guarantees

    What becomes of a job, by the outcome of its handler; how long a job waits
    for its next attempt; that the maintenance runs at most once per interval;
    and that a worker told to stop takes no further job. *)

From Stdlib Require Import ZArith QArith Ascii String Lia.
From stdpp Require Import base tactics option list gmap strings sorting fin_maps.
From S2P Require Import Prelude PyText Json Errors Config DateTime Models Services Programs DbFacts.
From S2P Require Import RedisFacts Tickets Reference JobQueue Tenants Email PasswordReset Idempotency Webhooks.
From S2P Require Import Metrics Shutdown Middleware Storage Worker.
Local Open Scope string_scope.
Local Open Scope list_scope.
Local Open Scope Z_scope.

(** ** What a job becomes *)

(** The entry of the failed queue, and the one of the delayed queue. *)
Definition failed_record (job : Job) (e : exn) (t : Z) : Job :=
  {| id := id job; type := type job; payload := payload job; attempts := attempts job;
     request_id := request_id job; last_error := JStr (sprefix MAX_JOB_ERROR_LENGTH (exn_str e));
     failed_at := JStr (isoformat t); processing_started_at := processing_started_at job |}.

Definition retried_record (job : Job) (e : exn) (n : Z) : Job :=
  {| id := id job; type := type job; payload := payload job; attempts := JInt n;
     request_id := request_id job; last_error := JStr (sprefix MAX_JOB_ERROR_LENGTH (exn_str e));
     failed_at := failed_at job; processing_started_at := JNull |}.

Definition is_unknown_job (e : exn) : bool :=
  match e with UnknownJobTypeError _ => true | _ => false end.

Lemma wp_leaves_key `{Crypto} faults K {A} (p : prog A) w0 w :
  keeps (leaves_key K) p → w_redis w !! K = w_redis w0 !! K →
  wp faults p (λ _ w', w_redis w' !! K = w_redis w0 !! K) w.
Proof.
  revert w. induction p as [| |B c k IH]; intros w; cbn; [done..|].
  intros [Hc Hk] Hw r w' Hs. apply IH; [done|]. rewrite <- Hw. by eapply leaves_key_redis.
Qed.

Section outcomes.
Context `{Crypto} (s : Settings) (py_str : json → string).
Local Abbreviation pq := (worker_processing_queue_name s).
Local Abbreviation dq := (worker_delayed_queue_name s).
Local Abbreviation fq := (worker_failed_queue_name s).

(** The processing and the failed list and the delayed jobs. *)
Definition queues (l f : list string) (z : gmap string Z) (w : world) : Prop :=
  rlist (w_redis w) pq = Some l ∧ rlist (w_redis w) fq = Some f ∧ rzset (w_redis w) dq = Some z.

Lemma queues_same l f z w w' : w_redis w' = w_redis w → queues l f z w → queues l f z w'.
Proof. unfold queues. by intros ->. Qed.

(** What the queue operations of the worker leave alone. *)
Definition beside (w w' : world) : Prop :=
  p_job_in_progress (w_proc w') = p_job_in_progress (w_proc w) ∧ w_clock w <= w_clock w'.

Lemma advance_beside w w1 : advance w w1 → beside w w1.
Proof. intros (t & m & b & Ht & _ & _ & ->). by split. Qed.

Context (Hnd : NoDup [pq; dq; fq]).

Lemma queue_names : pq ≠ dq ∧ pq ≠ fq ∧ dq ≠ fq.
Proof. rewrite !NoDup_cons in Hnd. set_solver. Qed.

Lemma wp_remove job l f z Q w :
  queues l f z w →
  (∀ n w', queues (remove_first (to_json job) l) f z w' → beside w w' → Q (Ok n) w') →
  wp false (redis (LREM1 pq (to_json job))) Q w.
Proof.
  intros (Hl & Hf & Hz) HQ. destruct queue_names as (Hpd & Hpf & Hdf).
  apply wp_redis; [done|]. intros w1 Hadv. rewrite (exec_LREM1 _ _ _ l) by done.
  case_decide as Hin; apply HQ; try exact (advance_beside _ _ Hadv).
  - split_and!; cbn [w_redis with_redis]; [apply rlist_put_list|by rewrite rlist_put_list_ne|by rewrite rzset_put_list_ne].
  - rewrite remove_first_not_in by done. by split_and!.
Qed.

Lemma wp_now_beside l f z Q w :
  queues l f z w →
  (∀ t w', w_clock w <= t → queues l f z w' → beside w w' → Q (Ok t) w') → wp false now_us Q w.
Proof.
  intros Hq HQ. apply wp_now. intros w1 Hadv. apply HQ; [by apply advance_clock| |by apply advance_beside].
  eapply queues_same; [by apply advance_redis|done].
Qed.

Lemma wp_ack job l f z Q w :
  queues l f z w →
  (∀ w', queues (remove_first (to_json job) l) f z w' → beside w w' → Q (Ok tt) w') →
  wp false (ack s job) Q w.
Proof.
  intros Hq HQ. unfold ack, ack_job. apply wp_bind. eapply wp_remove; [done|].
  intros n w' Hq' Hb. by apply HQ.
Qed.

Lemma wp_fail_job job e l f z Q w :
  queues l f z w →
  (∀ t r w', w_clock w <= t → beside w w' →
     queues (remove_first (to_json job) l) (to_json (failed_record job e t) :: f) z w' → Q (Ok r) w') →
  wp false (fail_job s job e) Q w.
Proof.
  intros Hq HQ. destruct queue_names as (Hpd & Hpf & Hdf).
  unfold fail_job, move_job_to_failed_queue, with_failed_at, or_now.
  apply wp_bind, wp_bind, wp_bind. eapply wp_now_beside; [exact Hq|].
  intros t w1 Ht Hq1 [Hb1 Hc1]. cbn [wp mbind prog_bind bind mret prog_ret].
  unfold with_error, truncate_error. cbn [id type payload attempts request_id failed_at processing_started_at].
  apply wp_ok_bind, wp_bind. eapply wp_remove; [done|]. intros n w2 (Hl2 & Hf2 & Hz2) [Hb2 Hc2].
  apply wp_bind, wp_redis; [done|]. intros w3 Hadv3. rewrite (exec_LPUSH _ _ _ f) by done.
  pose proof (advance_beside _ _ Hadv3) as [Hb3 Hc3]. cbn [wp].
  apply (HQ t); [done|split; cbn; [congruence|lia]|].
  split_and!; cbn [w_redis with_redis]; [rewrite rlist_put_list_ne; congruence|apply rlist_put_list|rewrite rzset_put_list_ne; congruence].
Qed.

Lemma wp_retry job e n l f z Q w :
  attempts job = JInt n →
  queues l f z w →
  (∀ t r w', w_clock w <= t → beside w w' →
     queues (remove_first (to_json job) l) f
       (<[to_json (retried_record job e (n + 1)) :=
            t + calculate_retry_delay_seconds s (n + 1) * second]> z) w' → Q (Ok r) w') →
  wp false (retry s job e) Q w.
Proof.
  intros Hn Hq HQ. destruct queue_names as (Hpd & Hpf & Hdf).
  unfold retry, schedule_retry, with_next_attempt, with_error. rewrite Hn. cbn [plus_one truncate_error].
  apply wp_ok_bind, wp_ok_bind. cbn [id type payload attempts request_id last_error failed_at].
  apply wp_bind. eapply wp_now_beside; [exact Hq|]. intros t w1 Ht Hq1 [Hb1 Hc1].
  apply wp_ok_bind, wp_bind. eapply wp_remove; [done|]. intros m w2 (Hl2 & Hf2 & Hz2) [Hb2 Hc2].
  apply wp_bind, wp_redis; [done|]. intros w3 Hadv3. rewrite (exec_ZADD _ _ _ z) by done.
  pose proof (advance_beside _ _ Hadv3) as [Hb3 Hc3]. cbn [wp].
  apply (HQ t); [done|split; cbn; [congruence|lia]|].
  split_and!; cbn [w_redis with_redis]; [rewrite rlist_put_zset_ne; congruence|rewrite rlist_put_zset_ne; congruence|apply rzset_put_zset].
Qed.

(** The job fails for good. *)
Definition gives_up (n : Z) (e : exn) : bool := is_unknown_job e || (worker_max_retries s <=? n).

Definition job_status (n : Z) (r : result exn unit) : string :=
  match r with
  | Ok _ => "completed"
  | Err e => if gives_up n e then "failed" else "retry_scheduled"
  end.

(** The queues after a job whose handler gave [r], at a time from [t0] on. *)
Definition queues_after (job : Job) (n : Z) (l f : list string) (z : gmap string Z)
    (r : result exn unit) (t0 : Z) (w' : world) : Prop :=
  let l' := remove_first (to_json job) l in
  match r with
  | Ok _ => queues l' f z w'
  | Err e =>
      ∃ t, t0 <= t ∧
        if gives_up n e then queues l' (to_json (failed_record job e t) :: f) z w'
        else queues l' f
               (<[to_json (retried_record job e (n + 1)) :=
                    t + calculate_retry_delay_seconds s (n + 1) * second]> z) w'
  end.

Definition counted_as (job : Job) (status : string) (w' : world) : Prop :=
  ∃ m, w_metrics w' = Sample "worker_jobs_total" [str_of_json py_str (type job); status] :: m.

Lemma wp_observe_job job status l f z Q w :
  queues l f z w →
  (∀ w', beside w w' → queues l f z w' → counted_as job status w' → Q (Ok tt) w') →
  wp false (observe_worker_job (str_of_json py_str (type job)) status) Q w.
Proof.
  intros Hq HQ. apply wp_call. intros r w' (w1 & Hadv & [[-> ->]|[? _]]); [|done].
  apply HQ; [apply (advance_beside _ _ Hadv)|by eapply queues_same; [cbn; apply advance_redis|]|by eexists].
Qed.

Lemma beside_trans w1 w2 w3 : beside w1 w2 → beside w2 w3 → beside w1 w3.
Proof. intros [? ?] [? ?]. split; [congruence|lia]. Qed.

Lemma wp_job_failed job n e l f z w :
  attempts job = JInt n → queues l f z w →
  wp false (job_failed s py_str job e)
    (λ res w', res = Ok true ∧ counted_as job (job_status n (Err e)) w' ∧
               queues_after job n l f z (Err e) (w_clock w) w') w.
Proof.
  intros Hn Hq.
  assert (gives_up n e = true → wp false
    (_ ← fail_job s job e; _ ← observe_worker_job (str_of_json py_str (type job)) "failed"; Ret true)
    (λ res w', res = Ok true ∧ counted_as job (job_status n (Err e)) w' ∧
               queues_after job n l f z (Err e) (w_clock w) w') w) as Hfail.
  { intros Hg. apply wp_bind. eapply wp_fail_job; [done|]. intros t r w1 Ht Hb1 Hq1.
    apply wp_bind. eapply wp_observe_job; [done|]. intros w2 Hb2 Hq2 Hc2. cbn [wp]. split; [done|].
    unfold job_status, queues_after. rewrite Hg. split; [done|]. by exists t. }
  assert (is_unknown_job e = false → wp false
    (m ← of_result (as_int (attempts job));
     if m <? worker_max_retries s then
       _ ← retry s job e;
       _ ← observe_worker_job (str_of_json py_str (type job)) "retry_scheduled"; Ret true
     else
       _ ← fail_job s job e;
       _ ← observe_worker_job (str_of_json py_str (type job)) "failed"; Ret true)
    (λ res w', res = Ok true ∧ counted_as job (job_status n (Err e)) w' ∧
               queues_after job n l f z (Err e) (w_clock w) w') w) as Hother.
  { intros Hu. rewrite Hn. cbn [as_int]. apply wp_ok_bind.
    assert (gives_up n e = (worker_max_retries s <=? n)) as Hg by (unfold gives_up; by rewrite Hu).
    destruct (Z.ltb_spec n (worker_max_retries s)) as [Hlt|Hge].
    2:{ apply Hfail. rewrite Hg. by apply Z.leb_le. }
    rewrite (proj2 (Z.leb_gt _ _) Hlt) in Hg.
    apply wp_bind. eapply wp_retry; [done..|]. intros t r w1 Ht Hb1 Hq1.
    apply wp_bind. eapply wp_observe_job; [done|]. intros w2 Hb2 Hq2 Hc2. cbn [wp]. split; [done|].
    unfold job_status, queues_after. rewrite Hg. split; [done|]. by exists t. }
  unfold job_failed. destruct e; try (apply Hother; done). by apply Hfail.
Qed.

(** The part of [run_job] after the handler. *)
Definition after_handler (job : Job) (r : result exn unit) : prog bool :=
  settled ← finally (match r with Ok _ => Ret false | Err e => job_failed s py_str job e end)
              mark_worker_job_finished;
  if (settled : bool) then Ret true
  else
    _ ← ack s job;
    _ ← observe_worker_job (str_of_json py_str (type job)) "completed";
    Ret true.

Definition settled (job : Job) (n : Z) (l f : list string) (z : gmap string Z)
    (r : result exn unit) (t0 : Z) (res : result exn bool) (w' : world) : Prop :=
  res = Ok true ∧ p_job_in_progress (w_proc w') = false ∧ counted_as job (job_status n r) w' ∧
  queues_after job n l f z r t0 w'.

Lemma wp_mark_finished l f z Q w :
  queues l f z w →
  (∀ w', queues l f z w' → p_job_in_progress (w_proc w') = false → w_metrics w' = w_metrics w →
     w_clock w <= w_clock w' → Q (Ok tt) w') →
  wp false mark_worker_job_finished Q w.
Proof.
  intros Hq HQ. apply wp_on_proc. intros w1 Hadv. pose proof (advance_beside _ _ Hadv) as [_ Hc].
  apply HQ; [|reflexivity| |exact Hc].
  - by apply (queues_same l f z w); [exact (advance_redis _ _ Hadv)|].
  - by destruct Hadv as (t & m & b & _ & _ & _ & ->).
Qed.

Lemma queues_after_same job n l f z r t0 w w' :
  w_redis w' = w_redis w → queues_after job n l f z r t0 w → queues_after job n l f z r t0 w'.
Proof.
  intros E. unfold queues_after. destruct r as [|e]; [by apply queues_same|].
  intros (t & Ht & Hq). exists t. split; [done|]. destruct (gives_up n e); by eapply queues_same.
Qed.

Lemma wp_after_handler job n r l f z w :
  attempts job = JInt n → queues l f z w →
  wp false (after_handler job r) (settled job n l f z r (w_clock w)) w.
Proof.
  intros Hn Hq. unfold after_handler. apply wp_bind, wp_finally. destruct r as [[]|e].
  - cbn [wp]. eapply wp_mark_finished; [done|]. intros w1 Hq1 Hp1 _ _. cbn [wp].
    apply wp_bind. eapply wp_ack; [done|]. intros w2 Hq2 [Hp2 _].
    apply wp_bind. eapply wp_observe_job; [done|]. intros w3 [Hp3 _] Hq3 Hc3. cbn [wp].
    split_and!; [done|congruence|done|exact Hq3].
  - eapply wp_mono; [|by apply (wp_job_failed job n e l f z)]. intros res w1 (-> & [m Hm] & Hq1).
    apply wp_on_proc. intros w2 Hadv. cbn [wp]. split_and!; [done..| |].
    + exists m. cbn. by destruct Hadv as (t & m' & b & _ & _ & _ & ->).
    + eapply queues_after_same, Hq1. exact (advance_redis _ _ Hadv).
Qed.
End outcomes.

(** Running a job is running its handler and then what follows. *)
Lemma run_run_job `{Services W} `{Crypto} s py_str job w :
  run (run_job s py_str job) w =
    let w1 := snd (run mark_worker_job_started w) in
    match fst (run mark_worker_job_started w) with
    | Ok _ => let '(r, w2) := run (handle_job s py_str job) w1 in run (after_handler s py_str job r) w2
    | Err e => (Err e, w1)
    end.
Proof.
  unfold run_job, after_handler, mbind, prog_bind. rewrite run_bind.
  destruct (run mark_worker_job_started w) as [[[]|e] w1]; [|done]. cbn [fst snd].
  rewrite run_bind, run_finally, run_catch, run_bind.
  destruct (run (handle_job s py_str job) w1) as [[[]|e] w2]; rewrite run_bind, run_finally; [done|].
  by destruct (run (job_failed s py_str job e) w2) as [[|] w3].
Qed.

(** ** Handlers leave the queues alone *)

Section handlers.
Context `{Crypto} (s : Settings) (py_str : json → string) (K : string).
Local Abbreviation leaves := (keeps (leaves_key K)).

Lemma first_leaves {R} (t : table R) p : leaves (first t p).
Proof. apply keeps_bind; [by apply keeps_call|done]. Qed.

Lemma scan_leaves body filename : leaves (run_malware_scan s body filename).
Proof. unfold run_malware_scan, http_scan. solve_keeps. Qed.

Lemma verify_leaves_key k t n f : leaves (verify_stored_object_content s k t n f).
Proof.
  unfold verify_stored_object_content, get_object_metadata, download_object_body, except_client_error.
  pose proof scan_leaves. by solve_keeps.
Qed.

Lemma upload_job_leaves n : leaves (verify_presigned_upload_in_worker s n).
Proof.
  unfold verify_presigned_upload_in_worker, suppress. pose proof @first_leaves.
  pose proof verify_leaves_key. by solve_keeps.
Qed.

Lemma reset_job_leaves user_id job_id :
  K ≠ password_reset_job_completed_key job_id →
  leaves (create_password_reset_token_and_send_email s user_id (Some job_id)).
Proof.
  intros HK. assert (K ∉ [password_reset_job_completed_key job_id]) as HK' by by intros ?%list_elem_of_singleton.
  assert (leaves (is_password_reset_job_completed job_id)) as Hc
    by (apply keeps_bind; [by apply keeps_call|done]).
  assert (leaves (mark_password_reset_job_completed s job_id)) as Hm
    by (apply keeps_bind; [by apply keeps_call|done]).
  unfold create_password_reset_token_and_send_email, is_password_reset_job_done,
    is_password_reset_job_completed_in_db, send_reset_token, generate_password_reset_token,
    send_password_reset_email, send_email, commit_reset_job.
  pose proof @first_leaves. by solve_keeps.
Qed.

Lemma handle_job_leaves job :
  (∀ i, id job = JStr i → K ≠ password_reset_job_completed_key i) → leaves (handle_job s py_str job).
Proof.
  intros HK. unfold handle_job, in_session. case_match; [|case_match; [|done]].
  - apply keeps_bind; [apply keeps_of_result|intros user_id].
    apply keeps_finally; [|by apply keeps_call]. unfold job_id_text.
    destruct (id job) as [| | | |i| |]; try done. cbn [of_result]. by apply reset_job_leaves, HK.
  - apply keeps_bind; [apply keeps_of_result|intros n].
    apply keeps_finally; [apply upload_job_leaves|by apply keeps_call].
Qed.
End handlers.

(** C34: what becomes of a job.  When no service fails, the worker runs the handler
    of a job once, with its flag set, and then the entry of the job leaves the
    processing list; a job whose handler returned is in no queue; one whose handler
    raised is on the failed list with the error and the time when its type is
    unknown or it has used up its attempts, and otherwise waits with one attempt
    more until the delay for that attempt has passed.  Nothing else in the three
    queues changes, the job is counted with its outcome and the flag is cleared. *)
Theorem job_outcome `{ServicesSpec false W} (s : Settings) (py_str : json → string) (job : Job)
    (n : Z) (l f : list string) (z : gmap string Z) (w : W) :
  let p := run_job s py_str job in
  NoDup [worker_processing_queue_name s; worker_delayed_queue_name s; worker_failed_queue_name s] →
  (∀ k i, k ∈ [worker_processing_queue_name s; worker_delayed_queue_name s; worker_failed_queue_name s] →
     id job = JStr i → k ≠ password_reset_job_completed_key i) →
  attempts job = JInt n →
  queues s l f z (view w) →
  ∃ w1, w_db (view w1) = w_db (view w) ∧ p_job_in_progress (w_proc (view w1)) = true ∧
    w_clock (view w) <= w_clock (view w1) ∧
    ∃ t0, w_clock (view w1) <= t0 ∧
      settled s py_str job n l f z (fst (run (handle_job s py_str job) w1)) t0
        (fst (run p w)) (view (snd (run p w))).
Proof.
  intros p Hnd Hkeys Hn Hq. unfold p. rewrite run_run_job.
  assert (wp false mark_worker_job_started (λ r w', r = Ok tt ∧ w_redis w' = w_redis (view w) ∧
    w_db w' = w_db (view w) ∧ p_job_in_progress (w_proc w') = true ∧ w_clock (view w) <= w_clock w') (view w)) as Hmark.
  { apply wp_on_proc. intros w1 Hadv. pose proof (advance_clock _ _ Hadv).
    by destruct Hadv as (t & m & b & _ & _ & _ & ->). }
  destruct (wp_run _ _ w Hmark) as (Hok & Hr & Hd & Hp & Hc).
  destruct (run mark_worker_job_started w) as [r w1]. cbn [fst snd] in *. subst r.
  exists w1. split_and!; [done..|].
  assert (∀ k, k ∈ [worker_processing_queue_name s; worker_delayed_queue_name s; worker_failed_queue_name s] →
    w_redis (view (snd (run (handle_job s py_str job) w1))) !! k = w_redis (view w) !! k) as Hsame.
  { intros k Hk. rewrite <- Hr. apply (wp_run (faults:=false) _ (λ _ w', w_redis w' !! k = w_redis (view w1) !! k)).
    apply wp_leaves_key; [|done]. apply handle_job_leaves. intros i. by apply Hkeys. }
  pose proof (wp_run _ _ w1 (wp_clock false (handle_job s py_str job) (view w1))) as Hclock.
  destruct (run (handle_job s py_str job) w1) as [r w2]. cbn [fst snd] in *.
  exists (w_clock (view w2)). split; [done|].
  apply (wp_run (faults:=false) _ (settled s py_str job n l f z r (w_clock (view w2)))).
  apply wp_after_handler; [done..|]. destruct Hq as (Hql & Hqf & Hqz). unfold queues, rlist, rzset in *.
  rewrite !Hsame by (rewrite !elem_of_cons; auto). done.
Qed.

(** A job without the file id it needs: a [KeyError], and the first attempt. *)
Definition poor_job : Job :=
  {| id := JStr "j-1"; type := JStr VERIFY_PRESIGNED_UPLOAD_JOB; payload := JObj []; attempts := JInt 0;
     request_id := JNull; last_error := JNull; failed_at := JNull; processing_started_at := JNull |}.

Definition poor_world : world :=
  with_redis (put_list "app_jobs_processing" [to_json poor_job] None ∅) (world_at 1700000000000000).

Lemma job_outcome_witness :
  let p := run_job production_example (λ _, "?") poor_job in
  (∃ w1 t0, p_job_in_progress (w_proc (view w1)) = true ∧
     settled production_example (λ _, "?") poor_job 0 [to_json poor_job] [] ∅
       (fst (run (handle_job production_example (λ _, "?") poor_job) w1)) t0
       (fst (run p poor_world)) (view (snd (run p poor_world)))) ∧
  w_metrics (snd (run p poor_world)) =
    [Sample "worker_jobs_total" [VERIFY_PRESIGNED_UPLOAD_JOB; "retry_scheduled"]].
Proof.
  split; [|vm_compute; reflexivity].
  assert (NoDup [worker_processing_queue_name production_example;
    worker_delayed_queue_name production_example; worker_failed_queue_name production_example]) as Hnd
    by (apply (bool_decide_unpack _); vm_compute; exact Logic.I).
  assert (queues production_example [to_json poor_job] [] ∅ (view poor_world)) as Hq
    by (split_and!; vm_compute; reflexivity).
  destruct (job_outcome (W:=world) production_example (λ _, "?") poor_job 0 [to_json poor_job] [] ∅
    poor_world Hnd) with (2 := eq_refl (JInt 0)) as (w1 & _ & Hp & _ & t0 & _ & Hs); [|exact Hq|].
  - intros k i Hk [= <-]. rewrite !elem_of_cons in Hk.
    destruct Hk as [->|[->|[->|Hk]]]; [discriminate..|by apply elem_of_nil in Hk].
  - exists w1, t0. split; [exact Hp|exact Hs].
Defined.

(** ** The delay of a retry *)

(** The delay before an attempt.  With the settings the program accepts, the
    delay before attempt [n] starts at the base for the first, doubles with each
    attempt until it reaches the maximum, never decreases and never leaves the
    bounds. *)
Theorem retry_delay_bounds (s : Settings) (n : Z) :
  0 < worker_retry_backoff_base_seconds s →
  worker_retry_backoff_base_seconds s <= worker_retry_backoff_max_seconds s →
  let delay := calculate_retry_delay_seconds s in
  worker_retry_backoff_base_seconds s <= delay n <= worker_retry_backoff_max_seconds s ∧
  delay 1 = worker_retry_backoff_base_seconds s ∧
  delay n <= delay (n + 1) ∧
  (1 <= n → delay (n + 1) = Z.min (2 * delay n) (worker_retry_backoff_max_seconds s)).
Proof.
  intros Hbase Hmax delay. unfold delay, calculate_retry_delay_seconds.
  assert (∀ k, 0 <= k → 1 <= 2 ^ k) as Hpow by (intros k Hk; pose proof (Z.pow_pos_nonneg 2 k); lia).
  set (b := worker_retry_backoff_base_seconds s) in *. set (m := worker_retry_backoff_max_seconds s) in *.
  split_and!.
  - destruct (Z.leb_spec n 0); [lia|]. specialize (Hpow (n - 1)). nia.
  - destruct (Z.leb_spec n 0); [lia|]. specialize (Hpow (n - 1)). nia.
  - cbn. lia.
  - destruct (Z.leb_spec n 0), (Z.leb_spec (n + 1) 0); try lia.
    + specialize (Hpow (n + 1 - 1)). nia.
    + replace (n + 1 - 1) with (Z.succ (n - 1)) by lia. rewrite Z.pow_succ_r by lia.
      specialize (Hpow (n - 1)). nia.
  - intros Hn. destruct (Z.leb_spec n 0), (Z.leb_spec (n + 1) 0); try lia.
    replace (n + 1 - 1) with (Z.succ (n - 1)) by lia. rewrite Z.pow_succ_r by lia.
    specialize (Hpow (n - 1)). nia.
Qed.

Lemma retry_delay_bounds_witness :
  let delay := calculate_retry_delay_seconds production_example in
  5 <= delay 4 <= 300 ∧ map delay [1; 2; 3; 4; 7; 8]%Z = [5; 10; 20; 40; 300; 300].
Proof.
  split; [|vm_compute; reflexivity].
  refine (proj1 (retry_delay_bounds production_example 4 _ _)).
  - reflexivity.
  - vm_compute. discriminate.
Defined.

(** ** One maintenance per interval *)

Section maintenance.
Context `{Crypto} (faults : bool) (s : Settings).
Local Abbreviation K := (worker_maintenance_lock_key s).
Local Abbreviation interval := (worker_maintenance_interval_seconds s * second).

(** A round that tells whether the maintenance was done. *)
Definition done_once (r : result exn bool) (t : Z) (tk : option nat) : Prop :=
  r = Ok true → tk = Some 1%nat.

Lemma cleanups_leave : keeps (leaves_key K) (cleanups s).
Proof.
  unfold cleanups, in_session, cleanup_expired_password_reset_tokens, cleanup_expired_idempotency_records,
    cleanup_old_webhook_events, cleanup_old_audit_logs.
  apply keeps_finally; [solve_keeps|by apply keeps_call].
Qed.

Lemma observed_leave status : keeps (leaves_key K) (observe_worker_maintenance status).
Proof. by apply keeps_call. Qed.

Context (E : Z) (Hpos : 0 < worker_maintenance_interval_seconds s).

Lemma rg_maintenance T :
  E <= T + interval →
  rg faults E (held_once K E) T None (run_scheduled_maintenance s) done_once.
Proof.
  intros HT. unfold run_scheduled_maintenance. destruct (negb (worker_maintenance_enabled s)).
  { cbn. by intros [=]. }
  apply rg_bind. eapply rg_mono; [apply Z.le_refl| |
    by apply (rg_set faults K E true (worker_maintenance_interval_seconds s) T)].
  intros [b|e] t t' tk Hwin Ht'; [|by intros [=]]. destruct b; cbn [negb].
  - rewrite (Hwin eq_refl eq_refl). apply rg_bind.
    apply (rg_keeps _ _ _ K (held_once_frame K E)); [apply cleanups_leave|].
    intros [[]|e] t2 Ht2; [|by intros [=]]. apply rg_bind.
    apply (rg_keeps _ _ _ K (held_once_frame K E)); [apply observed_leave|].
    intros [[]|e] t3 Ht3; by cbn.
  - apply rg_bind, (rg_keeps _ _ _ K (held_once_frame K E)); [apply observed_leave|].
    intros [[]|e] t3 Ht3; by intros [=].
Qed.
End maintenance.

(** What runs at the same time: rounds of maintenance, and code that does not use
    the lock. *)
Inductive maintainer `{Crypto} (s : Settings) : prog bool → Prop :=
| maintainer_round : maintainer s (run_scheduled_maintenance s)
| maintainer_other (q : prog unit) :
    keeps (leaves_key (worker_maintenance_lock_key s)) q → maintainer s (bind q (λ _, Ret false)).

(** C35: the maintenance is done at most once in an interval.  Any number of workers
    try it at the same time as other code, any command may fail and any process may
    stop: in the interval that starts when the first of them starts, at most one
    round completes. *)
Theorem maintenance_once `{Crypto} (faults crashes : bool) (s : Settings) (w0 w : world)
    (ps : list (prog bool)) (i j : nat) :
  0 < worker_maintenance_interval_seconds s →
  star (pool_step faults crashes (maintainer s)) ([], w0) (ps, w) →
  w_clock w < w_clock w0 + worker_maintenance_interval_seconds s * second →
  ps !! i = Some (Ret true) → ps !! j = Some (Ret true) → i = j.
Proof.
  intros Hpos Hstar Hclock Hi Hj. set (E := w_clock w0 + worker_maintenance_interval_seconds s * second) in *.
  set (K := worker_maintenance_lock_key s).
  destruct (pool_tickets faults E (held_once K E) done_once) with (crashes := crashes)
    (may_start := maintainer s) (w0 := w0) (ps := ps) (w := w) as (tk & Hfair & Huniq & _);
    [done|done|by left| |done|done|].
  - intros p Hp T HT. destruct Hp as [|q Hq]; [apply rg_maintenance; [done|lia]|].
    apply rg_bind, (rg_keeps _ _ _ K (held_once_frame K E)); [done|]. intros [[]|e] t _; by intros [=].
  - eapply Huniq; [by eapply (Hfair _ (Ok true))|by eapply (Hfair _ (Ok true))].
Qed.

(** Two workers, command by command in turn. *)
Definition two_rounds : list (prog bool) * world :=
  schedule (concat (replicate 20 [0; 1]%nat))
    [run_scheduled_maintenance production_example; run_scheduled_maintenance production_example]
    (world_at 1000000).

Lemma maintenance_once_witness :
  fst two_rounds !! 0%nat = Some (Ret true) ∧ fst two_rounds !! 1%nat ≠ Some (Ret true).
Proof.
  assert (fst two_rounds !! 0%nat = Some (Ret true)) as H0 by (vm_compute; reflexivity).
  split; [exact H0|]. intros H1. enough (0%nat = 1%nat) as E by discriminate E.
  eapply (maintenance_once false false production_example (world_at 1000000) (snd two_rounds)
    (fst two_rounds) 0 1).
  - vm_compute. reflexivity.
  - eapply star_trans; [apply (star_start _ _ [run_scheduled_maintenance production_example;
      run_scheduled_maintenance production_example])|].
    + repeat constructor.
    + rewrite <- surjective_pairing. apply star_schedule.
  - vm_compute. reflexivity.
  - exact H0.
  - exact H1.
Defined.

(** ** The end of the worker *)

Section loop.
Context `{Crypto} (faults : bool) (s : Settings) (py_str : json → string).

Lemma wp_any {A} (p : prog A) w : wp faults p (λ _ _, True) w.
Proof. revert w. induction p; cbn; auto. Qed.

(** Whatever a step does, the loop only ends normally with the flag set. *)
Definition ended_on_request (r : result exn (option unit)) (w : world) : Prop :=
  r = Ok (Some tt) → p_shutdown_requested (w_proc w) = true.

Lemma wp_then {A} (p : prog A) (f : A → prog (option unit)) w :
  (∀ a w', wp faults (f a) ended_on_request w') → wp faults (bind p f) ended_on_request w.
Proof.
  intros Hf. apply wp_bind. eapply wp_mono; [|apply wp_any]. intros [a|e] w' _; [apply Hf|].
  by intros [=].
Qed.

Lemma wp_stop_or (q : prog (option unit)) w :
  (∀ w', wp faults q ended_on_request w') →
  wp faults (stop ← worker_shutdown_requested; if (stop : bool) then Ret (Some tt) else q)
    ended_on_request w.
Proof.
  intros Hq. apply wp_bind, wp_on_proc. intros w1 Hadv.
  destruct (p_shutdown_requested (w_proc w1)) eqn:E; [|apply Hq]. by intros _.
Qed.

Lemma wp_worker_loop fuel w : wp faults (worker_loop s py_str fuel) ended_on_request w.
Proof.
  revert w. induction fuel as [|fuel IH]; intros w; cbn [worker_loop]; [by intros [=]|].
  apply wp_stop_or. intros w1. apply wp_then. intros _ w2. apply wp_stop_or. intros w3.
  apply wp_then. intros _ w4. apply wp_then. intros _ w5. apply IH.
Qed.
End loop.


Definition asked_to_stop : world := with_proc (set_shutdown true no_proc) (world_at 1000).

