(* ===== verification/Retention.v ===== *)
(** * What the maintenance deletes

    Without failures and with the lock free, a round of maintenance deletes
    exactly the rows that are past their time: the reset tokens and the stored
    responses that have expired, the webhook events and the audit logs older than
    their retention.  Every other row of every table stays. *)

From Stdlib Require Import ZArith Ascii String Lia.
From stdpp Require Import base tactics option list gmap strings sorting fin_maps.
From S2P Require Import Prelude PyText Json Errors Config Models Services Programs DbFacts.
From S2P Require Import RedisFacts Reference JobQueue Tenants PasswordReset Idempotency Webhooks.
From S2P Require Import Metrics Shutdown Middleware Worker.
Local Open Scope string_scope.
Local Open Scope list_scope.
Local Open Scope Z_scope.

(** The tables no other table refers to. *)
Definition is_leaf {R} (t : table R) : bool :=
  match t with TTenant | TUser => false | _ => true end.

(** The rows that are not dead stay. *)
Definition sweep {R} (t : table R) (dead : R → bool) (d : tables) : tables :=
  set_table t (filter (λ '(_, r), dead r = false) (get_table t d)) d.

Lemma set_get_table {R} (t : table R) d : set_table t (get_table t d) d = d.
Proof. by destruct d, t. Qed.

Lemma set_set_table {R} (t : table R) m m' d : set_table t m (set_table t m' d) = set_table t m d.
Proof. by destruct t. Qed.

Lemma delete_rows_leaf {R} (t : table R) ks d :
  is_leaf t = true →
  fold_right (delete_row t) d ks = set_table t (fold_right delete (get_table t d) ks) d.
Proof.
  intros Ht. induction ks as [|k ks IH]; cbn; [by rewrite set_get_table|].
  rewrite IH. set (m := fold_right delete (get_table t d) ks).
  transitivity (set_table t (delete k (get_table t (set_table t m d))) (set_table t m d)).
  - by destruct t.
  - by rewrite get_set_table, set_set_table.
Qed.

Lemma lookup_delete_all {R} (m : gmap Z R) ks k :
  fold_right delete m ks !! k = if decide (k ∈ ks) then None else m !! k.
Proof.
  induction ks as [|k' ks IH]; cbn.
  - rewrite decide_False; [done|apply not_elem_of_nil].
  - destruct (decide (k = k')) as [->|Hne].
    + rewrite lookup_delete_eq, decide_True; [done|by left].
    + rewrite lookup_delete_ne, IH by done. repeat case_decide; rewrite elem_of_cons in *; naive_solver.
Qed.

(** Deleting the matching rows of a leaf is sweeping it. *)
Lemma bulk_delete_sweep {R} (t : table R) p d :
  is_leaf t = true → bulk_delete t p d = Some (sweep t p d).
Proof.
  intros Ht. unfold bulk_delete, sweep. rewrite delete_rows_leaf by done. do 2 f_equal.
  apply map_eq. intros k. rewrite lookup_delete_all.
  set (m := get_table t d). set (ks := fst <$> _).
  assert (k ∈ ks ↔ ∃ r, m !! k = Some r ∧ p r = true) as Hks.
  { unfold ks. rewrite list_elem_of_fmap. split.
    - intros ([k' r] & -> & [Hp Hin]%list_elem_of_filter). exists r.
      split; [by apply elem_of_map_to_list|done].
    - intros (r & Hk & Hp). exists (k, r). split; [done|].
      apply list_elem_of_filter. split; [done|]. by apply elem_of_map_to_list. }
  destruct (m !! k) as [r|] eqn:Hk.
  - destruct (p r) eqn:Hp.
    + rewrite decide_True by (apply Hks; eauto). symmetry. apply map_lookup_filter_None. right.
      intros r' Hr'. rewrite Hk in Hr'. injection Hr' as <-. by rewrite Hp.
    + rewrite decide_False; [symmetry; by apply map_lookup_filter_Some|].
      intros (r' & Hr' & Hp')%Hks. congruence.
  - case_decide as Hin; [apply Hks in Hin as (r & Hr & _); congruence|].
    symmetry. apply map_lookup_filter_None. by left.
Qed.

Lemma unique_on_filter {R K} `{EqDecision K} (key : R → K) (P : Z * R → Prop) `{∀ x, Decision (P x)} m :
  unique_on key m → unique_on key (filter P m).
Proof.
  rewrite !unique_on_spec. intros Hu i j r r' [Hi _]%map_lookup_filter_Some [Hj _]%map_lookup_filter_Some.
  by apply Hu.
Qed.

Lemma refers_filter {R R'} (fk : R → option Z) (m : gmap Z R) (m' : gmap Z R') (P : Z * R → Prop)
    `{∀ x, Decision (P x)} : refers fk m m' → refers fk (filter P m) m'.
Proof. intros Hr k r [Hk _]%map_lookup_filter_Some. by apply (Hr k r). Qed.

Lemma constraints_sweep {R} (t : table R) p d :
  is_leaf t = true → constraints d → constraints (sweep t p d).
Proof.
  intros Ht [(H1 & H2 & H3 & H4 & H5 & H6 & H7) (F1 & F2 & F3 & F4 & F5 & F6)].
  destruct t; try done; (split; [unfold unique_constraints|unfold foreign_keys]); cbn;
    split_and!; auto using unique_on_filter, refers_filter.
Qed.

(** ** A round *)

Section healthy.
Context `{Crypto}.

(** One cleanup: the time is read, the rows dead by then are deleted and the
    transaction is committed. *)
Lemma wp_cleanup {R} (t : table R) (dead : Z → R → bool) (Q : result exn Z → world → Prop) w :
  is_leaf t = true → constraints (w_db w) → w_session w = empty_session →
  (∀ now n w', w_clock w <= now → now <= w_clock w' → w_db w' = sweep t (dead now) (w_db w) →
     constraints (w_db w') → w_session w' = empty_session → Q (Ok n) w') →
  wp false (now ← now_us;
            deleted_count ← db (BulkDelete t (dead now));
            _ ← db Commit;
            Ret deleted_count) Q w.
Proof.
  intros Ht Hc Hs HQ. apply wp_bind, wp_now. intros w1 Hadv1.
  destruct (advance_still _ _ Hadv1) as (Hd1 & _ & _ & Hs1). pose proof (advance_clock _ _ Hadv1) as Hc1.
  set (now := w_clock w1) in *. set (d' := sweep t (dead now) (w_db w)).
  assert (constraints d') as Hc' by by apply constraints_sweep.
  assert (run_writes [bulk_delete t (dead now)] (w_db w) = Some d') as Hrun by by apply bulk_delete_sweep.
  apply wp_bind, wp_db. intros w2 r w3 Hadv2 Hspec. cbn [db_spec] in Hspec. unfold bulk_spec, bulk in Hspec.
  rewrite (advance_db _ _ Hadv2), (advance_session _ _ Hadv2), Hd1, Hs1, Hs in Hspec.
  cbn [s_flushed empty_session app] in Hspec. rewrite Hrun in Hspec.
  change (tx_view (w_db w) empty_session) with (Some (w_db w)) in Hspec.
  cbn [mbind option_bind] in Hspec. rewrite decide_True in Hspec by done. destruct Hspec as [-> ->].
  pose proof (advance_clock _ _ Hadv2) as Hc2.
  apply wp_bind, wp_db. intros w4 r w5 Hadv4 Hspec. pose proof (advance_clock _ _ Hadv4) as Hc4.
  cbn [db_spec] in Hspec. rewrite (flush_result_advance _ _ Hadv4) in Hspec.
  assert (flush_result (push_flushed (bulk_delete t (dead now)) w2) = Some d') as Hflush.
  { unfold flush_result, all_writes. cbn [push_flushed with_db w_session w_db s_flushed s_pending].
    rewrite (advance_session _ _ Hadv2), (advance_db _ _ Hadv2), Hd1, Hs1, Hs.
    cbn [s_flushed s_pending empty_session app]. rewrite Hrun. cbn [mbind option_bind].
    by rewrite decide_True. }
  rewrite Hflush in Hspec. destruct Hspec as [-> ->]. cbn [wp].
  apply (HQ now); cbn in *; [lia|lia|done..].
Qed.
End healthy.

(** The tables after the four cleanups, each at its own time. *)
Definition maintained (s : Settings) (t1 t2 t3 t4 : Z) (d : tables) : tables :=
  sweep TAuditLog (λ l, al_created_at l <? t4 - audit_log_retention_days s * microseconds_per_day)
    (sweep TWebhookEvent (λ e, we_received_at e <? t3 - webhook_event_retention_days s * microseconds_per_day)
      (sweep TIdempotencyRecord (λ r, ir_expires_at r <? t2)
        (sweep TResetToken (λ t, pt_expires_at t <? t1) d))).

Lemma wp_cleanups `{Crypto} (s : Settings) w :
  constraints (w_db w) → w_session w = empty_session →
  wp false (cleanups s)
    (λ r w', r = Ok tt ∧ ∃ t1 t2 t3 t4, w_clock w <= t1 ∧ t1 <= t2 ∧ t2 <= t3 ∧ t3 <= t4 ∧
       t4 <= w_clock w' ∧ w_db w' = maintained s t1 t2 t3 t4 (w_db w)) w.
Proof.
  intros Hc Hs. unfold cleanups. apply wp_in_session, wp_bind.
  eapply (wp_cleanup TResetToken (λ now t, pt_expires_at t <? now)); [done..|].
  intros t1 n1 w1 Ht1 Ht1' Hd1 Hc1 Hs1. apply wp_bind.
  eapply (wp_cleanup TIdempotencyRecord (λ now r, ir_expires_at r <? now)); [done..|].
  intros t2 n2 w2 Ht2 Ht2' Hd2 Hc2 Hs2. apply wp_bind.
  eapply (wp_cleanup TWebhookEvent
    (λ now e, we_received_at e <? now - webhook_event_retention_days s * microseconds_per_day)); [done..|].
  intros t3 n3 w3 Ht3 Ht3' Hd3 Hc3 Hs3. apply wp_bind.
  eapply (wp_cleanup TAuditLog
    (λ now l, al_created_at l <? now - audit_log_retention_days s * microseconds_per_day)); [done..|].
  intros t4 n4 w4 Ht4 Ht4' Hd4 Hc4 Hs4 w5 Hd5 _ Hc5. split; [done|].
  exists t1, t2, t3, t4. split_and!; [lia..|]. unfold maintained. congruence.
Qed.

(** C36: a round of maintenance deletes what is past its time and nothing else.
    Without failures, with the maintenance enabled and the lock free, the round
    completes; each of the four cleanups deletes, at a moment of the round, exactly
    the rows of its table that have expired or are older than the retention, and
    every other row of every table is what it was. *)
Theorem maintenance_deletes_expired `{ServicesSpec false W} (s : Settings) (w : W) :
  let p := run_scheduled_maintenance s in
  worker_maintenance_enabled s = true → 0 < worker_maintenance_interval_seconds s →
  w_redis (view w) !! worker_maintenance_lock_key s = None →
  constraints (w_db (view w)) → w_session (view w) = empty_session →
  fst (run p w) = Ok true ∧
  ∃ t1 t2 t3 t4, w_clock (view w) <= t1 ∧ t1 <= t2 ∧ t2 <= t3 ∧ t3 <= t4 ∧
    t4 <= w_clock (view (snd (run p w))) ∧
    w_db (view (snd (run p w))) = maintained s t1 t2 t3 t4 (w_db (view w)).
Proof.
  intros p Hen Hpos Hfree Hc Hs.
  apply (wp_run (faults:=false) p (λ r w', r = Ok true ∧ ∃ t1 t2 t3 t4, w_clock (view w) <= t1 ∧
    t1 <= t2 ∧ t2 <= t3 ∧ t3 <= t4 ∧ t4 <= w_clock w' ∧ w_db w' = maintained s t1 t2 t3 t4 (w_db (view w)))).
  unfold p, run_scheduled_maintenance, try_acquire_maintenance_lock. rewrite Hen. cbn [negb].
  apply wp_bind, wp_redis; [done|]. intros w1 Hadv1. cbn [redis_exec].
  rewrite (proj2 (Z.leb_gt _ 0)) by lia. unfold live. rewrite Hfree. cbn [andb].
  rewrite bool_decide_eq_false_2 by (by intros []). cbn [negb].
  set (w1' := with_redis _ w1). destruct (advance_still _ _ Hadv1) as (Hd1 & _ & _ & Hs1).
  pose proof (advance_clock _ _ Hadv1) as Hc1.
  assert (w_db w1' = w_db (view w)) as Hd1' by done. assert (w_clock w1' = w_clock w1) as Hclk by done.
  apply wp_bind. eapply wp_mono; [|apply (wp_cleanups s w1'); [by rewrite Hd1'|by cbn; rewrite Hs1]].
  intros r w2 (-> & t1 & t2 & t3 & t4 & Ht1 & Ht2 & Ht3 & Ht4 & Ht5 & Hd2).
  apply wp_bind, wp_observe. intros w3 Hadv3. cbn [wp]. split; [done|].
  exists t1, t2, t3, t4. pose proof (advance_clock _ _ Hadv3) as Hc3. pose proof (advance_db _ _ Hadv3) as Hd3.
  split_and!; [lia..|cbn; lia|]. etrans; [exact Hd3|]. by rewrite Hd2, Hd1'.
Qed.

(** An expired token, one that is valid, and an old event. *)
Definition a_token (key expires : Z) (hash : string) : PasswordResetToken :=
  new_reset_token 2 hash expires key 0.
Definition an_event (key received : Z) : WebhookEvent :=
  {| we_id := key; we_provider := "stripe"; we_event_id := str_of_int key; we_payload_hash := "";
     we_received_at := received |}.
Definition now_2026 : Z := 1767225600000000.
Definition full_world : world :=
  with_db (set_table TResetToken {[1 := a_token 1 1000 "a"; 2 := a_token 2 (now_2026 + 1000) "b"]}
    (set_table TWebhookEvent {[1 := an_event 1 0; 2 := an_event 2 now_2026]}
      (set_table TUser {[2 := {| u_id := 2; u_tenant_id := 1; u_email := "u@acme.test";
           u_hashed_password := ""; u_is_active := true; u_role := "user"; u_token_version := 0 |}]}
        (set_table TTenant {[1 := {| t_id := 1; t_slug := "acme"; t_name := "Acme"; t_is_active := true |}]}
          empty_tables)))) empty_session (world_at now_2026).

Lemma maintenance_deletes_expired_witness :
  let p := run_scheduled_maintenance production_example in
  fst (run p full_world) = Ok true ∧
  reset_tokens (w_db (snd (run p full_world))) = {[2 := a_token 2 (now_2026 + 1000) "b"]} ∧
  webhook_events (w_db (snd (run p full_world))) = {[2 := an_event 2 now_2026]}.
Proof.
  split; [|split; vm_compute; reflexivity].
  refine (proj1 (maintenance_deletes_expired (W:=world) production_example full_world eq_refl _ _ _ eq_refl)).
  - vm_compute. reflexivity.
  - vm_compute. reflexivity.
  - apply (bool_decide_unpack _). vm_compute. exact Logic.I.
Defined.
