(* ===== verification/Ddl.v ===== *)
(** * Schemas and migration operations

    What the operations of Alembic that the migrations use do to a PostgreSQL
    database: its schema, and the rows it holds.  An operation is refused when a
    name is missing or taken, or when the rows violate what it declares; a
    refused operation ends the migration, and PostgreSQL undoes it as a whole. *)

From Stdlib Require Import ZArith String Lia.
From stdpp Require Import base tactics option list gmap strings fin_maps.
From S2P Require Import Prelude PyText.
Local Open Scope string_scope.
Local Open Scope list_scope.
Local Open Scope Z_scope.

(** ** Schemas *)

Inductive sql_type : Type := SqlInteger | SqlString | SqlText | SqlBoolean | SqlDateTime.
#[export] Instance sql_type_eq_dec : EqDecision sql_type.
Proof. solve_decision. Defined.

Record column := Column {
  c_type : sql_type;
  c_nullable : bool;
  c_default : option string;               (* [server_default], as text *)
  c_identity : bool;                       (* [sa.Identity()] *)
}.
#[export] Instance column_eq_dec : EqDecision column.
Proof. solve_decision. Defined.

(** A foreign key, by the column it is on. *)
Record foreign_key := ForeignKey {
  fk_name : option string;
  fk_table : string;
  fk_column : string;
  fk_cascade : bool;                       (* [ondelete="CASCADE"] *)
}.
#[export] Instance foreign_key_eq_dec : EqDecision foreign_key.
Proof. solve_decision. Defined.

Record index := Index {
  ix_columns : list string;
  ix_unique : bool;
  ix_using : option string;                (* [postgresql_using] *)
}.
#[export] Instance index_eq_dec : EqDecision index.
Proof. solve_decision. Defined.

Record relation := Relation {
  t_columns : gmap string column;
  t_primary_key : list string;
  t_uniques : list (option string * list string);
  t_foreign_keys : gmap string foreign_key;
  t_indexes : gmap string index;
}.
#[export] Instance relation_eq_dec : EqDecision relation.
Proof. solve_decision. Defined.

Abbreviation schema := (gmap string relation).

Definition set_columns (f : gmap string column → gmap string column) (rel : relation) : relation :=
  Relation (f (t_columns rel)) (t_primary_key rel) (t_uniques rel) (t_foreign_keys rel) (t_indexes rel).
Definition set_foreign_keys (f : gmap string foreign_key → gmap string foreign_key) (rel : relation) : relation :=
  Relation (t_columns rel) (t_primary_key rel) (t_uniques rel) (f (t_foreign_keys rel)) (t_indexes rel).
Definition set_indexes (f : gmap string index → gmap string index) (rel : relation) : relation :=
  Relation (t_columns rel) (t_primary_key rel) (t_uniques rel) (t_foreign_keys rel) (f (t_indexes rel)).

(** ** Rows *)

Inductive cell : Type := VNull | VInt (z : Z) | VText (s : string) | VBool (b : bool) | VTime (t : Z).
#[export] Instance cell_eq_dec : EqDecision cell.
Proof. solve_decision. Defined.

Abbreviation row := (string → cell).
Abbreviation contents := (string → list row).

Record database := Database { d_schema : schema; d_rows : contents }.

Definition has_type (ty : sql_type) (v : cell) : bool :=
  match v, ty with
  | VNull, _ | VInt _, SqlInteger | VText _, SqlString | VText _, SqlText
  | VBool _, SqlBoolean | VTime _, SqlDateTime => true
  | _, _ => false
  end.

Definition cell_ok (col : column) (v : cell) : bool :=
  has_type (c_type col) v && (c_nullable col || negb (bool_decide (v = VNull))).

(** ** What a valid database satisfies *)

Definition row_ok (rel : relation) (r : row) : Prop :=
  map_Forall (λ c col, cell_ok col (r c) = true) (t_columns rel).

(** No two rows have the same values, nulls apart. *)
Definition key_values (cols : list string) (rs : list row) : list (list cell) :=
  filter (λ k, VNull ∉ k) ((λ r : row, r <$> cols) <$> rs).
Definition key_ok (cols : list string) (rs : list row) : Prop := NoDup (key_values cols rs).

Definition fk_ok (rows : contents) (c : string) (fk : foreign_key) (rs : list row) : Prop :=
  Forall (λ r : row, r c = VNull ∨ r c ∈ ((λ r' : row, r' (fk_column fk)) <$> rows (fk_table fk))) rs.

#[export] Instance row_ok_dec rel r : Decision (row_ok rel r).
Proof. unfold row_ok. apply _. Defined.
#[export] Instance key_ok_dec cols rs : Decision (key_ok cols rs).
Proof. unfold key_ok. apply _. Defined.
#[export] Instance fk_ok_dec rows c fk rs : Decision (fk_ok rows c fk rs).
Proof. unfold fk_ok. apply _. Defined.

Definition is_key (rel : relation) (cols : list string) : Prop :=
  cols = t_primary_key rel ∨ cols ∈ (t_uniques rel).*2 ∨
  ∃ name ix, t_indexes rel !! name = Some ix ∧ ix_unique ix = true ∧ ix_columns ix = cols.

Definition rel_ok (rows : contents) (t : string) (rel : relation) : Prop :=
  Forall (row_ok rel) (rows t) ∧ (∀ cols, is_key rel cols → key_ok cols (rows t)) ∧
  map_Forall (λ c fk, fk_ok rows c fk (rows t)) (t_foreign_keys rel).

(** Keys, indexes and foreign keys are on columns that exist. *)
Definition on_columns (rel : relation) (cols : list string) : Prop :=
  Forall (λ c, is_Some (t_columns rel !! c)) cols.
Definition refers_to_column (sch : schema) (fk : foreign_key) : Prop :=
  match sch !! fk_table fk with
  | Some rel => is_Some (t_columns rel !! fk_column fk)
  | None => False
  end.
Definition wf_rel (sch : schema) (rel : relation) : Prop :=
  on_columns rel (t_primary_key rel) ∧ Forall (λ u, on_columns rel u.2) (t_uniques rel) ∧
  map_Forall (λ _ ix, on_columns rel (ix_columns ix)) (t_indexes rel) ∧
  map_Forall (λ c fk, is_Some (t_columns rel !! c) ∧ refers_to_column sch fk) (t_foreign_keys rel).

#[export] Instance on_columns_dec rel cols : Decision (on_columns rel cols).
Proof. unfold on_columns. apply _. Defined.
#[export] Instance refers_to_column_dec sch fk : Decision (refers_to_column sch fk).
Proof. unfold refers_to_column. destruct (sch !! fk_table fk); apply _. Defined.
#[export] Instance wf_rel_dec sch rel : Decision (wf_rel sch rel).
Proof. unfold wf_rel. apply _. Defined.

Definition valid (db : database) : Prop :=
  map_Forall (λ t rel, wf_rel (d_schema db) rel ∧ rel_ok (d_rows db) t rel) (d_schema db).

(** ** Operations *)

Inductive operation : Type :=
| create_table (name : string) (columns : list (string * column)) (primary_key : list string)
    (uniques : list (option string * list string)) (foreign_keys : list (string * foreign_key))
| drop_table (name : string)
| create_index (name table : string) (columns : list string) (unique : bool) (method : option string)
| drop_index (name table : string)
| add_column (table name : string) (c : column)
| drop_column (table name : string)
| alter_nullable (table name : string) (nullable : bool)
| alter_server_default (table name : string) (default : option string)
| create_foreign_key (name source referent local remote : string)
| drop_constraint (name table : string)
| create_extension (name : string)
| execute (f : contents → contents).

Definition new_relation (columns : list (string * column)) (primary_key : list string)
    (uniques : list (option string * list string)) (foreign_keys : list (string * foreign_key)) : relation :=
  Relation (list_to_map columns) primary_key uniques (list_to_map foreign_keys) ∅.

Definition set_nullable (b : bool) (c : column) : column :=
  Column (c_type c) b (c_default c) (c_identity c).
Definition set_default (d : option string) (c : column) : column :=
  Column (c_type c) (c_nullable c) d (c_identity c).

Definition set_cell (c : string) (v : cell) (r : row) : row :=
  λ c', if String.eqb c c' then v else r c'.
Definition map_rows (t : string) (f : row → row) (rows : contents) : contents :=
  λ t', if String.eqb t t' then f <$> rows t' else rows t'.
Definition no_rows (t : string) (rows : contents) : contents :=
  λ t', if String.eqb t t' then [] else rows t'.

(** The schema an operation leaves; [None] when a name is missing or taken. *)
Definition alter (t : string) (sch : schema) (f : relation → option relation) : option schema :=
  rel ← sch !! t; rel' ← f rel; Some (<[t := rel']> sch).

Definition referenced (sch : schema) (t : string) (c : option string) : Prop :=
  ¬ map_Forall (λ _ rel, map_Forall (λ _ fk,
      ¬ (fk_table fk = t ∧ match c with Some c => fk_column fk = c | None => True end))
      (t_foreign_keys rel)) sch.
#[export] Instance referenced_dec sch t c : Decision (referenced sch t c).
Proof.
  unfold referenced. apply not_dec, map_Forall_dec. intros _ rel. apply map_Forall_dec. intros _ fk.
  apply not_dec, and_dec; [apply _|destruct c; apply _].
Defined.

Definition without_column (c : string) (rel : relation) : relation :=
  Relation (delete c (t_columns rel)) (t_primary_key rel)
    (filter (λ u, c ∉ u.2) (t_uniques rel)) (delete c (t_foreign_keys rel))
    (filter (λ '(_, ix), c ∉ ix_columns ix) (t_indexes rel)).

Definition apply_schema (op : operation) (sch : schema) : option schema :=
  match op with
  | create_table t cols pk us fks =>
      let rel := new_relation cols pk us fks in
      if decide (sch !! t = None ∧ wf_rel (<[t := rel]> sch) rel) then Some (<[t := rel]> sch) else None
  | drop_table t =>
      if decide (is_Some (sch !! t) ∧ ¬ referenced (delete t sch) t None) then Some (delete t sch) else None
  | create_index name t cols unique method =>
      alter t sch (λ rel,
        if decide (t_indexes rel !! name = None ∧ on_columns rel cols)
        then Some (set_indexes (<[name := Index cols unique method]>) rel) else None)
  | drop_index name t =>
      alter t sch (λ rel,
        if decide (is_Some (t_indexes rel !! name)) then Some (set_indexes (delete name) rel) else None)
  | add_column t c col =>
      alter t sch (λ rel,
        if decide (t_columns rel !! c = None) then Some (set_columns (<[c := col]>) rel) else None)
  | drop_column t c =>
      if decide (referenced sch t (Some c)) then None
      else alter t sch (λ rel,
        if decide (is_Some (t_columns rel !! c) ∧ c ∉ t_primary_key rel)
        then Some (without_column c rel) else None)
  | alter_nullable t c b =>
      alter t sch (λ rel, col ← t_columns rel !! c; Some (set_columns (<[c := set_nullable b col]>) rel))
  | alter_server_default t c d =>
      alter t sch (λ rel, col ← t_columns rel !! c; Some (set_columns (<[c := set_default d col]>) rel))
  | create_foreign_key name t t' c c' =>
      let fk := ForeignKey (Some name) t' c' false in
      if decide (refers_to_column sch fk) then
        alter t sch (λ rel,
          if decide (is_Some (t_columns rel !! c) ∧ t_foreign_keys rel !! c = None)
          then Some (set_foreign_keys (<[c := fk]>) rel) else None)
      else None
  | drop_constraint name t =>
      alter t sch (λ rel,
        let fks := filter (λ '(_, fk), fk_name fk ≠ Some name) (t_foreign_keys rel) in
        if decide (fks = t_foreign_keys rel) then None else Some (set_foreign_keys (λ _, fks) rel))
  | create_extension _ | execute _ => Some sch
  end.

(** The value of a default for the rows that are there. *)
Definition default_value (now : Z) (col : column) : option cell :=
  match c_default col with
  | None => Some VNull
  | Some d =>
      match c_type col with
      | SqlInteger => VInt <$> int_of_str d
      | SqlString | SqlText => Some (VText d)
      | SqlBoolean => if String.eqb d "true" then Some (VBool true)
                      else if String.eqb d "false" then Some (VBool false) else None
      | SqlDateTime => if String.eqb d "now()" then Some (VTime now) else None
      end
  end.

Section exec.
Variable now : Z.

(** The rows an operation leaves, checked against what it declares: [None] when
    PostgreSQL refuses it. *)
Definition apply_rows (op : operation) (sch' : schema) (rows : contents) : option contents :=
  match op with
  | create_table t _ _ _ _ | drop_table t => Some (no_rows t rows)
  | create_index _ t cols unique _ =>
      if decide (unique = true → key_ok cols (rows t)) then Some rows else None
  | add_column t c col =>
      v ← default_value now col;
      if decide (rows t = [] ∨ cell_ok col v = true) then Some (map_rows t (set_cell c v) rows) else None
  | alter_nullable t c b =>
      if decide (b = true ∨ Forall (λ r : row, r c ≠ VNull) (rows t)) then Some rows else None
  | create_foreign_key name t t' c c' =>
      if decide (fk_ok rows c (ForeignKey (Some name) t' c' false) (rows t)) then Some rows else None
  | drop_index _ _ | drop_column _ _ | alter_server_default _ _ _ | drop_constraint _ _
  | create_extension _ => Some rows
  | execute f =>
      if decide (map_Forall (λ t rel, Forall (row_ok rel) (f rows t) ∧
            key_ok (t_primary_key rel) (f rows t) ∧ Forall (λ u, key_ok u.2 (f rows t)) (t_uniques rel) ∧
            map_Forall (λ _ ix, ix_unique ix = true → key_ok (ix_columns ix) (f rows t)) (t_indexes rel) ∧
            map_Forall (λ c fk, fk_ok (f rows) c fk (f rows t)) (t_foreign_keys rel)) sch')
      then Some (f rows) else None
  end.

Definition exec (op : operation) (db : database) : option database :=
  sch' ← apply_schema op (d_schema db);
  rows' ← apply_rows op sch' (d_rows db);
  Some (Database sch' rows').

Definition exec_all (ops : list operation) (db : database) : option database :=
  fold_left (λ odb op, db ← odb; exec op db) ops (Some db).
End exec.

(** ** Rows that agree *)

(** The rows are the same but for columns that are not in [cols]. *)
Definition agree (cols : string → Prop) (rs rs' : list row) : Prop :=
  Forall2 (λ r r', ∀ c, cols c → r' c = r c) rs rs'.

Lemma agree_refl cols rs : agree cols rs rs.
Proof. unfold agree. by induction rs; constructor. Qed.

Lemma agree_map cols f rs :
  (∀ r c, cols c → f r c = r c) → agree cols rs (f <$> rs).
Proof. intros Hf. unfold agree. induction rs; constructor; auto. Qed.

Lemma agree_mono (P Q : string → Prop) rs rs' : (∀ c, Q c → P c) → agree P rs rs' → agree Q rs rs'.
Proof. intros HPQ Hrs. eapply Forall2_impl; [exact Hrs|]. cbn. auto. Qed.

Lemma agree_trans P rs1 rs2 rs3 : agree P rs1 rs2 → agree P rs2 rs3 → agree P rs1 rs3.
Proof.
  unfold agree. intros H12. revert rs3. induction H12 as [|r1 r2 l1 l2 Hr H12 IH]; intros rs3 H23;
    inversion H23; subst; constructor; [|by apply IH].
  intros c Hc. rewrite <- (Hr c Hc). auto.
Qed.

Lemma key_values_agree cols rs rs' :
  agree (λ c, c ∈ cols) rs rs' → key_values cols rs' = key_values cols rs.
Proof.
  intros Hrs. unfold key_values. f_equal. induction Hrs as [|r r' rs rs' Hr _ IH]; [done|].
  cbn [fmap list_fmap]. f_equal; [|exact IH]. apply list_fmap_ext. intros i c Hc.
  apply Hr. by eapply list_elem_of_lookup_2.
Qed.

Lemma key_ok_agree cols rs rs' : agree (λ c, c ∈ cols) rs rs' → key_ok cols rs → key_ok cols rs'.
Proof. intros Hrs. unfold key_ok. by rewrite (key_values_agree _ _ _ Hrs). Qed.

Lemma column_values_agree c rs rs' :
  agree (λ c', c' = c) rs rs' → (λ r : row, r c) <$> rs' = (λ r : row, r c) <$> rs.
Proof.
  induction 1 as [|r r' rs rs' Hr _ IH]; [done|]. cbn. f_equal; [by apply Hr|exact IH].
Qed.

Lemma fk_ok_values rows c fk rs :
  fk_ok rows c fk rs ↔
  Forall (λ v, v = VNull ∨ v ∈ ((λ r' : row, r' (fk_column fk)) <$> rows (fk_table fk)))
    ((λ r : row, r c) <$> rs).
Proof. unfold fk_ok. by rewrite Forall_fmap. Qed.

(** The rows a foreign key is on, and those it refers to, may change elsewhere. *)
Lemma fk_ok_agree rows rows' c fk rs rs' :
  agree (λ c', c' = c) rs rs' → agree (λ c', c' = fk_column fk) (rows (fk_table fk)) (rows' (fk_table fk)) →
  fk_ok rows c fk rs → fk_ok rows' c fk rs'.
Proof.
  intros Hrs Hrows. rewrite !fk_ok_values, (column_values_agree _ _ _ Hrs). cbn.
  by rewrite (column_values_agree _ _ _ Hrows).
Qed.

(** A key of more columns. *)
Lemma key_ok_more cols cols' rs :
  (∀ c, c ∈ cols → c ∈ cols') → key_ok cols rs → key_ok cols' rs.
Proof.
  intros Hsub. unfold key_ok, key_values. induction rs as [|r rs IH]; [done|].
  cbn [fmap list_fmap]. rewrite !filter_cons. intros Hk.
  assert (VNull ∉ (r <$> cols') → VNull ∉ (r <$> cols)) as Hnull.
  { intros Hn Hin. apply Hn. apply list_elem_of_fmap in Hin as (c & -> & Hc).
    apply list_elem_of_fmap. eauto. }
  assert (NoDup (filter (λ k, VNull ∉ k) ((λ r : row, r <$> cols') <$> rs))) as Hrest.
  { apply IH. case_decide; [by apply NoDup_cons in Hk as [_ Hk]|done]. }
  destruct (decide (VNull ∉ r <$> cols')) as [Hd|Hd]; [|exact Hrest]. rewrite decide_True in Hk by auto.
  apply NoDup_cons in Hk as [Hin _]. apply NoDup_cons. split; [|done]. intros Hin'. apply Hin.
  apply list_elem_of_filter in Hin' as [_ Hin']. apply list_elem_of_filter. split; [auto|].
  apply list_elem_of_fmap in Hin' as (r' & E & Hr'). apply list_elem_of_fmap. exists r'. split; [|done].
  apply list_fmap_ext. intros i c Hc%list_elem_of_lookup_2%Hsub.
  apply list_elem_of_lookup_1 in Hc as [j Hj].
  apply (f_equal (λ l : list cell, l !! j)) in E. rewrite !list_lookup_fmap, Hj in E. by injection E.
Qed.

(** ** An operation keeps a database valid *)

Lemma is_key_columns sch rel cols : wf_rel sch rel → is_key rel cols → on_columns rel cols.
Proof.
  intros (Hpk & Hus & Hix & _) [->|[Hu|(name & ix & Hi & _ & <-)]]; [done| |by apply (Hix name)].
  apply list_elem_of_fmap in Hu as (u & -> & Hu). rewrite Forall_forall in Hus. by apply Hus.
Qed.

Lemma refers_insert_ne sch t rel fk :
  fk_table fk ≠ t → refers_to_column (<[t := rel]> sch) fk ↔ refers_to_column sch fk.
Proof. intros Hne. unfold refers_to_column. by rewrite lookup_insert_ne. Qed.

Lemma refers_insert_eq sch rel fk :
  refers_to_column (<[fk_table fk := rel]> sch) fk ↔ is_Some (t_columns rel !! fk_column fk).
Proof. unfold refers_to_column. by rewrite lookup_insert_eq. Qed.

Lemma referenced_by sch t c t2 rel2 c2 fk :
  sch !! t2 = Some rel2 → t_foreign_keys rel2 !! c2 = Some fk → fk_table fk = t →
  (match c with Some c => fk_column fk = c | None => True end) → referenced sch t c.
Proof. intros H2 Hfk Ht Hc Hall. by apply (Hall _ _ H2 _ _ Hfk). Qed.

Section alter.
Variables (sch : schema) (rows rows' : contents) (t : string) (rel rel' : relation).
Hypothesis Hvalid : valid (Database sch rows).
Hypothesis Hrel : sch !! t = Some rel.
Hypothesis Hothers : ∀ t', t' ≠ t → rows' t' = rows t'.
Hypothesis Hagree : agree (λ c, is_Some (t_columns rel !! c) ∧ is_Some (t_columns rel' !! c)) (rows t) (rows' t).
Hypothesis Hcolumns : ∀ c, is_Some (t_columns rel !! c) → is_Some (t_columns rel' !! c) ∨ ¬ referenced sch t (Some c).
Hypothesis Hwf : wf_rel (<[t := rel']> sch) rel'.
Hypothesis Hrows : Forall (row_ok rel') (rows' t).
Hypothesis Hkeys : ∀ cols, is_key rel' cols → is_key rel cols ∨ key_ok cols (rows' t).
Hypothesis Hfks : ∀ c fk, t_foreign_keys rel' !! c = Some fk →
  t_foreign_keys rel !! c = Some fk ∨ fk_ok rows' c fk (rows' t).

(** The target of a foreign key keeps its values. *)
Lemma target_agree fk :
  refers_to_column sch fk → refers_to_column (<[t := rel']> sch) fk →
  agree (λ c, c = fk_column fk) (rows (fk_table fk)) (rows' (fk_table fk)).
Proof.
  intros H1 H2. destruct (decide (fk_table fk = t)) as [<-|Hne]; [|rewrite Hothers by done; apply agree_refl].
  unfold refers_to_column in H1. rewrite Hrel in H1. apply refers_insert_eq in H2.
  eapply agree_mono; [|exact Hagree]. by intros c ->.
Qed.

Lemma valid_alter : valid (Database (<[t := rel']> sch) rows').
Proof.
  pose proof (Hvalid _ _ Hrel) as [Hwf0 Hok0]. cbn in Hwf0, Hok0.
  intros t2 rel2. cbn [d_schema d_rows]. destruct (decide (t = t2)) as [<-|Hne].
  - rewrite lookup_insert_eq. intros [= <-]. split; [exact Hwf|]. destruct Hok0 as (_ & Hk0 & Hf0).
    split; [done|]. split.
    + intros cols Hk. pose proof (is_key_columns _ _ _ Hwf Hk) as Hc'.
      destruct (Hkeys _ Hk) as [Hk'|]; [|done]. pose proof (is_key_columns _ _ _ Hwf0 Hk') as Hc.
      eapply key_ok_agree; [|by apply Hk0]. eapply agree_mono; [|exact Hagree].
      unfold on_columns in Hc, Hc'. rewrite Forall_forall in Hc, Hc'. auto.
    + intros c fk Hfk. destruct (Hfks _ _ Hfk) as [Hfk'|]; [|done].
      destruct Hwf as (_ & _ & _ & Hf'), Hwf0 as (_ & _ & _ & Hf).
      destruct (Hf' _ _ Hfk) as [Hc' Hr'], (Hf _ _ Hfk') as [Hc Hr].
      eapply fk_ok_agree; [|by apply target_agree|by apply Hf0].
      eapply agree_mono; [|exact Hagree]. by intros c0 ->.
  - rewrite lookup_insert_ne by done. intros H2. destruct (Hvalid _ _ H2) as [(Hpk & Hus & Hix & Hf) (Hr2 & Hk2 & Hf2)].
    cbn in *. assert (map_Forall (λ c fk, is_Some (t_columns rel2 !! c) ∧
      refers_to_column (<[t := rel']> sch) fk) (t_foreign_keys rel2)) as Hf'.
    { intros c fk Hfk. destruct (Hf _ _ Hfk) as [Hc Hr]. split; [done|].
      destruct (decide (fk_table fk = t)) as [E|]; [|by apply refers_insert_ne].
      unfold refers_to_column in *. rewrite E, Hrel in Hr. rewrite E, lookup_insert_eq.
      destruct (Hcolumns _ Hr) as [|Hn]; [done|]. destruct Hn. by eapply referenced_by. }
    split; [by split_and!|]. rewrite <- (Hothers t2) in Hr2, Hk2 by done. split; [done|]. split; [done|].
    intros c fk Hfk. destruct (Hf _ _ Hfk) as [_ Hr], (Hf' _ _ Hfk) as [_ Hr'].
    eapply fk_ok_agree; [|by apply target_agree|by apply Hf2]. rewrite Hothers by done. apply agree_refl.
Qed.
End alter.

Lemma valid_create sch rows t rel :
  valid (Database sch rows) → sch !! t = None → t_indexes rel = ∅ → wf_rel (<[t := rel]> sch) rel →
  valid (Database (<[t := rel]> sch) (no_rows t rows)).
Proof.
  intros Hv Ht Hi Hwf t2 rel2. cbn [d_schema d_rows]. destruct (decide (t = t2)) as [<-|Hne].
  - rewrite lookup_insert_eq. intros [= <-]. split; [done|]. unfold rel_ok, no_rows. rewrite String.eqb_refl.
    split; [constructor|]. split; [intros; apply NoDup_nil_2|]. intros c fk _. constructor.
  - rewrite lookup_insert_ne by done. intros H2. destruct (Hv _ _ H2) as [(Hpk & Hus & Hix & Hf) (Hr2 & Hk2 & Hf2)].
    cbn in *. assert (∀ c fk, t_foreign_keys rel2 !! c = Some fk → fk_table fk ≠ t) as Hnot.
    { intros c fk Hfk E. destruct (Hf _ _ Hfk) as [_ Hr]. unfold refers_to_column in Hr. by rewrite E, Ht in Hr. }
    assert (∀ t', t' ≠ t → no_rows t rows t' = rows t') as Hsame.
    { intros t' Hn. unfold no_rows. by rewrite (proj2 (String.eqb_neq t t')). }
    split.
    + split_and!; [done..|]. intros c fk Hfk. destruct (Hf _ _ Hfk) as [Hc Hr].
      split; [done|]. apply refers_insert_ne; [by eapply Hnot|done].
    + unfold rel_ok. rewrite Hsame by done. split; [done|]. split; [done|]. intros c fk Hfk.
      unfold fk_ok. rewrite (Hsame (fk_table fk)) by by eapply Hnot. by apply Hf2.
Qed.

Lemma valid_drop sch rows t :
  valid (Database sch rows) → ¬ referenced (delete t sch) t None →
  valid (Database (delete t sch) (no_rows t rows)).
Proof.
  intros Hv Ht t2 rel2. cbn [d_schema d_rows]. rewrite lookup_delete_Some. intros [Hne H2].
  destruct (Hv _ _ H2) as [(Hpk & Hus & Hix & Hf) (Hr2 & Hk2 & Hf2)]. cbn in *.
  assert (∀ c fk, t_foreign_keys rel2 !! c = Some fk → fk_table fk ≠ t) as Hnot.
  { intros c fk Hfk E. apply Ht. eapply referenced_by; [|exact Hfk|exact E|done].
    by rewrite lookup_delete_ne. }
  assert (∀ t', t' ≠ t → no_rows t rows t' = rows t') as Hsame.
  { intros t' Hn. unfold no_rows. by rewrite (proj2 (String.eqb_neq t t')). }
  split.
  - split_and!; [done..|]. intros c fk Hfk. destruct (Hf _ _ Hfk) as [Hc Hr].
    split; [done|]. unfold refers_to_column. rewrite lookup_delete_ne; [done|]. by apply not_eq_sym, (Hnot _ _ Hfk).
  - unfold rel_ok. rewrite Hsame by done. split; [done|]. split; [done|]. intros c fk Hfk.
    unfold fk_ok. rewrite (Hsame (fk_table fk)) by by eapply Hnot. by apply Hf2.
Qed.

Lemma alter_inv t sch f sch' : alter t sch f = Some sch' →
  ∃ rel rel', sch !! t = Some rel ∧ f rel = Some rel' ∧ sch' = <[t := rel']> sch.
Proof.
  unfold alter. destruct (sch !! t) as [rel|]; [|done]. cbn. destruct (f rel) as [rel'|] eqn:E; [|done].
  cbn. intros [= <-]. eauto.
Qed.

(** An alteration that keeps the columns, perhaps with others. *)
Lemma valid_grow sch rows rows' t rel rel' :
  valid (Database sch rows) → sch !! t = Some rel →
  (∀ t', t' ≠ t → rows' t' = rows t') →
  agree (λ c, is_Some (t_columns rel !! c)) (rows t) (rows' t) →
  (∀ c, is_Some (t_columns rel !! c) → is_Some (t_columns rel' !! c)) →
  t_primary_key rel' = t_primary_key rel → t_uniques rel' = t_uniques rel →
  (∀ name ix, t_indexes rel' !! name = Some ix → t_indexes rel !! name = Some ix ∨
     on_columns rel' (ix_columns ix) ∧ (ix_unique ix = true → key_ok (ix_columns ix) (rows' t))) →
  (∀ c fk, t_foreign_keys rel' !! c = Some fk → t_foreign_keys rel !! c = Some fk ∨
     is_Some (t_columns rel' !! c) ∧ refers_to_column sch fk ∧ fk_ok rows' c fk (rows' t)) →
  Forall (row_ok rel') (rows' t) →
  valid (Database (<[t := rel']> sch) rows').
Proof.
  intros Hv Hrel Hoth Hag Hgrow Epk Eus Hix Hfk Hrows.
  destruct (Hv _ _ Hrel) as [(Hpk & Hus & Hi & Hf) _]. cbn in Hpk, Hus, Hi, Hf.
  assert (∀ cols, on_columns rel cols → on_columns rel' cols) as Hon.
  { intros cols Hc. eapply Forall_impl; [exact Hc|]. auto. }
  assert (∀ fk, refers_to_column sch fk → refers_to_column (<[t := rel']> sch) fk) as Href.
  { intros fk Hr. unfold refers_to_column in *. destruct (decide (t = fk_table fk)) as [E|Hne].
    - rewrite <- E, lookup_insert_eq. rewrite <- E, Hrel in Hr. auto.
    - by rewrite lookup_insert_ne. }
  apply (valid_alter sch rows rows' t rel rel'); try done.
  - eapply agree_mono; [|exact Hag]. by intros c [? _].
  - intros c Hc. left. auto.
  - split_and!.
    + rewrite Epk. auto.
    + rewrite Eus. eapply Forall_impl; [exact Hus|]. cbn. auto.
    + intros name ix H. destruct (Hix _ _ H) as [H'|[H' _]]; [apply Hon; by apply (Hi name)|done].
    + intros c fk H. destruct (Hfk _ _ H) as [H'|(Hc & Hr & _)]; [|by auto].
      destruct (Hf _ _ H'). auto.
  - intros cols [->|[H|(name & ix & H & Hu & <-)]].
    + left. left. done.
    + left. right. left. by rewrite <- Eus.
    + destruct (Hix _ _ H) as [H'|[_ H']]; [left; right; right; eauto|right; auto].
  - intros c fk H. destruct (Hfk _ _ H) as [H'|(_ & _ & H')]; auto.
Qed.

Lemma map_rows_eq t f rows : map_rows t f rows t = f <$> rows t.
Proof. unfold map_rows. by rewrite String.eqb_refl. Qed.
Lemma map_rows_ne t f rows t' : t' ≠ t → map_rows t f rows t' = rows t'.
Proof. intros Hne. unfold map_rows. by rewrite (proj2 (String.eqb_neq t t')). Qed.

Lemma set_cell_eq c v r : set_cell c v r c = v.
Proof. unfold set_cell. by rewrite String.eqb_refl. Qed.
Lemma set_cell_ne c v r c' : c' ≠ c → set_cell c v r c' = r c'.
Proof. intros Hne. unfold set_cell. by rewrite (proj2 (String.eqb_neq c c')). Qed.

(** Rows of a relation whose columns are declared otherwise. *)
Lemma rows_ok_insert rel c col (rs rs' : list row) :
  Forall (row_ok rel) rs → agree (λ c', c' ≠ c) rs rs' → Forall (λ r : row, cell_ok col (r c) = true) rs' →
  Forall (row_ok (set_columns (<[c := col]>) rel)) rs'.
Proof.
  intros Hrs Hag Hnew. induction Hag as [|r r' rs rs' Hr _ IH]; [constructor|].
  apply Forall_cons in Hrs as [Hr0 Hrs], Hnew as [Hc Hnew]. constructor; [|auto].
  intros c' col'. cbn. rewrite lookup_insert_Some. intros [[<- <-]|[Hne Hc']]; [done|].
  rewrite Hr by done. by apply (Hr0 c').
Qed.

Lemma cells_ok rel c col (rs : list row) :
  Forall (row_ok rel) rs → t_columns rel !! c = Some col → Forall (λ r : row, cell_ok col (r c) = true) rs.
Proof. intros Hrs Hc. eapply Forall_impl; [exact Hrs|]. intros r Hr. by apply (Hr c). Qed.

(** Removing a column takes what is declared on it along. *)
Lemma valid_drop_column sch rows t c rel :
  valid (Database sch rows) → sch !! t = Some rel → ¬ referenced sch t (Some c) → c ∉ t_primary_key rel →
  valid (Database (<[t := without_column c rel]> sch) rows).
Proof.
  intros Hv Hrel Href Hpk. destruct (Hv _ _ Hrel) as [(Hpk0 & Hus & Hi & Hf) (Hrows & _)]. cbn in *.
  assert (∀ cols, on_columns rel cols → c ∉ cols → on_columns (without_column c rel) cols) as Hon.
  { intros cols Hc Hn. unfold on_columns in *. rewrite Forall_forall in *. intros c' Hin. cbn.
    rewrite lookup_delete_ne; [auto|]. by intros ->. }
  apply (valid_alter sch rows rows t rel); try done.
  - apply agree_refl.
  - intros c' Hc'. destruct (decide (c' = c)) as [->|Hne]; [by right|left]. cbn. by rewrite lookup_delete_ne.
  - split_and!; cbn [without_column t_primary_key t_uniques t_indexes t_foreign_keys].
    + by apply Hon.
    + apply Forall_forall. intros u [Hn Hu]%list_elem_of_filter. rewrite Forall_forall in Hus. auto.
    + intros name ix [H Hn]%map_lookup_filter_Some. apply Hon; [by apply (Hi name)|done].
    + intros c' fk [Hne H]%lookup_delete_Some. destruct (Hf _ _ H) as [Hc Hr]. cbn. split; [by rewrite lookup_delete_ne|].
      unfold refers_to_column in *. destruct (decide (t = fk_table fk)) as [E|Hn]; [|by rewrite lookup_insert_ne].
      rewrite <- E, lookup_insert_eq. rewrite <- E, Hrel in Hr. cbn. rewrite lookup_delete_ne; [done|].
      intros E'. apply Href. by eapply referenced_by.
  - eapply Forall_impl; [exact Hrows|]. intros r Hr c' col. cbn. rewrite lookup_delete_Some. intros [_ H].
    by apply (Hr c').
  - intros cols [->|[H|(name & ix & H & Hu & <-)]]; left.
    + by left.
    + right; left. cbn in H. apply list_elem_of_fmap in H as (u & -> & [_ H]%list_elem_of_filter).
      apply list_elem_of_fmap. by exists u.
    + right; right. apply map_lookup_filter_Some in H as [H _]. eauto.
  - intros c' fk H. cbn in H. apply lookup_delete_Some in H as [_ H]. by left.
Qed.

(** Declaring a column otherwise, or a new one. *)
Lemma valid_column sch rows t c col rel f :
  valid (Database sch rows) → sch !! t = Some rel →
  (∀ r c', c' ≠ c → f r c' = r c') → (is_Some (t_columns rel !! c) → ∀ r, f r c = r c) →
  Forall (λ r : row, cell_ok col (f r c) = true) (rows t) →
  valid (Database (<[t := set_columns (<[c := col]>) rel]> sch) (map_rows t f rows)).
Proof.
  intros Hv Hrel Hf Hfc Hcells. destruct (Hv _ _ Hrel) as [_ (Hrows & _)]. cbn in Hrows.
  apply (valid_grow sch rows _ t rel); try done.
  - intros t' Hne. by apply map_rows_ne.
  - rewrite map_rows_eq. apply agree_map. intros r c' Hc'. destruct (decide (c' = c)) as [->|]; auto.
  - intros c' Hc'. cbn. destruct (decide (c = c')) as [<-|]; [by rewrite lookup_insert_eq|by rewrite lookup_insert_ne].
  - intros name ix H. by left.
  - intros c' fk H. by left.
  - rewrite map_rows_eq. eapply rows_ok_insert; [exact Hrows|by apply agree_map; auto|]. by apply Forall_fmap.
Qed.

Lemma map_rows_id t rows t' : map_rows t id rows t' = rows t'.
Proof. unfold map_rows. rewrite list_fmap_id. by destruct (String.eqb t t'). Qed.

(** Validity only looks at the rows. *)
Lemma valid_ext sch rows rows' : (∀ t, rows t = rows' t) → valid (Database sch rows) → valid (Database sch rows').
Proof.
  intros E Hv t rel Hrel. destruct (Hv _ _ Hrel) as [Hwf (Hr & Hk & Hf)]. cbn in *. split; [done|].
  unfold rel_ok. rewrite <- E. split_and!; [done..|]. intros c fk Hfk. unfold fk_ok. rewrite <- E. by apply Hf.
Qed.

Lemma valid_redeclare sch rows t c col rel :
  valid (Database sch rows) → sch !! t = Some rel → Forall (λ r : row, cell_ok col (r c) = true) (rows t) →
  valid (Database (<[t := set_columns (<[c := col]>) rel]> sch) rows).
Proof.
  intros Hv Hrel Hc. eapply valid_ext; [apply (map_rows_id t)|]. by apply valid_column.
Qed.

(** [SET NOT NULL] on cells that have no null. *)
Lemma cells_nullable col b c (rs : list row) :
  Forall (λ r : row, cell_ok col (r c) = true) rs → b = true ∨ Forall (λ r : row, r c ≠ VNull) rs →
  Forall (λ r : row, cell_ok (set_nullable b col) (r c) = true) rs.
Proof.
  intros Hok Hb. rewrite Forall_forall in Hok. apply Forall_forall. intros r Hr.
  specialize (Hok r Hr). unfold cell_ok in *. cbn. apply andb_prop in Hok as [-> Hok]. cbn.
  destruct Hb as [->|Hb]; [done|]. rewrite Forall_forall in Hb. rewrite bool_decide_false by auto. by rewrite orb_true_r.
Qed.

(** Rows that a statement wrote, checked against every constraint. *)
Lemma valid_rewritten sch rows rows' :
  map_Forall (λ t rel, Forall (row_ok rel) (rows' t) ∧
    key_ok (t_primary_key rel) (rows' t) ∧ Forall (λ u, key_ok u.2 (rows' t)) (t_uniques rel) ∧
    map_Forall (λ _ ix, ix_unique ix = true → key_ok (ix_columns ix) (rows' t)) (t_indexes rel) ∧
    map_Forall (λ c fk, fk_ok rows' c fk (rows' t)) (t_foreign_keys rel)) sch →
  valid (Database sch rows) → valid (Database sch rows').
Proof.
  intros Hd Hv t rel Hrel. cbn [d_schema d_rows] in *.
  destruct (Hd _ _ Hrel) as (Hr & Hpk & Hu & Hi & Hf). split; [by apply (Hv _ _ Hrel)|]. split; [done|]. split; [|done].
  intros cols [->|[H|(name & ix & H & Hun & <-)]]; [done| |by apply (Hi name)].
  apply list_elem_of_fmap in H as (u & -> & H). rewrite Forall_forall in Hu. by apply Hu.
Qed.

Ltac decide_in H Hd :=
  match type of H with context [decide ?P] => destruct (decide P) as [Hd|Hd]; try done end.

Section valid.
Variable now : Z.

(** The relation an operation alters, before and after. *)
Ltac invert_alter Es := apply alter_inv in Es as (rel & rel' & Hrel & Hf & ->).

(** Every operation PostgreSQL accepts keeps a valid database valid. *)
Lemma exec_valid op db db' : exec now op db = Some db' → valid db → valid db'.
Proof.
  destruct db as [sch rows]. unfold exec. cbn [d_schema d_rows].
  destruct (apply_schema op sch) as [sch'|] eqn:Es; [|done]. cbn.
  destruct (apply_rows now op sch' rows) as [rows'|] eqn:Er; [|done]. cbn. intros [= <-] Hv.
  destruct op as [t cols pk us fks|t|name t cols unique method|name t|t c col|t c|t c b|t c d|name t t2 c c2|name t|name|f];
    cbn [apply_schema apply_rows] in Es, Er.
  - decide_in Es Hd. injection Es as <-. injection Er as <-. destruct Hd. by apply valid_create.
  - decide_in Es Hd. injection Es as <-. injection Er as <-. destruct Hd. by apply valid_drop.
  - invert_alter Es. decide_in Hf Hd. injection Hf as <-.
    decide_in Er Hk. injection Er as <-. destruct Hd as [Hn Hon], (Hv _ _ Hrel) as [_ (Hrows & _)].
    apply (valid_grow sch rows rows t rel); try done; [apply agree_refl| |by left].
    intros name' ix. cbn. rewrite lookup_insert_Some. intros [[<- <-]|[_ H]]; [by right|by left].
  - invert_alter Es. decide_in Hf Hd. injection Hf as <-.
    injection Er as <-. destruct (Hv _ _ Hrel) as [_ (Hrows & _)].
    apply (valid_grow sch rows rows t rel); try done; [apply agree_refl| |by left].
    intros name' ix H. cbn in H. apply lookup_delete_Some in H as [_ H]. by left.
  - invert_alter Es. decide_in Hf Hd. injection Hf as <-.
    destruct (default_value now col) as [v|]; [|done]. cbn in Er. decide_in Er Hv'. injection Er as <-.
    apply valid_column; [done..|by intros; apply set_cell_ne|by rewrite Hd; intros []|].
    destruct Hv' as [->|Hv']; [constructor|]. apply Forall_forall. intros r _. by rewrite set_cell_eq.
  - decide_in Es Href. invert_alter Es.
    decide_in Hf Hd. injection Hf as <-. injection Er as <-. destruct Hd. by apply valid_drop_column.
  - invert_alter Es. destruct (t_columns rel !! c) as [col|] eqn:Hc; [|done].
    injection Hf as <-. decide_in Er Hb. injection Er as <-.
    destruct (Hv _ _ Hrel) as [_ (Hrows & _)]. cbn in Hrows. apply valid_redeclare; [done..|].
    apply cells_nullable; [by eapply cells_ok|done].
  - invert_alter Es. destruct (t_columns rel !! c) as [col|] eqn:Hc; [|done].
    injection Hf as <-. injection Er as <-. destruct (Hv _ _ Hrel) as [_ (Hrows & _)]. cbn in Hrows.
    apply valid_redeclare; [done..|]. by apply (cells_ok _ _ col _ Hrows).
  - decide_in Es Href. invert_alter Es.
    decide_in Hf Hd. injection Hf as <-. decide_in Er Hfk. injection Er as <-.
    destruct Hd as [Hc Hn], (Hv _ _ Hrel) as [_ (Hrows & _)].
    apply (valid_grow sch rows rows t rel); try done; [apply agree_refl|by left|].
    intros c' fk. cbn. rewrite lookup_insert_Some. intros [[<- <-]|[_ H]]; [by right|by left].
  - invert_alter Es. decide_in Hf Hd. injection Hf as <-.
    injection Er as <-. destruct (Hv _ _ Hrel) as [_ (Hrows & _)].
    apply (valid_grow sch rows rows t rel); try done; [apply agree_refl|by left|].
    intros c' fk H. cbn in H. apply map_lookup_filter_Some in H as [H _]. by left.
  - injection Es as <-. by injection Er as <-.
  - injection Es as <-. decide_in Er Hd. injection Er as <-. by eapply valid_rewritten.
Qed.

Lemma exec_all_cons op ops db : exec_all now (op :: ops) db = db' ← exec now op db; exec_all now ops db'.
Proof.
  unfold exec_all. cbn. destruct (exec now op db); [done|]. cbn. induction ops as [|op' ops IH]; [done|]. exact IH.
Qed.

Lemma exec_all_valid ops db db' : exec_all now ops db = Some db' → valid db → valid db'.
Proof.
  revert db. induction ops as [|op ops IH]; intros db; [by intros [= <-]|]. rewrite exec_all_cons.
  destruct (exec now op db) as [db1|] eqn:E; [|done]. cbn. intros H Hv. by eapply IH, exec_valid.
Qed.
End valid.

(** ** Operations that no rows can stop *)

(** The rows of every table are kept, in columns that are kept. *)
Definition extends (db db' : database) : Prop :=
  ∀ t rel, d_schema db !! t = Some rel → ∃ rel', d_schema db' !! t = Some rel' ∧
    (∀ c, is_Some (t_columns rel !! c) → is_Some (t_columns rel' !! c)) ∧
    agree (λ c, is_Some (t_columns rel !! c)) (d_rows db t) (d_rows db' t).

Lemma extends_refl db : extends db db.
Proof. intros t rel Hrel. exists rel. split_and!; [done|done|apply agree_refl]. Qed.

Lemma extends_trans db1 db2 db3 : extends db1 db2 → extends db2 db3 → extends db1 db3.
Proof.
  intros H12 H23 t rel Hrel. destruct (H12 _ _ Hrel) as (rel2 & Hrel2 & Hc2 & Ha2).
  destruct (H23 _ _ Hrel2) as (rel3 & Hrel3 & Hc3 & Ha3). exists rel3. split_and!; [done|auto|].
  eapply agree_trans; [exact Ha2|]. eapply agree_mono; [|exact Ha3]. auto.
Qed.

(** The columns of the keys of a relation. *)
Definition keys (rel : relation) : list (list string) :=
  t_primary_key rel :: (t_uniques rel).*2 ++
  (ix_columns ∘ snd <$> filter (λ '(_, ix), ix_unique ix = true) (map_to_list (t_indexes rel))).

Lemma keys_spec rel cols : cols ∈ keys rel → is_key rel cols.
Proof.
  unfold keys. intros [->|[H|H]%elem_of_app]%elem_of_cons; [by left|by right; left|].
  apply list_elem_of_fmap in H as ([name ix] & -> & [Hu Hin]%list_elem_of_filter).
  right; right. exists name, ix. split; [by apply elem_of_map_to_list|done].
Qed.

(** A unique index on the columns of a key and others cannot fail. *)
Definition covered (rel : relation) (cols : list string) : bool :=
  existsb (λ k, bool_decide (Forall (λ c, c ∈ cols) k)) (keys rel).

(** [empty]: tables known to have no rows, those the migrations have created. *)
Definition safe_op (empty : list string) (op : operation) (sch : schema) : bool :=
  let is_empty t := bool_decide (t ∈ empty) in
  match op with
  | create_index _ t cols true _ =>
      is_empty t || match sch !! t with Some rel => covered rel cols | None => false end
  | add_column t _ col =>
      match default_value 0 col with Some v => is_empty t || cell_ok col v | None => false end
  | alter_nullable t _ b => is_empty t || b
  | create_foreign_key _ t _ _ _ => is_empty t
  | execute _ => false
  | _ => true
  end.

Definition created (op : operation) : list string :=
  match op with create_table t _ _ _ _ => [t] | _ => [] end.

Definition additive (op : operation) : bool :=
  match op with drop_table _ | drop_column _ _ => false | _ => true end.

(** The schema after operations that all are safe. *)
Fixpoint safe_ops (empty : list string) (ops : list operation) (sch : schema) : option schema :=
  match ops with
  | [] => Some sch
  | op :: ops =>
      if safe_op empty op sch
      then sch' ← apply_schema op sch; safe_ops (created op ++ empty) ops sch' else None
  end.

Lemma default_value_now now col v :
  default_value 0 col = Some v → ∃ v', default_value now col = Some v' ∧ cell_ok col v' = cell_ok col v.
Proof.
  unfold default_value. destruct (c_default col) as [d|]; [|eauto].
  destruct (c_type col) eqn:E; eauto. destruct (String.eqb d "now()"); [|done].
  intros [= <-]. eexists. split; [done|]. unfold cell_ok. by rewrite E.
Qed.

Lemma extends_insert sch rows rows' t rel rel' :
  sch !! t = Some rel → (∀ c, is_Some (t_columns rel !! c) → is_Some (t_columns rel' !! c)) →
  (∀ t', t' ≠ t → rows' t' = rows t') → agree (λ c, is_Some (t_columns rel !! c)) (rows t) (rows' t) →
  extends (Database sch rows) (Database (<[t := rel']> sch) rows').
Proof.
  intros Hrel Hc Hoth Hag t2 rel2. cbn. intros H2. destruct (decide (t = t2)) as [<-|Hne].
  - rewrite Hrel in H2. injection H2 as <-. exists rel'. by rewrite lookup_insert_eq.
  - exists rel2. rewrite lookup_insert_ne by done. split_and!; [done..|]. rewrite Hoth by done. apply agree_refl.
Qed.

Section progress.
Variable now : Z.

Lemma additive_extends op sch rows sch' rows' :
  additive op = true → (∀ f, op = execute f → ∀ t rel, sch !! t = Some rel →
    agree (λ c, is_Some (t_columns rel !! c)) (rows t) (f rows t)) →
  apply_schema op sch = Some sch' → apply_rows now op sch' rows = Some rows' →
  extends (Database sch rows) (Database sch' rows').
Proof.
  intros Hadd Hexec Es Er.
  destruct op as [t cols pk us fks|t|name t cols unique method|name t|t c col|t c|t c b|t c d|name t t2 c c2|name t|name|f];
    cbn [apply_schema apply_rows] in Es, Er; try done.
  - decide_in Es Hd. injection Es as <-. injection Er as <-. destruct Hd as [Hn _]. intros t2 rel2 H2. cbn in *.
    assert (t ≠ t2) by (intros ->; congruence). exists rel2. rewrite lookup_insert_ne by done. split_and!; [done..|].
    unfold no_rows. rewrite (proj2 (String.eqb_neq t t2)) by done. apply agree_refl.
  - apply alter_inv in Es as (rel & rel' & Hrel & Hf & ->). decide_in Hf Hd. injection Hf as <-.
    decide_in Er Hk. injection Er as <-. by apply (extends_insert _ _ _ _ rel); [| | |apply agree_refl].
  - apply alter_inv in Es as (rel & rel' & Hrel & Hf & ->). decide_in Hf Hd. injection Hf as <-.
    injection Er as <-. by apply (extends_insert _ _ _ _ rel); [| | |apply agree_refl].
  - apply alter_inv in Es as (rel & rel' & Hrel & Hf & ->). decide_in Hf Hd. injection Hf as <-.
    destruct (default_value now col) as [v|]; [|done]. cbn in Er. decide_in Er Hv'. injection Er as <-.
    apply (extends_insert _ _ _ _ rel); [done| |by intros; apply map_rows_ne|].
    + intros c' Hc'. cbn. destruct (decide (c = c')) as [<-|]; [by rewrite lookup_insert_eq|by rewrite lookup_insert_ne].
    + rewrite map_rows_eq. apply agree_map. intros r c' Hc'. apply set_cell_ne. intros ->. rewrite Hd in Hc'. by destruct Hc'.
  - apply alter_inv in Es as (rel & rel' & Hrel & Hf & ->). destruct (t_columns rel !! c) as [col|] eqn:Hc; [|done].
    injection Hf as <-. decide_in Er Hb. injection Er as <-. apply (extends_insert _ _ _ _ rel); [done| |done|apply agree_refl].
    intros c' Hc'. cbn. destruct (decide (c = c')) as [<-|]; [by rewrite lookup_insert_eq|by rewrite lookup_insert_ne].
  - apply alter_inv in Es as (rel & rel' & Hrel & Hf & ->). destruct (t_columns rel !! c) as [col|] eqn:Hc; [|done].
    injection Hf as <-. injection Er as <-. apply (extends_insert _ _ _ _ rel); [done| |done|apply agree_refl].
    intros c' Hc'. cbn. destruct (decide (c = c')) as [<-|]; [by rewrite lookup_insert_eq|by rewrite lookup_insert_ne].
  - decide_in Es Href. apply alter_inv in Es as (rel & rel' & Hrel & Hf & ->).
    decide_in Hf Hd. injection Hf as <-. decide_in Er Hfk. injection Er as <-.
    by apply (extends_insert _ _ _ _ rel); [| | |apply agree_refl].
  - apply alter_inv in Es as (rel & rel' & Hrel & Hf & ->). decide_in Hf Hd. injection Hf as <-.
    injection Er as <-. by apply (extends_insert _ _ _ _ rel); [| | |apply agree_refl].
  - injection Es as <-. injection Er as <-. apply extends_refl.
  - injection Es as <-. decide_in Er Hd. injection Er as <-. intros t rel Hrel. exists rel. split_and!; [done..|].
    by apply (Hexec f).
Qed.

Definition empty_in (empty : list string) (rows : contents) : Prop := ∀ t, t ∈ empty → rows t = [].

(** A safe operation succeeds on every valid database of the schema. *)
Lemma safe_op_runs empty op sch rows sch' :
  safe_op empty op sch = true → empty_in empty rows → valid (Database sch rows) →
  apply_schema op sch = Some sch' → ∃ rows', apply_rows now op sch' rows = Some rows'.
Proof.
  intros Hs He Hv Es. destruct op as [t cols pk us fks|t|name t cols unique method|name t|t c col|t c|t c b|t c d|name t t2 c c2|name t|name|f];
    cbn [safe_op apply_schema apply_rows] in *; try done; eauto.
  - destruct (decide _) as [|Hn]; [eauto|]. destruct Hn. intros ->.
    apply orb_prop in Hs as [Ht%bool_decide_eq_true|Hs]; [rewrite He by done; apply NoDup_nil_2|].
    destruct (sch !! t) as [rel|] eqn:Hrel; [|done]. destruct (Hv _ _ Hrel) as [_ (_ & Hk & _)]. cbn in Hk.
    apply existsb_exists in Hs as (k & Hin%list_elem_of_In & Hsub). apply bool_decide_eq_true in Hsub.
    rewrite Forall_forall in Hsub. eapply key_ok_more; [exact Hsub|]. by apply Hk, keys_spec.
  - destruct (default_value 0 col) as [v|] eqn:E; [|done].
    destruct (default_value_now now _ _ E) as (v' & -> & Hv'). cbn. rewrite decide_True; [eauto|].
    apply orb_prop in Hs as [Ht%bool_decide_eq_true|Hs]; [left; by apply He|right; congruence].
  - apply orb_prop in Hs as [Ht%bool_decide_eq_true|Hb]; rewrite decide_True; eauto.
    right. rewrite He by done. constructor.
  - apply bool_decide_eq_true in Hs. rewrite decide_True; [eauto|]. rewrite He by done. constructor.
Qed.

Lemma still_empty op sch sch' rows rows' t :
  (∀ f, op ≠ execute f) → apply_schema op sch = Some sch' → apply_rows now op sch' rows = Some rows' →
  t ∈ created op ∨ rows t = [] → rows' t = [].
Proof.
  intros Hf _ Er Ht. destruct op as [t0 cols pk us fks|t0|name t0 cols unique method|name t0|t0 c col|t0 c|t0 c b|t0 c d|name t0 t2 c c2|name t0|name|f];
    cbn [created apply_rows] in *;
    try (destruct Ht as [Ht|Ht]; [by apply elem_of_nil in Ht|]); try (by injection Er as <-);
    try (decide_in Er Hd; by injection Er as <-).
  - injection Er as <-. unfold no_rows. destruct (String.eqb_spec t0 t); [done|].
    destruct Ht as [Ht|Ht]; [by apply list_elem_of_singleton in Ht|exact Ht].
  - injection Er as <-. unfold no_rows. rewrite Ht. by destruct (String.eqb t0 t).
  - destruct (default_value now col) as [v|]; [|done]. cbn in Er. decide_in Er Hd. injection Er as <-.
    unfold map_rows. rewrite Ht. by destruct (String.eqb t0 t).
  - by destruct (Hf f).
Qed.

Lemma exec_all_app ops1 ops2 db : exec_all now (ops1 ++ ops2) db = db' ← exec_all now ops1 db; exec_all now ops2 db'.
Proof.
  revert db. induction ops1 as [|op ops1 IH]; intros db; [done|]. cbn [app]. rewrite !exec_all_cons.
  destruct (exec now op db); [|done]. cbn. apply IH.
Qed.

Lemma safe_ops_run empty ops sch rows sch' :
  safe_ops empty ops sch = Some sch' → empty_in empty rows → valid (Database sch rows) →
  ∃ rows', exec_all now ops (Database sch rows) = Some (Database sch' rows') ∧
    (forallb additive ops = true → extends (Database sch rows) (Database sch' rows')) ∧
    empty_in (reverse (ops ≫= created) ++ empty) rows'.
Proof.
  revert empty sch rows. induction ops as [|op ops IH]; intros empty sch rows Hs He Hv.
  { injection Hs as <-. exists rows. split; [done|]. split; [intros; apply extends_refl|done]. }
  cbn in Hs. destruct (safe_op empty op sch) eqn:Hop; [|done].
  destruct (apply_schema op sch) as [sch1|] eqn:Es; [|done]. cbn in Hs.
  destruct (safe_op_runs _ _ _ _ _ Hop He Hv Es) as [rows1 Er].
  assert (∀ f, op ≠ execute f) as Hnf by (intros f ->; done).
  assert (exec now op (Database sch rows) = Some (Database sch1 rows1)) as E1.
  { unfold exec. cbn. rewrite Es. cbn. by rewrite Er. }
  destruct (IH (created op ++ empty) sch1 rows1 Hs) as (rows' & E & Hext & Hempty); [|by eapply exec_valid|].
  { intros t Ht. eapply still_empty; [exact Hnf|exact Es|exact Er|].
    apply elem_of_app in Ht as [|Ht]; [by left|right; by apply He]. }
  exists rows'. rewrite exec_all_cons, E1. split; [exact E|]. split.
  - cbn. intros [Ha1 Ha]%andb_prop. eapply extends_trans; [|exact (Hext Ha)].
    eapply additive_extends; [exact Ha1| |exact Es|exact Er]. by intros f ->.
  - intros t Ht. apply Hempty. cbn [mbind list_bind] in Ht. rewrite reverse_app, !elem_of_app, !elem_of_reverse in Ht.
    rewrite !elem_of_app, elem_of_reverse. tauto.
Qed.
End progress.
