(* ===== verification/Migrations.v ===== *)
(** * The migrations

    [alembic/versions], from the first to the head, operation by operation, and
    the schema the models of [app/models] declare.  [alembic/env.py] runs all
    migrations of an upgrade in one transaction. *)

From Stdlib Require Import ZArith String Lia.
From stdpp Require Import base tactics option list gmap strings fin_maps.
From S2P Require Import Prelude PyText Ddl.
Local Open Scope string_scope.
Local Open Scope list_scope.
Local Open Scope Z_scope.

Record migration := Migration {
  m_revision : string;
  m_down_revision : option string;
  m_upgrade : list operation;
  m_downgrade : list operation;
}.

(** ** The statements of the multi-tenancy migration *)

Definition is_default (r : row) : bool := bool_decide (r "slug" = VText "default").

(** The next value of the identity of a table whose rows were all given theirs by
    it. *)
Definition next_identity (rs : list row) : Z :=
  fold_right (λ r m, match r "id" with VInt z => Z.max z m | _ => m end) 0 rs + 1.

Definition default_tenant_row (key : Z) : row :=
  set_cell "id" (VInt key) (set_cell "slug" (VText "default") (set_cell "name" (VText "Default Tenant")
    (set_cell "is_active" (VBool true) (λ _, VNull)))).

(** INSERT INTO tenants ... WHERE NOT EXISTS *)
Definition insert_default_tenant (rows : contents) : contents :=
  λ t, if String.eqb t "tenants" && negb (existsb is_default (rows t))
       then rows t ++ [default_tenant_row (next_identity (rows t))] else rows t.

(** (SELECT id FROM tenants WHERE slug = 'default') *)
Definition default_tenant_id (rows : contents) : cell :=
  match filter (λ r, is_default r = true) (rows "tenants") with
  | r :: _ => r "id"
  | [] => VNull
  end.

(** UPDATE t SET tenant_id = ... WHERE tenant_id IS NULL *)
Definition set_default_tenant (t : string) (rows : contents) : contents :=
  map_rows t (λ r, if bool_decide (r "tenant_id" = VNull)
                   then set_cell "tenant_id" (default_tenant_id rows) r else r) rows.

(** UPDATE uploaded_files SET tenant_id = users.tenant_id FROM users WHERE
    uploaded_files.owner_id = users.id *)
Definition tenant_of_owner (rows : contents) : contents :=
  map_rows "uploaded_files" (λ r,
    match filter (λ u : row, u "id" ≠ VNull ∧ u "id" = r "owner_id") (rows "users") with
    | u :: _ => set_cell "tenant_id" (u "tenant_id") r
    | [] => r
    end) rows.

(** ** The versions *)

Definition add_user_role_upgrade : list operation :=
  [create_table "users"
      [("id", Column SqlInteger false None false);
       ("email", Column SqlString false None false);
       ("hashed_password", Column SqlString false None false);
       ("is_active", Column SqlBoolean true None false);
       ("role", Column SqlString false None false)]
      ["id"] [] [];
   create_index "ix_users_id" "users" ["id"] false None;
   create_index "ix_users_email" "users" ["email"] true None].

Definition add_user_role_downgrade : list operation :=
  [drop_index "ix_users_email" "users";
   drop_index "ix_users_id" "users";
   drop_table "users"].

Definition add_user_role : migration :=
  Migration "648d963688dd" None add_user_role_upgrade add_user_role_downgrade.

Definition add_audit_logs_upgrade : list operation :=
  [create_table "audit_logs"
      [("id", Column SqlInteger false None false);
       ("admin_id", Column SqlInteger false None false);
       ("action", Column SqlString false None false);
       ("target_user_id", Column SqlInteger true None false);
       ("created_at", Column SqlDateTime true (Some "now()") false)]
      ["id"] [] [("admin_id", ForeignKey None "users" "id" false)];
   create_index "ix_audit_logs_id" "audit_logs" ["id"] false None;
   alter_nullable "users" "is_active" false].

Definition add_audit_logs_downgrade : list operation :=
  [alter_nullable "users" "is_active" true;
   drop_index "ix_audit_logs_id" "audit_logs";
   drop_table "audit_logs"].

Definition add_audit_logs : migration :=
  Migration "f963f3c8b3a4" (Some "648d963688dd") add_audit_logs_upgrade add_audit_logs_downgrade.

Definition add_audit_log_query_indexes_upgrade : list operation :=
  [create_index "ix_audit_logs_action" "audit_logs" ["action"] false None;
   create_index "ix_audit_logs_admin_id" "audit_logs" ["admin_id"] false None;
   create_index "ix_audit_logs_target_user_id" "audit_logs" ["target_user_id"] false None;
   create_index "ix_audit_logs_created_at" "audit_logs" ["created_at"] false None].

Definition add_audit_log_query_indexes_downgrade : list operation :=
  [drop_index "ix_audit_logs_created_at" "audit_logs";
   drop_index "ix_audit_logs_target_user_id" "audit_logs";
   drop_index "ix_audit_logs_admin_id" "audit_logs";
   drop_index "ix_audit_logs_action" "audit_logs"].

Definition add_audit_log_query_indexes : migration :=
  Migration "7f4e8b9a2c10" (Some "f963f3c8b3a4") add_audit_log_query_indexes_upgrade add_audit_log_query_indexes_downgrade.

Definition add_password_reset_tokens_upgrade : list operation :=
  [create_table "password_reset_tokens"
      [("id", Column SqlInteger false None false);
       ("user_id", Column SqlInteger false None false);
       ("token_hash", Column SqlString false None false);
       ("expires_at", Column SqlDateTime false None false);
       ("used_at", Column SqlDateTime true None false);
       ("created_at", Column SqlDateTime false (Some "now()") false)]
      ["id"] [] [("user_id", ForeignKey None "users" "id" true)];
   create_index "ix_password_reset_tokens_id" "password_reset_tokens" ["id"] false None;
   create_index "ix_password_reset_tokens_user_id" "password_reset_tokens" ["user_id"] false None;
   create_index "ix_password_reset_tokens_token_hash" "password_reset_tokens" ["token_hash"] true None;
   create_index "ix_password_reset_tokens_expires_at" "password_reset_tokens" ["expires_at"] false None].

Definition add_password_reset_tokens_downgrade : list operation :=
  [drop_index "ix_password_reset_tokens_expires_at" "password_reset_tokens";
   drop_index "ix_password_reset_tokens_token_hash" "password_reset_tokens";
   drop_index "ix_password_reset_tokens_user_id" "password_reset_tokens";
   drop_index "ix_password_reset_tokens_id" "password_reset_tokens";
   drop_table "password_reset_tokens"].

Definition add_password_reset_tokens : migration :=
  Migration "3a9f1c7d8e20" (Some "7f4e8b9a2c10") add_password_reset_tokens_upgrade add_password_reset_tokens_downgrade.

Definition add_uploaded_files_upgrade : list operation :=
  [create_table "uploaded_files"
      [("id", Column SqlInteger false None false);
       ("owner_id", Column SqlInteger false None false);
       ("object_key", Column SqlString false None false);
       ("filename", Column SqlString false None false);
       ("content_type", Column SqlString false None false);
       ("size_bytes", Column SqlInteger false None false);
       ("created_at", Column SqlDateTime false (Some "now()") false)]
      ["id"] [(None, ["object_key"])] [("owner_id", ForeignKey None "users" "id" true)];
   create_index "ix_uploaded_files_id" "uploaded_files" ["id"] false None;
   create_index "ix_uploaded_files_owner_id" "uploaded_files" ["owner_id"] false None;
   create_index "ix_uploaded_files_created_at" "uploaded_files" ["created_at"] false None].

Definition add_uploaded_files_downgrade : list operation :=
  [drop_index "ix_uploaded_files_created_at" "uploaded_files";
   drop_index "ix_uploaded_files_owner_id" "uploaded_files";
   drop_index "ix_uploaded_files_id" "uploaded_files";
   drop_table "uploaded_files"].

Definition add_uploaded_files : migration :=
  Migration "9b2c4d6e8f10" (Some "3a9f1c7d8e20") add_uploaded_files_upgrade add_uploaded_files_downgrade.

Definition allow_system_audit_logs_upgrade : list operation :=
  [alter_nullable "audit_logs" "admin_id" true].

Definition allow_system_audit_logs_downgrade : list operation :=
  [alter_nullable "audit_logs" "admin_id" false].

Definition allow_system_audit_logs : migration :=
  Migration "4d5e6f7a8b90" (Some "9b2c4d6e8f10") allow_system_audit_logs_upgrade allow_system_audit_logs_downgrade.

Definition add_multi_tenancy_foundation_upgrade : list operation :=
  [create_table "tenants"
      [("id", Column SqlInteger false None true);
       ("slug", Column SqlString false None false);
       ("name", Column SqlString false None false);
       ("is_active", Column SqlBoolean false (Some "true") false)]
      ["id"] [(None, ["slug"])] [];
   create_index "ix_tenants_id" "tenants" ["id"] false None;
   create_index "ix_tenants_slug" "tenants" ["slug"] true None;
   execute insert_default_tenant;
   add_column "users" "tenant_id" (Column SqlInteger true None false);
   execute (set_default_tenant "users");
   alter_nullable "users" "tenant_id" false;
   create_foreign_key "fk_users_tenant_id_tenants" "users" "tenants" "tenant_id" "id";
   create_index "ix_users_tenant_id" "users" ["tenant_id"] false None;
   drop_index "ix_users_email" "users";
   create_index "ix_users_tenant_id_email" "users" ["tenant_id"; "email"] true None;
   add_column "audit_logs" "tenant_id" (Column SqlInteger true None false);
   execute (set_default_tenant "audit_logs");
   alter_nullable "audit_logs" "tenant_id" false;
   create_foreign_key "fk_audit_logs_tenant_id_tenants" "audit_logs" "tenants" "tenant_id" "id";
   create_index "ix_audit_logs_tenant_id" "audit_logs" ["tenant_id"] false None;
   add_column "uploaded_files" "tenant_id" (Column SqlInteger true None false);
   execute tenant_of_owner;
   execute (set_default_tenant "uploaded_files");
   alter_nullable "uploaded_files" "tenant_id" false;
   create_foreign_key "fk_uploaded_files_tenant_id_tenants" "uploaded_files" "tenants" "tenant_id" "id";
   create_index "ix_uploaded_files_tenant_id" "uploaded_files" ["tenant_id"] false None].

Definition add_multi_tenancy_foundation_downgrade : list operation :=
  [drop_index "ix_uploaded_files_tenant_id" "uploaded_files";
   drop_constraint "fk_uploaded_files_tenant_id_tenants" "uploaded_files";
   drop_column "uploaded_files" "tenant_id";
   drop_index "ix_audit_logs_tenant_id" "audit_logs";
   drop_constraint "fk_audit_logs_tenant_id_tenants" "audit_logs";
   drop_column "audit_logs" "tenant_id";
   drop_index "ix_users_tenant_id_email" "users";
   create_index "ix_users_email" "users" ["email"] true None;
   drop_index "ix_users_tenant_id" "users";
   drop_constraint "fk_users_tenant_id_tenants" "users";
   drop_column "users" "tenant_id";
   drop_index "ix_tenants_slug" "tenants";
   drop_index "ix_tenants_id" "tenants";
   drop_table "tenants"].

Definition add_multi_tenancy_foundation : migration :=
  Migration "a1b2c3d4e5f6" (Some "4d5e6f7a8b90") add_multi_tenancy_foundation_upgrade add_multi_tenancy_foundation_downgrade.

Definition add_idempotency_and_webhook_events_upgrade : list operation :=
  [create_table "idempotency_records"
      [("id", Column SqlInteger false None false);
       ("scope_key", Column SqlString false None false);
       ("status_code", Column SqlInteger false None false);
       ("response_body", Column SqlText false None false);
       ("created_at", Column SqlDateTime false (Some "now()") false);
       ("expires_at", Column SqlDateTime false None false)]
      ["id"] [(None, ["scope_key"])] [];
   create_index "ix_idempotency_records_id" "idempotency_records" ["id"] false None;
   create_index "ix_idempotency_records_scope_key" "idempotency_records" ["scope_key"] true None;
   create_index "ix_idempotency_records_created_at" "idempotency_records" ["created_at"] false None;
   create_index "ix_idempotency_records_expires_at" "idempotency_records" ["expires_at"] false None;
   create_table "webhook_events"
      [("id", Column SqlInteger false None false);
       ("provider", Column SqlString false None false);
       ("event_id", Column SqlString false None false);
       ("payload_hash", Column SqlString false None false);
       ("received_at", Column SqlDateTime false (Some "now()") false)]
      ["id"] [(Some "uq_webhook_events_provider_event_id", ["provider"; "event_id"])] [];
   create_index "ix_webhook_events_id" "webhook_events" ["id"] false None;
   create_index "ix_webhook_events_provider" "webhook_events" ["provider"] false None;
   create_index "ix_webhook_events_received_at" "webhook_events" ["received_at"] false None].

Definition add_idempotency_and_webhook_events_downgrade : list operation :=
  [drop_index "ix_webhook_events_received_at" "webhook_events";
   drop_index "ix_webhook_events_provider" "webhook_events";
   drop_index "ix_webhook_events_id" "webhook_events";
   drop_table "webhook_events";
   drop_index "ix_idempotency_records_expires_at" "idempotency_records";
   drop_index "ix_idempotency_records_created_at" "idempotency_records";
   drop_index "ix_idempotency_records_scope_key" "idempotency_records";
   drop_index "ix_idempotency_records_id" "idempotency_records";
   drop_table "idempotency_records"].

Definition add_idempotency_and_webhook_events : migration :=
  Migration "c3d4e5f6a7b8" (Some "a1b2c3d4e5f6") add_idempotency_and_webhook_events_upgrade add_idempotency_and_webhook_events_downgrade.

Definition add_user_token_version_upgrade : list operation :=
  [add_column "users" "token_version" (Column SqlInteger false (Some "0") false);
   alter_server_default "users" "token_version" None].

Definition add_user_token_version_downgrade : list operation :=
  [drop_column "users" "token_version"].

Definition add_user_token_version : migration :=
  Migration "d4e5f6a7b8c9" (Some "c3d4e5f6a7b8") add_user_token_version_upgrade add_user_token_version_downgrade.

Definition add_password_reset_job_completions_upgrade : list operation :=
  [create_table "password_reset_job_completions"
      [("id", Column SqlInteger false None false);
       ("job_id", Column SqlString false None false);
       ("completed_at", Column SqlDateTime false (Some "now()") false)]
      ["id"] [(None, ["job_id"])] [];
   create_index "ix_password_reset_job_completions_id" "password_reset_job_completions" ["id"] false None;
   create_index "ix_password_reset_job_completions_job_id" "password_reset_job_completions" ["job_id"] true None].

Definition add_password_reset_job_completions_downgrade : list operation :=
  [drop_index "ix_password_reset_job_completions_job_id" "password_reset_job_completions";
   drop_index "ix_password_reset_job_completions_id" "password_reset_job_completions";
   drop_table "password_reset_job_completions"].

Definition add_password_reset_job_completions : migration :=
  Migration "e5f6a7b8c9d0" (Some "d4e5f6a7b8c9") add_password_reset_job_completions_upgrade add_password_reset_job_completions_downgrade.

Definition add_user_email_search_indexes_upgrade : list operation :=
  [create_extension "pg_trgm";
   create_index "ix_users_email_trgm" "users" ["email"] false (Some "gin")].

Definition add_user_email_search_indexes_downgrade : list operation :=
  [drop_index "ix_users_email_trgm" "users"].

Definition add_user_email_search_indexes : migration :=
  Migration "f1a2b3c4d5e6" (Some "e5f6a7b8c9d0") add_user_email_search_indexes_upgrade add_user_email_search_indexes_downgrade.

Definition add_upload_verification_status_upgrade : list operation :=
  [add_column "uploaded_files" "verification_status" (Column SqlString false (Some "verified") false)].

Definition add_upload_verification_status_downgrade : list operation :=
  [drop_column "uploaded_files" "verification_status"].

Definition add_upload_verification_status : migration :=
  Migration "a2b3c4d5e6f7" (Some "f1a2b3c4d5e6") add_upload_verification_status_upgrade add_upload_verification_status_downgrade.

Definition drop_redundant_indexes_upgrade : list operation :=
  [drop_index "ix_audit_logs_id" "audit_logs";
   drop_index "ix_users_id" "users";
   drop_index "ix_users_tenant_id" "users";
   drop_index "ix_tenants_id" "tenants";
   drop_index "ix_tenants_slug" "tenants";
   drop_index "ix_idempotency_records_id" "idempotency_records";
   drop_index "ix_idempotency_records_scope_key" "idempotency_records";
   drop_index "ix_idempotency_records_created_at" "idempotency_records";
   drop_index "ix_webhook_events_id" "webhook_events";
   drop_index "ix_webhook_events_provider" "webhook_events";
   drop_index "ix_uploaded_files_id" "uploaded_files";
   drop_index "ix_uploaded_files_owner_id" "uploaded_files";
   drop_index "ix_uploaded_files_created_at" "uploaded_files";
   drop_index "ix_password_reset_tokens_id" "password_reset_tokens";
   drop_index "ix_password_reset_job_completions_id" "password_reset_job_completions";
   drop_index "ix_password_reset_job_completions_job_id" "password_reset_job_completions"].

Definition drop_redundant_indexes_downgrade : list operation :=
  [create_index "ix_password_reset_job_completions_job_id" "password_reset_job_completions" ["job_id"] true None;
   create_index "ix_password_reset_job_completions_id" "password_reset_job_completions" ["id"] false None;
   create_index "ix_password_reset_tokens_id" "password_reset_tokens" ["id"] false None;
   create_index "ix_uploaded_files_created_at" "uploaded_files" ["created_at"] false None;
   create_index "ix_uploaded_files_owner_id" "uploaded_files" ["owner_id"] false None;
   create_index "ix_uploaded_files_id" "uploaded_files" ["id"] false None;
   create_index "ix_webhook_events_provider" "webhook_events" ["provider"] false None;
   create_index "ix_webhook_events_id" "webhook_events" ["id"] false None;
   create_index "ix_idempotency_records_created_at" "idempotency_records" ["created_at"] false None;
   create_index "ix_idempotency_records_scope_key" "idempotency_records" ["scope_key"] true None;
   create_index "ix_idempotency_records_id" "idempotency_records" ["id"] false None;
   create_index "ix_tenants_slug" "tenants" ["slug"] true None;
   create_index "ix_tenants_id" "tenants" ["id"] false None;
   create_index "ix_users_tenant_id" "users" ["tenant_id"] false None;
   create_index "ix_users_id" "users" ["id"] false None;
   create_index "ix_audit_logs_id" "audit_logs" ["id"] false None].

Definition drop_redundant_indexes : migration :=
  Migration "b3c4d5e6f7a8" (Some "a2b3c4d5e6f7") drop_redundant_indexes_upgrade drop_redundant_indexes_downgrade.

(** From the first to the head. *)
Definition versions : list migration :=
  [add_user_role;
   add_audit_logs;
   add_audit_log_query_indexes;
   add_password_reset_tokens;
   add_uploaded_files;
   allow_system_audit_logs;
   add_multi_tenancy_foundation;
   add_idempotency_and_webhook_events;
   add_user_token_version;
   add_password_reset_job_completions;
   add_user_email_search_indexes;
   add_upload_verification_status;
   drop_redundant_indexes].

(** Running them, each from the schema before it. *)
Definition upgrade (now : Z) (ms : list migration) (db : database) : option database :=
  exec_all now (ms ≫= m_upgrade) db.
Definition downgrade (now : Z) (ms : list migration) (db : database) : option database :=
  exec_all now (reverse ms ≫= m_downgrade) db.

Fixpoint apply_schemas (ops : list operation) (sch : schema) : option schema :=
  match ops with [] => Some sch | op :: ops => sch' ← apply_schema op sch; apply_schemas ops sch' end.

(** The schema before the n-th version. *)
Definition schema_at (n : nat) : option schema := apply_schemas (take n versions ≫= m_upgrade) ∅.

(** ** What the models declare *)

Definition required (ty : sql_type) : column := Column ty false None false.
Definition timestamp : column := Column SqlDateTime false (Some "now()") false.
Definition plain_index (c : string) : index := Index [c] false None.
Definition on_id (t : string) : foreign_key := ForeignKey None t "id" false.

Definition tenants_table : relation :=
  Relation {["id" := required SqlInteger; "slug" := required SqlString; "name" := required SqlString;
             "is_active" := required SqlBoolean]}
    ["id"] [(None, ["slug"])] ∅ ∅.

Definition users_table : relation :=
  Relation {["id" := required SqlInteger; "tenant_id" := required SqlInteger; "email" := required SqlString;
             "hashed_password" := required SqlString; "is_active" := required SqlBoolean;
             "role" := required SqlString; "token_version" := required SqlInteger]}
    ["id"] [] {["tenant_id" := on_id "tenants"]}
    {["ix_users_tenant_id_email" := Index ["tenant_id"; "email"] true None]}.

Definition audit_logs_table : relation :=
  Relation {["id" := required SqlInteger; "tenant_id" := required SqlInteger;
             "admin_id" := Column SqlInteger true None false; "action" := required SqlString;
             "target_user_id" := Column SqlInteger true None false;
             "created_at" := Column SqlDateTime true (Some "now()") false]}
    ["id"] [] {["tenant_id" := on_id "tenants"; "admin_id" := on_id "users"]}
    {["ix_audit_logs_tenant_id" := plain_index "tenant_id"; "ix_audit_logs_admin_id" := plain_index "admin_id";
      "ix_audit_logs_action" := plain_index "action";
      "ix_audit_logs_target_user_id" := plain_index "target_user_id";
      "ix_audit_logs_created_at" := plain_index "created_at"]}.

Definition idempotency_records_table : relation :=
  Relation {["id" := required SqlInteger; "scope_key" := required SqlString;
             "status_code" := required SqlInteger; "response_body" := required SqlText;
             "created_at" := timestamp; "expires_at" := required SqlDateTime]}
    ["id"] [(None, ["scope_key"])] ∅
    {["ix_idempotency_records_expires_at" := plain_index "expires_at"]}.

Definition password_reset_job_completions_table : relation :=
  Relation {["id" := required SqlInteger; "job_id" := required SqlString; "completed_at" := timestamp]}
    ["id"] [(None, ["job_id"])] ∅ ∅.

Definition password_reset_tokens_table : relation :=
  Relation {["id" := required SqlInteger; "user_id" := required SqlInteger; "token_hash" := required SqlString;
             "expires_at" := required SqlDateTime; "used_at" := Column SqlDateTime true None false;
             "created_at" := timestamp]}
    ["id"] [] {["user_id" := ForeignKey None "users" "id" true]}
    {["ix_password_reset_tokens_user_id" := plain_index "user_id";
      "ix_password_reset_tokens_expires_at" := plain_index "expires_at";
      "ix_password_reset_tokens_token_hash" := Index ["token_hash"] true None]}.

Definition uploaded_files_table : relation :=
  Relation {["id" := required SqlInteger; "tenant_id" := required SqlInteger; "owner_id" := required SqlInteger;
             "object_key" := required SqlString; "filename" := required SqlString;
             "content_type" := required SqlString; "size_bytes" := required SqlInteger;
             "verification_status" := Column SqlString false (Some "verified") false;
             "created_at" := timestamp]}
    ["id"] [(None, ["object_key"])]
    {["tenant_id" := on_id "tenants"; "owner_id" := ForeignKey None "users" "id" true]}
    {["ix_uploaded_files_tenant_id" := plain_index "tenant_id"]}.

Definition webhook_events_table : relation :=
  Relation {["id" := required SqlInteger; "provider" := required SqlString; "event_id" := required SqlString;
             "payload_hash" := required SqlString; "received_at" := timestamp]}
    ["id"] [(Some "uq_webhook_events_provider_event_id", ["provider"; "event_id"])] ∅
    {["ix_webhook_events_received_at" := plain_index "received_at"]}.

(** [Base.metadata] *)
Definition metadata : schema :=
  {["tenants" := tenants_table; "users" := users_table; "audit_logs" := audit_logs_table;
    "idempotency_records" := idempotency_records_table;
    "password_reset_job_completions" := password_reset_job_completions_table;
    "password_reset_tokens" := password_reset_tokens_table; "uploaded_files" := uploaded_files_table;
    "webhook_events" := webhook_events_table]}.
