(* ===== verification/MigrationSafety.v ===== *)
(** * What the migrations do

    The chain of versions leads to the schema the models declare, but for the
    differences listed here, and the constraints of that schema are those of
    [Models].  That the versions run on valid databases and keep their rows is
    shown in [MigrationRuns], their downgrades in [Downgrades]. *)

From Stdlib Require Import ZArith String Lia.
From stdpp Require Import base tactics option list gmap strings fin_maps.
From S2P Require Import Prelude PyText Models DbFacts Ddl Migrations.
Local Open Scope string_scope.
Local Open Scope list_scope.
Local Open Scope Z_scope.

(** ** The head *)

(** Each version follows the one before it. *)
Fixpoint linked (before : option string) (ms : list migration) : bool :=
  match ms with
  | [] => true
  | m :: ms => bool_decide (m_down_revision m = before) && linked (Some (m_revision m)) ms
  end.

(** What the migrations have beyond the models: the identity and the default of
    the tenants and the trigram index; and names of foreign keys. *)
Definition named (name t : string) : foreign_key := ForeignKey (Some name) t "id" false.
Definition users_head : relation :=
  set_foreign_keys (λ _, {["tenant_id" := named "fk_users_tenant_id_tenants" "tenants"]})
    (set_indexes (<["ix_users_email_trgm" := Index ["email"] false (Some "gin")]>) users_table).
Definition tenants_head : relation :=
  set_columns (λ m, <["id" := Column SqlInteger false None true]>
    (<["is_active" := Column SqlBoolean false (Some "true") false]> m)) tenants_table.
Definition audit_logs_head : relation :=
  set_foreign_keys (<["tenant_id" := named "fk_audit_logs_tenant_id_tenants" "tenants"]>) audit_logs_table.
Definition uploaded_files_head : relation :=
  set_foreign_keys (<["tenant_id" := named "fk_uploaded_files_tenant_id_tenants" "tenants"]>)
    uploaded_files_table.
Definition head_schema : schema :=
  <["users" := users_head]> (<["tenants" := tenants_head]> (<["audit_logs" := audit_logs_head]>
    (<["uploaded_files" := uploaded_files_head]> metadata))).

Lemma versions_head : schema_at (length versions) = Some head_schema.
Proof. apply (bool_decide_unpack _). vm_compute. exact I. Qed.

(** ** The constraints of the head *)

Lemma keys_complete rel cols : is_key rel cols → cols ∈ keys rel.
Proof.
  unfold keys. intros [->|[H|(name & ix & H & Hu & <-)]]; [by left|right; apply elem_of_app; by left|].
  right. apply elem_of_app. right. apply list_elem_of_fmap. exists (name, ix). split; [done|].
  apply list_elem_of_filter. split; [done|]. by apply elem_of_map_to_list.
Qed.

(** Validity of one relation, over its lists of columns, keys and foreign keys. *)
Lemma rel_ok_lists rows t rel :
  rel_ok rows t rel ↔
  Forall (λ r : row, forallb (λ '(c, col), cell_ok col (r c)) (map_to_list (t_columns rel)) = true) (rows t) ∧
  Forall (λ cols, key_ok cols (rows t)) (keys rel) ∧
  Forall (λ '(c, fk), fk_ok rows c fk (rows t)) (map_to_list (t_foreign_keys rel)).
Proof.
  unfold rel_ok. rewrite map_Forall_to_list.
  assert ((∀ cols, is_key rel cols → key_ok cols (rows t)) ↔ Forall (λ cols, key_ok cols (rows t)) (keys rel)) as ->.
  { rewrite Forall_forall. split; intros H cols Hc; apply H; [by apply keys_spec|by apply keys_complete]. }
  assert (Forall (row_ok rel) (rows t) ↔ Forall (λ r : row,
    forallb (λ '(c, col), cell_ok col (r c)) (map_to_list (t_columns rel)) = true) (rows t)) as ->; [|done].
  apply Forall_iff. intros r. unfold row_ok. rewrite forallb_forall, map_Forall_to_list, Forall_forall.
  split; intros H [c col] Hin; apply (H (c, col)); by apply list_elem_of_In.
Qed.

Lemma valid_list db :
  valid db ↔ Forall (λ '(t, rel), wf_rel (d_schema db) rel ∧ rel_ok (d_rows db) t rel) (map_to_list (d_schema db)).
Proof. unfold valid. by rewrite map_Forall_to_list. Qed.

#[export] Instance valid_dec db : Decision (valid db).
Proof.
  assert (∀ P Q : Prop, Decision P → (Q ↔ P) → Decision Q) as Hiff.
  { intros P Q [H|H] E; [left|right]; tauto. }
  eapply Hiff; [|apply valid_list]. apply Forall_dec. intros [t rel]. apply and_dec; [apply _|].
  eapply Hiff; [|apply rel_ok_lists]. apply and_dec; [apply _|]. apply and_dec; [apply _|].
  apply Forall_dec. intros [c fk]. apply _.
Defined.

(** The rows of the tables. *)
Definition row_of (cells : list (string * cell)) : row :=
  fold_right (λ '(c, v) r, set_cell c v r) (λ _, VNull) cells.
Definition opt_cell {A} (f : A → cell) (o : option A) : cell := match o with Some a => f a | None => VNull end.

Definition tenant_row (t : Tenant) : row :=
  row_of [("id", VInt (t_id t)); ("slug", VText (t_slug t)); ("name", VText (t_name t));
          ("is_active", VBool (t_is_active t))].
Definition user_row (u : User) : row :=
  row_of [("id", VInt (u_id u)); ("tenant_id", VInt (u_tenant_id u)); ("email", VText (u_email u));
          ("hashed_password", VText (u_hashed_password u)); ("is_active", VBool (u_is_active u));
          ("role", VText (u_role u)); ("token_version", VInt (u_token_version u))].
Definition audit_log_row (l : AuditLog) : row :=
  row_of [("id", VInt (al_id l)); ("tenant_id", VInt (al_tenant_id l)); ("admin_id", opt_cell VInt (al_admin_id l));
          ("action", VText (al_action l)); ("target_user_id", opt_cell VInt (al_target_user_id l));
          ("created_at", VTime (al_created_at l))].
Definition idempotency_row (r : IdempotencyRecord) : row :=
  row_of [("id", VInt (ir_id r)); ("scope_key", VText (ir_scope_key r)); ("status_code", VInt (ir_status_code r));
          ("response_body", VText (ir_response_body r)); ("created_at", VTime (ir_created_at r));
          ("expires_at", VTime (ir_expires_at r))].
Definition completion_row (c : PasswordResetJobCompletion) : row :=
  row_of [("id", VInt (jc_id c)); ("job_id", VText (jc_job_id c)); ("completed_at", VTime (jc_completed_at c))].
Definition reset_token_row (t : PasswordResetToken) : row :=
  row_of [("id", VInt (pt_id t)); ("user_id", VInt (pt_user_id t)); ("token_hash", VText (pt_token_hash t));
          ("expires_at", VTime (pt_expires_at t)); ("used_at", opt_cell VTime (pt_used_at t));
          ("created_at", VTime (pt_created_at t))].
Definition uploaded_file_row (f : UploadedFile) : row :=
  row_of [("id", VInt (f_id f)); ("tenant_id", VInt (f_tenant_id f)); ("owner_id", VInt (f_owner_id f));
          ("object_key", VText (f_object_key f)); ("filename", VText (f_filename f));
          ("content_type", VText (f_content_type f)); ("size_bytes", VInt (f_size_bytes f));
          ("verification_status", VText (f_verification_status f)); ("created_at", VTime (f_created_at f))].
Definition webhook_event_row (e : WebhookEvent) : row :=
  row_of [("id", VInt (we_id e)); ("provider", VText (we_provider e)); ("event_id", VText (we_event_id e));
          ("payload_hash", VText (we_payload_hash e)); ("received_at", VTime (we_received_at e))].

Definition rows_of {R} (f : R → row) (m : gmap Z R) : list row := (f ∘ snd) <$> map_to_list m.

Definition stored_rows (d : tables) : contents := λ t,
  if String.eqb t "tenants" then rows_of tenant_row (tenants d)
  else if String.eqb t "users" then rows_of user_row (users d)
  else if String.eqb t "audit_logs" then rows_of audit_log_row (audit_logs d)
  else if String.eqb t "idempotency_records" then rows_of idempotency_row (idempotency_records d)
  else if String.eqb t "password_reset_job_completions" then rows_of completion_row (job_completions d)
  else if String.eqb t "password_reset_tokens" then rows_of reset_token_row (reset_tokens d)
  else if String.eqb t "uploaded_files" then rows_of uploaded_file_row (uploaded_files d)
  else if String.eqb t "webhook_events" then rows_of webhook_event_row (webhook_events d)
  else [].

Lemma rows_checked {R} (f : R → row) (m : gmap Z R) cols :
  (∀ r, forallb (λ '(c, col), cell_ok col (f r c)) cols = true) →
  Forall (λ r : row, forallb (λ '(c, col), cell_ok col (r c)) cols = true) (rows_of f m).
Proof. intros Hf. apply Forall_fmap, Forall_forall. intros kr _. apply Hf. Qed.

(** A key of columns that are never null is a key of the rows. *)
Lemma key_ok_rows {R K} `{EqDecision K} (f : R → row) (key : R → K) (g : K → list cell) cols (m : gmap Z R) :
  (∀ r, f r <$> cols = g (key r)) → (∀ a b, g a = g b → a = b) → (∀ k, VNull ∉ g k) →
  key_ok cols (rows_of f m) ↔ unique_on key m.
Proof.
  intros Hf Hinj Hnull. unfold key_ok, key_values, unique_on, rows_of.
  assert (filter (λ k, VNull ∉ k) ((λ r : row, r <$> cols) <$> ((f ∘ snd) <$> map_to_list m)) =
          g <$> (key ∘ snd <$> map_to_list m)) as ->.
  { induction (map_to_list m) as [|[i r] l IH]; [done|]. cbn [fmap list_fmap].
    rewrite filter_cons, decide_True by (cbn; rewrite Hf; apply Hnull). f_equal; [apply Hf|exact IH]. }
  split; [apply NoDup_fmap_1|]. apply NoDup_fmap_2. exact Hinj.
Qed.

Lemma ids_unique {R} (id : R → Z) (m : gmap Z R) : map_Forall (λ k r, id r = k) m → unique_on id m.
Proof.
  intros Hk. apply unique_on_spec. intros i j r r' Hi Hj E.
  by rewrite <- (Hk _ _ Hi), <- (Hk _ _ Hj).
Qed.

(** A foreign key to the identifiers of a table. *)
Lemma fk_ok_rows {R R'} (f : R → row) (f' : R' → row) (fk : R → option Z) (id : R' → Z) rows c k
    (m : gmap Z R) (m' : gmap Z R') :
  (∀ r, f r c = opt_cell VInt (fk r)) → (∀ r', f' r' (fk_column k) = VInt (id r')) →
  map_Forall (λ i r', id r' = i) m' → rows (fk_table k) = rows_of f' m' →
  fk_ok rows c k (rows_of f m) ↔ refers fk m m'.
Proof.
  intros Hf Hf' Hid Hrows. unfold fk_ok, refers, rows_of at 1. rewrite Forall_fmap, map_Forall_to_list, Hrows.
  apply Forall_iff. intros [i r]. cbn [compose snd uncurry]. rewrite Hf. destruct (fk r) as [z|]; cbn [opt_cell]; [|tauto].
  split.
  - intros [|Hin]; [done|]. apply list_elem_of_fmap in Hin as (r0 & E & Hin). unfold rows_of in Hin.
    apply list_elem_of_fmap in Hin as ([j r'] & -> & Hin%elem_of_map_to_list). cbn in E. rewrite Hf' in E.
    injection E as E. rewrite E, (Hid _ _ Hin). by eexists.
  - intros [r' Hr']. right. apply list_elem_of_fmap. exists (f' r'). rewrite Hf', (Hid _ _ Hr'). split; [done|].
    unfold rows_of. apply list_elem_of_fmap. exists (z, r'). split; [done|]. by apply elem_of_map_to_list.
Qed.

Section constraints.
Variable d : tables.
Hypothesis Hkeyed : keyed d.

(** The lists a relation of the head stands for. *)
Ltac relation_lists :=
  rewrite rel_ok_lists;
  match goal with |- context [Forall _ (keys ?rel)] =>
    let ks := eval vm_compute in (keys rel) in
    let fks := eval vm_compute in (map_to_list (t_foreign_keys rel)) in
    change (keys rel) with ks; change (map_to_list (t_foreign_keys rel)) with fks end;
  rewrite ?Forall_cons, ?Forall_nil.

(** Every row fits its columns. *)
Lemma checked {R} (f : R → row) (m : gmap Z R) cols (P Q : Prop) :
  (∀ r, forallb (λ '(c, col), cell_ok col (f r c)) cols = true) → (P ↔ Q) →
  Forall (λ r : row, forallb (λ '(c, col), cell_ok col (r c)) cols = true) (rows_of f m) ∧ P ↔ Q.
Proof. intros Hf HPQ. rewrite <- HPQ. split; [by intros [_ ?]|]. intros HP. split; [by apply rows_checked|done]. Qed.

Definition text_key (s : string) : list cell := [VText s].
Definition id_key (z : Z) : list cell := [VInt z].
Lemma text_key_inj a b : text_key a = text_key b → a = b.
Proof. by intros [= ->]. Qed.
Lemma id_key_inj a b : id_key a = id_key b → a = b.
Proof. by intros [= ->]. Qed.
Lemma one_not_null (v : cell) : v ≠ VNull → VNull ∉ [v].
Proof. intros Hv H%list_elem_of_singleton. congruence. Qed.

(** The primary key of a table holds by the way the rows are stored. *)
Lemma id_ok {R} (f : R → row) (id : R → Z) (m : gmap Z R) :
  (∀ r, f r "id" = VInt (id r)) → map_Forall (λ k r, id r = k) m → key_ok ["id"] (rows_of f m).
Proof.
  intros Hf Hm. apply (key_ok_rows f id id_key); [|apply id_key_inj|by intros; apply one_not_null|by apply ids_unique].
  intros r. cbn. by rewrite Hf.
Qed.

Lemma text_ok {R} (f : R → row) (key : R → string) c (m : gmap Z R) :
  (∀ r, f r c = VText (key r)) → key_ok [c] (rows_of f m) ↔ unique_on key m.
Proof.
  intros Hf. apply (key_ok_rows f key text_key); [|apply text_key_inj|by intros; apply one_not_null].
  intros r. cbn. by rewrite Hf.
Qed.

Lemma tenants_ok :
  rel_ok (stored_rows d) "tenants" tenants_head ↔ unique_on t_slug (tenants d).
Proof.
  relation_lists. change (stored_rows d "tenants") with (rows_of tenant_row (tenants d)).
  apply checked; [intros []; vm_compute; reflexivity|]. rewrite (text_ok tenant_row t_slug "slug" _ (λ _, eq_refl)).
  pose proof (id_ok tenant_row t_id (tenants d) (λ _, eq_refl) (proj1 Hkeyed)). tauto.
Qed.

(** A foreign key of a table of [d]. *)
Lemma fk_to_users {R} (f : R → row) (fk : R → option Z) c k (m : gmap Z R) :
  (∀ r, f r c = opt_cell VInt (fk r)) → fk_table k = "users" → fk_column k = "id" →
  fk_ok (stored_rows d) c k (rows_of f m) ↔ refers fk m (users d).
Proof.
  intros Hf Ht Hc. apply (fk_ok_rows f user_row fk u_id); [done|by rewrite Hc|apply Hkeyed|by rewrite Ht].
Qed.

Lemma fk_to_tenants {R} (f : R → row) (fk : R → option Z) c k (m : gmap Z R) :
  (∀ r, f r c = opt_cell VInt (fk r)) → fk_table k = "tenants" → fk_column k = "id" →
  fk_ok (stored_rows d) c k (rows_of f m) ↔ refers fk m (tenants d).
Proof.
  intros Hf Ht Hc. apply (fk_ok_rows f tenant_row fk t_id); [done|by rewrite Hc|apply Hkeyed|by rewrite Ht].
Qed.

Lemma users_ok :
  rel_ok (stored_rows d) "users" users_head ↔
  unique_on (λ u, (u_tenant_id u, u_email u)) (users d) ∧ refers (Some ∘ u_tenant_id) (users d) (tenants d).
Proof.
  relation_lists. change (stored_rows d "users") with (rows_of user_row (users d)).
  apply checked; [intros []; vm_compute; reflexivity|].
  rewrite (key_ok_rows user_row (λ u, (u_tenant_id u, u_email u)) (λ '(t, e), [VInt t; VText e]) ["tenant_id"; "email"]);
    [|done|by intros [] [] [= -> ->]|].
  2: { intros [t e]. rewrite elem_of_cons. intros [|H]; [done|]. by apply list_elem_of_singleton in H. }
  rewrite (fk_to_tenants user_row (Some ∘ u_tenant_id)) by done.
  pose proof (id_ok user_row u_id (users d) (λ _, eq_refl) (proj1 (proj2 Hkeyed))). tauto.
Qed.

Lemma audit_logs_ok :
  rel_ok (stored_rows d) "audit_logs" audit_logs_head ↔
  refers (Some ∘ al_tenant_id) (audit_logs d) (tenants d) ∧ refers al_admin_id (audit_logs d) (users d).
Proof.
  relation_lists. change (stored_rows d "audit_logs") with (rows_of audit_log_row (audit_logs d)).
  apply checked; [intros [? ? [] ? [] ?]; vm_compute; reflexivity|].
  rewrite (fk_to_tenants audit_log_row (Some ∘ al_tenant_id) "tenant_id") by done.
  rewrite (fk_to_users audit_log_row al_admin_id "admin_id") by done.
  pose proof (id_ok audit_log_row al_id (audit_logs d) (λ _, eq_refl) (proj1 (proj2 (proj2 Hkeyed)))). tauto.
Qed.

Lemma idempotency_records_ok :
  rel_ok (stored_rows d) "idempotency_records" idempotency_records_table ↔
  unique_on ir_scope_key (idempotency_records d).
Proof.
  relation_lists. change (stored_rows d "idempotency_records") with (rows_of idempotency_row (idempotency_records d)).
  apply checked; [intros []; vm_compute; reflexivity|].
  rewrite (text_ok idempotency_row ir_scope_key "scope_key" _ (λ _, eq_refl)).
  destruct Hkeyed as (_ & _ & _ & H & _).
  pose proof (id_ok idempotency_row ir_id (idempotency_records d) (λ _, eq_refl) H). tauto.
Qed.

Lemma completions_ok :
  rel_ok (stored_rows d) "password_reset_job_completions" password_reset_job_completions_table ↔
  unique_on jc_job_id (job_completions d).
Proof.
  relation_lists.
  change (stored_rows d "password_reset_job_completions") with (rows_of completion_row (job_completions d)).
  apply checked; [intros []; vm_compute; reflexivity|].
  rewrite (text_ok completion_row jc_job_id "job_id" _ (λ _, eq_refl)).
  destruct Hkeyed as (_ & _ & _ & _ & H & _).
  pose proof (id_ok completion_row jc_id (job_completions d) (λ _, eq_refl) H). tauto.
Qed.

Lemma reset_tokens_ok :
  rel_ok (stored_rows d) "password_reset_tokens" password_reset_tokens_table ↔
  unique_on pt_token_hash (reset_tokens d) ∧ refers (Some ∘ pt_user_id) (reset_tokens d) (users d).
Proof.
  relation_lists. change (stored_rows d "password_reset_tokens") with (rows_of reset_token_row (reset_tokens d)).
  apply checked; [intros [? ? ? ? [] ?]; vm_compute; reflexivity|].
  rewrite (text_ok reset_token_row pt_token_hash "token_hash" _ (λ _, eq_refl)).
  rewrite (fk_to_users reset_token_row (Some ∘ pt_user_id)) by done.
  destruct Hkeyed as (_ & _ & _ & _ & _ & H & _).
  pose proof (id_ok reset_token_row pt_id (reset_tokens d) (λ _, eq_refl) H). tauto.
Qed.

Lemma uploaded_files_ok :
  rel_ok (stored_rows d) "uploaded_files" uploaded_files_head ↔
  unique_on f_object_key (uploaded_files d) ∧
  refers (Some ∘ f_tenant_id) (uploaded_files d) (tenants d) ∧
  refers (Some ∘ f_owner_id) (uploaded_files d) (users d).
Proof.
  relation_lists. change (stored_rows d "uploaded_files") with (rows_of uploaded_file_row (uploaded_files d)).
  apply checked; [intros []; vm_compute; reflexivity|].
  rewrite (text_ok uploaded_file_row f_object_key "object_key" _ (λ _, eq_refl)).
  rewrite (fk_to_tenants uploaded_file_row (Some ∘ f_tenant_id) "tenant_id") by done.
  rewrite (fk_to_users uploaded_file_row (Some ∘ f_owner_id) "owner_id") by done.
  destruct Hkeyed as (_ & _ & _ & _ & _ & _ & H & _).
  pose proof (id_ok uploaded_file_row f_id (uploaded_files d) (λ _, eq_refl) H). tauto.
Qed.

Lemma webhook_events_ok :
  rel_ok (stored_rows d) "webhook_events" webhook_events_table ↔
  unique_on (λ e, (we_provider e, we_event_id e)) (webhook_events d).
Proof.
  relation_lists. change (stored_rows d "webhook_events") with (rows_of webhook_event_row (webhook_events d)).
  apply checked; [intros []; vm_compute; reflexivity|].
  rewrite (key_ok_rows webhook_event_row (λ e, (we_provider e, we_event_id e)) (λ '(p, e), [VText p; VText e])
    ["provider"; "event_id"]); [|done|by intros [] [] [= -> ->]|].
  2: { intros [p e]. rewrite elem_of_cons. intros [|H]; [done|]. by apply list_elem_of_singleton in H. }
  destruct Hkeyed as (_ & _ & _ & _ & _ & _ & _ & H).
  pose proof (id_ok webhook_event_row we_id (webhook_events d) (λ _, eq_refl) H). tauto.
Qed.
End constraints.

Lemma head_list :
  map_to_list head_schema =
  [("webhook_events", webhook_events_table); ("users", users_head); ("uploaded_files", uploaded_files_head);
   ("idempotency_records", idempotency_records_table); ("audit_logs", audit_logs_head);
   ("tenants", tenants_head); ("password_reset_job_completions", password_reset_job_completions_table);
   ("password_reset_tokens", password_reset_tokens_table)].
Proof. apply (bool_decide_unpack _). vm_compute. exact I. Qed.

Lemma head_wf : Forall (λ '(t, rel), wf_rel head_schema rel) (map_to_list head_schema).
Proof.
  rewrite head_list.
  repeat (apply Forall_cons_2; [cbv beta iota; apply (bool_decide_unpack _); vm_compute; exact I|]).
  apply Forall_nil_2.
Qed.

(** C39: the models and the migrations agree.  Each version follows the one before
    it, and running all of them on an empty database leads to the schema the models
    declare, but for the names of some foreign keys, an index for searches and the
    generated key and default of the tenants.  The constraints of that schema are
    exactly the ones this development assumes of the tables. *)
Theorem migrations_install_models :
  linked None versions = true ∧ NoDup (m_revision <$> versions) ∧
  schema_at (length versions) = Some head_schema ∧
  ∀ d, keyed d → valid (Database head_schema (stored_rows d)) ↔ constraints d.
Proof.
  split; [vm_compute; reflexivity|]. split; [apply (bool_decide_unpack _); vm_compute; exact I|].
  split; [exact versions_head|]. intros d Hd. rewrite valid_list. cbn [d_schema d_rows].
  pose proof head_wf as Hwf. rewrite head_list in *. rewrite !Forall_cons in *. rewrite !Forall_nil in *.
  cbv beta iota in *.
  rewrite webhook_events_ok, users_ok, uploaded_files_ok, idempotency_records_ok, audit_logs_ok,
    tenants_ok, completions_ok, reset_tokens_ok by done.
  unfold constraints, unique_constraints, foreign_keys. tauto.
Qed.
