(* ===== verification/MigrationRuns.v ===== *)
(** * Running the migrations

    Every migration runs on the valid databases of the version before it, whose
    rows it keeps.  Most of them only have operations that no rows can stop; the
    one that adds the tenants fills a column before it is declared required. *)

From Stdlib Require Import ZArith String Lia.
From stdpp Require Import base tactics option list gmap strings fin_maps.
From S2P Require Import Prelude PyText Models DbFacts Ddl Migrations MigrationSafety.
Local Open Scope string_scope.
Local Open Scope list_scope.
Local Open Scope Z_scope.

(** Closed facts, by computation. *)
Ltac computed := apply (bool_decide_unpack _); vm_compute; exact I.

(** ** Changing a column no constraint is on *)

Section steps.
Variable now : Z.

Lemma exec_intro op sch rows sch' rows' :
  apply_schema op sch = Some sch' → apply_rows now op sch' rows = Some rows' →
  exec now op (Database sch rows) = Some (Database sch' rows').
Proof. intros Hs Hr. unfold exec. cbn. rewrite Hs. cbn. by rewrite Hr. Qed.

(** The statements are accepted when the rows they leave are valid. *)
Lemma execute_valid f sch rows :
  valid (Database sch (f rows)) → exec now (execute f) (Database sch rows) = Some (Database sch (f rows)).
Proof.
  intros Hv. apply exec_intro; [done|]. cbn. rewrite decide_True; [done|].
  intros t rel Hrel. destruct (Hv _ _ Hrel) as [_ (Hr & Hk & Hf)]. cbn in *. split_and!; [done| | | |done].
  - apply Hk. by left.
  - apply Forall_forall. intros u Hu. apply Hk. right; left. apply list_elem_of_fmap. eauto.
  - intros name ix Hix Hu. apply Hk. right; right. eauto.
Qed.

Lemma valid_update sch rows rows' t c col rel g :
  valid (Database sch rows) → sch !! t = Some rel → t_columns rel !! c = Some col →
  set_columns (<[c := col]>) (without_column c rel) = rel → ¬ referenced sch t (Some c) →
  c ∉ t_primary_key rel → (∀ r c', c' ≠ c → g r c' = r c') →
  Forall (λ r : row, cell_ok col (g r c) = true) (rows t) →
  (∀ t', rows' t' = map_rows t g rows t') → valid (Database sch rows').
Proof.
  intros Hv Hrel Hcol Hsame Href Hpk Hg Hcells Hrows'. apply (valid_ext _ (map_rows t g rows)); [done|].
  pose proof (valid_drop_column _ _ _ _ _ Hv Hrel Href Hpk) as Hv1.
  eapply valid_column in Hv1; [|by rewrite lookup_insert_eq|exact Hg| |exact Hcells].
  - rewrite insert_insert_eq, Hsame, (insert_id sch t rel) in Hv1 by done. exact Hv1.
  - cbn. rewrite lookup_delete_eq. by intros [].
Qed.

(** The first row of a table nothing refers from. *)
Lemma valid_first_row sch rows t rel r :
  valid (Database sch rows) → sch !! t = Some rel → t_foreign_keys rel = ∅ → rows t = [] → row_ok rel r →
  valid (Database sch (λ t', if String.eqb t t' then [r] else rows t')).
Proof.
  intros Hv Hrel Hfks Hrows Hr t2 rel2 H2. cbn [d_schema d_rows] in *.
  destruct (Hv _ _ H2) as [Hwf (Hr2 & Hk2 & Hf2)]. cbn in *. split; [done|]. unfold rel_ok.
  destruct (String.eqb_spec t t2) as [<-|Hne].
  - rewrite Hrel in H2. injection H2 as <-. split; [by apply Forall_singleton|]. split.
    + intros cols _. unfold key_ok, key_values. cbn. destruct (decide _); [apply NoDup_singleton|apply NoDup_nil_2].
    + rewrite Hfks. intros c fk H. by rewrite lookup_empty in H.
  - split; [done|]. split; [done|]. intros c fk Hfk. specialize (Hf2 _ _ Hfk). unfold fk_ok in *. cbn in *.
    eapply Forall_impl; [exact Hf2|]. cbn. intros r0 [Hn|Hin]; [by left|right].
    destruct (String.eqb_spec t (fk_table fk)) as [E|]; [|done]. rewrite <- E, Hrows in Hin. by apply elem_of_nil in Hin.
Qed.
End steps.

(** ** The multi-tenancy migration *)

Section tenancy.
Variable now : Z.

(** The schema before its k-th operation. *)
Definition tenancy (k : nat) : schema :=
  default ∅ (apply_schemas (take k add_multi_tenancy_foundation_upgrade) (default ∅ (schema_at 6))).

(** The rows are kept, but for the column the migration adds. *)
Definition extends_but (db db' : database) : Prop :=
  ∀ t rel, t ≠ "tenants" → d_schema db !! t = Some rel → ∃ rel', d_schema db' !! t = Some rel' ∧
    (∀ c, is_Some (t_columns rel !! c) → is_Some (t_columns rel' !! c)) ∧
    agree (λ c, is_Some (t_columns rel !! c) ∧ c ≠ "tenant_id") (d_rows db t) (d_rows db' t).

Lemma extends_but_of db db' : extends db db' → extends_but db db'.
Proof.
  intros Hext t rel _ Hrel. destruct (Hext _ _ Hrel) as (rel' & Hrel' & Hc & Hag).
  exists rel'. split_and!; [done..|]. eapply agree_mono; [|exact Hag]. by intros c [? _].
Qed.

Lemma extends_but_trans db1 db2 db3 : extends_but db1 db2 → extends_but db2 db3 → extends_but db1 db3.
Proof.
  intros H12 H23 t rel Ht Hrel. destruct (H12 _ _ Ht Hrel) as (rel2 & Hrel2 & Hc2 & Ha2).
  destruct (H23 _ _ Ht Hrel2) as (rel3 & Hrel3 & Hc3 & Ha3). exists rel3. split_and!; [done|auto|].
  eapply agree_trans; [exact Ha2|]. eapply agree_mono; [|exact Ha3]. intros c [? ?]. auto.
Qed.

(** Running operations, with what is known of the rows afterwards. *)
Definition runs (ops : list operation) (sch : schema) (rows : contents) (sch' : schema) (Q : contents → Prop) : Prop :=
  ∃ rows', exec_all now ops (Database sch rows) = Some (Database sch' rows') ∧
    extends_but (Database sch rows) (Database sch' rows') ∧ Q rows'.

Lemma runs_app ops1 ops2 sch rows sch1 sch2 Q1 Q2 :
  valid (Database sch rows) → runs ops1 sch rows sch1 Q1 →
  (∀ rows1, valid (Database sch1 rows1) → Q1 rows1 → runs ops2 sch1 rows1 sch2 Q2) →
  runs (ops1 ++ ops2) sch rows sch2 Q2.
Proof.
  intros Hv (rows1 & E1 & Hext1 & HQ1) H2.
  destruct (H2 rows1) as (rows2 & E2 & Hext2 & HQ2); [by eapply exec_all_valid|done|].
  exists rows2. rewrite exec_all_app, E1. split; [exact E2|]. split; [by eapply extends_but_trans|done].
Qed.

Lemma runs_one op sch rows sch' rows' (Q : contents → Prop) :
  apply_schema op sch = Some sch' → apply_rows now op sch' rows = Some rows' →
  extends_but (Database sch rows) (Database sch' rows') → Q rows' → runs [op] sch rows sch' Q.
Proof.
  intros Hs Hr Hext HQ. exists rows'. split_and!; [|done..]. rewrite exec_all_cons.
  by rewrite (exec_intro _ _ _ _ _ _ Hs Hr).
Qed.

(** Operations that cannot fail keep what is known of the columns. *)
Lemma runs_safe ops sch rows sch' (Q : contents → Prop) :
  safe_ops [] ops sch = Some sch' → forallb additive ops = true → valid (Database sch rows) →
  (∀ rows', extends (Database sch rows) (Database sch' rows') → empty_in (reverse (ops ≫= created) ++ []) rows' → Q rows') →
  runs ops sch rows sch' Q.
Proof.
  intros Hs Ha Hv HQ. destruct (safe_ops_run now [] ops sch rows sch') as (rows' & E & Hext & He); [done| |done|].
  { by intros t ?%elem_of_nil. }
  specialize (Hext Ha). exists rows'. split_and!; [done|by apply extends_but_of|]. by apply HQ.
Qed.

(** *** What is known *)

Definition one_tenant (rows : contents) : Prop :=
  ∃ r, rows "tenants" = [r] ∧ r "slug" = VText "default" ∧ r "id" = VInt 1.
Definition filling (t : string) (rows : contents) : Prop :=
  Forall (λ r : row, r "tenant_id" = VNull ∨ r "tenant_id" = VInt 1) (rows t).
Definition filled (t : string) (rows : contents) : Prop :=
  Forall (λ r : row, r "tenant_id" = VInt 1) (rows t).

Lemma filled_filling t rows : filled t rows → filling t rows.
Proof. intros Hf. eapply Forall_impl; [exact Hf|]. auto. Qed.

Definition has_columns (sch : schema) (t : string) (cols : list string) : Prop :=
  match sch !! t with Some rel => on_columns rel cols | None => False end.
#[local] Instance has_columns_dec sch t cols : Decision (has_columns sch t cols).
Proof. unfold has_columns. destruct (sch !! t); apply _. Defined.

Lemma extends_agree sch rows sch' rows' t cols :
  extends (Database sch rows) (Database sch' rows') → has_columns sch t cols →
  agree (λ c, c ∈ cols) (rows t) (rows' t).
Proof.
  intros Hext Hc. unfold has_columns in Hc. destruct (sch !! t) as [rel|] eqn:Hrel; [|done].
  destruct (Hext _ _ Hrel) as (rel' & _ & _ & Hag). eapply agree_mono; [|exact Hag].
  unfold on_columns in Hc. rewrite Forall_forall in Hc. auto.
Qed.

Lemma one_tenant_extends sch rows sch' rows' :
  extends (Database sch rows) (Database sch' rows') → has_columns sch "tenants" ["slug"; "id"] →
  one_tenant rows → one_tenant rows'.
Proof.
  intros Hext Hc (r & E & Hs & Hi). pose proof (extends_agree _ _ _ _ _ _ Hext Hc) as Hag. rewrite E in Hag.
  unfold agree in Hag. inversion Hag as [|? r' ? ? Hr Hnil E1 E2]; subst. inversion Hnil; subst.
  exists r'. split_and!; [done|rewrite Hr by set_solver; done|rewrite Hr by set_solver; done].
Qed.

Lemma filled_extends sch rows sch' rows' t :
  extends (Database sch rows) (Database sch' rows') → has_columns sch t ["tenant_id"] →
  filled t rows → filled t rows'.
Proof.
  intros Hext Hc. pose proof (extends_agree _ _ _ _ _ _ Hext Hc) as Hag. unfold filled.
  induction Hag as [|r r' rs rs' Hr _ IH]; [done|]. intros [H1 H2]%Forall_cons. constructor; [|auto].
  rewrite Hr by set_solver. done.
Qed.

Lemma email_extends sch rows sch' rows' :
  extends (Database sch rows) (Database sch' rows') → has_columns sch "users" ["email"] →
  key_ok ["email"] (rows "users") → key_ok ["email"] (rows' "users").
Proof. intros Hext Hc. apply key_ok_agree. by eapply extends_agree. Qed.

(** *** The steps *)

(** A column that may be set at will. *)
Definition updatable (sch : schema) (t : string) : bool :=
  match sch !! t with
  | Some rel =>
      match t_columns rel !! "tenant_id" with
      | Some col =>
          bool_decide (col = Column SqlInteger true None false ∧
            set_columns (<["tenant_id" := col]>) (without_column "tenant_id" rel) = rel ∧
            ¬ referenced sch t (Some "tenant_id") ∧ "tenant_id" ∉ t_primary_key rel)
      | None => false
      end
  | None => false
  end.

Lemma runs_statement f t g sch rows (Q : contents → Prop) :
  updatable sch t = true → valid (Database sch rows) →
  (∀ t', f rows t' = map_rows t g rows t') → (∀ r c', c' ≠ "tenant_id" → g r c' = r c') →
  Forall (λ r : row, g r "tenant_id" = VNull ∨ g r "tenant_id" = VInt 1) (rows t) →
  Q (f rows) → runs [execute f] sch rows sch Q.
Proof.
  intros Hu Hv Hf Hg Hcells HQ. unfold updatable in Hu.
  destruct (sch !! t) as [rel|] eqn:Hrel; [|done].
  destruct (t_columns rel !! "tenant_id") as [col|] eqn:Hcol; [|done].
  apply bool_decide_eq_true in Hu as (-> & Hsame & Href & Hpk).
  exists (f rows). split_and!; [|  |exact HQ].
  - rewrite exec_all_cons, execute_valid; [done|].
    apply (valid_update sch rows (f rows) t "tenant_id" (Column SqlInteger true None false) rel g); try done.
    eapply Forall_impl; [exact Hcells|]. by intros r [->| ->].
  - intros t2 rel2 _ H2. exists rel2. split_and!; [done..|]. cbn. rewrite Hf. unfold map_rows.
    destruct (String.eqb t t2); [|apply agree_refl]. apply agree_map. intros r c [_ Hc]. by apply Hg.
Qed.

Definition tenant_column : column := Column SqlInteger true None false.

Lemma runs_add t sch rows sch' (Q : contents → Prop) :
  apply_schema (add_column t "tenant_id" tenant_column) sch = Some sch' →
  (∀ rows', extends (Database sch rows) (Database sch' rows') → filling t rows' → Q rows') →
  runs [add_column t "tenant_id" tenant_column] sch rows sch' Q.
Proof.
  intros Hs HQ.
  assert (apply_rows now (add_column t "tenant_id" tenant_column) sch' rows =
    Some (map_rows t (set_cell "tenant_id" VNull) rows)) as Hr.
  { cbn. by rewrite decide_True by by right. }
  pose proof (additive_extends now (add_column t "tenant_id" tenant_column) _ _ _ _ eq_refl ltac:(done) Hs Hr) as Hext.
  eapply runs_one; [exact Hs|exact Hr|by apply extends_but_of|]. apply HQ; [exact Hext|].
  unfold filling. rewrite map_rows_eq. apply Forall_fmap, Forall_forall. intros r _. left. apply set_cell_eq.
Qed.

Lemma runs_fill t sch rows (Q : contents → Prop) :
  updatable sch t = true → valid (Database sch rows) → t ≠ "tenants" → one_tenant rows → filling t rows →
  (∀ rows', (∀ t', t' ≠ t → rows' t' = rows t') → filled t rows' →
     (∀ c, c ≠ "tenant_id" → (λ r : row, r c) <$> rows' t = (λ r : row, r c) <$> rows t) → Q rows') →
  runs [execute (set_default_tenant t)] sch rows sch Q.
Proof.
  intros Hu Hv Ht (r0 & E0 & Hslug & Hid) Hfill HQ.
  assert (default_tenant_id rows = VInt 1) as Hdef.
  { unfold default_tenant_id. rewrite E0, filter_cons, decide_True; [done|]. unfold is_default. by rewrite Hslug. }
  set (g := λ r : row, if bool_decide (r "tenant_id" = VNull)
                       then set_cell "tenant_id" (default_tenant_id rows) r else r).
  assert (∀ r, r "tenant_id" = VNull ∨ r "tenant_id" = VInt 1 → g r "tenant_id" = VInt 1) as Hg1.
  { intros r Hr. unfold g. rewrite Hdef. case_bool_decide as Hn; [apply set_cell_eq|]. by destruct Hr. }
  assert (∀ r c, c ≠ "tenant_id" → g r c = r c) as Hg.
  { intros r c Hc. unfold g. case_bool_decide; [|done]. by apply set_cell_ne. }
  apply (runs_statement _ t g); [done|done|done|exact Hg| |].
  - eapply Forall_impl; [exact Hfill|]. intros r Hr. right. by apply Hg1.
  - apply HQ.
    + intros t' Hne. by apply map_rows_ne.
    + unfold filled, set_default_tenant. rewrite map_rows_eq. apply Forall_fmap. eapply Forall_impl; [exact Hfill|]. exact Hg1.
    + intros c Hc. unfold set_default_tenant. rewrite map_rows_eq, <- list_fmap_compose. apply list_fmap_ext.
      intros i r _. by apply Hg.
Qed.

Lemma runs_required t sch rows sch' (Q : contents → Prop) :
  apply_schema (alter_nullable t "tenant_id" false) sch = Some sch' → filled t rows → Q rows →
  runs [alter_nullable t "tenant_id" false] sch rows sch' Q.
Proof.
  intros Hs Hf HQ.
  assert (apply_rows now (alter_nullable t "tenant_id" false) sch' rows = Some rows) as Hr.
  { cbn. rewrite decide_True; [done|]. right. eapply Forall_impl; [exact Hf|]. by intros r ->. }
  eapply runs_one; [exact Hs|exact Hr| |done].
  apply extends_but_of. exact (additive_extends now (alter_nullable t "tenant_id" false) _ _ _ _ eq_refl ltac:(done) Hs Hr).
Qed.

Lemma runs_foreign_key name t sch rows sch' (Q : contents → Prop) :
  apply_schema (create_foreign_key name t "tenants" "tenant_id" "id") sch = Some sch' →
  one_tenant rows → filled t rows → Q rows →
  runs [create_foreign_key name t "tenants" "tenant_id" "id"] sch rows sch' Q.
Proof.
  intros Hs (r0 & E0 & _ & Hid) Hf HQ.
  assert (apply_rows now (create_foreign_key name t "tenants" "tenant_id" "id") sch' rows = Some rows) as Hr.
  { cbn. rewrite decide_True; [done|]. unfold fk_ok. cbn [fk_table fk_column].
    eapply Forall_impl; [exact Hf|]. intros r ->. right. rewrite E0. cbn. rewrite Hid. by left. }
  eapply runs_one; [exact Hs|exact Hr| |done].
  apply extends_but_of.
  exact (additive_extends now (create_foreign_key name t "tenants" "tenant_id" "id") _ _ _ _ eq_refl ltac:(done) Hs Hr).
Qed.
(** A unique index on the tenant and the email of the users. *)
Lemma runs_unique name cols t sch rows sch' (Q : contents → Prop) :
  apply_schema (create_index name t cols true None) sch = Some sch' → key_ok cols (rows t) → Q rows →
  runs [create_index name t cols true None] sch rows sch' Q.
Proof.
  intros Hs Hk HQ.
  assert (apply_rows now (create_index name t cols true None) sch' rows = Some rows) as Hr.
  { cbn. by rewrite decide_True by done. }
  eapply runs_one; [exact Hs|exact Hr| |done]. apply extends_but_of.
  exact (additive_extends now (create_index name t cols true None) _ _ _ _ eq_refl ltac:(done) Hs Hr).
Qed.

(** The default tenant, the first one. *)
Lemma runs_insert sch rows rel (Q : contents → Prop) :
  valid (Database sch rows) → sch !! "tenants" = Some rel → t_foreign_keys rel = ∅ →
  row_ok rel (default_tenant_row 1) → rows "tenants" = [] →
  (∀ rows', one_tenant rows' → Q rows') → runs [execute insert_default_tenant] sch rows sch Q.
Proof.
  intros Hv Hrel Hfks Hrow Hrows HQ.
  set (rows' := λ t', if String.eqb "tenants" t' then [default_tenant_row 1] else rows t').
  assert (∀ t, insert_default_tenant rows t = rows' t) as Hsame.
  { intros t. unfold insert_default_tenant, rows'. rewrite (String.eqb_sym "tenants").
    destruct (String.eqb_spec t "tenants") as [->|]; [|done]. by rewrite Hrows. }
  exists (insert_default_tenant rows). split_and!.
  - rewrite exec_all_cons, execute_valid; [done|]. apply (valid_ext _ rows'); [done|].
    by eapply valid_first_row.
  - intros t2 rel2 Ht H2. exists rel2. split_and!; [done..|]. cbn. rewrite Hsame. unfold rows'.
    rewrite (proj2 (String.eqb_neq "tenants" t2)) by done. apply agree_refl.
  - apply HQ. exists (default_tenant_row 1). rewrite Hsame. done.
Qed.

(** *** The migration *)

Abbreviation operations := add_multi_tenancy_foundation_upgrade.

(** The next [n] operations. *)
Lemma runs_next n k rows sch' Q1 Q2 :
  valid (Database (tenancy k) rows) →
  runs (take n (drop k operations)) (tenancy k) rows (tenancy (n + k)) Q1 →
  (∀ rows1, valid (Database (tenancy (n + k)) rows1) → Q1 rows1 →
     runs (drop (n + k) operations) (tenancy (n + k)) rows1 sch' Q2) →
  runs (drop k operations) (tenancy k) rows sch' Q2.
Proof.
  intros Hv H1 H2. rewrite <- (take_drop n (drop k operations)), drop_drop, Nat.add_comm.
  by eapply runs_app.
Qed.

(** The two facts that are kept from a step to the next. *)
Definition known (ts : list string) (rows : contents) : Prop :=
  one_tenant rows ∧ Forall (λ t, filled t rows) ts.

Lemma known_extends ts sch rows sch' rows' :
  extends (Database sch rows) (Database sch' rows') →
  has_columns sch "tenants" ["slug"; "id"] ∧ Forall (λ t, has_columns sch t ["tenant_id"]) ts →
  known ts rows → known ts rows'.
Proof.
  intros Hext [Hc Hcs] [Hone Hf]. split; [by eapply one_tenant_extends|].
  rewrite Forall_forall in *. intros t Ht. eapply filled_extends; [exact Hext|by apply Hcs|by apply Hf].
Qed.

Lemma known_fill ts t rows rows' :
  t ≠ "tenants" → t ∉ ts → (∀ t', t' ≠ t → rows' t' = rows t') → filled t rows' →
  known ts rows → known (t :: ts) rows'.
Proof.
  intros Ht Hts Hoth Hfill [(r & E & Hr) Hf]. split.
  - exists r. by rewrite Hoth.
  - constructor; [done|]. rewrite Forall_forall in *. intros t' Ht'. unfold filled.
    rewrite Hoth by (intros ->; done). by apply Hf.
Qed.

(** One step, its schemas computed. *)
Definition step_to (k : nat) (op : operation) : Prop :=
  apply_schema op (tenancy k) = Some (tenancy (S k)).
#[local] Instance step_to_dec k op : Decision (step_to k op).
Proof. unfold step_to. apply _. Defined.

Definition kept_columns (k : nat) (ts : list string) : Prop :=
  has_columns (tenancy k) "tenants" ["slug"; "id"] ∧ Forall (λ t, has_columns (tenancy k) t ["tenant_id"]) ts.
#[local] Instance kept_columns_dec k ts : Decision (kept_columns k ts).
Proof. unfold kept_columns. apply _. Defined.

Lemma known_add t k ts rows :
  step_to k (add_column t "tenant_id" tenant_column) → kept_columns k ts → known ts rows →
  runs [add_column t "tenant_id" tenant_column] (tenancy k) rows (tenancy (S k))
    (λ rows', known ts rows' ∧ filling t rows').
Proof. intros Hs Hc Hk. apply runs_add; [exact Hs|]. intros rows' Hext Hf. split; [|done]. by eapply known_extends. Qed.

Lemma known_filled t k ts rows :
  tenancy (S k) = tenancy k → updatable (tenancy k) t = true → valid (Database (tenancy k) rows) →
  t ≠ "tenants" → t ∉ ts → known ts rows ∧ filling t rows →
  runs [execute (set_default_tenant t)] (tenancy k) rows (tenancy (S k)) (known (t :: ts)).
Proof.
  intros E Hu Hv Ht Hts [Hk Hf]. rewrite E. apply runs_fill; [done..|apply Hk|done|].
  intros rows' Hoth Hf' _. by apply (known_fill ts t rows).
Qed.

Lemma known_required t k ts rows :
  step_to k (alter_nullable t "tenant_id" false) → t ∈ ts → known ts rows →
  runs [alter_nullable t "tenant_id" false] (tenancy k) rows (tenancy (S k)) (known ts).
Proof.
  intros Hs Ht Hk. apply runs_required; [exact Hs| |done]. destruct Hk as [_ Hf].
  rewrite Forall_forall in Hf. by apply Hf.
Qed.

Lemma known_foreign_key name t k ts rows :
  step_to k (create_foreign_key name t "tenants" "tenant_id" "id") → t ∈ ts → known ts rows →
  runs [create_foreign_key name t "tenants" "tenant_id" "id"] (tenancy k) rows (tenancy (S k)) (known ts).
Proof.
  intros Hs Ht Hk. apply runs_foreign_key; [exact Hs|apply Hk| |done]. destruct Hk as [_ Hf].
  rewrite Forall_forall in Hf. by apply Hf.
Qed.

Lemma known_safe ops n k ts rows :
  safe_ops [] ops (tenancy k) = Some (tenancy (n + k)) → forallb additive ops = true → kept_columns k ts →
  valid (Database (tenancy k) rows) → known ts rows →
  runs ops (tenancy k) rows (tenancy (n + k)) (known ts).
Proof.
  intros Hs Ha Hc Hv Hk. apply runs_safe; [done..|]. intros rows' Hext _. by eapply known_extends.
Qed.

(** The files take the tenant of their owners, all of whom have one. *)
Lemma known_owners k ts rows :
  tenancy (S k) = tenancy k → updatable (tenancy k) "uploaded_files" = true →
  valid (Database (tenancy k) rows) → "users" ∈ ts → "uploaded_files" ∉ ts →
  known ts rows ∧ filling "uploaded_files" rows →
  runs [execute tenant_of_owner] (tenancy k) rows (tenancy (S k))
    (λ rows', known ts rows' ∧ filling "uploaded_files" rows').
Proof.
  intros E Hu Hv Husers Hts [Hk Hf]. rewrite E.
  assert (filled "users" rows) as Hu'.
  { destruct Hk as [_ Hk]. rewrite Forall_forall in Hk. by apply Hk. }
  set (g := λ r : row, match filter (λ u : row, u "id" ≠ VNull ∧ u "id" = r "owner_id") (rows "users") with
                       | u :: _ => set_cell "tenant_id" (u "tenant_id") r | [] => r end).
  assert (Forall (λ r : row, g r "tenant_id" = VNull ∨ g r "tenant_id" = VInt 1) (rows "uploaded_files")) as Hg.
  { eapply Forall_impl; [exact Hf|]. intros r Hr. unfold g.
    destruct (filter _ (rows "users")) as [|u us] eqn:Eu; [done|]. rewrite set_cell_eq. right.
    assert (u ∈ u :: us) as Hin by left. rewrite <- Eu in Hin. apply list_elem_of_filter in Hin as [_ Hin].
    unfold filled in Hu'. rewrite Forall_forall in Hu'. by apply Hu'. }
  apply (runs_statement _ "uploaded_files" g); [done|done|done| |exact Hg|].
  - intros r c Hc. unfold g. destruct (filter _ (rows "users")); [done|by apply set_cell_ne].
  - split.
    + destruct Hk as [Hone Hk]. split; [exact Hone|]. rewrite Forall_forall in Hk. apply Forall_forall. intros t Ht.
      assert (t ≠ "uploaded_files") as Hne by congruence.
      unfold filled, tenant_of_owner. rewrite map_rows_ne by exact Hne. exact (Hk t Ht).
    + unfold filling, tenant_of_owner. rewrite map_rows_eq. apply Forall_fmap. exact Hg.
Qed.

Lemma tenancy_start rows :
  valid (Database (tenancy 0) rows) →
  runs (take 4 operations) (tenancy 0) rows (tenancy 4) (known []).
Proof.
  intros Hv. change (take 4 operations) with (take 3 operations ++ [execute insert_default_tenant]).
  apply (runs_app _ _ _ _ (tenancy 3) _ (λ rows, rows "tenants" = [])); [done| |].
  - apply runs_safe; [computed|computed|done|]. intros rows' _ He. apply He. computed.
  - intros rows1 Hv1 Hrows1. assert (tenancy 4 = tenancy 3) as -> by computed.
    assert (match tenancy 3 !! "tenants" with
            | Some rel => bool_decide (t_foreign_keys rel = ∅ ∧ row_ok rel (default_tenant_row 1))
            | None => false end = true) as Hok by (vm_compute; reflexivity).
    destruct (tenancy 3 !! "tenants") as [rel|] eqn:Hrel; [|discriminate Hok].
    apply bool_decide_eq_true in Hok as [Hfk Hrow].
    apply (runs_insert _ _ rel); [exact Hv1|exact Hrel|exact Hfk|exact Hrow|exact Hrows1|]. intros rows' Hone. split; [done|constructor].
Qed.

(** A unique index on the tenant and the email takes over from the one on the
    email. *)
Lemma known_emails ts rows :
  kept_columns 9 ts → valid (Database (tenancy 9) rows) → known ts rows →
  runs (take 2 (drop 9 operations)) (tenancy 9) rows (tenancy 11) (known ts).
Proof.
  intros Hc Hv Hk.
  assert (key_ok ["email"] (rows "users")) as Hemail.
  { assert (match tenancy 9 !! "users" with Some rel => bool_decide (["email"] ∈ keys rel) | None => false end = true)
      as Hkey by (vm_compute; reflexivity).
    destruct (tenancy 9 !! "users") as [rel|] eqn:Hrel; [|discriminate Hkey]. apply bool_decide_eq_true in Hkey.
    destruct (Hv _ _ Hrel) as [_ (_ & Hkeys & _)]. by apply Hkeys, keys_spec. }
  change (take 2 (drop 9 operations)) with
    ([drop_index "ix_users_email" "users"] ++ [create_index "ix_users_tenant_id_email" "users" ["tenant_id"; "email"] true None]).
  apply (runs_app _ _ _ _ (tenancy 10) _ (λ rows, known ts rows ∧ key_ok ["email"] (rows "users"))); [done| |].
  - apply runs_safe; [computed|computed|done|]. intros rows' Hext _. split; [by eapply known_extends|].
    eapply email_extends; [exact Hext|computed|exact Hemail].
  - intros rows1 _ [Hk1 He1]. apply runs_unique; [computed| |done]. eapply key_ok_more; [|exact He1].
    intros c ->%list_elem_of_singleton. set_solver.
Qed.

Lemma tenancy_known rows :
  valid (Database (tenancy 4) rows) → known [] rows →
  runs (drop 4 operations) (tenancy 4) rows (tenancy 22) (known ["uploaded_files"; "audit_logs"; "users"]).
Proof.
  intros Hv Hk.
  eapply (runs_next 1 4); [exact Hv|by apply (known_add "users" 4 []); [computed|computed|]|clear; intros rows Hv Hk].
  eapply (runs_next 1 5); [exact Hv|by apply (known_filled "users" 5 []); [computed|computed| |computed|computed|]|clear; intros rows Hv Hk].
  eapply (runs_next 1 6); [exact Hv|by apply (known_required "users" 6 ["users"]); [computed|computed|]|clear; intros rows Hv Hk].
  eapply (runs_next 1 7); [exact Hv|by apply (known_foreign_key _ "users" 7 ["users"]); [computed|computed|]|clear; intros rows Hv Hk].
  eapply (runs_next 1 8); [exact Hv|by apply (known_safe _ 1 8 ["users"]); [computed|computed|computed| |]|clear; intros rows Hv Hk].
  eapply (runs_next 2 9); [exact Hv|by apply (known_emails ["users"]); [computed| |]|clear; intros rows Hv Hk].
  eapply (runs_next 1 11); [exact Hv|by apply (known_add "audit_logs" 11 ["users"]); [computed|computed|]|clear; intros rows Hv Hk].
  eapply (runs_next 1 12); [exact Hv|by apply (known_filled "audit_logs" 12 ["users"]); [computed|computed| |computed|computed|]|clear; intros rows Hv Hk].
  eapply (runs_next 1 13); [exact Hv|by apply (known_required "audit_logs" 13 ["audit_logs"; "users"]); [computed|computed|]|clear; intros rows Hv Hk].
  eapply (runs_next 1 14); [exact Hv|by apply (known_foreign_key _ "audit_logs" 14 ["audit_logs"; "users"]); [computed|computed|]|clear; intros rows Hv Hk].
  eapply (runs_next 1 15); [exact Hv|by apply (known_safe _ 1 15 ["audit_logs"; "users"]); [computed|computed|computed| |]|clear; intros rows Hv Hk].
  eapply (runs_next 1 16); [exact Hv|by apply (known_add "uploaded_files" 16 ["audit_logs"; "users"]); [computed|computed|]|clear; intros rows Hv Hk].
  eapply (runs_next 1 17); [exact Hv|by apply (known_owners 17 ["audit_logs"; "users"]); [computed|computed| |computed|computed|]|clear; intros rows Hv Hk].
  eapply (runs_next 1 18); [exact Hv|by apply (known_filled "uploaded_files" 18 ["audit_logs"; "users"]); [computed|computed| |computed|computed|]|clear; intros rows Hv Hk].
  eapply (runs_next 1 19); [exact Hv|by apply (known_required "uploaded_files" 19 ["uploaded_files"; "audit_logs"; "users"]); [computed|computed|]|clear; intros rows Hv Hk].
  eapply (runs_next 1 20); [exact Hv|by apply (known_foreign_key _ "uploaded_files" 20 ["uploaded_files"; "audit_logs"; "users"]); [computed|computed|]|clear; intros rows Hv Hk].
  by apply (known_safe _ 1 21 ["uploaded_files"; "audit_logs"; "users"]); [computed|computed|computed| |].
Qed.

(** Every user, audit log and file is in the default tenant afterwards. *)
Lemma tenancy_runs rows :
  valid (Database (tenancy 0) rows) →
  runs operations (tenancy 0) rows (tenancy 22) (known ["uploaded_files"; "audit_logs"; "users"]).
Proof.
  intros Hv. rewrite <- (take_drop 4 operations). eapply runs_app; [done|by apply tenancy_start|].
  intros rows1 Hv1 Hk. by apply tenancy_known.
Qed.

End tenancy.

(** ** From any version to the head *)

Section upgrade.
Variable now : Z.

(** Running operations that keep all rows. *)
Definition keeps (ops : list operation) (db : database) (sch : schema) : Prop :=
  ∃ rows', exec_all now ops db = Some (Database sch rows') ∧ extends db (Database sch rows').

Lemma keeps_app ops1 ops2 db sch1 sch2 :
  valid db → keeps ops1 db sch1 →
  (∀ rows1, valid (Database sch1 rows1) → extends db (Database sch1 rows1) → keeps ops2 (Database sch1 rows1) sch2) →
  keeps (ops1 ++ ops2) db sch2.
Proof.
  intros Hv (rows1 & E1 & Hext1) H2.
  destruct (H2 rows1) as (rows2 & E2 & Hext2); [by eapply exec_all_valid|done|].
  exists rows2. rewrite exec_all_app, E1. split; [exact E2|by eapply extends_trans].
Qed.

Lemma keeps_safe ops sch rows sch' :
  safe_ops [] ops sch = Some sch' → forallb additive ops = true → valid (Database sch rows) →
  keeps ops (Database sch rows) sch'.
Proof.
  intros Hs Ha Hv. destruct (safe_ops_run now [] ops sch rows sch') as (rows' & E & Hext & _); [done| |done|exists rows'; auto].
  by intros t ?%elem_of_nil.
Qed.

Definition before (n : nat) : schema := default ∅ (schema_at n).
(** The operations of the versions from the n-th to the m-th. *)
Definition between (n m : nat) : list operation := drop n (take m versions) ≫= m_upgrade.

Lemma between_split n m k : (n ≤ m)%nat → (m ≤ k)%nat → between n k = between n m ++ between m k.
Proof.
  intros Hnm Hmk. unfold between. rewrite <- bind_app. f_equal.
  rewrite <- (take_drop m (take k versions)) at 1. rewrite take_take, Nat.min_l by done.
  destruct (decide (m ≤ length versions)%nat) as [Hm|Hm].
  - rewrite drop_app_le; [done|]. rewrite length_take. lia.
  - rewrite (drop_ge (take k versions) m) by (rewrite length_take; lia). by rewrite !app_nil_r.
Qed.

(** Versions that no rows can stop. *)
Lemma keeps_between n m rows :
  safe_ops [] (between n m) (before n) = Some (before m) → forallb additive (between n m) = true →
  valid (Database (before n) rows) → keeps (between n m) (Database (before n) rows) (before m).
Proof. intros Hs Ha Hv. by apply keeps_safe. Qed.

(** The tables of the version before have no tenants. *)
Lemma no_tenants :
  map_Forall (λ t rel, t ≠ "tenants" ∧ t_columns rel !! "tenant_id" = None) (before 6).
Proof. computed. Qed.

Lemma keeps_tenancy rows :
  valid (Database (before 6) rows) → keeps (between 6 7) (Database (before 6) rows) (before 7).
Proof.
  intros Hv. destruct (tenancy_runs now rows Hv) as (rows' & E & Hext & _).
  assert (before 7 = tenancy 22) as -> by computed. exists rows'. split; [exact E|].
  intros t rel Hrel. destruct (no_tenants _ _ Hrel) as [Ht Hc].
  destruct (Hext _ _ Ht Hrel) as (rel' & Hrel' & Hcols & Hag). exists rel'. split_and!; [done..|].
  eapply agree_mono; [|exact Hag]. intros c Hc'. split; [done|]. intros ->. rewrite Hc in Hc'. by destruct Hc'.
Qed.

Lemma keeps_from n rows :
  (n = 0 ∨ 2 ≤ n ≤ 13)%nat → valid (Database (before n) rows) →
  keeps (between n 13) (Database (before n) rows) (before 13).
Proof.
  intros Hn Hv. destruct (decide (n ≤ 6)%nat) as [H6|H6].
  - rewrite (between_split n 6 13) by lia. eapply keeps_app; [done| |].
    + apply keeps_between; [| |exact Hv]; destruct Hn as [->|Hn]; [computed| |computed|];
        do 7 (destruct n as [|n]; [first [lia|computed]|]); lia.
    + intros rows1 Hv1 _. rewrite (between_split 6 7 13) by lia. eapply keeps_app; [done|by apply keeps_tenancy|].
      intros rows2 Hv2 _. apply keeps_between; [computed|computed|exact Hv2].
  - apply keeps_between; [| |exact Hv]; do 14 (destruct n as [|n]; [first [lia|computed]|]); lia.
Qed.
(** The second version requires a column that could be null. *)
Definition inactive_known (rows : contents) : Prop := Forall (λ r : row, r "is_active" ≠ VNull) (rows "users").

Lemma keeps_second rows :
  valid (Database (before 1) rows) → inactive_known rows →
  keeps (between 1 2) (Database (before 1) rows) (before 2).
Proof.
  intros Hv Hnull. change (between 1 2) with (take 2 (between 1 2) ++ [alter_nullable "users" "is_active" false]).
  set (sch := default ∅ (apply_schemas (take 2 (between 1 2)) (before 1))).
  apply (keeps_app _ _ _ sch); [done| |].
  - apply keeps_safe; [computed|computed|done].
  - intros rows1 Hv1 Hext. assert (agree (λ c, c ∈ ["is_active"]) (rows "users") (rows1 "users")) as Hag.
    { eapply extends_agree; [exact Hext|computed]. }
    assert (Forall (λ r : row, r "is_active" ≠ VNull) (rows1 "users")) as Hnull1.
    { unfold inactive_known in Hnull. clear Hv Hext Hv1. induction Hag as [|r r' rs rs' Hr _ IH]; [done|].
      apply Forall_cons in Hnull as [H1 H2]. constructor; [rewrite Hr by set_solver; done|auto]. }
    assert (apply_schema (alter_nullable "users" "is_active" false) sch = Some (before 2)) as Es by computed.
    assert (apply_rows now (alter_nullable "users" "is_active" false) (before 2) rows1 = Some rows1) as Er.
    { cbn. rewrite decide_True; [done|by right]. }
    exists rows1. split.
    + rewrite exec_all_cons. by rewrite (exec_intro _ _ _ _ _ _ Es Er).
    + exact (additive_extends now (alter_nullable "users" "is_active" false) _ _ _ _ eq_refl ltac:(done) Es Er).
Qed.

Lemma second_refused rows :
  valid (Database (before 1) rows) → ¬ inactive_known rows →
  exec_all now (between 1 13) (Database (before 1) rows) = None.
Proof.
  intros Hv Hnull.
  change (between 1 13) with (take 2 (between 1 2) ++ alter_nullable "users" "is_active" false :: between 2 13).
  set (sch := default ∅ (apply_schemas (take 2 (between 1 2)) (before 1))).
  destruct (keeps_safe (take 2 (between 1 2)) (before 1) rows sch) as (rows1 & E1 & Hext); [computed|computed|done|].
  rewrite exec_all_app, E1. cbn [mbind option_bind]. rewrite exec_all_cons.
  assert (apply_schema (alter_nullable "users" "is_active" false) sch = Some (before 2)) as Es by computed.
  assert (exec now (alter_nullable "users" "is_active" false) (Database sch rows1) = None) as ->; [|done].
  unfold exec. cbn [d_schema d_rows]. rewrite Es. cbn [mbind option_bind apply_rows].
  rewrite decide_False; [done|]. intros [|Hnull1]; [done|]. apply Hnull. unfold inactive_known.
  assert (agree (λ c, c ∈ ["is_active"]) (rows "users") (rows1 "users")) as Hag.
  { eapply extends_agree; [exact Hext|computed]. }
  clear -Hag Hnull1. induction Hag as [|r r' rs rs' Hr _ IH]; [constructor|].
  apply Forall_cons in Hnull1 as [H1 H2]. constructor; [rewrite <- Hr by set_solver; done|auto].
Qed.
End upgrade.

(** C19: an upgrade to the head keeps the data.  From any version, on any valid
    database of it, running the migrations that are left succeeds; the database is
    valid for the schema of the head, and every row of every table is still there,
    with the values it had.  Only the second version can be refused, when
    a user has no [is_active]. *)
Theorem upgrade_keeps_data : ∀ now n db,
  (n ≤ length versions)%nat → schema_at n = Some (d_schema db) → valid db →
  match upgrade now (drop n versions) db with
  | Some db' => schema_at (length versions) = Some (d_schema db') ∧ valid db' ∧ extends db db'
  | None => n = 1%nat ∧ Exists (λ r : row, r "is_active" = VNull) (d_rows db "users")
  end.
Proof.
  intros now n [sch rows] Hn Hsch Hv. cbn [d_schema d_rows] in *.
  assert (sch = before n) as -> by (unfold before; rewrite Hsch; reflexivity).
  assert (upgrade now (drop n versions) (Database (before n) rows) =
          exec_all now (between n 13) (Database (before n) rows)) as ->.
  { unfold between. change (take 13 versions) with versions. reflexivity. }
  assert (keeps now (between n 13) (Database (before n) rows) (before 13) →
    match exec_all now (between n 13) (Database (before n) rows) with
    | Some db' => schema_at (length versions) = Some (d_schema db') ∧ valid db' ∧ extends (Database (before n) rows) db'
    | None => n = 1%nat ∧ Exists (λ r : row, r "is_active" = VNull) (rows "users")
    end) as Hkeeps.
  { intros (rows' & E & Hext). rewrite E. split; [unfold d_schema; computed|]. split; [exact (exec_all_valid _ _ _ _ E Hv)|exact Hext]. }
  destruct (decide (n = 1%nat)) as [->|Hn1]; [|apply Hkeeps, keeps_from; [cbn in Hn; lia|done]].
  destruct (decide (inactive_known rows)) as [Hk|Hk].
  - apply Hkeeps. rewrite (between_split 1 2 13) by lia. eapply keeps_app; [done|by apply keeps_second|].
    intros rows1 Hv1 _. apply keeps_from; [lia|done].
  - rewrite second_refused by done. split; [done|]. apply not_Forall_Exists in Hk; [|apply _].
    eapply Exists_impl; [exact Hk|]. intros r Hr. exact (dec_stable Hr).
Qed.


(** Two users with a file and a log, before there were tenants. *)
Definition data_without_tenants : database :=
  Database (before 6) (λ t,
    if String.eqb t "users" then
      [row_of [("id", VInt 1); ("email", VText "a@x"); ("hashed_password", VText "h"); ("is_active", VBool true);
               ("role", VText "admin")];
       row_of [("id", VInt 2); ("email", VText "b@x"); ("hashed_password", VText "h"); ("is_active", VBool false);
               ("role", VText "user")]]
    else if String.eqb t "uploaded_files" then
      [row_of [("id", VInt 1); ("owner_id", VInt 2); ("object_key", VText "k"); ("filename", VText "f");
               ("content_type", VText "c"); ("size_bytes", VInt 3); ("created_at", VTime 5)]]
    else if String.eqb t "audit_logs" then
      [row_of [("id", VInt 1); ("action", VText "user_login"); ("created_at", VTime 5)]]
    else []).

Theorem upgrade_keeps_data_witness :
  valid data_without_tenants ∧
  match upgrade 9 (drop 6 versions) data_without_tenants with
  | Some db' => schema_at (length versions) = Some (d_schema db') ∧ valid db' ∧ extends data_without_tenants db'
  | None => 6%nat = 1%nat ∧ Exists (λ r : row, r "is_active" = VNull) (d_rows data_without_tenants "users")
  end.
Proof.
  assert (valid data_without_tenants) as Hv by computed.
  split; [exact Hv|]. refine (upgrade_keeps_data 9 6 data_without_tenants _ _ Hv).
  - vm_compute. lia.
  - unfold data_without_tenants, d_schema. computed.
Defined.
