(* ===== verification/Downgrades.v ===== *)
(** * Undoing the migrations

    The downgrades from the head to any version: when they are refused, and what
    is left.  None of them inserts or updates a row. *)

From Stdlib Require Import ZArith String Lia.
From stdpp Require Import base tactics option list gmap strings fin_maps.
From S2P Require Import Prelude PyText Models DbFacts Ddl Migrations MigrationSafety MigrationRuns.
Local Open Scope string_scope.
Local Open Scope list_scope.
Local Open Scope Z_scope.

(** The downgrades of the versions from the m-th back to the n-th. *)
Definition backward (n m : nat) : list operation := reverse (drop n (take m versions)) ≫= m_downgrade.

(** Operations that leave the rows of the tables of a schema alone. *)
Definition spares (base : schema) (op : operation) : bool :=
  match op with
  | drop_table t => bool_decide (base !! t = None)
  | create_table _ _ _ _ _ | add_column _ _ _ | execute _ => false
  | _ => true
  end.

Section downgrade.
Variable now : Z.

Lemma spares_rows base op db db' t :
  spares base op = true → exec now op db = Some db' → is_Some (base !! t) → d_rows db' t = d_rows db t.
Proof.
  unfold exec. destruct (apply_schema op (d_schema db)) as [sch'|]; [|done]. cbn [mbind option_bind].
  destruct (apply_rows now op sch' (d_rows db)) as [rows'|] eqn:Er; [|done]. cbn [mbind option_bind].
  intros Hs [= <-] Ht. cbn [d_rows].
  destruct op; cbn [spares apply_rows] in *; try done; try (by injection Er as <-); try (decide_in Er Hd; by injection Er as <-).
  injection Er as <-. apply bool_decide_eq_true in Hs. unfold no_rows.
  destruct (String.eqb_spec name t) as [->|]; [|done]. rewrite Hs in Ht. by destruct Ht.
Qed.

Lemma spares_all base ops db db' t :
  forallb (spares base) ops = true → exec_all now ops db = Some db' → is_Some (base !! t) →
  d_rows db' t = d_rows db t.
Proof.
  intros Hs E Ht. revert db Hs E. induction ops as [|op ops IH]; intros db; [by intros _ [= <-]|].
  cbn [forallb]. intros [H1 H2]%andb_prop. rewrite exec_all_cons.
  destruct (exec now op db) as [db1|] eqn:E1; [|done]. cbn [mbind option_bind]. intros E.
  rewrite (IH db1 H2 E). exact (spares_rows _ _ _ _ _ H1 E1 Ht).
Qed.

Lemma exec_all_schema ops db db' :
  exec_all now ops db = Some db' → apply_schemas ops (d_schema db) = Some (d_schema db').
Proof.
  revert db. induction ops as [|op ops IH]; intros db; [by intros [= <-]|]. rewrite exec_all_cons. unfold exec.
  cbn [apply_schemas]. destruct (apply_schema op (d_schema db)) as [sch'|]; [|done]. cbn [mbind option_bind].
  destruct (apply_rows _ _ _ _) as [rows'|]; [|done]. cbn [mbind option_bind]. intros E. exact (IH _ E).
Qed.

(** Running operations, when the rows of the users and the audit logs are left
    alone. *)
Definition goes (ops : list operation) (sch : schema) (rows : contents) (sch' : schema) : Prop :=
  ∃ rows', exec_all now ops (Database sch rows) = Some (Database sch' rows') ∧
    Forall (λ t, rows' t = rows t) ["users"; "audit_logs"].

Lemma goes_app ops1 ops2 sch rows sch1 sch2 :
  valid (Database sch rows) → goes ops1 sch rows sch1 →
  (∀ rows1, valid (Database sch1 rows1) → Forall (λ t, rows1 t = rows t) ["users"; "audit_logs"] →
     goes ops2 sch1 rows1 sch2) →
  goes (ops1 ++ ops2) sch rows sch2.
Proof.
  intros Hv (rows1 & E1 & H1) Hg. destruct (Hg rows1) as (rows2 & E2 & H2); [by eapply exec_all_valid|done|].
  exists rows2. rewrite exec_all_app, E1. split; [exact E2|]. rewrite Forall_forall in *.
  intros t Ht. rewrite H2 by done. auto.
Qed.

(** The tables of which the rows decide. *)
Definition checked_tables : schema :=
  {["users" := Relation ∅ [] [] ∅ ∅; "audit_logs" := Relation ∅ [] [] ∅ ∅]}.

Lemma checked_rows ops db db' :
  forallb (spares checked_tables) ops = true → exec_all now ops db = Some db' →
  Forall (λ t, d_rows db' t = d_rows db t) ["users"; "audit_logs"].
Proof.
  intros Hs E. apply Forall_forall. intros t Ht. apply (spares_all _ _ _ _ _ Hs E).
  revert Ht. rewrite !elem_of_cons. intros [->|[->|H]]; [vm_compute; eauto|vm_compute; eauto|by apply elem_of_nil in H].
Qed.

Lemma goes_safe ops sch rows sch' :
  safe_ops [] ops sch = Some sch' → forallb (spares checked_tables) ops = true → valid (Database sch rows) →
  goes ops sch rows sch'.
Proof.
  intros Hs Hsp Hv. destruct (safe_ops_run now [] ops sch rows sch') as (rows' & E & _); [done| |done|].
  { by intros t ?%elem_of_nil. }
  exists rows'. split; [done|]. exact (checked_rows _ _ _ Hsp E).
Qed.

Lemma goes_one op sch rows sch' :
  apply_schema op sch = Some sch' → apply_rows now op sch' rows = Some rows → goes [op] sch rows sch'.
Proof.
  intros Hs Hr. exists rows. split; [|by repeat constructor]. rewrite exec_all_cons.
  by rewrite (exec_intro _ _ _ _ _ _ Hs Hr).
Qed.

(** Back to the multi-tenancy migration, nothing can be refused. *)
Lemma goes_late n rows :
  (7 ≤ n ≤ 13)%nat → valid (Database (before 13) rows) → goes (backward n 13) (before 13) rows (before n).
Proof.
  intros Hn Hv. apply goes_safe; [| |done]; do 14 (destruct n as [|n]; [first [lia|computed]|]); lia.
Qed.

Lemma backward_split n m k : (n ≤ m)%nat → (m ≤ k)%nat → backward n k = backward m k ++ backward n m.
Proof.
  intros Hnm Hmk. unfold backward. rewrite <- bind_app, <- reverse_app. do 2 f_equal.
  rewrite <- (take_drop m (take k versions)) at 1. rewrite take_take, Nat.min_l by done.
  destruct (decide (m ≤ length versions)%nat) as [Hm|Hm].
  - rewrite drop_app_le; [done|]. rewrite length_take. lia.
  - rewrite (drop_ge (take k versions) m) by (rewrite length_take; lia). by rewrite !app_nil_r.
Qed.

(** Removing the tenants: the email has to be unique again. *)
Lemma goes_tenancy rows :
  valid (Database (before 7) rows) → key_ok ["email"] (rows "users") →
  goes (backward 6 7) (before 7) rows (before 6).
Proof.
  intros Hv Hk. rewrite <- (take_drop 7 (backward 6 7)).
  apply (goes_app _ _ _ _ (default ∅ (apply_schemas (take 7 (backward 6 7)) (before 7)))); [done| |].
  { apply goes_safe; [computed|computed|done]. }
  intros rows1 Hv1 Hsame. change (drop 7 (backward 6 7)) with
    ([create_index "ix_users_email" "users" ["email"] true None] ++ drop 8 (backward 6 7)).
  apply (goes_app _ _ _ _ (default ∅ (apply_schemas (take 8 (backward 6 7)) (before 7)))); [done| |].
  - apply goes_one; [computed|]. cbn [apply_rows]. rewrite decide_True; [done|]. intros _.
    rewrite Forall_forall in Hsame. rewrite Hsame by (left; done). exact Hk.
  - intros rows2 Hv2 _. apply goes_safe; [computed|computed|done].
Qed.

(** Removing the system's audit logs: they all need an admin. *)
Lemma goes_system_logs rows :
  valid (Database (before 6) rows) → Forall (λ r : row, r "admin_id" ≠ VNull) (rows "audit_logs") →
  goes (backward 5 6) (before 6) rows (before 5).
Proof.
  intros Hv Hk. change (backward 5 6) with [alter_nullable "audit_logs" "admin_id" false].
  apply goes_one; [computed|]. cbn [apply_rows]. rewrite decide_True; [done|by right].
Qed.

Lemma early_runs n rows :
  (n ≤ 5)%nat → valid (Database (before 5) rows) →
  ∃ db', exec_all now (backward n 5) (Database (before 5) rows) = Some db'.
Proof.
  intros Hn Hv. destruct (safe_ops_run now [] (backward n 5) (before 5) rows (before n)) as (rows' & E & _); [| |done|eauto].
  - do 6 (destruct n as [|n]; [computed|]). lia.
  - by intros t ?%elem_of_nil.
Qed.

(** What the rows have to satisfy for a downgrade to a version. *)
Definition allows_downgrade (n : nat) (rows : contents) : Prop :=
  ((n ≤ 6)%nat → key_ok ["email"] (rows "users")) ∧
  ((n ≤ 5)%nat → Forall (λ r : row, r "admin_id" ≠ VNull) (rows "audit_logs")).

Lemma allowed_runs n rows :
  (n ≤ 13)%nat → valid (Database (before 13) rows) → allows_downgrade n rows →
  ∃ db', exec_all now (backward n 13) (Database (before 13) rows) = Some db'.
Proof.
  intros Hn Hv [Hk Ha]. destruct (decide (7 ≤ n)%nat) as [H7|H7].
  { destruct (goes_late n rows) as (rows' & E & _); [lia|done|eauto]. }
  specialize (Hk ltac:(lia)). rewrite (backward_split n 6 13) by lia.
  destruct (goes_app (backward 7 13) (backward 6 7) (before 13) rows (before 7) (before 6))
    as (rows' & E & Hsame); [done|apply goes_late; [lia|done]| |].
  { intros rows1 Hv1 Hsame. apply goes_tenancy; [done|]. rewrite Forall_forall in Hsame.
    rewrite Hsame by (left; done). exact Hk. }
  rewrite <- (backward_split 6 7 13) in E by lia. rewrite exec_all_app, E. cbn [mbind option_bind].
  destruct (decide (n = 6%nat)) as [->|H6]; [eexists; reflexivity|].
  pose proof (exec_all_valid _ _ _ _ E Hv) as Hv'. rewrite (backward_split n 5 6) by lia.
  destruct (goes_system_logs rows' Hv') as (rows'' & E' & _).
  { rewrite Forall_forall in Hsame. rewrite (Hsame "audit_logs") by (right; left; done). apply Ha. lia. }
  rewrite exec_all_app, E'. cbn [mbind option_bind]. apply early_runs; [lia|]. by eapply exec_all_valid.
Qed.

Lemma backward_schema n : (n ≤ 13)%nat → apply_schemas (backward n 13) (before 13) = Some (before n).
Proof. intros Hn. do 14 (destruct n as [|n]; [computed|]). lia. Qed.

Lemma backward_spares n : (n ≤ 13)%nat → forallb (spares (before n)) (backward n 13) = true.
Proof. intros Hn. do 14 (destruct n as [|n]; [computed|]). lia. Qed.
End downgrade.

(** C20: what a downgrade does.  From the head, on any valid database, going back to
    any version either restores the schema of that version, valid, with the rows
    its tables have at the head, or is refused as a whole.  It is refused only when
    it removes the tenants and two users of different tenants share an email,
    or requires again an admin for the audit logs and the system has written one. *)
Theorem downgrade_restores : ∀ now n db,
  (n ≤ length versions)%nat → schema_at (length versions) = Some (d_schema db) → valid db →
  match downgrade now (drop n versions) db with
  | Some db' => schema_at n = Some (d_schema db') ∧ valid db' ∧
      ∀ t rel, d_schema db' !! t = Some rel →
        agree (λ c, is_Some (t_columns rel !! c)) (d_rows db t) (d_rows db' t)
  | None => (n ≤ 6)%nat ∧ ¬ key_ok ["email"] (d_rows db "users") ∨
      (n ≤ 5)%nat ∧ Exists (λ r : row, r "admin_id" = VNull) (d_rows db "audit_logs")
  end.
Proof.
  intros now n [sch rows] Hn Hsch Hv. cbn [d_schema d_rows] in *.
  assert (sch = before 13) as -> by (unfold before; cbn [length versions] in Hsch; rewrite Hsch; reflexivity).
  assert (n ≤ 13)%nat as Hn' by exact Hn.
  assert (downgrade now (drop n versions) (Database (before 13) rows) =
          exec_all now (backward n 13) (Database (before 13) rows)) as ->.
  { unfold backward. change (take 13 versions) with versions. reflexivity. }
  destruct (exec_all _ _ _) as [db'|] eqn:E.
  - pose proof (exec_all_schema _ _ _ _ E) as Es. cbn [d_schema] in Es. rewrite (backward_schema n Hn') in Es.
    injection Es as Es. rewrite <- Es. split; [|split; [exact (exec_all_valid _ _ _ _ E Hv)|]].
    + unfold before. clear -Hn'. do 14 (destruct n as [|n]; [computed|]). lia.
    + intros t rel Hrel. rewrite (spares_all _ _ _ _ _ t (backward_spares n Hn') E) by eauto. apply agree_refl.
  - destruct (decide ((n ≤ 6)%nat ∧ ¬ key_ok ["email"] (rows "users"))) as [H1|H1]; [by left|].
    destruct (decide ((n ≤ 5)%nat ∧ ¬ Forall (λ r : row, r "admin_id" ≠ VNull) (rows "audit_logs"))) as [[H2 H3]|H2].
    + right. split; [done|]. apply not_Forall_Exists in H3; [|apply _].
      eapply Exists_impl; [exact H3|]. intros r Hr. exact (dec_stable Hr).
    + destruct (allowed_runs now n rows Hn' Hv) as [db' E']; [|congruence].
      split; intros; apply dec_stable; tauto.
Qed.

(** The same email in two tenants. *)
Definition shared_email : database :=
  Database (before 13) (stored_rows
    {| tenants := {[1 := {| t_id := 1; t_slug := "default"; t_name := "Default Tenant"; t_is_active := true |};
                    2 := {| t_id := 2; t_slug := "acme"; t_name := "Acme"; t_is_active := true |}]};
       users := {[1 := {| u_id := 1; u_tenant_id := 1; u_email := "a@x"; u_hashed_password := "h";
                          u_is_active := true; u_role := "admin"; u_token_version := 0 |};
                  2 := {| u_id := 2; u_tenant_id := 2; u_email := "a@x"; u_hashed_password := "h";
                          u_is_active := true; u_role := "user"; u_token_version := 0 |}]};
       audit_logs := ∅; idempotency_records := ∅; job_completions := ∅; reset_tokens := ∅;
       uploaded_files := ∅; webhook_events := ∅ |}).

Theorem downgrade_restores_witness :
  valid shared_email ∧ downgrade 9 (drop 6 versions) shared_email = None ∧
  match downgrade 9 (drop 7 versions) shared_email with
  | Some db' => schema_at 7 = Some (d_schema db') ∧ valid db' ∧
      ∀ t rel, d_schema db' !! t = Some rel →
        agree (λ c, is_Some (t_columns rel !! c)) (d_rows shared_email t) (d_rows db' t)
  | None => (7 ≤ 6)%nat ∧ ¬ key_ok ["email"] (d_rows shared_email "users") ∨
      (7 ≤ 5)%nat ∧ Exists (λ r : row, r "admin_id" = VNull) (d_rows shared_email "audit_logs")
  end.
Proof.
  assert (valid shared_email) as Hv by computed.
  split; [exact Hv|]. split; [vm_compute; reflexivity|].
  refine (downgrade_restores 9 7 shared_email _ _ Hv).
  - vm_compute. lia.
  - unfold shared_email, d_schema. computed.
Defined.
