(* ===== verification/Restore.v ===== *)
(** * The check of a restored backup

    [app/ops/restore_verification.py]: the statements the rehearsal of a restore
    runs, and how the tables they ask for relate to the schema of the migrations. *)

From Stdlib Require Import ZArith Ascii String.
From stdpp Require Import base tactics option list gmap strings.
From S2P Require Import Prelude PyText Ddl Migrations MigrationSafety.
Local Open Scope string_scope.
Local Open Scope list_scope.

Definition CORE_RESTORE_TABLES : list string :=
  ["alembic_version"; "tenants"; "users"; "audit_logs"; "uploaded_files"; "idempotency_records";
   "webhook_events"].

Definition table_statement (table_name : string) : string :=
  String.concat ""
    ["SELECT EXISTS (";
     "SELECT 1 FROM information_schema.tables ";
     "WHERE table_schema = 'public' AND table_name = '"; table_name; "'";
     ") AS has_"; table_name; ";"].

Definition verification_statements : list string :=
  "SELECT 1 AS restore_smoke_check;" :: map table_statement CORE_RESTORE_TABLES.
Definition build_restore_verification_sql : string :=
  String.concat (text [ascii_of_N 10]) verification_statements.

(** The statements are the lines of the text. *)
Lemma verification_lines :
  split (ascii_of_N 10) build_restore_verification_sql = verification_statements.
Proof. vm_compute. reflexivity. Qed.

(** What the statement for a table answers in a database of a schema; the table of
    alembic itself is not part of what the migrations create. *)
Definition has_table (sch : schema) (table_name : string) : bool :=
  String.eqb table_name "alembic_version" || bool_decide (is_Some (sch !! table_name)).

(** Every table that is asked for is there at head, and the tables that are not
    asked for are the two of the password resets. *)
Lemma core_tables_migrated : Forall (λ t, has_table head_schema t = true) CORE_RESTORE_TABLES.
Proof. apply (bool_decide_unpack _). vm_compute. exact Logic.I. Qed.

Lemma unchecked_tables :
  filter (λ t, t ∉ CORE_RESTORE_TABLES) (map fst (map_to_list head_schema)) ≡ₚ
  ["password_reset_tokens"; "password_reset_job_completions"].
Proof. apply (bool_decide_unpack _). vm_compute. exact Logic.I. Qed.
