(* ===== verification/Floats.v ===== *)
(** * Floating-point numbers

    Python's [float] is the double of IEEE 754.  A finite one is the rational
    number it stands for; the arithmetic is the exact one followed by [to_double],
    the rounding to the nearest double (to the even one of two) with 53 bits and
    the least exponent -1074.  Infinities and numbers above the range are not
    represented. *)

From Stdlib Require Import ZArith QArith Qround Qpower Qabs Lia Lqa.
From stdpp Require Import base tactics option list strings.
From S2P Require Import Prelude.
Local Open Scope Z_scope.

(** ** Rounding *)

(** [round(x)]: to the nearest integer, to the even one of two. *)
Definition round_half_even (x : Q) : Z :=
  let f := Qfloor x in
  match Qcompare (x - inject_Z f) (1 # 2) with
  | Lt => f
  | Gt => f + 1
  | Eq => if Z.even f then f else f + 1
  end.

(** The greatest [k] with [2 ^ k <= x], for a positive [x]. *)
Definition floor_log2 (x : Q) : Z :=
  let k := Z.log2 (Qnum x) - Z.log2 (Zpos (Qden x)) in
  if Qle_bool (2 ^ k) x then k else k - 1.

Definition least_exponent : Z := -1074.
Definition exponent (x : Q) : Z := Z.max (floor_log2 x - 52) least_exponent.

Definition positive_to_double (x : Q) : Q :=
  Qred (inject_Z (round_half_even (x / 2 ^ exponent x)) * 2 ^ exponent x).
Definition to_double (x : Q) : Q :=
  match Qcompare x 0 with
  | Eq => 0
  | Gt => positive_to_double x
  | Lt => - positive_to_double (- x)
  end.

(** ** Arithmetic *)

Definition float_of_int (n : Z) : Q := to_double (inject_Z n).
Definition fmul (x y : Q) : Q := to_double (x * y).
Definition fdiv (x y : Q) : Q := to_double (x / y).
Definition fsub (x y : Q) : Q := to_double (x - y).

(** [round(x, 2)]: to the nearest decimal, then to the nearest double. *)
Definition round2 (x : Q) : Q := to_double (inject_Z (round_half_even (100 * x)) / 100).

Definition flt (x y : Q) : bool := negb (Qle_bool y x).

(** ** Rounding to an integer *)

Lemma inject_Z_succ z : (inject_Z (z + 1) == inject_Z z + 1)%Q.
Proof. by rewrite inject_Z_plus. Qed.

Lemma round_half_even_near x :
  (inject_Z (round_half_even x) - (1 # 2) <= x /\ x <= inject_Z (round_half_even x) + (1 # 2))%Q.
Proof.
  unfold round_half_even. pose proof (Qfloor_le x) as H1. pose proof (Qlt_floor x) as H2.
  rewrite inject_Z_succ in H2. destruct (Qcompare_spec (x - inject_Z (Qfloor x)) (1 # 2)) as [E|E|E].
  - destruct (Z.even _); rewrite ?inject_Z_succ; split; lra.
  - split; lra.
  - rewrite ?inject_Z_succ. split; lra.
Qed.

#[export] Instance round_half_even_proper : Proper (Qeq ==> eq) round_half_even.
Proof.
  intros x y Hxy. unfold round_half_even. rewrite (Qfloor_comp _ _ Hxy).
  assert (x - inject_Z (Qfloor y) == y - inject_Z (Qfloor y))%Q as H by (by rewrite Hxy).
  by rewrite (Qcompare_comp _ _ H _ _ (Qeq_refl (1 # 2))).
Qed.

Lemma round_half_even_mono x y : (x <= y)%Q → round_half_even x <= round_half_even y.
Proof.
  intros Hxy. destruct (Z.le_gt_cases (round_half_even x) (round_half_even y)) as [|Hgt]; [done|].
  pose proof (round_half_even_near x) as [Hx _]. pose proof (round_half_even_near y) as [_ Hy].
  assert (inject_Z (round_half_even y + 1) <= inject_Z (round_half_even x))%Q as H
    by (rewrite <- Zle_Qle; lia).
  rewrite inject_Z_succ in H.
  assert (x == y)%Q as E by lra. rewrite E in Hgt. lia.
Qed.

Lemma round_half_even_Z z : round_half_even (inject_Z z) = z.
Proof.
  unfold round_half_even. rewrite Qfloor_Z.
  destruct (Qcompare_spec (inject_Z z - inject_Z z) (1 # 2)) as [E|E|E]; [exfalso; lra|done|exfalso; lra].
Qed.

Lemma round_half_even_le x z : (x <= inject_Z z)%Q → round_half_even x <= z.
Proof. intros H%round_half_even_mono. by rewrite round_half_even_Z in H. Qed.
Lemma round_half_even_ge x z : (inject_Z z <= x)%Q → z <= round_half_even x.
Proof. intros H%round_half_even_mono. by rewrite round_half_even_Z in H. Qed.

(** ** The exponent *)

Lemma pow2_pos k : (0 < 2 ^ k)%Q.
Proof. apply Qpower_0_lt. reflexivity. Qed.
Lemma pow2_plus k m : (2 ^ (k + m) == 2 ^ k * 2 ^ m)%Q.
Proof. by apply Qpower_plus. Qed.
Lemma pow2_le k m : k <= m → (2 ^ k <= 2 ^ m)%Q.
Proof. intros H. by apply Qpower_le_compat_l. Qed.
Lemma pow2_nonneg k : 0 <= k → (2 ^ k == inject_Z (2 ^ k))%Q.
Proof. intros H. symmetry. by apply Zpower_Qpower. Qed.
Lemma pow2_lt_inv k m : (2 ^ k < 2 ^ m)%Q → k < m.
Proof. intros H. destruct (Z.lt_ge_cases k m) as [|Hge]; [done|]. apply pow2_le in Hge. lra. Qed.

Lemma quotient_bounds a b n d :
  (0 < a → 0 < b → a <= n → n < 2 * a → b <= d → d < 2 * b →
   a / b * (1 # 2) < n / d /\ n / d < a / b * 2)%Q.
Proof.
  intros Ha Hb Hn1 Hn2 Hd1 Hd2. assert (0 < d)%Q as Hd by lra.
  assert (0 < a / b)%Q as Hq by (apply Qlt_shift_div_l; lra).
  assert (a / b * b == a)%Q as E by (field; lra). split.
  - apply Qlt_shift_div_l; [done|]. nra.
  - apply Qlt_shift_div_r; [done|]. nra.
Qed.

(** The two logarithms leave a factor of two. *)
Lemma log2_quotient x : (0 < x)%Q →
  let k := Z.log2 (Qnum x) - Z.log2 (Zpos (Qden x)) in (2 ^ (k - 1) < x /\ x < 2 ^ (k + 1))%Q.
Proof.
  intros Hx k. destruct x as [n d]. cbn [Qnum Qden] in *.
  assert (0 < n) as Hn by (unfold Qlt in Hx; cbn in Hx; lia).
  pose proof (Z.log2_spec n Hn) as [Hn1 Hn2]. pose proof (Z.log2_spec (Zpos d) ltac:(lia)) as [Hd1 Hd2].
  pose proof (Z.log2_nonneg n) as Hln. pose proof (Z.log2_nonneg (Zpos d)) as Hld.
  set (a := Z.log2 n) in *. set (b := Z.log2 (Zpos d)) in *. subst k.
  rewrite Z.pow_succ_r in Hn2, Hd2 by done.
  rewrite Zle_Qle in Hn1, Hd1. rewrite Zlt_Qlt in Hn2, Hd2.
  rewrite inject_Z_mult in Hn2, Hd2. rewrite <- (pow2_nonneg a) in Hn1, Hn2 by done.
  rewrite <- (pow2_nonneg b) in Hd1, Hd2 by done. change (inject_Z 2) with 2%Q in *.
  assert (n # d == inject_Z n / inject_Z (Zpos d))%Q as -> by apply Qmake_Qdiv.
  assert (0 < inject_Z (Zpos d))%Q as Hd0 by reflexivity.
  pose proof (pow2_pos a). pose proof (pow2_pos b).
  assert (∀ c, (2 ^ (a - b + c) == 2 ^ a / 2 ^ b * 2 ^ c)%Q) as E.
  { intros c. rewrite pow2_plus. unfold Z.sub. rewrite pow2_plus, Qpower_opp. reflexivity. }
  destruct (quotient_bounds (2 ^ a) (2 ^ b) (inject_Z n) (inject_Z (Zpos d))) as [H1 H2]; try done.
  change (a - b - 1) with (a - b + -1). rewrite !E. change (2 ^ (-1))%Q with (1 # 2)%Q.
  change (2 ^ 1)%Q with 2%Q. done.
Qed.

Lemma floor_log2_spec x : (0 < x)%Q → (2 ^ floor_log2 x <= x /\ x < 2 ^ (floor_log2 x + 1))%Q.
Proof.
  intros Hx. pose proof (log2_quotient x Hx) as [H1 H2]. unfold floor_log2.
  set (k := Z.log2 (Qnum x) - Z.log2 (Zpos (Qden x))) in *. clearbody k.
  destruct (Qle_bool (2 ^ k) x) eqn:E.
  - apply Qle_bool_iff in E. done.
  - split; [by apply Qlt_le_weak|]. replace (k - 1 + 1) with k by lia.
    apply Qnot_le_lt. intros H%Qle_bool_iff. congruence.
Qed.

Lemma floor_log2_mono x y : (0 < x)%Q → (x <= y)%Q → floor_log2 x <= floor_log2 y.
Proof.
  intros Hx Hxy. pose proof (floor_log2_spec x Hx) as [H1 _].
  pose proof (floor_log2_spec y ltac:(lra)) as [_ H2].
  assert (2 ^ floor_log2 x < 2 ^ (floor_log2 y + 1))%Q as H%pow2_lt_inv by lra. lia.
Qed.

(** ** Rounding to a double *)

Lemma positive_to_double_eq x :
  (positive_to_double x == inject_Z (round_half_even (x / 2 ^ exponent x)) * 2 ^ exponent x)%Q.
Proof. apply Qred_correct. Qed.

Lemma positive_to_double_mono x y : (0 < x)%Q → (x <= y)%Q → (positive_to_double x <= positive_to_double y)%Q.
Proof.
  intros Hx Hxy. rewrite !positive_to_double_eq. pose proof (floor_log2_mono x y Hx Hxy) as Hl.
  assert (exponent x <= exponent y) as He by (unfold exponent; lia).
  pose proof (pow2_pos (exponent x)) as Hpx. pose proof (pow2_pos (exponent y)) as Hpy.
  apply Z.le_lteq in He as [Hlt|He].
  - assert (exponent y = floor_log2 y - 52) as Hy by (unfold exponent in *; lia).
    pose proof (floor_log2_spec x Hx) as [_ Hx2]. pose proof (floor_log2_spec y ltac:(lra)) as [Hy1 _].
    apply Qle_trans with (2 ^ (exponent x + 53))%Q; [|apply Qle_trans with (2 ^ (exponent y + 52))%Q].
    + rewrite Z.add_comm, pow2_plus. apply Qmult_le_compat_r; [|lra].
      change (2 ^ 53)%Q with (inject_Z (2 ^ 53)). rewrite <- Zle_Qle. apply round_half_even_le.
      apply Qle_shift_div_r; [done|]. change (inject_Z (2 ^ 53)) with (2 ^ 53)%Q. rewrite <- pow2_plus.
      apply Qlt_le_weak. eapply Qlt_le_trans; [done|]. apply pow2_le. unfold exponent. lia.
    + apply pow2_le. lia.
    + rewrite Z.add_comm, pow2_plus. apply Qmult_le_compat_r; [|lra].
      change (2 ^ 52)%Q with (inject_Z (2 ^ 52)). rewrite <- Zle_Qle. apply round_half_even_ge.
      apply Qle_shift_div_l; [done|]. change (inject_Z (2 ^ 52)) with (2 ^ 52)%Q. rewrite <- pow2_plus, Hy.
      by replace (52 + (floor_log2 y - 52)) with (floor_log2 y) by lia.
  - rewrite He. apply Qmult_le_compat_r; [|lra]. rewrite <- Zle_Qle. apply round_half_even_mono.
    apply Qle_shift_div_l; [done|]. unfold Qdiv. rewrite <- Qmult_assoc, (Qmult_comm (/ _)).
    rewrite Qmult_inv_r by lra. by rewrite Qmult_1_r.
Qed.

Lemma positive_to_double_nonneg x : (0 < x)%Q → (0 <= positive_to_double x)%Q.
Proof.
  intros Hx. rewrite positive_to_double_eq. pose proof (pow2_pos (exponent x)) as Hp.
  apply Qmult_le_0_compat; [|lra]. change 0%Q with (inject_Z 0). rewrite <- Zle_Qle.
  apply round_half_even_ge. apply Qle_shift_div_l; [done|]. change (inject_Z 0) with 0%Q. lra.
Qed.

(** Rounding keeps the order. *)
Lemma to_double_mono x y : (x <= y)%Q → (to_double x <= to_double y)%Q.
Proof.
  intros Hxy. unfold to_double.
  destruct (Qcompare_spec x 0) as [Ex|Ex|Ex], (Qcompare_spec y 0) as [Ey|Ey|Ey]; try lra.
  - by apply positive_to_double_nonneg.
  - pose proof (positive_to_double_nonneg (- x) ltac:(lra)). lra.
  - pose proof (positive_to_double_mono (- y) (- x) ltac:(lra) ltac:(lra)). lra.
  - pose proof (positive_to_double_nonneg (- x) ltac:(lra)).
    pose proof (positive_to_double_nonneg y ltac:(lra)). lra.
  - by apply positive_to_double_mono.
Qed.

#[export] Instance to_double_proper : Proper (Qeq ==> Qeq) to_double.
Proof. intros x y E. apply Qle_antisym; apply to_double_mono; rewrite E; apply Qle_refl. Qed.

(** A number of 53 bits with an exponent of the range is a double, and rounding gives
    nothing else. *)
Lemma positive_double_exact m e :
  0 < m <= 2 ^ 53 → least_exponent <= e →
  (positive_to_double (inject_Z m * 2 ^ e) == inject_Z m * 2 ^ e)%Q.
Proof.
  intros Hm He. set (z := (inject_Z m * 2 ^ e)%Q). pose proof (pow2_pos e) as Hp.
  assert (0 < inject_Z m)%Q as Hm0 by (change 0%Q with (inject_Z 0); rewrite <- Zlt_Qlt; lia).
  assert (0 < z)%Q as Hz by (by apply Qmult_lt_0_compat).
  rewrite positive_to_double_eq. set (e' := exponent z). pose proof (pow2_pos e') as Hp'.
  assert (∃ k, z / 2 ^ e' == inject_Z k)%Q as [k Hk].
  { destruct (Z.le_gt_cases e' e) as [Hle|Hgt].
    - exists (m * 2 ^ (e - e')). rewrite inject_Z_mult, <- pow2_nonneg by lia. unfold z, Z.sub.
      rewrite pow2_plus, Qpower_opp. field. lra.
    - pose proof (floor_log2_spec z Hz) as [Hl _].
      assert (floor_log2 z = e' + 52) as Hf by (unfold e', exponent in *; lia).
      assert (2 ^ 53 * 2 ^ e <= z)%Q as H1.
      { rewrite <- pow2_plus. eapply Qle_trans; [|exact Hl]. apply pow2_le. lia. }
      assert (z <= 2 ^ 53 * 2 ^ e)%Q as H2.
      { unfold z. apply Qmult_le_compat_r; [|lra]. change (2 ^ 53)%Q with (inject_Z (2 ^ 53)).
        rewrite <- Zle_Qle. lia. }
      assert (2 ^ floor_log2 z < 2 ^ (53 + e + 1))%Q as H3%pow2_lt_inv.
      { eapply Qle_lt_trans; [exact Hl|]. eapply Qle_lt_trans; [exact H2|]. rewrite <- pow2_plus.
        rewrite (pow2_plus (53 + e) 1). change (2 ^ 1)%Q with 2%Q. pose proof (pow2_pos (53 + e)). lra. }
      assert (e' = e + 1) as -> by lia. exists (2 ^ 52).
      assert (z == 2 ^ 53 * 2 ^ e)%Q as -> by lra. rewrite pow2_plus.
      change (2 ^ 53)%Q with (inject_Z (2 ^ 52) * 2)%Q. change (2 ^ 1)%Q with 2%Q. field. lra. }
  rewrite Hk, round_half_even_Z, <- Hk. field. lra.
Qed.

Definition is_double (x : Q) : Prop := (to_double x == x)%Q.

Lemma to_double_opp x : (to_double (- x) == - to_double x)%Q.
Proof.
  unfold to_double. destruct (Qcompare_spec (- x) 0), (Qcompare_spec x 0); try lra.
  assert (positive_to_double (- - x) == positive_to_double x)%Q as ->; [|done].
  apply Qle_antisym; apply positive_to_double_mono; lra.
Qed.

Lemma double_exact m e : 0 <= m <= 2 ^ 53 → least_exponent <= e → is_double (inject_Z m * 2 ^ e).
Proof.
  intros Hm He. unfold is_double. pose proof (pow2_pos e) as Hp.
  assert (m = 0 ∨ 0 < m) as [->|Hm0] by lia.
  - setoid_rewrite (Qmult_0_l (2 ^ e)). reflexivity.
  - unfold to_double. assert (0 < inject_Z m)%Q as H0 by (change 0%Q with (inject_Z 0); rewrite <- Zlt_Qlt; lia).
    assert (0 < inject_Z m * 2 ^ e)%Q by (by apply Qmult_lt_0_compat).
    destruct (Qcompare_spec (inject_Z m * 2 ^ e) 0); [lra..|]. apply positive_double_exact; [lia|done].
Qed.

(** Every result of the arithmetic is a double. *)
Lemma to_double_idemp x : is_double (to_double x).
Proof.
  assert (∀ y, (0 < y)%Q → is_double (positive_to_double y)) as Hpos.
  { intros y Hy. unfold is_double. rewrite positive_to_double_eq.
    pose proof (pow2_pos (exponent y)) as Hp. apply double_exact; [|unfold exponent; lia]. split.
    - apply round_half_even_ge. apply Qle_shift_div_l; [done|]. change (inject_Z 0) with 0%Q. lra.
    - apply round_half_even_le. apply Qle_shift_div_r; [done|]. change (inject_Z (2 ^ 53)) with (2 ^ 53)%Q.
      rewrite <- pow2_plus. pose proof (floor_log2_spec y Hy) as [_ H].
      apply Qlt_le_weak. eapply Qlt_le_trans; [exact H|]. apply pow2_le. unfold exponent. lia. }
  unfold to_double at 1. destruct (Qcompare_spec x 0) as [E|E|E]; [done| |by apply Hpos].
  pose proof (Hpos (- x)%Q ltac:(lra)) as H. unfold is_double in *. by rewrite to_double_opp, H.
Qed.

(** The integers of 53 bits are doubles. *)
Lemma to_double_Z n : 0 <= n <= 2 ^ 53 → (to_double (inject_Z n) == inject_Z n)%Q.
Proof.
  intros Hn. pose proof (double_exact n 0 Hn ltac:(unfold least_exponent; lia)) as H.
  unfold is_double in H. change (2 ^ 0)%Q with 1%Q in H. by rewrite Qmult_1_r in H.
Qed.

Lemma to_double_nonneg x : (0 <= x)%Q → (0 <= to_double x)%Q.
Proof. intros H%to_double_mono. by rewrite (to_double_Z 0) in H. Qed.

(** Products and [round(x, 2)] keep the order too. *)
Lemma fmul_mono x y c : (0 <= c)%Q → (x <= y)%Q → (fmul x c <= fmul y c)%Q.
Proof. intros Hc Hxy. by apply to_double_mono, Qmult_le_compat_r. Qed.

Lemma round2_mono x y : (x <= y)%Q → (round2 x <= round2 y)%Q.
Proof.
  intros Hxy. apply to_double_mono. unfold Qdiv. apply Qmult_le_compat_r; [|done].
  rewrite <- Zle_Qle. apply round_half_even_mono. lra.
Qed.

Example tenth : to_double (1 # 10) = (3602879701896397 # 36028797018963968)%Q.
Proof. reflexivity. Qed.
Example rounded : Qred (round2 (to_double (2675 # 1000))) = to_double (267 # 100).
Proof. reflexivity. Qed.
