(* ===== verification/LoadTest.v ===== *)
(** * The load baseline

    [perf/thresholds.py] and [perf/load_baseline.py]: the profiles, the summary of
    the measured latencies and the gate on it.  What a request answers, the clock and
    the texts of the files are arguments, as is the text of a float. *)

From Stdlib Require Import ZArith QArith Qround Ascii String Lia Lqa.
From stdpp Require Import base tactics option list strings sorting.
From S2P Require Import Prelude PyText Json Errors Logging Floats.
Local Open Scope string_scope.
Local Open Scope list_scope.
Local Open Scope Z_scope.

(** ** Numbers of the thresholds *)

(** A bound: of the command line, or a value of the profiles' JSON; [None]. *)
Inductive scalar := NoBound | Float (q : Q) | Other (v : json).

(** [float(literal)] of a JSON number with a fraction or an exponent. *)
Definition exponent_value (l : list ascii) : Z :=
  match l with
  | _ :: l' => match l' with
               | "-"%char :: d => - digits_val d
               | "+"%char :: d => digits_val d
               | _ => digits_val l'
               end
  | [] => 0
  end.
Definition float_of_literal (literal : string) : Q :=
  let '(neg, l) := take_sign (chars literal) in
  let '(ip, l) := take_digits l in
  let '(fraction, ex) := take_frac l in
  let digits := ip ++ tail fraction in
  let v := (inject_Z (digits_val digits) * 10 ^ (exponent_value ex - Z.of_nat (length (tail fraction))))%Q in
  to_double (if (neg : bool) then - v else v).

Definition scalar_of_json (v : option json) : scalar :=
  match v with
  | None | Some JNull => NoBound
  | Some (JFloat l) => Float (float_of_literal l)
  | Some v => Other v
  end.

(** What [<] and [>] compare: integers and booleans are exact. *)
Definition as_number (x : scalar) : result exn Q :=
  match x with
  | Float q => Ok q
  | Other (JInt n) => Ok (inject_Z n)
  | Other (JBool b) => Ok (if b then 1 else 0)%Q
  | _ => Err (TypeError "not supported between instances")
  end.

(** ** [thresholds.py] *)

Record LoadThresholds := { max_p95_ms : scalar; max_p99_ms : scalar; min_throughput_rps : scalar }.
Record LoadProfileRequest := { lp_path : json; lp_method : json; lp_headers : json; lp_json_body : json }.
Record LoadProfile := { lp_request : LoadProfileRequest; lp_thresholds : LoadThresholds }.

Definition no_thresholds : LoadThresholds :=
  {| max_p95_ms := NoBound; max_p99_ms := NoBound; min_throughput_rps := NoBound |}.
Definition get_request (path : string) : LoadProfileRequest :=
  {| lp_path := JStr path; lp_method := JStr "GET"; lp_headers := JObj []; lp_json_body := JNull |}.

Definition PROFILE_PATHS : list (string * json) :=
  [("health", JStr "/health"); ("health-ready", JStr "/health/ready");
   ("auth-login", JStr "/api/v1/auth/login")].

Definition DEFAULT_PROFILES : list (string * LoadProfile) :=
  [("health", {| lp_request := get_request "/health";
                 lp_thresholds := {| max_p95_ms := Float 500; max_p99_ms := NoBound;
                                     min_throughput_rps := Float 10 |} |});
   ("health-ready", {| lp_request := get_request "/health/ready";
                       lp_thresholds := {| max_p95_ms := Float 2000; max_p99_ms := NoBound;
                                           min_throughput_rps := Float 5 |} |})].

(** [d.get(key, default)] *)
Definition get_or (key : string) (default : json) (values : list (string * json)) : json :=
  opt_default default (dict_get key values).

Definition _build_profile_request (profile_name : string) (values : list (string * json)) :
    LoadProfileRequest :=
  {| lp_path := get_or "path" (get_or profile_name (JStr "/health") PROFILE_PATHS) values;
     lp_method := get_or "method" (JStr "GET") values;
     lp_headers := get_or "headers" (JObj []) values;
     lp_json_body := get_or "json_body" JNull values |}.

Definition _build_profile_thresholds (values : list (string * json)) : LoadThresholds :=
  {| max_p95_ms := scalar_of_json (dict_get "max_p95_ms" values);
     max_p99_ms := scalar_of_json (dict_get "max_p99_ms" values);
     min_throughput_rps := scalar_of_json (dict_get "min_throughput_rps" values) |}.

(** [d[key] = value] on profiles. *)
Fixpoint profile_set (key : string) (p : LoadProfile) (d : list (string * LoadProfile)) :
    list (string * LoadProfile) :=
  match d with
  | [] => [(key, p)]
  | (k, q) :: d' => if String.eqb key k then (k, p) :: d' else (k, q) :: profile_set key p d'
  end.
Fixpoint profile_get (key : string) (d : list (string * LoadProfile)) : option LoadProfile :=
  match d with
  | [] => None
  | (k, q) :: d' => if String.eqb key k then Some q else profile_get key d'
  end.

Definition build_profile (profile_name : string) (values : json) : result exn LoadProfile :=
  match values with
  | JObj kvs => Ok {| lp_request := _build_profile_request profile_name kvs;
                      lp_thresholds := _build_profile_thresholds kvs |}
  | _ => Err (AttributeError "get")
  end.
Fixpoint build_profiles (items : list (string * json)) (profiles : list (string * LoadProfile)) :
    result exn (list (string * LoadProfile)) :=
  match items with
  | [] => Ok profiles
  | (profile_name, values) :: items' =>
      match build_profile profile_name values with
      | Ok p => build_profiles items' (profile_set profile_name p profiles)
      | Err e => Err e
      end
  end.

(** [load_profiles_file]: the text of the file, or the error of reading it. *)
Definition load_profiles_file (content : result exn string) : result exn (list (string * LoadProfile)) :=
  match content with
  | Err e => Err e
  | Ok t =>
      match loads t with
      | None => Err JSONDecodeError
      | Some (JObj items) => build_profiles items []
      | Some _ => Err (AttributeError "items")
      end
  end.

(** [dict.update] *)
Definition profiles_update (profiles more : list (string * LoadProfile)) : list (string * LoadProfile) :=
  fold_left (λ d '(k, p), profile_set k p d) more profiles.

Definition str_le (a b : string) : Prop := String.leb a b = true.
#[export] Instance str_le_dec a b : Decision (str_le a b).
Proof. unfold str_le. apply _. Defined.

Definition resolve_profile (profile_name : string) (profiles_file : option (result exn string)) :
    result exn LoadProfile :=
  match (match profiles_file with
         | None => Ok DEFAULT_PROFILES
         | Some content =>
             match load_profiles_file content with
             | Ok more => Ok (profiles_update DEFAULT_PROFILES more)
             | Err e => Err e
             end
         end) with
  | Err e => Err e
  | Ok profiles =>
      match profile_get profile_name profiles with
      | Some p => Ok p
      | None => Err (ValueError (String.concat ""
          ["Unknown profile '"; profile_name; "'. Available: ";
           String.concat ", " (merge_sort str_le profiles.*1)]))
      end
  end.

(** [x if x is not None else y] *)
Definition bound_or (x y : scalar) : scalar := match x with NoBound => y | _ => x end.
Definition merge_thresholds (base : LoadThresholds) (p95 p99 throughput : scalar) : LoadThresholds :=
  {| max_p95_ms := bound_or p95 (max_p95_ms base); max_p99_ms := bound_or p99 (max_p99_ms base);
     min_throughput_rps := bound_or throughput (min_throughput_rps base) |}.

(** ** [load_baseline.py]: the summary *)

Definition Qle_total (x y : Q) : Prop := Qle_bool x y = true.
#[export] Instance Qle_total_dec x y : Decision (Qle_total x y).
Proof. unfold Qle_total. apply _. Defined.

(** The index of [percentile] in a list of [n]. *)
Definition percentile_index (pct : Z) (n : nat) : Z :=
  round_half_even (fmul (fdiv (inject_Z pct) 100) (float_of_int (Z.of_nat n - 1))).

(** [None] stands for an index out of range. *)
Definition percentile (values : list Q) (pct : Z) : option Q :=
  match values with
  | [] => Some 0%Q
  | _ => let sorted_values := merge_sort Qle_total values in
         sorted_values !! Z.to_nat (percentile_index pct (length sorted_values))
  end.

(** [min] and [max] of a list that is not empty, the first of equal ones. *)
Definition minimum (x : Q) (l : list Q) : Q := fold_left (λ m y, if flt y m then y else m) l x.
Definition maximum (x : Q) (l : list Q) : Q := fold_left (λ m y, if flt m y then y else m) l x.

(** [statistics.mean]: the exact mean, rounded once. *)
Definition qsum (l : list Q) : Q := fold_right Qplus 0%Q l.
Definition mean (l : list Q) : Q := to_double (qsum l / inject_Z (Z.of_nat (length l))).

Definition milliseconds (x : Q) : Q := round2 (fmul x 1000).

Record load_summary := {
  target : string;
  count : Z;
  total_seconds : Q;
  throughput_rps : Q;
  min_ms : Q;
  max_ms : Q;
  mean_ms : Q;
  p50_ms : Q;
  p95_ms : Q;
  p99_ms : Q;
}.

Definition summarize (latencies : list Q) (elapsed_seconds : Q) (target : string) :
    result exn (option load_summary) :=
  match latencies with
  | [] => Err (ValueError "min() iterable argument is empty")
  | x :: l =>
      Ok (p50 ← percentile latencies 50;
          p95 ← percentile latencies 95;
          p99 ← percentile latencies 99;
          Some {| target := target;
                  count := Z.of_nat (length latencies);
                  total_seconds := round2 elapsed_seconds;
                  throughput_rps :=
                    if Qeq_bool elapsed_seconds 0 then 0
                    else round2 (fdiv (inject_Z (Z.of_nat (length latencies))) elapsed_seconds);
                  min_ms := milliseconds (minimum x l);
                  max_ms := milliseconds (maximum x l);
                  mean_ms := milliseconds (mean latencies);
                  p50_ms := milliseconds p50;
                  p95_ms := milliseconds p95;
                  p99_ms := milliseconds p99 |})
  end.

(** ** The gate *)

Section gate.
Context (show : scalar → string) (py_str : json → string).

Definition exceeded (name relation : string) (value : Q) (bound : scalar) : string :=
  String.concat "" [name; " "; show (Float value); " "; relation; " "; show bound].

(** One bound: [beyond] compares the value of the summary with it. *)
Definition check_bound (name relation : string) (beyond : Q → Q → bool) (value : Q) (bound : scalar) :
    result exn (list string) :=
  match bound with
  | NoBound => Ok []
  | _ => match as_number bound with
         | Err e => Err e
         | Ok b => Ok (if beyond value b then [exceeded name relation value bound] else [])
         end
  end.

Definition evaluate_thresholds (s : load_summary) (t : LoadThresholds) : result exn (list string) :=
  match check_bound "p95_ms" "exceeds max" (λ v b, flt b v) (p95_ms s) (max_p95_ms t) with
  | Err e => Err e
  | Ok v95 =>
      match check_bound "p99_ms" "exceeds max" (λ v b, flt b v) (p99_ms s) (max_p99_ms t) with
      | Err e => Err e
      | Ok v99 =>
          match check_bound "throughput_rps" "below min" flt (throughput_rps s) (min_throughput_rps t) with
          | Err e => Err e
          | Ok vt => Ok (v95 ++ v99 ++ vt)
          end
      end
  end.

Record result_payload := {
  r_summary : load_summary;
  r_thresholds : option LoadThresholds;
  r_violations : list string;
  r_passed : bool;
}.

Definition build_result_payload (s : load_summary) (thresholds : option LoadThresholds) :
    result exn result_payload :=
  match thresholds with
  | None => Ok {| r_summary := s; r_thresholds := None; r_violations := []; r_passed := true |}
  | Some t =>
      match evaluate_thresholds s t with
      | Err e => Err e
      | Ok violations => Ok {| r_summary := s; r_thresholds := Some t; r_violations := violations;
                               r_passed := match violations with [] => true | _ => false end |}
      end
  end.

(** ** The requests *)

(** [apply_login_env_overrides], with [os.getenv]; [dict(...)] of a list of pairs is not
    told apart from the values it refuses. *)
Definition apply_login_env_overrides (getenv : string → option string) (json_body : json) :
    result exn json :=
  match json_body with
  | JNull => Ok JNull
  | _ =>
      match getenv "LOAD_LOGIN_EMAIL", getenv "LOAD_LOGIN_PASSWORD" with
      | None, None => Ok json_body
      | email, password =>
          match json_body with
          | JObj _ | JList [] | JStr "" =>
              let kvs := match json_body with JObj kvs => kvs | _ => [] end in
              let updated := match email with Some t => dict_set "email" (JStr t) kvs | None => kvs end in
              Ok (JObj (match password with Some t => dict_set "password" (JStr t) updated | None => updated end))
          | _ => Err (TypeError "dict()")
          end
      end
  end.

Definition prepare_profile_request (getenv : string → option string) (p : LoadProfile) :
    result exn LoadProfileRequest :=
  let request := lp_request p in
  match lp_json_body request with
  | JNull => Ok request
  | body =>
      match apply_login_env_overrides getenv body with
      | Err e => Err e
      | Ok b => Ok {| lp_path := lp_path request; lp_method := lp_method request;
                      lp_headers := lp_headers request; lp_json_body := b |}
      end
  end.

(** [base_url.rstrip("/")] *)
Fixpoint drop_trailing_slashes (l : list ascii) : list ascii :=
  match l with c :: l' => if Ascii.eqb c "/" then drop_trailing_slashes l' else l | [] => [] end.
Definition rstrip_slash (t : string) : string := text (rev (drop_trailing_slashes (rev (chars t)))).

(** What httpx is asked for: a falsy [headers] is left out. *)
Record sent_request := {
  sr_method : json; sr_url : string; sr_headers : option json; sr_json : json }.
Definition request_of (url : string) (r : LoadProfileRequest) : sent_request :=
  {| sr_method := lp_method r; sr_url := url;
     sr_headers := if json_truthy (lp_headers r) then Some (lp_headers r) else None;
     sr_json := lp_json_body r |}.

(** [run_request], between two readings of the clock. *)
Definition run_request {Response} (send : sent_request → result exn Response)
    (raise_for_status : Response → result exn unit) (url : string) (request : LoadProfileRequest)
    (start finish : Q) : result exn Q :=
  match send (request_of url request) with
  | Err e => Err e
  | Ok response => match raise_for_status response with Err e => Err e | Ok _ => Ok (fsub finish start) end
  end.

(** The results of the futures in the order they are completed; the first error is raised. *)
Fixpoint completed (futures : list (result exn Q)) : result exn (list Q) :=
  match futures with
  | [] => Ok []
  | Err e :: _ => Err e
  | Ok x :: futures' => match completed futures' with Ok l => Ok (x :: l) | Err e => Err e end
  end.
Definition collect_latencies (outcome : nat → result exn Q) (requests concurrency : Z) :
    result exn (list Q) :=
  if concurrency <=? 0 then Err (ValueError "max_workers must be greater than 0")
  else completed (map outcome (seq 0 (Z.to_nat requests))).

(** ** [main] *)

Record load_arguments := {
  a_base_url : string;
  a_path : string;
  a_profile : option string;
  a_profiles_file : string;
  a_requests : Z;
  a_concurrency : Z;
  a_max_p95_ms : scalar;
  a_max_p99_ms : scalar;
  a_min_throughput_rps : scalar;
  a_check_thresholds : bool;
}.

(** The defaults of the parser. *)
Definition default_arguments (getenv : string → option string) : load_arguments :=
  {| a_base_url := opt_default "http://api:8000" (getenv "API_BASE_URL");
     a_path := "/health";
     a_profile := getenv "LOAD_PROFILE";
     a_profiles_file := opt_default "perf/profiles.json" (getenv "LOAD_PROFILES_FILE");
     a_requests := 50; a_concurrency := 5;
     a_max_p95_ms := NoBound; a_max_p99_ms := NoBound; a_min_throughput_rps := NoBound;
     a_check_thresholds :=
       bool_decide (lower (opt_default "" (getenv "LOAD_CHECK_THRESHOLDS")) ∈ ["1"; "true"; "yes"]) |}.

Definition is_bound (x : scalar) : bool := match x with NoBound => false | _ => true end.

(** The request and the thresholds of a run. *)
Definition plan (getenv : string → option string) (read_text : string → result exn string) (a : load_arguments) :
    result exn (LoadProfileRequest * option LoadThresholds) :=
  if truthy (opt_default "" (a_profile a)) then
    match resolve_profile (opt_default "" (a_profile a)) (Some (read_text (a_profiles_file a))) with
    | Err e => Err e
    | Ok profile =>
        match prepare_profile_request getenv profile with
        | Err e => Err e
        | Ok request =>
            Ok (request, Some (merge_thresholds (lp_thresholds profile) (a_max_p95_ms a) (a_max_p99_ms a)
                                 (a_min_throughput_rps a)))
        end
    end
  else
    Ok (get_request (a_path a),
        if existsb is_bound [a_max_p95_ms a; a_max_p99_ms a; a_min_throughput_rps a]
        then Some {| max_p95_ms := a_max_p95_ms a; max_p99_ms := a_max_p99_ms a;
                     min_throughput_rps := a_min_throughput_rps a |}
        else None).

(** What is printed and the exit code; [None] inside when an index is out of range. *)
Definition main (getenv : string → option string) (read_text : string → result exn string)
    (outcome : string → LoadProfileRequest → nat → result exn Q) (elapsed : Q) (a : load_arguments) :
    result exn (option (option result_payload * Z)) :=
  match plan getenv read_text a with
  | Err e => Err e
  | Ok (request, thresholds) =>
      if a_check_thresholds a && match thresholds with None => true | Some _ => false end then Ok (Some (None, 2))
      else
        let url := (rstrip_slash (a_base_url a) ++ text_of py_str (lp_path request))%string in
        match collect_latencies (outcome url request) (a_requests a) (a_concurrency a) with
        | Err e => Err e
        | Ok latencies =>
            match summarize latencies elapsed url with
            | Err e => Err e
            | Ok None => Ok None
            | Ok (Some s) =>
                match build_result_payload s (if a_check_thresholds a then thresholds else None) with
                | Err e => Err e
                | Ok payload =>
                    Ok (Some (Some payload, if a_check_thresholds a && negb (r_passed payload) then 1 else 0))
                end
            end
        end
  end.
End gate.

(** ** Percentiles *)

(** Lengths that a double counts exactly. *)
Definition countable_length (n : nat) : Prop := (1 <= n)%nat ∧ Z.of_nat n <= 2 ^ 53.

Lemma fdiv_100 pct : 0 <= pct <= 100 → (0 <= fdiv (inject_Z pct) 100 /\ fdiv (inject_Z pct) 100 <= 1)%Q.
Proof.
  intros Hpct. unfold fdiv. assert (0 <= inject_Z pct /\ inject_Z pct <= 100)%Q as [H0 H1].
  { change 0%Q with (inject_Z 0). change 100%Q with (inject_Z 100). rewrite <- !Zle_Qle. lia. }
  split.
  - apply to_double_nonneg. apply Qle_shift_div_l; [done|lra].
  - change 1%Q with (inject_Z 1). rewrite <- (to_double_Z 1) by lia. apply to_double_mono.
    apply Qle_shift_div_r; [done|]. change (inject_Z 1) with 1%Q. lra.
Qed.

Lemma float_of_length n : countable_length n →
  (float_of_int (Z.of_nat n - 1) == inject_Z (Z.of_nat n - 1) /\ 0 <= inject_Z (Z.of_nat n - 1))%Q.
Proof.
  intros [Hn1 Hn2]. split; [apply to_double_Z; lia|].
  change 0%Q with (inject_Z 0). rewrite <- Zle_Qle. lia.
Qed.

Lemma percentile_index_bounds pct n : 0 <= pct <= 100 → countable_length n →
  0 <= percentile_index pct n <= Z.of_nat n - 1.
Proof.
  intros Hpct Hn. unfold percentile_index. pose proof (fdiv_100 pct Hpct) as [H0 H1].
  pose proof (float_of_length n Hn) as [Hf Hpos]. destruct Hn as [Hn1 Hn2].
  set (f := float_of_int _) in *. clearbody f. split.
  - apply round_half_even_ge, to_double_nonneg. rewrite Hf. by apply Qmult_le_0_compat.
  - apply round_half_even_le. rewrite <- (to_double_Z (Z.of_nat n - 1)) by lia. apply to_double_mono.
    rewrite Hf. eapply Qle_trans; [by apply Qmult_le_compat_r|]. rewrite Qmult_1_l. apply Qle_refl.
Qed.

Lemma percentile_index_mono pct pct' n : countable_length n → pct <= pct' →
  percentile_index pct n <= percentile_index pct' n.
Proof.
  intros Hn Hp. apply round_half_even_mono, fmul_mono.
  - pose proof (float_of_length n Hn) as [-> ?]. done.
  - apply to_double_mono. unfold Qdiv. apply Qmult_le_compat_r; [|done]. by rewrite <- Zle_Qle.
Qed.

#[export] Instance Qle_total_total : Total Qle_total.
Proof. intros x y. unfold Qle_total. rewrite !Qle_bool_iff. destruct (Qlt_le_dec x y); [left; lra|by right]. Qed.
#[export] Instance Qle_total_trans : Transitive Qle_total.
Proof. intros x y z. unfold Qle_total. rewrite !Qle_bool_iff. apply Qle_trans. Qed.

Lemma sorted_lookup (l : list Q) i j x y : StronglySorted Qle_total l → (i <= j)%nat →
  l !! i = Some x → l !! j = Some y → (x <= y)%Q.
Proof.
  intros Hs. revert i j. induction Hs as [|z l Hs IH Hz]; intros i j Hij Hi Hj; [done|].
  destruct i as [|i], j as [|j]; cbn in *.
  - injection Hi as ->. injection Hj as ->. apply Qle_refl.
  - injection Hi as ->. rewrite Forall_forall in Hz.
    apply list_elem_of_lookup_2 in Hj. apply Hz in Hj. by apply Qle_bool_iff.
  - lia.
  - by apply (IH i j); [lia|..].
Qed.

Lemma sorted_values l : StronglySorted Qle_total (merge_sort Qle_total l).
Proof. apply Sorted_StronglySorted; [apply _|]. apply Sorted_merge_sort. apply _. Qed.
Lemma sorted_length l : length (merge_sort Qle_total l) = length l.
Proof. apply Permutation_length, merge_sort_Permutation. Qed.

(** A percentile of a list that is not empty is one of its members. *)
Lemma percentile_member l pct : 0 <= pct <= 100 → countable_length (length l) →
  ∃ x, percentile l pct = Some x ∧ x ∈ l ∧
    merge_sort Qle_total l !! Z.to_nat (percentile_index pct (length l)) = Some x.
Proof.
  intros Hp Hn. destruct l as [|y l]; [destruct Hn; cbn in *; lia|].
  cbn [percentile]. rewrite sorted_length. set (i := percentile_index pct _).
  pose proof (percentile_index_bounds pct _ Hp Hn : 0 <= i <= _) as Hi.
  destruct (lookup_lt_is_Some_2 (merge_sort Qle_total (y :: l)) (Z.to_nat i)) as [x Hx].
  { rewrite sorted_length. lia. }
  exists x. split_and!; [done| |done].
  rewrite <- (merge_sort_Permutation Qle_total (y :: l)). by apply list_elem_of_lookup_2 in Hx.
Qed.

Lemma percentile_mono l pct pct' x y : 0 <= pct <= pct' → pct' <= 100 → countable_length (length l) →
  percentile l pct = Some x → percentile l pct' = Some y → (x <= y)%Q.
Proof.
  intros Hp Hp' Hn Hx Hy. destruct (percentile_member l pct) as (x' & Hx' & _ & Hl); [lia|done|].
  destruct (percentile_member l pct') as (y' & Hy' & _ & Hl'); [lia|done|].
  rewrite Hx' in Hx. rewrite Hy' in Hy. injection Hx as ->. injection Hy as ->.
  eapply (sorted_lookup _ _ _ _ _ (sorted_values l)); [|done..].
  pose proof (percentile_index_mono pct pct' (length l) Hn ltac:(lia)). lia.
Qed.

Lemma minimum_le x l : (minimum x l <= x)%Q ∧ Forall (λ y, minimum x l <= y)%Q l.
Proof.
  revert x. unfold minimum. induction l as [|z l IH]; intros x; cbn [fold_left]; [by split; [apply Qle_refl|]|].
  unfold flt at 2 4. destruct (Qle_bool x z) eqn:E; cbn [negb].
  - apply Qle_bool_iff in E. destruct (IH x) as [H1 H2]. split; [done|]. constructor; [|done].
    by eapply Qle_trans.
  - assert (z <= x)%Q as Hz.
    { destruct (Qlt_le_dec x z) as [H|H]; [|done]. apply Qlt_le_weak, Qle_bool_iff in H. congruence. }
    destruct (IH z) as [H1 H2]. split; [by eapply Qle_trans|by constructor].
Qed.

Lemma maximum_ge x l : (x <= maximum x l)%Q ∧ Forall (λ y, y <= maximum x l)%Q l.
Proof.
  revert x. unfold maximum. induction l as [|z l IH]; intros x; cbn [fold_left]; [by split; [apply Qle_refl|]|].
  unfold flt at 2 4. destruct (Qle_bool z x) eqn:E; cbn [negb].
  - apply Qle_bool_iff in E. destruct (IH x) as [H1 H2]. split; [done|]. constructor; [|done].
    by eapply Qle_trans.
  - assert (x <= z)%Q as Hz.
    { destruct (Qlt_le_dec z x) as [H|H]; [|done]. apply Qlt_le_weak, Qle_bool_iff in H. congruence. }
    destruct (IH z) as [H1 H2]. split; [by eapply Qle_trans|by constructor].
Qed.

Lemma fold_member (f : Q → Q → bool) x l : fold_left (λ m y, if f m y then y else m) l x ∈ x :: l.
Proof.
  revert x. induction l as [|z l IH]; intros x; cbn [fold_left]; [by left|].
  destruct (f x z); [by right|]. specialize (IH x). apply elem_of_cons in IH as [->|]; [by left|by do 2 right].
Qed.

(** The exact mean lies between two bounds of the members. *)
Lemma mean_between (l : list Q) a b : l ≠ [] →
  Forall (λ x, a <= x)%Q l → Forall (λ x, x <= b)%Q l → is_double a → is_double b →
  (a <= mean l /\ mean l <= b)%Q.
Proof.
  intros Hl Ha Hb Da Db. unfold mean.
  assert (0 < inject_Z (Z.of_nat (length l)))%Q as Hn.
  { change 0%Q with (inject_Z 0). rewrite <- Zlt_Qlt. destruct l; [done|cbn; lia]. }
  assert (a * inject_Z (Z.of_nat (length l)) <= qsum l /\ qsum l <= b * inject_Z (Z.of_nat (length l)))%Q as [H1 H2].
  { clear Hl Hn Da Db. unfold qsum. induction l as [|x l IH]; cbn [length fold_right].
    - change (inject_Z (Z.of_nat 0)) with 0%Q. lra.
    - apply Forall_cons in Ha as [Hx Ha], Hb as [Hx' Hb]. destruct (IH Ha Hb) as [H1 H2].
      rewrite Nat2Z.inj_succ. unfold Z.succ. rewrite inject_Z_succ. lra. }
  unfold is_double in Da, Db. rewrite <- Da, <- Db. split; apply to_double_mono.
  - by apply Qle_shift_div_l.
  - by apply Qle_shift_div_r.
Qed.

(** ** What the tool promises *)

(** C40: the summary of the load baseline says what was measured.  With at least one
    measurement it is made, and it is ordered as the names of its parts say: the least, the median, the two upper percentiles and the greatest, each a
    measured latency, and the mean between the least and the greatest. *)
Theorem summary_ordered (latencies : list Q) (elapsed : Q) (url : string) :
  countable_length (length latencies) → Forall is_double latencies →
  ∃ s, summarize latencies elapsed url = Ok (Some s) ∧ count s = Z.of_nat (length latencies) ∧
    (min_ms s <= p50_ms s /\ p50_ms s <= p95_ms s /\ p95_ms s <= p99_ms s /\ p99_ms s <= max_ms s)%Q ∧
    (min_ms s <= mean_ms s /\ mean_ms s <= max_ms s)%Q ∧
    Forall (λ v, v ∈ map milliseconds latencies) [min_ms s; p50_ms s; p95_ms s; p99_ms s; max_ms s].
Proof.
  intros Hn Hd. destruct latencies as [|x l]; [destruct Hn; cbn in *; lia|].
  set (all := x :: l) in *.
  destruct (percentile_member all 50) as (p50 & E50 & M50 & _); [lia|done|].
  destruct (percentile_member all 95) as (p95 & E95 & M95 & _); [lia|done|].
  destruct (percentile_member all 99) as (p99 & E99 & M99 & _); [lia|done|].
  assert ((p50 <= p95 /\ p95 <= p99)%Q) as [O1 O2].
  { split; [apply (percentile_mono all 50 95)|apply (percentile_mono all 95 99)]; first [lia|done]. }
  assert (Forall (λ y, minimum x l <= y)%Q all) as Hmin.
  { destruct (minimum_le x l). by constructor. }
  assert (Forall (λ y, y <= maximum x l)%Q all) as Hmax.
  { destruct (maximum_ge x l). by constructor. }
  pose proof (fold_member (λ m y, flt y m) x l : minimum x l ∈ all) as Mmin.
  pose proof (fold_member flt x l : maximum x l ∈ all) as Mmax.
  rewrite Forall_forall in Hd.
  destruct (mean_between all (minimum x l) (maximum x l)) as [A1 A2]; [done|done|done|by apply Hd|by apply Hd|].
  rewrite Forall_forall in Hmin, Hmax.
  assert (∀ a b, (a <= b)%Q → (milliseconds a <= milliseconds b)%Q) as Hms.
  { intros a b Hab. by apply round2_mono, fmul_mono. }
  eexists. split; [|split].
  - unfold summarize. fold all. rewrite E50, E95, E99. reflexivity.
  - reflexivity.
  - cbn [min_ms max_ms mean_ms p50_ms p95_ms p99_ms]. split_and!; auto.
    rewrite !Forall_cons. split_and!; try (by apply list_elem_of_fmap_2); by constructor.
Qed.

Definition measured : list Q := map to_double [12 # 1000; 2 # 10; 5 # 100; 3 # 1000].
Lemma summary_ordered_witness :
  let all := measured in
  ∃ s, summarize all (1 # 2) "http://api:8000/health" = Ok (Some s) ∧ count s = Z.of_nat (length all) ∧
    (min_ms s <= p50_ms s /\ p50_ms s <= p95_ms s /\ p95_ms s <= p99_ms s /\ p99_ms s <= max_ms s)%Q ∧
    (min_ms s <= mean_ms s /\ mean_ms s <= max_ms s)%Q ∧
    Forall (λ v, v ∈ map milliseconds all) [min_ms s; p50_ms s; p95_ms s; p99_ms s; max_ms s].
Proof.
  intros all. apply (summary_ordered all (1 # 2) "http://api:8000/health").
  - split; cbn; lia.
  - repeat (constructor; [apply to_double_idemp|]). constructor.
Defined.

(** Every latency that was measured is a double. *)
Lemma measured_double {Response} (send : sent_request → result exn Response) raise url request start finish x :
  run_request send raise url request start finish = Ok x → is_double x.
Proof.
  unfold run_request. destruct (send _); [|done]. destruct (raise _); [|done]. intros [= <-].
  apply to_double_idemp.
Qed.

(** The bound is respected; there is none, or it is a number. *)
Definition respected (ok : Q → Q → Prop) (value : Q) (bound : scalar) : Prop :=
  match bound with
  | NoBound => True
  | _ => ∃ b, as_number bound = Ok b ∧ ok value b
  end.
Definition within (s : load_summary) (t : LoadThresholds) : Prop :=
  respected Qle (p95_ms s) (max_p95_ms t) ∧ respected Qle (p99_ms s) (max_p99_ms t) ∧
  respected (λ v b, b <= v)%Q (throughput_rps s) (min_throughput_rps t).

Lemma flt_false x y : flt x y = false ↔ (y <= x)%Q.
Proof. unfold flt. rewrite negb_false_iff. apply Qle_bool_iff. Qed.

Lemma check_bound_nil show name relation beyond ok value bound :
  (∀ v b, beyond v b = false ↔ ok v b) →
  check_bound show name relation beyond value bound = Ok [] ↔ respected ok value bound.
Proof.
  intros Hok. unfold check_bound, respected. destruct bound as [|q|v]; [done|..].
  - cbn [as_number]. split.
    + destruct (beyond value q) eqn:E; [done|]. intros _. exists q. by rewrite <- Hok.
    + intros (b & [= <-] & Hb). by rewrite (proj2 (Hok value q) Hb).
  - destruct (as_number (Other v)) as [q|e]; [|split; [done|by intros (? & ? & _)]]. split.
    + destruct (beyond value q) eqn:E; [done|]. intros _. exists q. by rewrite <- Hok.
    + intros (b & [= <-] & Hb). by rewrite (proj2 (Hok value q) Hb).
Qed.

(** There is no violation exactly when every threshold is respected. *)
Lemma thresholds_respected show s t : evaluate_thresholds show s t = Ok [] ↔ within s t.
Proof.
  unfold within, evaluate_thresholds.
  rewrite <- (check_bound_nil show "p95_ms" "exceeds max" (λ v b, flt b v) Qle) by (intros; apply flt_false).
  rewrite <- (check_bound_nil show "p99_ms" "exceeds max" (λ v b, flt b v) Qle) by (intros; apply flt_false).
  rewrite <- (check_bound_nil show "throughput_rps" "below min" flt (λ v b, b <= v)%Q) by (intros; apply flt_false).
  destruct (check_bound _ _ _ _ _ (max_p95_ms t)) as [v1|]; [|split; [done|by intros [? _]]].
  destruct (check_bound _ _ _ _ _ (max_p99_ms t)) as [v2|]; [|split; [done|by intros (_ & ? & _)]].
  destruct (check_bound _ _ _ _ _ (min_throughput_rps t)) as [v3|]; [|split; [done|by intros (_ & _ & ?)]].
  split.
  - intros [= [-> [-> ->]%app_nil]%app_nil]. done.
  - by intros ([= ->] & [= ->] & [= ->]).
Qed.

(** The exit code of a gated run: 0 when the thresholds hold of what was measured,
    1 when one does not, and 2 when there is none to check. *)
Lemma gate_exit_code show py_str getenv read_text outcome elapsed a r code :
  a_check_thresholds a = true →
  main show py_str getenv read_text outcome elapsed a = Ok (Some (r, code)) →
  match r with
  | None => code = 2
  | Some payload => ∃ t, r_thresholds payload = Some t ∧
      ((code = 0 ∧ within (r_summary payload) t) ∨ (code = 1 ∧ ¬ within (r_summary payload) t))
  end.
Proof.
  intros Hcheck. unfold main. destruct (plan _ _ a) as [[request thresholds]|]; [|done].
  rewrite Hcheck. cbn [andb]. destruct thresholds as [t|]; [|by intros [= <- <-]].
  destruct (collect_latencies _ _ _) as [latencies|]; [|done].
  destruct (summarize _ _ _) as [[s|]|]; [|done|done]. unfold build_result_payload.
  destruct (evaluate_thresholds show s t) as [violations|] eqn:E; [|done]. intros [= <- <-].
  exists t. split; [done|]. cbn [r_passed r_summary]. rewrite <- (thresholds_respected show), E.
  destruct violations; cbn; [by left|right]. split; [done|]. by intros [=].
Qed.
